(** * r2pickledec: the pickle machine and its pseudocode renderer

    A shallow embedding of [src/pickle_dec.c] (the interpreter) and
    [src/dump.c] (the pseudocode renderer), and the properties of them that
    the specification states.

    Modelling conventions.
    - The C heap is a pair of growing arrays, one of [PyObj] and one of
      [PyOper]; a pointer is an index, a nullable pointer an [option].
      Allocation (R_NEW0, r_list_newf, strdup, r_strbuf_new, r_list_push)
      never fails.
    - [free] sets a flag on the cell.  Reading or writing a released cell, and
      dereferencing NULL, is undefined behaviour in C: the model has no result
      there ([Undef]).
    - Recursion over the object graph ([py_obj_free], [add_splits],
      [dump_obj]) takes fuel; [OutOfFuel] is the answer of a call that the
      fuel did not let finish.
    - An [RList] that has one owner is the list of its data pointers,
      head first; NULL lists are [None]. *)

From stdpp Require Import base option list gmap strings pretty.
From Stdlib Require Import ZArith Lia Ascii HexadecimalString HexadecimalN.

Open Scope Z_scope.

(** ** Results of partial computations *)

Inductive res (A : Type) : Type :=
  | Ok (a : A)
  | OutOfFuel
  | Undef.
Arguments Ok {A} a.
Arguments OutOfFuel {A}.
Arguments Undef {A}.

#[global] Instance res_ret : MRet res := fun A a => Ok a.
#[global] Instance res_bind : MBind res := fun A B k m =>
  match m with
  | Ok a => k a
  | OutOfFuel => OutOfFuel
  | Undef => Undef
  end.

(** ** The object model (pyobjutil.h is not part of the sources; the types
    are read off their uses in pickle_dec.c and dump.c) *)

Inductive PyType :=
  | PY_WHAT | PY_NONE | PY_INT | PY_FLOAT | PY_STR | PY_FUNC | PY_TUPLE
  | PY_LIST | PY_BOOL | PY_DICT | PY_SET | PY_FROZEN_SET | PY_SPLIT
  | PY_NOT_RIGHT.

#[global] Instance PyType_eq_dec : EqDecision PyType.
Proof. solve_decision. Defined.

(** The opcode of a decoded instruction, and the tag of an operation record
    ([PyOp] shares its values with the opcode bytes); [OP_OTHER] is any byte
    that [exec_op] does not name. *)
Inductive PyOp :=
  | OP_FAKE_INIT
  | OP_PROTO | OP_FRAME | OP_STOP | OP_MARK | OP_POP | OP_POP_MARK | OP_NONE
  | OP_BININT | OP_BININT1 | OP_BININT2 | OP_LONG1 | OP_LONG4
  | OP_FLOAT | OP_BINFLOAT
  | OP_STRING | OP_UNICODE | OP_BINUNICODE8 | OP_BINBYTES8 | OP_BYTEARRAY8
  | OP_BINSTRING | OP_BINUNICODE | OP_BINBYTES | OP_SHORT_BINBYTES
  | OP_SHORT_BINSTRING | OP_SHORT_BINUNICODE
  | OP_OBJ | OP_INST | OP_GLOBAL | OP_STACK_GLOBAL
  | OP_NEWOBJ | OP_BUILD | OP_REDUCE
  | OP_TUPLE | OP_EMPTY_TUPLE | OP_TUPLE1 | OP_TUPLE2 | OP_TUPLE3
  | OP_EMPTY_LIST | OP_APPEND | OP_APPENDS | OP_LIST
  | OP_EMPTY_DICT | OP_SETITEM | OP_SETITEMS | OP_DICT
  | OP_NEWTRUE | OP_NEWFALSE
  | OP_FROZENSET | OP_EMPTY_SET | OP_ADDITEMS
  | OP_MEMOIZE | OP_LONG_BINPUT | OP_BINPUT | OP_LONG_BINGET | OP_BINGET
  | OP_DUP
  | OP_INT | OP_LONG | OP_PERSID | OP_BINPERSID | OP_GET | OP_PUT
  | OP_EXT1 | OP_EXT2 | OP_EXT4
  | OP_NEWOBJ_EX | OP_NEXT_BUFFER | OP_READONLY_BUFFER
  | OP_OTHER.

Definition is_reduce (o : PyOp) : bool :=
  match o with OP_REDUCE => true | _ => false end.

Abbreviation addr := nat.   (* PyObj *  *)
Abbreviation oaddr := nat.  (* PyOper * *)

(** A C double, by its bit pattern; the model never looks inside. *)
Definition double := Z.

Definition UT64_MAX : Z := 2 ^ 64 - 1.
Definition ST32_MAX : Z := 2 ^ 31 - 1.

(** The union of a [PyObj].  [V_zero] is the all-zero union R_NEW0 leaves. *)
Inductive PyVal :=
  | V_zero
  | V_bool (b : bool)
  | V_int (i : Z)
  | V_float (d : double)
  | V_str (s : option string)
  | V_iter (l : option (list addr))
  | V_func (module name : option addr)
  | V_what (l : option (list oaddr))
  | V_split (p : option oaddr).

Record PyObj := mkPyObj {
  type : PyType;
  offset : Z;
  memo_id : Z;
  refcnt : Z;
  varname : option string;
  recurse : Z;
  val : PyVal;
  freed : bool
}.

Record PyOper := mkPyOper {
  op : PyOp;
  op_stack : option (list addr);
  op_offset : Z;
  op_refcnt : Z;
  op_freed : bool
}.

Definition set_refcnt (n : Z) (o : PyObj) : PyObj :=
  mkPyObj (type o) (offset o) (memo_id o) n (varname o) (recurse o) (val o) (freed o).
Definition set_varname (v : option string) (o : PyObj) : PyObj :=
  mkPyObj (type o) (offset o) (memo_id o) (refcnt o) v (recurse o) (val o) (freed o).
Definition set_recurse (g : Z) (o : PyObj) : PyObj :=
  mkPyObj (type o) (offset o) (memo_id o) (refcnt o) (varname o) g (val o) (freed o).
Definition set_val (v : PyVal) (o : PyObj) : PyObj :=
  mkPyObj (type o) (offset o) (memo_id o) (refcnt o) (varname o) (recurse o) v (freed o).
Definition set_freed (o : PyObj) : PyObj :=
  mkPyObj (type o) (offset o) (memo_id o) (refcnt o) (varname o) (recurse o) (val o) true.

Definition set_op_stack (l : option (list addr)) (p : PyOper) : PyOper :=
  mkPyOper (op p) l (op_offset p) (op_refcnt p) (op_freed p).
Definition set_op_refcnt (n : Z) (p : PyOper) : PyOper :=
  mkPyOper (op p) (op_stack p) (op_offset p) n (op_freed p).
Definition set_op_freed (p : PyOper) : PyOper :=
  mkPyOper (op p) (op_stack p) (op_offset p) (op_refcnt p) true.

(** The members of the union, as the code reads them. *)
Definition py_bool (o : PyObj) : bool :=
  match val o with V_bool b => b | _ => false end.
Definition py_int (o : PyObj) : Z :=
  match val o with V_int i => i | _ => 0 end.
Definition py_float (o : PyObj) : double :=
  match val o with V_float d => d | _ => 0 end.
Definition py_str (o : PyObj) : option string :=
  match val o with V_str s => s | _ => None end.
Definition py_iter (o : PyObj) : option (list addr) :=
  match val o with V_iter l => l | _ => None end.
Definition py_func_module (o : PyObj) : option addr :=
  match val o with V_func m _ => m | _ => None end.
Definition py_func_name (o : PyObj) : option addr :=
  match val o with V_func _ n => n | _ => None end.
Definition py_what (o : PyObj) : option (list oaddr) :=
  match val o with V_what l => l | _ => None end.
Definition reduce (o : PyObj) : option oaddr :=
  match val o with V_split p => p | _ => None end.

(** ** The heap *)

Record Heap := mkHeap {
  objs : list PyObj;
  opers : list PyOper
}.

Definition deref (h : Heap) (a : addr) : res PyObj :=
  match objs h !! a with
  | Some o => if freed o then Undef else Ok o
  | None => Undef
  end.

Definition oderef (h : Heap) (p : oaddr) : res PyOper :=
  match opers h !! p with
  | Some o => if op_freed o then Undef else Ok o
  | None => Undef
  end.

Definition put_obj (h : Heap) (a : addr) (o : PyObj) : Heap :=
  mkHeap (<[a := o]> (objs h)) (opers h).

Definition put_oper (h : Heap) (p : oaddr) (o : PyOper) : Heap :=
  mkHeap (objs h) (<[p := o]> (opers h)).

Definition alloc_obj (h : Heap) (o : PyObj) : addr * Heap :=
  (length (objs h), mkHeap (objs h ++ [o]) (opers h)).

Definition alloc_oper (h : Heap) (o : PyOper) : oaddr * Heap :=
  (length (opers h), mkHeap (objs h) (opers h ++ [o])).

(** ** RList *)

(** r_list_pop: the tail's data and the rest. *)
Definition r_list_pop {A} (l : list A) : option (A * list A) :=
  match last l with
  | Some x => Some (x, removelast l)
  | None => None
  end.

(** r_list_pop_head *)
Definition r_list_pop_head {A} (l : list A) : option (A * list A) :=
  match l with
  | x :: l' => Some (x, l')
  | [] => None
  end.

(** r_list_length, as the int the code compares. *)
Definition r_list_length {A} (l : list A) : Z := Z.of_nat (length l).

(** ** Releasing objects (shallow): py_obj_free, pyop_free,
    py_obj_free_internal with deep = false *)

(** list_free_with / r_list_free: the list's free function on every
    element, head first. *)
Fixpoint free_each {A} (f : Heap -> A -> res Heap) (h : Heap) (l : list A)
  : res Heap :=
  match l with
  | [] => Ok h
  | x :: l' => h' ← f h x; free_each f h' l'
  end.

Definition pyop_free_with (obj_free : Heap -> addr -> res Heap)
    (h : Heap) (pop : oaddr) : res Heap :=
  po ← oderef h pop;
  let po1 := set_op_refcnt (op_refcnt po - 1) po in
  if bool_decide (op_refcnt po <= 0) then
    let tmp := op_stack po1 in
    let h := put_oper h pop (set_op_stack None po1) in
    h ← free_each obj_free h (default [] tmp);
    po' ← oderef h pop;
    Ok (put_oper h pop (set_op_freed po'))
  else Ok (put_oper h pop po1).

Definition free_opt {A} (f : Heap -> A -> res Heap) (h : Heap) (x : option A)
  : res Heap :=
  match x with
  | Some a => f h a
  | None => Ok h
  end.

Definition py_obj_free_internal_with (obj_free : Heap -> addr -> res Heap)
    (h : Heap) (a : addr) : res Heap :=
  o0 ← deref h a;
  let o := set_varname None o0 in
  match type o with
  | PY_BOOL | PY_INT | PY_FLOAT | PY_NONE => Ok (put_obj h a o)
  | PY_STR => Ok (put_obj h a (set_val (V_str None) o))
  | PY_SET | PY_FROZEN_SET | PY_DICT | PY_LIST | PY_TUPLE =>
      let tmp := py_iter o in
      let h := put_obj h a (set_val (V_iter None) o) in
      free_each obj_free h (default [] tmp)
  | PY_SPLIT =>
      let tmp := reduce o in
      let h := put_obj h a (set_val (V_split None) o) in
      free_opt (pyop_free_with obj_free) h tmp
  | PY_FUNC =>
      let tmpa := py_func_module o in
      let tmp := py_func_name o in
      let h := put_obj h a (set_val (V_func None None) o) in
      h ← free_opt obj_free h tmp;
      free_opt obj_free h tmpa
  | PY_WHAT =>
      let tmp := py_what o in
      let h := put_obj h a (set_val (V_what None) o) in
      free_each (pyop_free_with obj_free) h (default [] tmp)
  | PY_NOT_RIGHT => Ok (put_obj h a o)
  end.

Fixpoint py_obj_free (fuel : nat) (h : Heap) (a : addr) : res Heap :=
  match fuel with
  | O => OutOfFuel
  | S n =>
      o ← deref h a;
      let h := put_obj h a (set_refcnt (refcnt o - 1) o) in
      if bool_decide (refcnt o <= 0) then
        h ← py_obj_free_internal_with (py_obj_free n) h a;
        o' ← deref h a;
        Ok (put_obj h a (set_freed o'))
      else Ok h
  end.

Definition pyop_free (fuel : nat) (h : Heap) (pop : oaddr) : res Heap :=
  pyop_free_with (py_obj_free fuel) h pop.

(** ** Decoded instructions and the machine state *)

(** What the disassembler returns for one instruction (RAnalOp), with the
    two readings the interpreter takes of it through the C library: the
    double that sscanf finds in the mnemonic ([scan_lf quoted]), and the
    escaped string r_io_read_at and r_str_escape_raw give for
    [ptr], [ptrsize]. *)
Record RAnalOp := mkRAnalOp {
  op_val : Z;
  mnemonic : option string;
  op_ptr : Z;
  op_ptrsize : Z;
  op_size : Z;
  op_type_ill : bool;
  scan_lf : bool -> option double;
  io_escaped : option string
}.

Record PMState := mkPMState {
  heap : Heap;
  stack : list addr;
  metastack : list (list addr);
  popstack : list addr;
  memo : gmap Z (option addr);
  pvm_offset : Z;
  start : Z;
  end_ : Z;
  ver : Z;
  pvm_recurse : Z;
  break_on_stop : bool;
  pvm_verbose : bool
}.

Definition with_heap (h : Heap) (s : PMState) : PMState :=
  mkPMState h (stack s) (metastack s) (popstack s) (memo s) (pvm_offset s)
    (start s) (end_ s) (ver s) (pvm_recurse s) (break_on_stop s) (pvm_verbose s).
Definition with_stack (l : list addr) (s : PMState) : PMState :=
  mkPMState (heap s) l (metastack s) (popstack s) (memo s) (pvm_offset s)
    (start s) (end_ s) (ver s) (pvm_recurse s) (break_on_stop s) (pvm_verbose s).
Definition with_metastack (l : list (list addr)) (s : PMState) : PMState :=
  mkPMState (heap s) (stack s) l (popstack s) (memo s) (pvm_offset s)
    (start s) (end_ s) (ver s) (pvm_recurse s) (break_on_stop s) (pvm_verbose s).
Definition with_popstack (l : list addr) (s : PMState) : PMState :=
  mkPMState (heap s) (stack s) (metastack s) l (memo s) (pvm_offset s)
    (start s) (end_ s) (ver s) (pvm_recurse s) (break_on_stop s) (pvm_verbose s).
Definition with_memo (m : gmap Z (option addr)) (s : PMState) : PMState :=
  mkPMState (heap s) (stack s) (metastack s) (popstack s) m (pvm_offset s)
    (start s) (end_ s) (ver s) (pvm_recurse s) (break_on_stop s) (pvm_verbose s).
Definition with_offset (z : Z) (s : PMState) : PMState :=
  mkPMState (heap s) (stack s) (metastack s) (popstack s) (memo s) z
    (start s) (end_ s) (ver s) (pvm_recurse s) (break_on_stop s) (pvm_verbose s).
Definition with_ver (z : Z) (s : PMState) : PMState :=
  mkPMState (heap s) (stack s) (metastack s) (popstack s) (memo s) (pvm_offset s)
    (start s) (end_ s) z (pvm_recurse s) (break_on_stop s) (pvm_verbose s).
Definition with_recurse (z : Z) (s : PMState) : PMState :=
  mkPMState (heap s) (stack s) (metastack s) (popstack s) (memo s) (pvm_offset s)
    (start s) (end_ s) (ver s) z (break_on_stop s) (pvm_verbose s).
Definition with_break_on_stop (b : bool) (s : PMState) : PMState :=
  mkPMState (heap s) (stack s) (metastack s) (popstack s) (memo s) (pvm_offset s)
    (start s) (end_ s) (ver s) (pvm_recurse s) b (pvm_verbose s).

(** Reference-count updates through a live pointer. *)
Definition incref (h : Heap) (a : addr) : res Heap :=
  o ← deref h a; Ok (put_obj h a (set_refcnt (refcnt o + 1) o)).

(** py_obj_new: R_NEW0, then type, offset and memo_id. *)
Definition py_obj_new (pvm : PMState) (t : PyType) : PyObj :=
  mkPyObj t (pvm_offset pvm) UT64_MAX 0 None 0 V_zero false.

Definition obj_stack_peek (h : Heap) (stk : list addr) (dup : bool)
  : res (option addr * Heap) :=
  match last stk with
  | Some a => if dup then h' ← incref h a; Ok (Some a, h') else Ok (Some a, h)
  | None => Ok (None, h)
  end.

Definition py_oper_new (pvm : PMState) (o : PyOp) (initlist : bool) : PyOper :=
  mkPyOper o (if initlist then Some [] else None) (pvm_offset pvm) 0 false.

(** py_what_new: a PY_WHAT whose list holds one OP_FAKE_INIT record, whose
    stack holds [obj]. *)
Definition py_what_new (pvm : PMState) (obj : addr) : addr * PMState :=
  let pop := length (opers (heap pvm)) in
  let '(wat, h) :=
    alloc_obj (heap pvm) (set_val (V_what (Some [pop])) (py_obj_new pvm PY_WHAT)) in
  let '(_, h) :=
    alloc_oper h (set_op_stack (Some [obj]) (py_oper_new pvm OP_FAKE_INIT true)) in
  (wat, with_heap h pvm).

(** stack_top_to_what, on the list [stk] (pvm->stack or a stack taken off the
    metastack): the What at its top and the list, whose tail cell now points
    to the What. *)
Definition stack_top_to_what (pvm : PMState) (stk : list addr)
  : res (option addr * list addr * PMState) :=
  match r_list_pop stk with
  | Some (a, rest) =>
      o ← deref (heap pvm) a;
      if bool_decide (type o = PY_WHAT) then Ok (Some a, stk, pvm)
      else
        let '(tmp, pvm) := py_what_new pvm a in
        Ok (Some tmp, rest ++ [tmp], pvm)
  | None => Ok (None, stk, pvm)
  end.

(** r_list_push (obj->py_what, pop) *)
Definition what_push (h : Heap) (obj : addr) (pop : oaddr) : res (bool * Heap) :=
  o ← deref h obj;
  match py_what o with
  | Some l => Ok (true, put_obj h obj (set_val (V_what (Some (l ++ [pop]))) o))
  | None => Ok (false, h)
  end.

(** r_list_push (obj->py_iter, x) *)
Definition iter_push (h : Heap) (obj : addr) (x : addr) : res (bool * Heap) :=
  o ← deref h obj;
  match py_iter o with
  | Some l => Ok (true, put_obj h obj (set_val (V_iter (Some (l ++ [x]))) o))
  | None => Ok (false, h)
  end.

Definition set_pop_stack (h : Heap) (pop : oaddr) (l : list addr) : res Heap :=
  po ← oderef h pop; Ok (put_oper h pop (set_op_stack (Some l) po)).

(** ** The split pass of REDUCE *)

Definition itter_add_split (fuel : nat) (h : Heap) (container split : addr)
  : res (bool * Heap) :=
  co ← deref h container;
  match py_iter co with
  | None => Ok (false, h)
  | Some l =>
      (* no reasons to put two splits next to each other *)
      h ← match r_list_pop l with
          | Some (x, l') =>
              xo ← deref h x;
              if bool_decide (type xo = PY_SPLIT) then
                py_obj_free fuel
                  (put_obj h container (set_val (V_iter (Some l')) co)) x
              else Ok h
          | None => Ok h
          end;
      '(ok, h) ← iter_push h container split;
      if ok : bool then h ← incref h split; Ok (true, h) else Ok (false, h)
  end.

Fixpoint split_iter_recures (f : Heap -> addr -> res (bool * Heap))
    (h : Heap) (l : list addr) : res (bool * Heap) :=
  match l with
  | [] => Ok (true, h)
  | x :: l' =>
      '(ok, h) ← f h x;
      if ok : bool then split_iter_recures f h l' else Ok (false, h)
  end.

Fixpoint split_what_recures (f : Heap -> addr -> res (bool * Heap))
    (h : Heap) (l : list oaddr) : res (bool * Heap) :=
  match l with
  | [] => Ok (true, h)
  | pop :: l' =>
      po ← oderef h pop;
      '(ok, h) ← split_iter_recures f h (default [] (op_stack po));
      if ok : bool then split_what_recures f h l' else Ok (false, h)
  end.

Fixpoint add_splits (fuel : nat) (gen : Z) (h : Heap) (obj split : addr)
  : res (bool * Heap) :=
  match fuel with
  | O => OutOfFuel
  | S n =>
      o ← deref h obj;
      (* skip previously seen (python allows `a.append(a)`) *)
      if bool_decide (recurse o = gen) then Ok (true, h)
      else
        let h := put_obj h obj (set_recurse gen o) in
        match type o with
        | PY_NOT_RIGHT | PY_INT | PY_STR | PY_BOOL | PY_NONE | PY_FLOAT
        | PY_FUNC | PY_SPLIT => Ok (true, h)
        | PY_LIST | PY_FROZEN_SET | PY_SET | PY_DICT | PY_TUPLE =>
            '(ok, h) ← split_iter_recures (fun h x => add_splits n gen h x split)
                         h (default [] (py_iter o));
            if ok : bool then
              o' ← deref h obj;
              if bool_decide (type o' = PY_TUPLE) then Ok (true, h)
              else itter_add_split n h obj split
            else Ok (false, h)
        | PY_WHAT =>
            split_what_recures (fun h x => add_splits n gen h x split)
              h (default [] (py_what o))
        end
  end.

Definition split_reduce (fuel : nat) (pvm : PMState) (pop : oaddr)
  : res (bool * PMState) :=
  let '(split, h) := alloc_obj (heap pvm) (py_obj_new pvm PY_SPLIT) in
  po ← oderef h pop;
  match last (default [] (op_stack po)) with  (* likely a TUPLE *)
  | Some obj =>
      let h := put_obj h split (set_val (V_split (Some pop)) (py_obj_new pvm PY_SPLIT)) in
      let h := put_oper h pop (set_op_refcnt (op_refcnt po + 1) po) in
      let pvm := with_recurse (pvm_recurse pvm + 1) pvm in
      '(ret, h) ← add_splits fuel (pvm_recurse pvm) h obj split;
      h ← py_obj_free fuel h split;
      Ok (ret, with_heap h pvm)
  | None => Ok (false, with_heap h pvm)
  end.

(** ** Operation records on a What *)

Definition py_what_addop_stack (fuel : nat) (pvm : PMState) (o : PyOp)
  : res (bool * PMState) :=
  match r_list_pop (metastack pvm) with
  | Some (oldstack, ms) =>
      let pvm := with_metastack ms pvm in
      let '(pop, h) := alloc_oper (heap pvm) (py_oper_new pvm o false) in
      let pvm := with_heap h pvm in
      '(obj, oldstack, pvm) ← stack_top_to_what pvm oldstack;
      match obj with
      | Some obj =>
          '(ok, h) ← what_push (heap pvm) obj pop;
          if ok : bool then
            h ← set_pop_stack h pop (stack pvm);
            Ok (true, with_stack oldstack (with_heap h pvm))
          else
            h ← pyop_free fuel h pop; Ok (false, with_heap h pvm)
      | None => h ← pyop_free fuel (heap pvm) pop; Ok (false, with_heap h pvm)
      end
  | None => Ok (false, pvm)
  end.

(** list_pop_n: [Some (rest, popped)] when the list is longer than [n]. *)
Definition list_pop_n (l : list addr) (n : Z) : option (list addr * list addr) :=
  if bool_decide (r_list_length l > n) then
    let k := (length l - Z.to_nat n)%nat in
    Some (take k l, drop k l)
  else None.

Definition py_what_addop (fuel : nat) (pvm : PMState) (argc : Z) (o : PyOp)
  : res (bool * PMState) :=
  if bool_decide (argc > 0) then
    let '(pop, h) := alloc_oper (heap pvm) (py_oper_new pvm o false) in
    let pvm := with_heap h pvm in
    let args := list_pop_n (stack pvm) argc in
    let pvm := match args with
               | Some (rest, _) => with_stack rest pvm
               | None => pvm
               end in
    '(obj, stk, pvm) ← stack_top_to_what pvm (stack pvm);
    let pvm := with_stack stk pvm in
    let cleanup (pvm : PMState) : res (bool * PMState) :=
      (* join might be in wrong order... *)
      let pvm := match args with
                 | Some (_, args) => with_stack (stack pvm ++ args) pvm
                 | None => pvm
                 end in
      h ← pyop_free fuel (heap pvm) pop; Ok (false, with_heap h pvm) in
    match args, obj with
    | Some (_, args), Some obj =>
        '(ok, h) ← what_push (heap pvm) obj pop;
        if ok : bool then
          h ← set_pop_stack h pop args;
          let pvm := with_heap h pvm in
          if is_reduce o then split_reduce fuel pvm pop else Ok (true, pvm)
        else cleanup pvm
    | _, _ => cleanup pvm
    end
  else Ok (false, pvm).

(** ** The memo *)

(** ht_up_update: an existing entry's value is released through the table's
    free function (_kv_free, py_obj_free) before the new one is stored. *)
Definition ht_up_update (fuel : nat) (h : Heap) (m : gmap Z (option addr))
    (loc : Z) (obj : option addr) : res (Heap * gmap Z (option addr)) :=
  h ← match m !! loc with
      | Some old => free_opt (py_obj_free fuel) h old
      | None => Ok h
      end;
  Ok (h, <[loc := obj]> m).

Definition memo_put (fuel : nat) (pvm : PMState) (loc : Z) : res (bool * PMState) :=
  if bool_decide (loc >= 0) then
    '(obj, h) ← obj_stack_peek (heap pvm) (stack pvm) true; (* will inc refcnt *)
    '(h, m) ← ht_up_update fuel h (memo pvm) loc obj;
    Ok (true, with_memo m (with_heap h pvm))
  else Ok (false, pvm).

Definition op_memorize (fuel : nat) (pvm : PMState) : res (bool * PMState) :=
  memo_put fuel pvm (Z.of_nat (size (memo pvm))).

Definition memo_get (pvm : PMState) (loc : Z) : res (bool * PMState) :=
  if bool_decide (loc >= 0) then
    match memo pvm !! loc with
    | Some (Some obj) =>
        h ← incref (heap pvm) obj;
        Ok (true, with_stack (stack pvm ++ [obj]) (with_heap h pvm))
    | _ => Ok (false, pvm)
    end
  else Ok (false, pvm).

Definition op_dup (pvm : PMState) : res (bool * PMState) :=
  match last (stack pvm) with
  | Some obj =>
      h ← incref (heap pvm) obj;
      Ok (true, with_stack (stack pvm ++ [obj]) (with_heap h pvm))
  | None => Ok (false, pvm)
  end.

(** ht_up_free with _kv_free: every value is released, then the table. *)
Definition empty_memo (fuel : nat) (pvm : PMState) : res PMState :=
  h ← free_each (free_opt (py_obj_free fuel)) (heap pvm)
        (map snd (map_to_list (memo pvm)));
  Ok (with_memo ∅ (with_heap h pvm)).

(** ** Iterables *)

(** Modelled from the spec: pytype_has_depth is declared in pyobjutil.h, which
    is not part of the sources; true for the iterable variants, What and
    Split. *)
Definition pytype_has_depth (t : PyType) : bool :=
  match t with
  | PY_TUPLE | PY_LIST | PY_DICT | PY_SET | PY_FROZEN_SET | PY_WHAT | PY_SPLIT => true
  | _ => false
  end.

Definition py_iter_new (pvm : PMState) (t : PyType) : option addr * PMState :=
  if pytype_has_depth t then
    let '(obj, h) :=
      alloc_obj (heap pvm) (set_val (V_iter (Some [])) (py_obj_new pvm t)) in
    (Some obj, with_heap h pvm)
  else (None, pvm).

Definition py_iter_append_mark (fuel : nat) (pvm : PMState) (obj : option addr)
    (t : PyType) : res (bool * PMState) :=
  match obj with
  | Some a =>
      o ← deref (heap pvm) a;
      if bool_decide (type o = t) then
        if bool_decide (t = PY_DICT) && negb (r_list_length (stack pvm) mod 2 =? 0)
        then Ok (false, pvm)
        else
          match r_list_pop (metastack pvm) with
          | Some (prev_stack, ms) =>
              (* current stack (everything since last MARK) shoved into iter *)
              h ← match py_iter o with
                  | Some l =>
                      Ok (put_obj (heap pvm) a
                            (set_val (V_iter (Some (l ++ stack pvm))) o))
                  | None => free_each (py_obj_free fuel) (heap pvm) (stack pvm)
                  end;
              (* stack is then restored to before last MARK *)
              Ok (true, with_stack prev_stack (with_metastack ms (with_heap h pvm)))
          | None => Ok (false, pvm)
          end
      else Ok (false, pvm)
  | None => Ok (false, pvm)
  end.

Definition op_newbool (pvm : PMState) (b : bool) : res (bool * PMState) :=
  let '(obj, h) := alloc_obj (heap pvm) (set_val (V_bool b) (py_obj_new pvm PY_BOOL)) in
  Ok (true, with_stack (stack pvm ++ [obj]) (with_heap h pvm)).

Definition iter_to_mark (fuel : nat) (pvm : PMState) (t : PyType)
  : res (option addr * PMState) :=
  let '(obj, pvm) := py_iter_new pvm t in
  '(ok, pvm) ← py_iter_append_mark fuel pvm obj t;
  if ok : bool then Ok (obj, pvm)
  else
    h ← free_opt (py_obj_free fuel) (heap pvm) obj;
    Ok (None, with_heap h pvm).

Definition op_type_create_append (fuel : nat) (pvm : PMState) (t : PyType)
  : res (bool * PMState) :=
  '(obj, pvm) ← iter_to_mark fuel pvm t;
  match obj with
  | Some a => Ok (true, with_stack (stack pvm ++ [a]) pvm)
  | None => Ok (false, pvm)
  end.

Definition op_iter_n (pvm : PMState) (n : Z) (t : PyType) : res (bool * PMState) :=
  if bool_decide (n <= 3) then
    match py_iter_new pvm t with
    | (Some obj, pvm) =>
        o ← deref (heap pvm) obj;
        let k := Z.to_nat n in
        let len := length (stack pvm) in
        if bool_decide (k <= len)%nat then
          let items := drop (len - k) (stack pvm) in
          let h := put_obj (heap pvm) obj (set_val (V_iter (Some items)) o) in
          Ok (true, with_stack (take (len - k) (stack pvm) ++ [obj]) (with_heap h pvm))
        else
          (* the stack ran out: what was popped stays in the new object *)
          let h := put_obj (heap pvm) obj (set_val (V_iter (Some (stack pvm))) o) in
          Ok (false, with_stack [] (with_heap h pvm))
    | (None, pvm) => Ok (false, pvm)
    end
  else Ok (false, pvm).

Definition stack_n_expected_type (h : Heap) (objl : list addr) (argc : Z)
    (t : PyType) : res bool :=
  if bool_decide (argc >= 0) then
    match rev objl !! Z.to_nat argc with
    | Some a => o ← deref h a; Ok (bool_decide (type o = t))
    | None => Ok false
    end
  else Ok false.

Definition push_to_stack_iter (pvm : PMState) (t : PyType) (obj : addr)
  : res (bool * PMState) :=
  match last (stack pvm) with
  | Some iterobj =>
      o ← deref (heap pvm) iterobj;
      if bool_decide (type o = t) then
        '(ok, h) ← iter_push (heap pvm) iterobj obj;
        Ok (ok, with_heap h pvm)
      else Ok (false, pvm)
  | None => Ok (false, pvm)
  end.

Definition op_append (fuel : nat) (pvm : PMState) : res (bool * PMState) :=
  if bool_decide (r_list_length (stack pvm) >= 2) then
    e ← stack_n_expected_type (heap pvm) (stack pvm) 1 PY_LIST;
    if e : bool then
      match r_list_pop (stack pvm) with
      | Some (obj, rest) =>
          '(ok, pvm') ← push_to_stack_iter (with_stack rest pvm) PY_LIST obj;
          if ok : bool then Ok (true, pvm')
          else (* failed, try to restore state *)
            Ok (false, with_stack (stack pvm' ++ [obj]) pvm')
      | None => Ok (false, pvm)
      end
    else py_what_addop fuel pvm 1 OP_APPEND
  else Ok (false, pvm).

Definition op_appends (fuel : nat) (pvm : PMState) (o : PyOp) (t : PyType)
  : res (bool * PMState) :=
  match last (metastack pvm) with
  | Some prev_stack =>
      match last prev_stack with
      | Some obj =>
          ob ← deref (heap pvm) obj;
          if bool_decide (type ob = t) then py_iter_append_mark fuel pvm (Some obj) t
          else py_what_addop_stack fuel pvm o
      | None => Ok (false, pvm)
      end
  | None => Ok (false, pvm)
  end.

Definition op_setitem (fuel : nat) (pvm : PMState) : res (bool * PMState) :=
  if bool_decide (r_list_length (stack pvm) >= 3) then
    e ← stack_n_expected_type (heap pvm) (stack pvm) 2 PY_DICT;
    if e : bool then
      match r_list_pop (stack pvm) with
      | Some (value, rest) =>
          match r_list_pop rest with
          | Some (key, rest) =>
              let pvm := with_stack rest pvm in
              let release (h : Heap) : res (bool * PMState) :=
                h ← py_obj_free fuel h key;
                h ← py_obj_free fuel h value;
                Ok (false, with_heap h pvm) in
              match last rest with
              | Some obj =>
                  ob ← deref (heap pvm) obj;
                  if bool_decide (type ob = PY_DICT) then
                    '(ok, h) ← iter_push (heap pvm) obj key;
                    if ok : bool then
                      '(ok, h) ← iter_push h obj value;
                      if ok : bool then Ok (true, with_heap h pvm)
                      else
                        (* r_list_pop (obj->py_iter): prevent double free *)
                        ob' ← deref h obj;
                        release (put_obj h obj
                          (set_val (V_iter ((fun l => removelast l) <$> py_iter ob')) ob'))
                    else release h
                  else release (heap pvm)
              | None => release (heap pvm)
              end
          | None => Ok (false, with_stack rest pvm)
          end
      | None => Ok (false, pvm)
      end
    else py_what_addop fuel pvm 2 OP_SETITEM
  else Ok (false, pvm).

Definition op_setitems (fuel : nat) (pvm : PMState) : res (bool * PMState) :=
  match last (metastack pvm) with
  | Some prev_stack =>
      match last prev_stack with
      | Some obj =>
          ob ← deref (heap pvm) obj;
          if bool_decide (type ob = PY_DICT)
          then py_iter_append_mark fuel pvm (Some obj) PY_DICT
          else py_what_addop_stack fuel pvm OP_SETITEMS
      | None => Ok (false, pvm)
      end
  | None => Ok (false, pvm)
  end.

(** ** Scalars and strings *)

Definition dquote : ascii := "034"%char.
Definition space : ascii := " "%char.

(** strstr for a space followed by a double quote, then past the two
    characters. *)
Fixpoint after_space_quote (s : string) : option string :=
  match s with
  | String c t =>
      match t with
      | String d rest =>
          if bool_decide (c = space) && bool_decide (d = dquote) then Some rest
          else after_space_quote t
      | EmptyString => None
      end
  | EmptyString => None
  end.

Fixpoint remove_last_char (s : string) : string :=
  match s with
  | String c EmptyString => EmptyString
  | String c t => String c (remove_last_char t)
  | EmptyString => EmptyString
  end.

Definition op_str_arg (o : RAnalOp) : option string :=
  match mnemonic o with
  | Some m =>
      match after_space_quote m with
      | Some str =>
          if bool_decide (0 < String.length str)%nat
          then Some (remove_last_char str) (* remove last quote *)
          else None
      | None => None
      end
  | None => None
  end.

Definition op_none (pvm : PMState) : res (bool * PMState) :=
  let '(obj, h) := alloc_obj (heap pvm) (py_obj_new pvm PY_NONE) in
  Ok (true, with_stack (stack pvm ++ [obj]) (with_heap h pvm)).

Definition push_int_type (pvm : PMState) (o : RAnalOp) : res (bool * PMState) :=
  let '(obj, h) :=
    alloc_obj (heap pvm) (set_val (V_int (op_val o)) (py_obj_new pvm PY_INT)) in
  Ok (true, with_stack (stack pvm ++ [obj]) (with_heap h pvm)).

Definition op_float (fuel : nat) (pvm : PMState) (o : RAnalOp) (quoted : bool)
  : res (bool * PMState) :=
  let '(obj, h) := alloc_obj (heap pvm) (py_obj_new pvm PY_FLOAT) in
  match scan_lf o quoted with
  | Some d =>
      let h := put_obj h obj (set_val (V_float d) (py_obj_new pvm PY_FLOAT)) in
      Ok (true, with_stack (stack pvm ++ [obj]) (with_heap h pvm))
  | None => h ← py_obj_free fuel h obj; Ok (false, with_heap h pvm)
  end.

Definition get_big_str (o : RAnalOp) : option string :=
  if negb (op_ptr o =? 0) && bool_decide (op_ptrsize o > 80)
     && bool_decide (op_ptrsize o < ST32_MAX)
  then io_escaped o
  else op_str_arg o.

Definition push_str (fuel : nat) (pvm : PMState) (o : RAnalOp)
  : res (bool * PMState) :=
  let str := get_big_str o in
  let '(obj, h) := alloc_obj (heap pvm) (py_obj_new pvm PY_STR) in
  match str with
  | Some s =>
      let h := put_obj h obj (set_val (V_str (Some s)) (py_obj_new pvm PY_STR)) in
      Ok (true, with_stack (stack pvm ++ [obj]) (with_heap h pvm))
  | None => h ← py_obj_free fuel h obj; Ok (false, with_heap h pvm)
  end.

(** ** Marks *)

Definition op_mark (pvm : PMState) : res (bool * PMState) :=
  Ok (true, with_stack [] (with_metastack (metastack pvm ++ [stack pvm]) pvm)).

Definition op_pop (pvm : PMState) : res (bool * PMState) :=
  match r_list_pop (stack pvm) with
  | Some (obj, rest) =>
      Ok (true, with_popstack (popstack pvm ++ [obj]) (with_stack rest pvm))
  | None => Ok (false, pvm)
  end.

Definition op_pop_mark (pvm : PMState) : res (bool * PMState) :=
  match r_list_pop (metastack pvm) with
  | Some (prev, ms) =>
      Ok (true, with_stack prev (with_metastack ms
                  (with_popstack (popstack pvm ++ stack pvm) pvm)))
  | None => Ok (false, pvm)
  end.

(** ** Globals and instantiation *)

Definition str_to_pystr (pvm : PMState) (str : string) : addr * PMState :=
  let '(obj, h) :=
    alloc_obj (heap pvm) (set_val (V_str (Some str)) (py_obj_new pvm PY_STR)) in
  (obj, with_heap h pvm).

(** r_str_split (str, ' '): the pieces between the spaces. *)
Fixpoint split_words (s : string) (cur : string) : list string :=
  match s with
  | String c t =>
      if bool_decide (c = space) then cur :: split_words t EmptyString
      else split_words t (cur +:+ String c EmptyString)
  | EmptyString => [cur]
  end.

Definition r_str_split (s : string) : list string :=
  match s with
  | EmptyString => []
  | _ => split_words s EmptyString
  end.

(** split_module_str writes the two fields of [cl], the py_func of [obj]. *)
Definition split_module_str (pvm : PMState) (o : RAnalOp) (obj : addr)
  : res (bool * PMState) :=
  match op_str_arg o with
  | Some str =>
      match r_str_split str with
      | [mod_; name] =>
          ob ← deref (heap pvm) obj;
          let '(m, pvm) := str_to_pystr pvm mod_ in
          let pvm := with_heap (put_obj (heap pvm) obj
                       (set_val (V_func (Some m) (py_func_name ob)) ob)) pvm in
          if bool_decide (name ≠ EmptyString) then
            let '(n, pvm) := str_to_pystr pvm name in
            ob ← deref (heap pvm) obj;
            Ok (true, with_heap (put_obj (heap pvm) obj
                       (set_val (V_func (py_func_module ob) (Some n)) ob)) pvm)
          else Ok (false, pvm)
      | _ => Ok (false, pvm)
      end
  | None => Ok (false, pvm)
  end.

Definition glob_obj (fuel : nat) (pvm : PMState) (o : RAnalOp)
  : res (option addr * PMState) :=
  let '(obj, h) := alloc_obj (heap pvm) (py_obj_new pvm PY_FUNC) in
  '(ok, pvm) ← split_module_str (with_heap h pvm) o obj;
  if ok : bool then Ok (Some obj, pvm)
  else h ← py_obj_free fuel (heap pvm) obj; Ok (None, with_heap h pvm).

Definition op_global (fuel : nat) (pvm : PMState) (o : RAnalOp)
  : res (bool * PMState) :=
  '(obj, pvm) ← glob_obj fuel pvm o;
  match obj with
  | Some a => Ok (true, with_stack (stack pvm ++ [a]) pvm)
  | None => Ok (false, pvm)
  end.

Definition op_stack_global (pvm : PMState) (o : RAnalOp) : res (bool * PMState) :=
  if bool_decide (r_list_length (stack pvm) >= 2) then
    match r_list_pop (stack pvm) with
    | Some (name, rest) =>
        match r_list_pop rest with
        | Some (mod_, rest) =>
            let '(obj, h) :=
              alloc_obj (heap pvm)
                (set_val (V_func (Some mod_) (Some name)) (py_obj_new pvm PY_FUNC)) in
            Ok (true, with_stack (rest ++ [obj]) (with_heap h pvm))
        | None => Ok (false, pvm)
        end
    | None => Ok (false, pvm)
    end
  else Ok (false, pvm).

Definition insantiate (fuel : nat) (pvm : PMState) (o : RAnalOp)
    (cls args : option addr) : res (bool * PMState) :=
  m ← match mnemonic o with Some m => Ok m | None => Undef end;
  let o' := if bool_decide (m = "obj"%string) then OP_OBJ else OP_INST in
  match args, cls with
  | Some a, Some c =>
      (* now everything is setup like global *)
      py_what_addop fuel (with_stack (stack pvm ++ [c; a]) pvm) 1 o'
  | _, _ =>
      h ← free_opt (py_obj_free fuel) (heap pvm) args;
      h ← free_opt (py_obj_free fuel) h cls;
      Ok (false, with_heap h pvm)
  end.

Definition op_inst (fuel : nat) (pvm : PMState) (o : RAnalOp)
  : res (bool * PMState) :=
  (* like GLOBAL + LIST + REDUCE but stack is not set up wonky *)
  '(cls, pvm) ← glob_obj fuel pvm o;
  '(args, pvm) ← iter_to_mark fuel pvm PY_LIST;
  insantiate fuel pvm o cls args.

Definition op_obj (fuel : nat) (pvm : PMState) (o : RAnalOp)
  : res (bool * PMState) :=
  (* like LIST + REDUCE but stack is not set up wonky *)
  let '(cls, pvm) := match r_list_pop_head (stack pvm) with
                     | Some (c, rest) => (Some c, with_stack rest pvm)
                     | None => (None, pvm)
                     end in
  '(args, pvm) ← iter_to_mark fuel pvm PY_LIST;
  insantiate fuel pvm o cls args.

(** ** exec_op *)

(** op->val is a ut64; memo_put and memo_get take it as an st64. *)
Definition st64_of (z : Z) : Z :=
  let m := z mod 2 ^ 64 in
  if m <? 2 ^ 63 then m else m - 2 ^ 64.

Definition exec_op (fuel : nat) (pvm : PMState) (o : RAnalOp) (code : PyOp)
  : res (bool * PMState) :=
  match code with
  (* meta *)
  | OP_PROTO =>
      if bool_decide (start pvm ≠ pvm_offset pvm) then Ok (true, pvm)
      else Ok (true, with_ver (op_val o) pvm)
  | OP_FRAME | OP_STOP => Ok (true, pvm)
  | OP_MARK => op_mark pvm
  | OP_POP => op_pop pvm
  | OP_POP_MARK => op_pop_mark pvm
  | OP_NONE => op_none pvm
  (* ints *)
  | OP_BININT | OP_BININT1 | OP_BININT2 | OP_LONG1 | OP_LONG4 =>
      push_int_type pvm o
  (* floats *)
  | OP_FLOAT => op_float fuel pvm o true
  | OP_BINFLOAT => op_float fuel pvm o false
  (* strings *)
  | OP_STRING | OP_UNICODE | OP_BINUNICODE8 | OP_BINBYTES8 | OP_BYTEARRAY8
  | OP_BINSTRING | OP_BINUNICODE | OP_BINBYTES | OP_SHORT_BINBYTES
  | OP_SHORT_BINSTRING | OP_SHORT_BINUNICODE => push_str fuel pvm o
  (* class stuff *)
  | OP_OBJ => op_obj fuel pvm o
  | OP_INST => op_inst fuel pvm o
  | OP_GLOBAL => op_global fuel pvm o
  | OP_STACK_GLOBAL => op_stack_global pvm o
  | OP_NEWOBJ | OP_BUILD | OP_REDUCE => py_what_addop fuel pvm 1 code
  (* tuple's *)
  | OP_TUPLE => op_type_create_append fuel pvm PY_TUPLE
  | OP_EMPTY_TUPLE => op_iter_n pvm 0 PY_TUPLE
  | OP_TUPLE1 => op_iter_n pvm 1 PY_TUPLE
  | OP_TUPLE2 => op_iter_n pvm 2 PY_TUPLE
  | OP_TUPLE3 => op_iter_n pvm 3 PY_TUPLE
  (* lists *)
  | OP_EMPTY_LIST => op_iter_n pvm 0 PY_LIST
  | OP_APPEND => op_append fuel pvm
  | OP_APPENDS => op_appends fuel pvm OP_APPEND PY_LIST
  | OP_LIST => op_type_create_append fuel pvm PY_LIST
  (* dicts *)
  | OP_EMPTY_DICT => op_iter_n pvm 0 PY_DICT
  | OP_SETITEM => op_setitem fuel pvm
  | OP_SETITEMS => op_setitems fuel pvm
  | OP_DICT => op_type_create_append fuel pvm PY_DICT
  (* bools *)
  | OP_NEWTRUE => op_newbool pvm true
  | OP_NEWFALSE => op_newbool pvm false
  (* sets *)
  | OP_FROZENSET => op_type_create_append fuel pvm PY_FROZEN_SET
  | OP_EMPTY_SET => op_iter_n pvm 0 PY_SET
  | OP_ADDITEMS => op_appends fuel pvm OP_ADDITEMS PY_SET
  (* memo *)
  | OP_MEMOIZE => op_memorize fuel pvm
  | OP_LONG_BINPUT | OP_BINPUT => memo_put fuel pvm (st64_of (op_val o))
  | OP_LONG_BINGET | OP_BINGET => memo_get pvm (st64_of (op_val o))
  | OP_DUP => op_dup pvm
  (* unhandled *)
  | _ => Ok (false, pvm)
  end.

(** ** run_pvm *)

(** One instruction of the buffer: its first byte as an opcode, and what
    r_anal_op makes of it ([None]: it returned 0 or less). *)
Record Insn := mkInsn {
  code : PyOp;
  decoded : option RAnalOp
}.

Definition is_stop (o : PyOp) : bool :=
  match o with OP_STOP => true | _ => false end.

(** The loop of run_pvm: [l] is what is left of the buffer. *)
Fixpoint run_loop (fuel : nat) (pvm : PMState) (l : list Insn)
  : res (bool * PMState) :=
  match l with
  | [] => pvm ← empty_memo fuel pvm; Ok (true, pvm)
  | i :: l' =>
      if break_on_stop pvm && is_stop (code i) then
        pvm ← empty_memo fuel pvm; Ok (true, pvm)
      else
        match decoded i with
        | None => Ok (false, pvm)
        | Some o =>
            '(exec, pvm) ← exec_op fuel pvm o (code i);
            if exec : bool then
              (* adjust read loc for next loop *)
              run_loop fuel
                (with_offset ((pvm_offset pvm + op_size o) mod 2 ^ 64) pvm) l'
            else Ok (false, pvm)
        end
  end.

(** get_buff fails on an empty file and past its end: nothing to run. *)
Definition run_pvm (fuel : nat) (pvm : PMState) (buf : list Insn)
  : res (bool * PMState) :=
  match buf with
  | [] => Ok (false, pvm)
  | _ => run_loop fuel pvm buf
  end.

(** ** The pseudocode renderer (dump.c) *)

(** What is appended to an RStrBuf, piece by piece, with the role of each
    piece; the text of a buffer is the concatenation of its pieces.
    - [Decl vn] is the text [vn ++ " = "] that opens an assignment;
    - [Name vn] is the text [vn], a variable name used as a reference;
    - [Lf d] is the "%lf" rendering of a double, left symbolic;
    - [Raw a] is what "%s" prints when it is handed the PyObj pointer [a]
      (dump_func passes py_func.module and py_func.name, which are objects):
      the bytes at that address up to the first zero, which the model does
      not determine. *)
Inductive chunk :=
  | Text (s : string)
  | Decl (vn : string)
  | Name (vn : string)
  | Lf (d : double)
  | Raw (a : option addr)
  | External (what : string).

Definition chunk_nonempty (c : chunk) : bool :=
  match c with
  | Text s | Name s => negb (bool_decide (s = EmptyString))
  | Decl _ | Lf _ | External _ => true
  | Raw _ => false
  end.

(** r_strbuf_length (buf) > 0.  Every buffer of the renderer that holds a
    [Raw] piece holds the literal text of its format as well. *)
Definition r_strbuf_nonempty (b : option (list chunk)) : bool :=
  existsb chunk_nonempty (default [] b).

(** The text of a buffer without symbolic pieces. *)
Fixpoint plain_text (l : list chunk) : option string :=
  match l with
  | [] => Some EmptyString
  | c :: l' =>
      match c, plain_text l' with
      | Text s, Some t => Some (s +:+ t)
      | Decl vn, Some t => Some (vn +:+ " = " +:+ t)
      | Name vn, Some t => Some (vn +:+ t)
      | _, _ => None
      end
  end.

(** PrintInfo (dump.h is not part of the sources; the fields are those
    dump.c uses), together with the heap the renderer works on and the
    console (r_cons_printf) it prints to. *)
Record PrintInfo := mkPrintInfo {
  d_heap : Heap;
  cons : list chunk;
  out : option (list chunk);
  outstack : list (option (list chunk));
  first : bool;
  ret : bool;
  varid : Z;
  verbose : bool;
  nfo_stack : bool
}.

Definition set_heap (h : Heap) (d : PrintInfo) : PrintInfo :=
  mkPrintInfo h (cons d) (out d) (outstack d) (first d) (ret d) (varid d)
    (verbose d) (nfo_stack d).
Definition set_cons (c : list chunk) (d : PrintInfo) : PrintInfo :=
  mkPrintInfo (d_heap d) c (out d) (outstack d) (first d) (ret d) (varid d)
    (verbose d) (nfo_stack d).
Definition set_out (o : option (list chunk)) (d : PrintInfo) : PrintInfo :=
  mkPrintInfo (d_heap d) (cons d) o (outstack d) (first d) (ret d) (varid d)
    (verbose d) (nfo_stack d).
Definition set_outstack (s : list (option (list chunk))) (d : PrintInfo) : PrintInfo :=
  mkPrintInfo (d_heap d) (cons d) (out d) s (first d) (ret d) (varid d)
    (verbose d) (nfo_stack d).
Definition set_first (b : bool) (d : PrintInfo) : PrintInfo :=
  mkPrintInfo (d_heap d) (cons d) (out d) (outstack d) b (ret d) (varid d)
    (verbose d) (nfo_stack d).
Definition set_ret (b : bool) (d : PrintInfo) : PrintInfo :=
  mkPrintInfo (d_heap d) (cons d) (out d) (outstack d) (first d) b (varid d)
    (verbose d) (nfo_stack d).
Definition set_varid (z : Z) (d : PrintInfo) : PrintInfo :=
  mkPrintInfo (d_heap d) (cons d) (out d) (outstack d) (first d) (ret d) z
    (verbose d) (nfo_stack d).
Definition set_verbose (b : bool) (d : PrintInfo) : PrintInfo :=
  mkPrintInfo (d_heap d) (cons d) (out d) (outstack d) (first d) (ret d)
    (varid d) b (nfo_stack d).

(** The pieces of the current buffer ([] when it is NULL). *)
Definition buf (d : PrintInfo) : list chunk := default [] (out d).

Definition printer_drain (nfo : PrintInfo) : PrintInfo :=
  match out nfo with
  | Some b => set_out (Some []) (set_cons (cons nfo ++ b) nfo)
  | None => nfo
  end.

Definition printer_drain_free (nfo : PrintInfo) : PrintInfo :=
  set_out None (printer_drain nfo).

Definition printer_getout (nfo : PrintInfo) : PrintInfo :=
  set_out (Some (buf nfo)) nfo.

(** printer_append and printer_appendf with a text that is not NULL. *)
Definition printer_append (nfo : PrintInfo) (c : list chunk) : PrintInfo :=
  set_out (Some (buf nfo ++ c)) nfo.

(** printer_append (nfo, str) where str may be NULL: r_strbuf_append refuses
    NULL. *)
Definition printer_append_str (nfo : PrintInfo) (s : option string)
  : bool * PrintInfo :=
  match s with
  | Some s => (true, printer_append nfo [Text s])
  | None => (false, printer_getout nfo)
  end.

(** "%llx" of a 64-bit value. *)
Definition fmt_x64 (z : Z) : string :=
  NilZero.string_of_uint (N.to_hex_uint (Z.to_N (z mod 2 ^ 64))).

(** "%d" takes the low 32 bits of its argument, signed. *)
Definition fmt_d (z : Z) : string :=
  let m := z mod 2 ^ 32 in
  pretty (if m <? 2 ^ 31 then m else m - 2 ^ 32).

Definition obj_varname (nfo : PrintInfo) (obj : addr) : res (string * PrintInfo) :=
  o ← deref (d_heap nfo) obj;
  match varname o with
  | Some vn => Ok (vn, nfo)
  | None =>
      let '(num, nfo) :=
        if bool_decide (memo_id o ≠ 0) then (memo_id o, nfo)
        else (varid nfo, set_varid (varid nfo + 1) nfo) in
      let vn := ("var_" +:+ fmt_x64 num)%string in
      Ok (vn, set_heap (put_obj (d_heap nfo) obj (set_varname (Some vn) o)) nfo)
  end.

Definition nl : string := String "010" EmptyString.

(** 0 ok, >0 printed var instead of obj (ie caller is done), <0 error *)
Definition var_pre_print (nfo : PrintInfo) (obj : addr) : res (Z * PrintInfo) :=
  o ← deref (d_heap nfo) obj;
  if ret nfo then
    let nfo := printer_append nfo [Text "return "] in
    match varname o with
    | Some vn => Ok (1, printer_append nfo [Name vn; Text nl])
    | None => Ok (0, nfo)
    end
  else if first nfo then
    match varname o with
    | Some vn =>
        if verbose nfo then
          Ok (1, printer_append nfo
                   [Text "# "; Name vn;
                    Text (" previously declared" +:+ nl)])
        else Ok (1, nfo)
    | None =>
        '(var, nfo) ← obj_varname nfo obj;
        Ok (0, printer_append nfo [Decl var])
    end
  else
    match varname o with
    | Some vn => Ok (1, printer_append nfo [Name vn])
    | None => Ok (0, nfo)
    end.

Definition newline (nfo : PrintInfo) : PrintInfo :=
  if first nfo || ret nfo then printer_append nfo [Text nl] else nfo.

(** PREPRINT, then the body [k] of a scalar's or container's dump. *)
Definition PREPRINT (nfo : PrintInfo) (obj : addr)
    (k : PrintInfo -> PyObj -> res (bool * PrintInfo)) : res (bool * PrintInfo) :=
  '(o, nfo) ← var_pre_print nfo obj;
  if bool_decide (o ≠ 0) then Ok (bool_decide (0 <= o), nfo)
  else ob ← deref (d_heap nfo) obj; k nfo ob.

Definition dump_bool (nfo : PrintInfo) (obj : addr) : res (bool * PrintInfo) :=
  PREPRINT nfo obj (fun nfo o =>
    let nfo := printer_append nfo [Text (if py_bool o then "True" else "False")] in
    Ok (true, newline nfo)).

Definition dump_int (nfo : PrintInfo) (obj : addr) : res (bool * PrintInfo) :=
  PREPRINT nfo obj (fun nfo o =>
    let nfo := printer_append nfo [Text (fmt_d (py_int o))] in
    Ok (true, newline nfo)).

Definition dump_str (nfo : PrintInfo) (obj : addr) : res (bool * PrintInfo) :=
  PREPRINT nfo obj (fun nfo o =>
    let '(r, nfo) := printer_append_str nfo (py_str o) in
    Ok (r, newline nfo)).

Definition dump_float (nfo : PrintInfo) (obj : addr) : res (bool * PrintInfo) :=
  PREPRINT nfo obj (fun nfo o =>
    let nfo := printer_append nfo [Lf (py_float o)] in
    Ok (true, newline nfo)).

Definition dump_none (nfo : PrintInfo) (obj : addr) : res (bool * PrintInfo) :=
  PREPRINT nfo obj (fun nfo o =>
    let nfo := printer_append nfo [Text "None"] in
    Ok (true, newline nfo)).

(** The loop of dump_iter. *)
Fixpoint dump_iter_loop (dump_obj : PrintInfo -> addr -> res (bool * PrintInfo))
    (nfo : PrintInfo) (l : list addr) : res (bool * PrintInfo) :=
  match l with
  | [] => Ok (true, nfo)
  | obj :: l' =>
      '(r, nfo) ← dump_obj nfo obj;
      if r : bool then
        match l' with
        | [] => Ok (true, nfo)
        | _ => dump_iter_loop dump_obj (printer_append nfo [Text ", "]) l'
        end
      else Ok (false, nfo)
  end.

Definition dump_iter (dump_obj : PrintInfo -> addr -> res (bool * PrintInfo))
    (nfo : PrintInfo) (obj_iter : PyObj) : res (bool * PrintInfo) :=
  (* recursees, so save and modify nfo state *)
  let nfofirst := first nfo in
  let nforet := ret nfo in
  let nfo := set_ret false (set_first false nfo) in
  '(r, nfo) ← dump_iter_loop dump_obj nfo (default [] (py_iter obj_iter));
  Ok (r, set_ret nforet (set_first nfofirst nfo)).

(** The loop of dump_iter_dict. *)
Fixpoint dump_iter_dict_loop (dump_obj : PrintInfo -> addr -> res (bool * PrintInfo))
    (nfo : PrintInfo) (onkey : bool) (l : list addr) : res (bool * PrintInfo) :=
  match l with
  | [] => Ok (true, nfo)
  | obj :: l' =>
      '(r, nfo) ← dump_obj nfo obj;
      if r : bool then
        let nfo :=
          if onkey then printer_append nfo [Text ": "]
          else match l' with
               | [] => nfo
               | _ => printer_append nfo [Text ", "]
               end in
        dump_iter_dict_loop dump_obj nfo (negb onkey) l'
      else Ok (false, nfo)
  end.

Definition dump_iter_dict (dump_obj : PrintInfo -> addr -> res (bool * PrintInfo))
    (nfo : PrintInfo) (obj_iter : PyObj) : res (bool * PrintInfo) :=
  let nfofirst := first nfo in
  let nforet := ret nfo in
  let nfo := set_ret false (set_first false nfo) in
  '(r, nfo) ← dump_iter_dict_loop dump_obj nfo true (default [] (py_iter obj_iter));
  Ok (r, set_ret nforet (set_first nfofirst nfo)).

(** dump_tuple, dump_list and dump_dict: the brackets around the elements. *)
Definition dump_bracketed
    (iter : PrintInfo -> PyObj -> res (bool * PrintInfo))
    (open_ close_ : string) (nfo : PrintInfo) (obj : addr)
  : res (bool * PrintInfo) :=
  PREPRINT nfo obj (fun nfo o =>
    let nfo := printer_append nfo [Text open_] in
    '(r, nfo) ← iter nfo o;
    let nfo := printer_append nfo [Text close_] in
    Ok (r, newline nfo)).

Definition dump_tuple dump_obj := dump_bracketed (dump_iter dump_obj) "(" ")".
Definition dump_list dump_obj := dump_bracketed (dump_iter dump_obj) "[" "]".
Definition dump_dict dump_obj := dump_bracketed (dump_iter_dict dump_obj) "{" "}".

Definition dump_func (nfo : PrintInfo) (obj : addr) : res (bool * PrintInfo) :=
  PREPRINT nfo obj (fun nfo o =>
    let nfo := printer_append nfo
      [Text ("__import__(" +:+ String dquote EmptyString);
       Raw (py_func_module o);
       Text (String dquote ").");
       Raw (py_func_name o)] in
    Ok (true, newline nfo)).

(** prepend nfo->out with obj declaration, then write obj name *)
Definition prepend_obj (dump_obj : PrintInfo -> addr -> res (bool * PrintInfo))
    (nfo : PrintInfo) (obj : addr) : res (bool * PrintInfo) :=
  if first nfo then Ok (false, nfo)
  else
    (* save old state *)
    let nforet := ret nfo in
    let nfo := set_outstack (outstack nfo ++ [out nfo]) nfo in
    (* prepends always start the line, never return *)
    let nfo := set_out None (set_ret false (set_first true nfo)) in
    '(r, nfo) ← dump_obj nfo obj;
    (* restore prev state with previous buffer *)
    let nfo := printer_drain_free nfo in
    let nfo := match r_list_pop (outstack nfo) with
               | Some (b, rest) => set_outstack rest (set_out b nfo)
               | None => set_out None nfo
               end in
    let nfo := set_ret nforet (set_first false nfo) in
    if r : bool then
      o ← deref (d_heap nfo) obj;
      Ok (printer_append_str nfo (varname o))
    else Ok (false, nfo).

Definition dump_oper_init (dump_obj : PrintInfo -> addr -> res (bool * PrintInfo))
    (nfo : PrintInfo) (pop : PyOper) (vn : string) : res (bool * PrintInfo) :=
  let nfo := printer_append nfo [Decl vn] in
  match last (default [] (op_stack pop)) with
  | Some a =>
      '(r, nfo) ← dump_obj nfo a;
      if r : bool then Ok (true, printer_append nfo [Text nl]) else Ok (false, nfo)
  | None => Undef
  end.

Definition dump_oper_reduce (dump_obj : PrintInfo -> addr -> res (bool * PrintInfo))
    (nfo : PrintInfo) (pop : PyOper) (vn : string) : res (bool * PrintInfo) :=
  match last (default [] (op_stack pop)) with
  | Some args =>
      a ← deref (d_heap nfo) args;
      if bool_decide (type a ≠ PY_TUPLE) then Ok (true, nfo) (* Reduce requires tuple *)
      else
        let nfo := printer_append nfo [Decl vn; Name vn] in
        '(r, nfo) ← dump_obj nfo args;
        if r : bool then Ok (true, printer_append nfo [Text nl]) else Ok (false, nfo)
  | None => Undef
  end.

Definition dump_oper_newobj (dump_obj : PrintInfo -> addr -> res (bool * PrintInfo))
    (nfo : PrintInfo) (pop : PyOper) (vn : string) : res (bool * PrintInfo) :=
  match last (default [] (op_stack pop)) with
  | Some args =>
      a ← deref (d_heap nfo) args;
      if bool_decide (type a ≠ PY_TUPLE) then Ok (true, nfo)
      else
        let nfo := printer_append nfo
          [Decl vn; Name vn; Text ".__new__("; Name vn; Text ", *"] in
        '(r, nfo) ← dump_obj nfo args;
        if r : bool then Ok (true, printer_append nfo [Text (")" +:+ nl)])
        else Ok (false, nfo)
  | None => Undef
  end.

Definition dump_oper (dump_obj : PrintInfo -> addr -> res (bool * PrintInfo))
    (nfo : PrintInfo) (pop : PyOper) (vn : string) : res (bool * PrintInfo) :=
  match op pop with
  | OP_FAKE_INIT => dump_oper_init dump_obj nfo pop vn
  | OP_REDUCE => dump_oper_reduce dump_obj nfo pop vn
  | OP_NEWOBJ => dump_oper_newobj dump_obj nfo pop vn
  | _ => Ok (false, nfo) (* Can't parse type yet *)
  end.

(** The loop of dump_what over the operation records; obj->varname is read
    at every turn. *)
Fixpoint dump_what_loop (dump_obj : PrintInfo -> addr -> res (bool * PrintInfo))
    (nfo : PrintInfo) (obj : addr) (l : list oaddr) : res (bool * PrintInfo) :=
  match l with
  | [] => Ok (true, nfo)
  | pop :: l' =>
      po ← oderef (d_heap nfo) pop;
      o ← deref (d_heap nfo) obj;
      vn ← match varname o with Some vn => Ok vn | None => Undef end;
      '(r, nfo) ← dump_oper dump_obj nfo po vn;
      if r : bool then dump_what_loop dump_obj nfo obj l' else Ok (false, nfo)
  end.

(** dump_what from "populate obj->varname" on: the name, the statements of
    the operation records, and the buffers joined. *)
Definition dump_what_decl (dump_obj : PrintInfo -> addr -> res (bool * PrintInfo))
    (nfo : PrintInfo) (obj : addr) (o : PyObj) : res (bool * PrintInfo) :=
  (* populate obj->varname *)
  '(vn, nfo) ← obj_varname nfo obj;
  let pre := buf nfo in (* for prepending objects *)
  let nfo := set_out None nfo in
  let nforet := ret nfo in (* save state, we know nfo->first is true *)
  let nfo := set_first false (set_ret false nfo) in
  '(r, nfo) ← dump_what_loop dump_obj nfo obj (default [] (py_what o));
  let nfo := set_ret nforet (set_first true nfo) in
  if r : bool then
    let nfo := if ret nfo
               then printer_append nfo [Text "return "; Name vn; Text nl]
               else nfo in
    (* combine pre and out *)
    if r_strbuf_nonempty (out nfo)
    then Ok (true, set_out (Some (pre ++ buf nfo)) nfo)
    else Ok (true, nfo)
  else Ok (false, nfo).

Definition dump_what (dump_obj : PrintInfo -> addr -> res (bool * PrintInfo))
    (nfo : PrintInfo) (obj : addr) : res (bool * PrintInfo) :=
  o ← deref (d_heap nfo) obj;
  if negb (first nfo) then
    match varname o with
    | Some vn => Ok (true, printer_append nfo [Name vn])
    | None => prepend_obj dump_obj nfo obj
    end
  else
    (* it is first object *)
    match varname o, ret nfo with
    | Some vn, true =>
        Ok (true, printer_append (printer_append nfo [Text "return "])
                    [Text "return "; Name vn; Text nl])
    | _, _ => dump_what_decl dump_obj nfo obj o
    end.

Fixpoint dump_obj (fuel : nat) (nfo : PrintInfo) (obj : addr)
  : res (bool * PrintInfo) :=
  match fuel with
  | O => OutOfFuel
  | S n =>
      o ← deref (d_heap nfo) obj;
      match type o with
      | PY_BOOL => dump_bool nfo obj
      | PY_INT => dump_int nfo obj
      | PY_STR => dump_str nfo obj
      | PY_FLOAT => dump_float nfo obj
      | PY_NONE => dump_none nfo obj
      | PY_TUPLE => dump_tuple (dump_obj n) nfo obj
      | PY_LIST => dump_list (dump_obj n) nfo obj
      | PY_DICT => dump_dict (dump_obj n) nfo obj
      | PY_FUNC => dump_func nfo obj
      | PY_WHAT => dump_what (dump_obj n) nfo obj
      | _ => Ok (false, nfo) (* Can't handle type *)
      end
  end.

(** The loop of dump_stack; [len] counts down to the top. *)
Fixpoint dump_stack_loop (fuel : nat) (nfo : PrintInfo) (n : string)
    (l : list addr) : res (bool * PrintInfo) :=
  match l with
  | [] => Ok (true, nfo)
  | obj :: l' =>
      let len := r_list_length l' in
      let nfo := printer_append nfo
        [Text ("## " +:+ n +:+ "[" +:+ fmt_d len +:+ "] "
               +:+ (if bool_decide (len = 0) then "TOP" else "") +:+ nl)] in
      let nfo := printer_drain nfo in
      let nfo := set_first true nfo in
      let nfo := if bool_decide (len = 0) then set_ret true nfo else nfo in
      '(r, nfo) ← dump_obj fuel nfo obj;
      if r : bool then dump_stack_loop fuel (printer_drain nfo) n l'
      else Ok (false, nfo)
  end.

Definition dump_stack (fuel : nat) (nfo : PrintInfo) (stk : list addr)
    (n : string) : res (bool * PrintInfo) :=
  let len := r_list_length stk in
  let nfo := if bool_decide (len = 0)
             then printer_append nfo [Text ("## stack " +:+ n +:+ " empty" +:+ nl)]
             else nfo in
  let nfo := printer_append nfo
    [Text ("## Stack " +:+ n +:+ " start, len " +:+ fmt_d len +:+ nl)] in
  dump_stack_loop fuel nfo n stk.

Definition dump_machine (fuel : nat) (pvm : PMState) (nfo : PrintInfo)
  : res (bool * PrintInfo) :=
  let nfo := set_verbose true nfo in (* temp for debuging *)
  let nfo := set_outstack [] nfo in
  '(r, nfo) ← (if nfo_stack nfo then dump_stack fuel nfo (stack pvm) "VM"
               else Ok (true, nfo));
  Ok (r, printer_drain_free nfo).

(** ** The command (pickle_dec) *)

(** What the command reads from the host: the two configuration values, the
    seek, the instructions the file holds from the seek on, and the JSON
    renderer (json_dump.c is not part of the sources): the text it leaves in
    its PJ when it succeeds. *)
Record RCore := mkRCore {
  asm_arch : string;
  anal_verbose : bool;
  core_offset : Z;
  io : list Insn;
  json_dump_state : PMState -> option (list chunk)
}.

(** PMState state = {0} *)
Definition zero_state : PMState :=
  mkPMState (mkHeap [] []) [] [] [] ∅ 0 0 0 0 0 false false.

Definition init_machine_state (c : RCore) (pvm : PMState) : bool * PMState :=
  if bool_decide (asm_arch c ≠ "pickle"%string) then (false, pvm)
  else
    (true, mkPMState (heap pvm) [] [] [] ∅ (core_offset c) (core_offset c)
             UT64_MAX (ver pvm) (pvm_recurse pvm) (break_on_stop pvm)
             (anal_verbose c)).

(** Modelled from the spec: print_info_init is declared in dump.h and defined
    outside the sources.  The spec gives PrintInfo an empty buffer, [varid]
    a counter that starts at 0, [verbose] fed from anal.verbose, and the VM
    stack as the stack rendered by default. *)
Definition print_info_init (pvm : PMState) (c : RCore) : bool * PrintInfo :=
  (true, mkPrintInfo (heap pvm) [] None [] true false 0 (anal_verbose c) true).

Fixpoint has_char (ch : ascii) (s : string) : bool :=
  match s with
  | String c t => bool_decide (c = ch) || has_char ch t
  | EmptyString => false
  end.

Fixpoint string_drop (n : nat) (s : string) : string :=
  match n, s with
  | S n', String _ t => string_drop n' t
  | _, _ => s
  end.

(** The pseudocode branch of pickle_dec: print_info_init, dump_machine and
    print_info_clean; what was printed, and the heap the renderer leaves. *)
Definition render_pseudocode (fuel : nat) (state : PMState) (c : RCore)
  : res (list chunk * Heap) :=
  let '(ok, nfo) := print_info_init state c in
  if ok : bool then
    '(_, nfo) ← dump_machine fuel state nfo;
    Ok (cons nfo, d_heap nfo)
  else Ok ([], heap state).

(** The value returned to the core and what was printed on the console.
    empty_state, which tears the machine down on the way out, is left out:
    it runs after the last output and the value returned does not depend
    on it. *)
Definition pickle_dec (fuel : nat) (c : RCore) (input : option string)
  : res (Z * list chunk) :=
  match input with
  | None => Ok (0, [])
  | Some input =>
      if negb (String.prefix "pdP" input) then Ok (0, [])
      else
        let input := string_drop 3 input in
        if has_char "?" input then Ok (1, [External "help_msg"])
        else
          let '(ok, state) := init_machine_state c zero_state in
          if ok : bool then
            let state := with_break_on_stop true state in
            '(pvm_fin, state) ← run_pvm fuel state (io c);
            if has_char "j" input then
              match json_dump_state c state with
              | Some js => Ok (1, js)
              | None => Ok (1, [])
              end
            else
              let state := with_recurse (pvm_recurse state + 1) state in
              '(printed, _) ← render_pseudocode fuel state c;
              Ok (1, printed)
          else Ok (1, [])
  end.

(** ** Examples *)

Definition plain_op (v : Z) (m : string) : RAnalOp :=
  mkRAnalOp v (Some m) 0 0 1 false (fun _ => None) None.

Definition insn (c : PyOp) (v : Z) (m : string) : Insn :=
  mkInsn c (Some (plain_op v m)).

Definition host (l : list Insn) : RCore :=
  mkRCore "pickle" false 0 l (fun _ => None).

(** ]\x94h\x00a. *)
Definition self_ref : list Insn :=
  [insn OP_EMPTY_LIST 0 "empty_list"; insn OP_MEMOIZE 0 "memoize";
   insn OP_BINGET 0 "binget 0x0"; insn OP_APPEND 0 "append";
   insn OP_STOP 0 "stop"].

Definition two_none : list Insn :=
  [insn OP_NONE 0 "none"; insn OP_NONE 0 "none"; insn OP_STOP 0 "stop"].

Definition reduce_1 : list Insn :=
  [insn OP_NONE 0 "none"; insn OP_BININT1 1 "binint1 0x1";
   insn OP_TUPLE1 0 "tuple1"; insn OP_REDUCE 0 "reduce"; insn OP_STOP 0 "stop"].

Definition reduce_dict : list Insn :=
  [insn OP_NONE 0 "none"; insn OP_EMPTY_DICT 0 "empty_dict";
   insn OP_TUPLE1 0 "tuple1"; insn OP_REDUCE 0 "reduce"; insn OP_STOP 0 "stop"].

(** N\x94N. *)
Definition none_memo_none : list Insn :=
  [insn OP_NONE 0 "none"; insn OP_MEMOIZE 0 "memoize"; insn OP_NONE 0 "none";
   insn OP_STOP 0 "stop"].

Definition text_of (r : res (Z * list chunk)) : option string :=
  match r with Ok (_, l) => plain_text l | _ => None end.

(** * Properties *)

(** ** Reasoning about [res] *)

Lemma bind_Ok {A B} (m : res A) (k : A -> res B) (r : B) :
  m ≫= k = Ok r -> exists a, m = Ok a /\ k a = Ok r.
Proof. destruct m; simpl; intros; eauto; discriminate. Qed.

Lemma deref_Ok h a o :
  deref h a = Ok o <-> objs h !! a = Some o /\ freed o = false.
Proof.
  unfold deref. destruct (objs h !! a) as [o'|]; [|split; [discriminate|intros [? _]; discriminate]].
  destruct (freed o') eqn:E; split; intros H.
  - discriminate.
  - destruct H as [H1 H2]. injection H1 as ->. congruence.
  - injection H as ->. auto.
  - destruct H as [H1 _]. congruence.
Qed.

Lemma oderef_Ok h p o :
  oderef h p = Ok o <-> opers h !! p = Some o /\ op_freed o = false.
Proof.
  unfold oderef. destruct (opers h !! p) as [o'|]; [|split; [discriminate|intros [? _]; discriminate]].
  destruct (op_freed o') eqn:E; split; intros H.
  - discriminate.
  - destruct H as [H1 H2]. injection H1 as ->. congruence.
  - injection H as ->. auto.
  - destruct H as [H1 _]. congruence.
Qed.

(** Take apart a hypothesis that says a computation returned. *)
Ltac res_step :=
  match goal with
  | H : Ok _ = Ok _ |- _ => injection H as H; try subst
  | H : (_, _) = (_, _) |- _ => injection H as H; try subst
  | H : OutOfFuel = Ok _ |- _ => discriminate H
  | H : Undef = Ok _ |- _ => discriminate H
  | H : _ ≫= _ = Ok _ |- _ =>
      let a := fresh "a" in let E := fresh "E" in
      apply bind_Ok in H; destruct H as (a & E & H)
  | H : (let '(_, _) := ?p in _) = Ok _ |- _ => destruct p eqn:?
  | H : (if ?b then _ else _) = Ok _ |- _ => destruct b eqn:?
  | H : match ?x with _ => _ end = Ok _ |- _ => destruct x eqn:?
  end.
Ltac res_inv := repeat (res_step; simpl in *).

(** ** C1: the self-referencing list *)

Section SelfRef.

(** The heap the interpreter leaves for ]\x94h\x00a. : one list that
    holds itself. *)
Definition self_ref_obj : PyObj :=
  mkPyObj PY_LIST 0 UT64_MAX 1 None 0 (V_iter (Some [0%nat])) false.

Definition self_ref_state : PMState :=
  mkPMState (mkHeap [self_ref_obj] []) [0%nat] [] [] ∅ 4 0 UT64_MAX 0 0 true false.

Lemma self_ref_run fuel :
  run_pvm (S fuel)
    (with_break_on_stop true (snd (init_machine_state (host self_ref) zero_state)))
    self_ref = Ok (true, self_ref_state).
Proof. reflexivity. Qed.

(** Inside the list the renderer meets the list again, without a name and
    without a mark: every level of fuel is spent one call deeper. *)
Lemma dump_self_ref_inline fuel : forall nfo,
  first nfo = false -> ret nfo = false ->
  d_heap nfo = mkHeap [self_ref_obj] [] ->
  dump_obj fuel nfo 0%nat = OutOfFuel.
Proof.
  induction fuel as [|n IH]; intros nfo Hf Hr Hh; [reflexivity |].
  simpl. unfold deref. rewrite Hh. simpl.
  unfold dump_list, dump_bracketed, PREPRINT, var_pre_print, deref.
  rewrite Hh, Hr, Hf. simpl. rewrite Hh. simpl.
  unfold dump_iter. simpl.
  rewrite IH; auto.
Qed.


Lemma dump_self_ref_top fuel : forall nfo,
  ret nfo = true ->
  d_heap nfo = mkHeap [self_ref_obj] [] ->
  dump_obj fuel nfo 0%nat = OutOfFuel.
Proof.
  destruct fuel as [|n]; intros nfo Hr Hh; [reflexivity |].
  simpl. unfold deref. rewrite Hh. simpl.
  unfold dump_list, dump_bracketed, PREPRINT, var_pre_print, deref.
  rewrite Hh, Hr. simpl. rewrite Hh. simpl.
  unfold dump_iter. simpl.
  rewrite dump_self_ref_inline; auto.
Qed.

Lemma dump_machine_self_ref fuel pvm nfo :
  stack pvm = [0%nat] ->
  nfo_stack nfo = true ->
  d_heap nfo = mkHeap [self_ref_obj] [] ->
  dump_machine fuel pvm nfo = OutOfFuel.
Proof.
  intros Hs Hn Hh. unfold dump_machine.
  replace (nfo_stack (set_outstack [] (set_verbose true nfo))) with true by (symmetry; exact Hn).
  rewrite Hs. unfold dump_stack, dump_stack_loop.
  rewrite dump_self_ref_top; [reflexivity | reflexivity | exact Hh].
Qed.

Lemma render_self_ref fuel st c :
  stack st = [0%nat] -> heap st = mkHeap [self_ref_obj] [] ->
  render_pseudocode fuel st c = OutOfFuel.
Proof.
  intros Hs Hh. unfold render_pseudocode, print_info_init.
  rewrite dump_machine_self_ref; [reflexivity | exact Hs | reflexivity | exact Hh].
Qed.

Lemma bind_Ok_eq {A B} (a : A) (k : A -> res B) : Ok a ≫= k = k a.
Proof. reflexivity. Qed.

Lemma bind_OutOfFuel {A B} (k : A -> res B) : OutOfFuel ≫= k = OutOfFuel.
Proof. reflexivity. Qed.

(** The pseudocode path of the command, for a host set to pickle. *)
Lemma pickle_dec_pdP fuel c :
  asm_arch c = "pickle"%string ->
  pickle_dec fuel c (Some "pdP"%string) =
    ('(pvm_fin, state) ← run_pvm fuel
        (with_break_on_stop true (snd (init_machine_state c zero_state))) (io c);
     '(printed, _) ← render_pseudocode fuel
        (with_recurse (pvm_recurse state + 1) state) c;
     Ok (1, printed)).
Proof.
  intros H. unfold pickle_dec, init_machine_state. rewrite H. reflexivity.
Qed.

(** C1. The pickle ]\x94h\x00a. (EMPTY_LIST, MEMOIZE, BINGET 0, APPEND, STOP)
    is not rendered as var_0 = [] / var_0.append(var_0) / return var_0: the
    interpreter builds the list that holds itself, and the renderer then
    descends into it without end; whatever the fuel, the command runs out
    of it and prints nothing. *)
Theorem C1_self_ref_render_runs_forever : forall fuel,
  pickle_dec fuel (host self_ref) (Some "pdP"%string) = OutOfFuel.
Proof.
  intros [|n]; [vm_compute; reflexivity |].
  rewrite pickle_dec_pdP by reflexivity.
  change (io (host self_ref)) with self_ref.
  rewrite self_ref_run, bind_Ok_eq.
  rewrite render_self_ref by reflexivity.
  apply bind_OutOfFuel.
Qed.

End SelfRef.

(** ** C2: variable names *)

Section Names.

(** A name is made from memo_id whenever memo_id is not 0, and py_obj_new
    leaves UT64_MAX there: the counter is not used and not advanced. *)
Lemma obj_varname_of_new nfo obj o :
  deref (d_heap nfo) obj = Ok o ->
  varname o = None ->
  memo_id o = UT64_MAX ->
  obj_varname nfo obj =
    Ok ("var_ffffffffffffffff"%string,
        set_heap (put_obj (d_heap nfo) obj
                    (set_varname (Some "var_ffffffffffffffff"%string) o)) nfo).
Proof.
  intros Hd Hv Hm. unfold obj_varname. rewrite Hd. simpl. rewrite Hv, Hm.
  reflexivity.
Qed.

(** C2. The renderer does not name a never-memoized object var_<varid++>, and
    it does not name a memoized one var_<slot>: on None, None, STOP the
    bottom None is declared as var_ffffffffffffffff (the claim: var_0), and
    on None, MEMOIZE, None, STOP, where the bottom None sits in memo slot 0,
    it is declared under the same name, its memo_id still UT64_MAX after the
    run. *)
Theorem C2_names_come_from_unset_memo_id :
  text_of (pickle_dec 2 (host two_none) (Some "pdP"%string)) =
    Some ("## Stack VM start, len 2" +:+ nl +:+ "## VM[1] " +:+ nl +:+
          "var_ffffffffffffffff = None" +:+ nl +:+
          "## VM[0] TOP" +:+ nl +:+ "return None" +:+ nl)%string
  /\ text_of (pickle_dec 2 (host none_memo_none) (Some "pdP"%string)) =
    Some ("## Stack VM start, len 2" +:+ nl +:+ "## VM[1] " +:+ nl +:+
          "var_ffffffffffffffff = None" +:+ nl +:+
          "## VM[0] TOP" +:+ nl +:+ "return None" +:+ nl)%string
  /\ (exists pvm o,
        run_pvm 2 (with_break_on_stop true
                     (snd (init_machine_state (host none_memo_none) zero_state)))
          none_memo_none = Ok (true, pvm)
        /\ objs (heap pvm) !! 0%nat = Some o /\ memo_id o = UT64_MAX).
Proof.
  split; [vm_compute; reflexivity |].
  split; [vm_compute; reflexivity |].
  eexists _, _. split; [vm_compute; reflexivity |].
  split; reflexivity.
Qed.

End Names.

(** ** C10: BINGET and LONG_BINGET *)

Section MemoGet.

Lemma incref_Ok h a o :
  deref h a = Ok o ->
  incref h a = Ok (put_obj h a (set_refcnt (refcnt o + 1) o)).
Proof. intros H. unfold incref. rewrite H. reflexivity. Qed.

(** C10. memo_get with a negative slot, or with a slot that holds no object
    (never stored, or stored from an empty stack), fails and leaves the whole
    machine, its stack included, as it was, and run_pvm stops there with
    failure; with a slot that holds a live object, it pushes the object and
    adds one to its reference count. *)
Theorem C10_memo_get : forall (pvm : PMState) (loc : Z),
  ((loc < 0 \/ memo pvm !! loc = None \/ memo pvm !! loc = Some None) ->
     memo_get pvm loc = Ok (false, pvm)
     /\ forall fuel o c l,
          (c = OP_BINGET \/ c = OP_LONG_BINGET) -> st64_of (op_val o) = loc ->
          run_loop fuel pvm (mkInsn c (Some o) :: l) = Ok (false, pvm))
  /\ (forall obj o,
        0 <= loc -> memo pvm !! loc = Some (Some obj) ->
        deref (heap pvm) obj = Ok o ->
        exists pvm',
          memo_get pvm loc = Ok (true, pvm')
          /\ stack pvm' = stack pvm ++ [obj]
          /\ deref (heap pvm') obj = Ok (set_refcnt (refcnt o + 1) o)
          /\ metastack pvm' = metastack pvm /\ memo pvm' = memo pvm).
Proof.
  intros pvm loc. split.
  - intros H.
    assert (Hg : memo_get pvm loc = Ok (false, pvm)).
    { unfold memo_get. case_bool_decide; [|reflexivity].
      destruct H as [H | [H | H]]; [lia | rewrite H; reflexivity | rewrite H; reflexivity]. }
    split; [exact Hg |].
    intros fuel o c l Hc Hv. simpl.
    assert (Hs : is_stop c = false) by (destruct Hc; subst; reflexivity).
    rewrite Hs, andb_false_r.
    assert (He : exec_op fuel pvm o c = Ok (false, pvm)).
    { destruct Hc; subst c; simpl; rewrite Hv; exact Hg. }
    rewrite He. reflexivity.
  - intros obj o Hl Hm Hd.
    unfold memo_get. case_bool_decide; [|lia]. rewrite Hm.
    rewrite (incref_Ok _ _ _ Hd). simpl.
    eexists. split; [reflexivity |]. simpl.
    split; [reflexivity |]. split; [|split; reflexivity].
    apply deref_Ok in Hd as [Hd1 Hd2].
    apply deref_Ok. simpl. split; [|exact Hd2].
    apply list_lookup_insert_eq. eapply lookup_lt_Some; eauto.
Qed.

End MemoGet.

(** ** C9: the value pickle_dec returns *)

Section ExitStatus.

Definition wrong_arch : RCore := mkRCore "x86" false 0 two_none (fun _ => None).

(** C9 as stated fails: with the architecture not set to pickle nothing is
    printed, with it set the pseudocode is printed, and pickle_dec returns 1
    both times; no value of the status tells the two apart. *)
Lemma C9_status_does_not_follow_output :
  ~ exists success : Z, forall fuel c input r printed,
      pickle_dec fuel c input = Ok (r, printed) ->
      (r = success <-> printed <> []).
Proof.
  intros [success H].
  assert (H1 := H 2%nat wrong_arch (Some "pdP"%string) 1 [] eq_refl).
  destruct (pickle_dec 2 (host two_none) (Some "pdP"%string)) as [[r pr]| |] eqn:E;
    try (vm_compute in E; discriminate).
  assert (H2 := H 2%nat (host two_none) (Some "pdP"%string) r pr E).
  vm_compute in E. injection E as <- <-.
  destruct H1 as [H1 _], H2 as [_ H2].
  apply H1; [|reflexivity]. apply H2. discriminate.
Qed.

(** The machine pickle_dec runs the interpreter on. *)
Definition command_state (c : RCore) : PMState :=
  with_break_on_stop true (snd (init_machine_state c zero_state)).

(** What pdP prints for an empty stack. *)
Definition empty_stack_text : list chunk :=
  [Text ("## stack VM empty" +:+ nl); Text ("## Stack VM start, len 0" +:+ nl)].

(** An empty stack is rendered whatever the fuel. *)
Lemma render_empty_stack fuel st c :
  stack st = [] -> render_pseudocode fuel st c = Ok (empty_stack_text, heap st).
Proof.
  intros Hs. unfold render_pseudocode, print_info_init, dump_machine.
  cbn [nfo_stack set_outstack set_verbose]. rewrite Hs. reflexivity.
Qed.

Lemma init_pickle c :
  asm_arch c = "pickle"%string ->
  init_machine_state c zero_state = (true, snd (init_machine_state c zero_state)).
Proof. intros H. unfold init_machine_state. rewrite H. reflexivity. Qed.

Lemma init_other c :
  asm_arch c <> "pickle"%string -> init_machine_state c zero_state = (false, zero_state).
Proof.
  intros H. unfold init_machine_state.
  rewrite bool_decide_eq_true_2 by exact H. reflexivity.
Qed.

(** C9, amended. pickle_dec returns 0, printing nothing, for a command that
    does not begin with pdP.  For one that does it returns 1 whenever it
    returns: with the help text when the command holds a question mark;
    with nothing printed when asm.arch is not pickle; and otherwise, once
    the run has returned (failed or not), with the JSON text for pdPj, or
    with what the renderer printed once the renderer has returned (failed
    or not).  On an empty file the run fails and the command returns 1 with
    the text of an empty stack.  It returns in no other way, and when the
    renderer does not return (C1) neither does the command.  The value says
    that the command was taken, not that something was printed. *)
Theorem C9_returns_handled : forall fuel c,
  pickle_dec fuel c None = Ok (0, [])
  /\ (forall s, String.prefix "pdP" s = false -> pickle_dec fuel c (Some s) = Ok (0, []))
  /\ (forall s, String.prefix "pdP" s = true ->
        (has_char "?" (string_drop 3 s) = true ->
           pickle_dec fuel c (Some s) = Ok (1, [External "help_msg"]))
        /\ (has_char "?" (string_drop 3 s) = false ->
              asm_arch c <> "pickle"%string ->
              pickle_dec fuel c (Some s) = Ok (1, []))
        /\ (has_char "?" (string_drop 3 s) = false ->
              asm_arch c = "pickle"%string ->
              forall b st, run_pvm fuel (command_state c) (io c) = Ok (b, st) ->
                (has_char "j" (string_drop 3 s) = true ->
                   pickle_dec fuel c (Some s)
                   = Ok (1, default [] (json_dump_state c st)))
                /\ (has_char "j" (string_drop 3 s) = false ->
                      forall p h,
                        render_pseudocode fuel (with_recurse (pvm_recurse st + 1) st) c
                        = Ok (p, h) ->
                        pickle_dec fuel c (Some s) = Ok (1, p)))
        /\ (has_char "?" (string_drop 3 s) = false ->
              has_char "j" (string_drop 3 s) = false ->
              asm_arch c = "pickle"%string -> io c = [] ->
              pickle_dec fuel c (Some s) = Ok (1, empty_stack_text))
        /\ (forall r printed, pickle_dec fuel c (Some s) = Ok (r, printed) ->
              r = 1
              /\ (has_char "?" (string_drop 3 s) = false ->
                  asm_arch c = "pickle"%string ->
                  exists b st,
                    run_pvm fuel (command_state c) (io c) = Ok (b, st)
                    /\ (has_char "j" (string_drop 3 s) = false ->
                        exists h,
                          render_pseudocode fuel (with_recurse (pvm_recurse st + 1) st) c
                          = Ok (printed, h)))))
  /\ (forall s, pickle_dec fuel c (Some s) = OutOfFuel ->
        String.prefix "pdP" s = true
        /\ (run_pvm fuel (command_state c) (io c) = OutOfFuel
            \/ exists b st,
                 run_pvm fuel (command_state c) (io c) = Ok (b, st)
                 /\ render_pseudocode fuel (with_recurse (pvm_recurse st + 1) st) c
                    = OutOfFuel)).
Proof.
  intros fuel c. split; [reflexivity |]. split; [|split].
  - intros s Hp. unfold pickle_dec. rewrite Hp. reflexivity.
  - intros s Hp. unfold pickle_dec. rewrite Hp. cbn [negb]. split_and!.
    + intros Hq. rewrite Hq. reflexivity.
    + intros Hq Ha. rewrite Hq, (init_other _ Ha). reflexivity.
    + intros Hq Ha b st Hrun. rewrite Hq, (init_pickle _ Ha).
      fold (command_state c). rewrite Hrun. cbn [mbind res_bind]. split.
      * intros Hj. rewrite Hj. destruct (json_dump_state c st); reflexivity.
      * intros Hj p h Hr. rewrite Hj, Hr. reflexivity.
    + intros Hq Hj Ha Hio. rewrite Hq, (init_pickle _ Ha).
      fold (command_state c). rewrite Hio. cbn [run_pvm mbind res_bind]. rewrite Hj.
      rewrite render_empty_stack; [reflexivity |].
      unfold command_state, init_machine_state. rewrite Ha. reflexivity.
    + intros r printed H. destruct (has_char "?" (string_drop 3 s)) eqn:Hq.
      { injection H as <- <-. split; [reflexivity | discriminate]. }
      destruct (decide (asm_arch c = "pickle"%string)) as [Ha | Ha].
      2:{ rewrite (init_other _ Ha) in H. injection H as <- <-.
          split; [reflexivity | contradiction]. }
      rewrite (init_pickle _ Ha) in H. fold (command_state c) in H.
      apply bind_Ok in H as ([b st] & Hrun & H).
      destruct (has_char "j" (string_drop 3 s)) eqn:Hj.
      { assert (r = 1) by (destruct (json_dump_state c st); congruence).
        split; [assumption |]. intros _ _. exists b, st. split; [exact Hrun | discriminate]. }
      apply bind_Ok in H as ([p h] & Hr & H). injection H as <- <-.
      split; [reflexivity |]. intros _ _. exists b, st. split; [exact Hrun |].
      intros _. exists h. exact Hr.
  - intros s H. unfold pickle_dec in H.
    destruct (String.prefix "pdP" s) eqn:Hp; [|discriminate]. cbn [negb] in H.
    split; [reflexivity |].
    destruct (has_char "?" (string_drop 3 s)); [discriminate |].
    destruct (decide (asm_arch c = "pickle"%string)) as [Ha | Ha];
      [| rewrite (init_other _ Ha) in H; discriminate].
    rewrite (init_pickle _ Ha) in H. fold (command_state c) in H.
    destruct (run_pvm fuel (command_state c) (io c)) as [[b st]| |] eqn:Hrun;
      [| left; reflexivity | discriminate].
    right. exists b, st. split; [reflexivity |]. cbn [mbind res_bind] in H.
    destruct (has_char "j" (string_drop 3 s));
      [destruct (json_dump_state c st); discriminate |].
    destruct (render_pseudocode fuel (with_recurse (pvm_recurse st + 1) st) c)
      as [[p h]| |]; [discriminate | reflexivity | discriminate].
Qed.

(** None, None, STOP under pdP: the run and the renderer return, and the
    command returns 1 with the text of the renderer. *)
Definition two_none_state : PMState :=
  Eval vm_compute in
    match run_pvm 2 (command_state (host two_none)) two_none with
    | Ok (_, s) => s
    | _ => zero_state
    end.

Definition two_none_text : list chunk :=
  Eval vm_compute in
    match render_pseudocode 2
            (with_recurse (pvm_recurse two_none_state + 1) two_none_state)
            (host two_none) with
    | Ok (p, _) => p
    | _ => []
    end.

Definition two_none_heap : Heap :=
  Eval vm_compute in
    match render_pseudocode 2
            (with_recurse (pvm_recurse two_none_state + 1) two_none_state)
            (host two_none) with
    | Ok (_, h) => h
    | _ => mkHeap [] []
    end.

Lemma two_none_run :
  run_pvm 2 (command_state (host two_none)) (io (host two_none))
  = Ok (true, two_none_state).
Proof. vm_compute. reflexivity. Qed.

Lemma two_none_render :
  render_pseudocode 2 (with_recurse (pvm_recurse two_none_state + 1) two_none_state)
    (host two_none)
  = Ok (two_none_text, two_none_heap).
Proof. vm_compute. reflexivity. Qed.

Lemma C9_returns_handled_witness :
  pickle_dec 2 (host two_none) (Some "pdP"%string) = Ok (1, two_none_text)
  /\ pickle_dec 2 wrong_arch (Some "pdP"%string) = Ok (1, [])
  /\ pickle_dec 2 (host []) (Some "pdP"%string) = Ok (1, empty_stack_text).
Proof.
  pose proof (C9_returns_handled 2 (host two_none)) as (_ & _ & H & _).
  destruct (H "pdP"%string eq_refl) as (_ & _ & H3 & _).
  destruct (H3 eq_refl eq_refl true two_none_state two_none_run) as [_ H5].
  split; [exact (H5 eq_refl two_none_text two_none_heap two_none_render) |].
  pose proof (C9_returns_handled 2 wrong_arch) as (_ & _ & Hw & _).
  destruct (Hw "pdP"%string eq_refl) as (_ & H2 & _).
  assert (Ha : asm_arch wrong_arch <> "pickle"%string) by discriminate.
  split; [exact (H2 eq_refl Ha) |].
  pose proof (C9_returns_handled 2 (host [])) as (_ & _ & He & _).
  destruct (He "pdP"%string eq_refl) as (_ & _ & _ & H4 & _).
  exact (H4 eq_refl eq_refl eq_refl eq_refl).
Defined.

End ExitStatus.

(** ** What a call of the renderer leaves unchanged *)

Section RenderFrame.

(** The renderer writes to the heap only to cache a name on an object that
    has none. *)
Definition names_only (h h' : Heap) : Prop :=
  opers h' = opers h /\ length (objs h') = length (objs h) /\
  forall a o, objs h !! a = Some o ->
    exists v, objs h' !! a = Some (set_varname v o)
              /\ (varname o <> None -> v = varname o).

Lemma set_varname_same o : set_varname (varname o) o = o.
Proof. destruct o; reflexivity. Qed.

Lemma names_only_refl h : names_only h h.
Proof.
  split; [reflexivity | split; [reflexivity |]].
  intros a o H. exists (varname o). rewrite set_varname_same. auto.
Qed.

Lemma names_only_trans h1 h2 h3 :
  names_only h1 h2 -> names_only h2 h3 -> names_only h1 h3.
Proof.
  intros (Ho1 & Hl1 & H1) (Ho2 & Hl2 & H2).
  split; [congruence | split; [congruence |]].
  intros a o Ha. destruct (H1 a o Ha) as (v1 & Hv1 & Hk1).
  destruct (H2 a _ Hv1) as (v2 & Hv2 & Hk2).
  exists v2. split; [exact Hv2 |].
  intros Hn. simpl in Hk2. rewrite <- (Hk1 Hn). apply Hk2. rewrite (Hk1 Hn). exact Hn.
Qed.

Lemma names_only_put h a o v :
  objs h !! a = Some o -> varname o = None ->
  names_only h (put_obj h a (set_varname v o)).
Proof.
  intros Ha Hn. split; [reflexivity | split; [apply length_insert |]].
  intros b o' Hb. simpl. destruct (decide (a = b)) as [->|Hne].
  - rewrite list_lookup_insert_eq by (eapply lookup_lt_Some; eauto).
    assert (o' = o) by congruence. subst o'.
    exists v. split; [reflexivity | congruence].
  - rewrite list_lookup_insert_ne by exact Hne.
    exists (varname o'). rewrite set_varname_same. auto.
Qed.

Definition inline (nfo : PrintInfo) : Prop := first nfo = false /\ ret nfo = false.

Definition frame (nfo nfo' : PrintInfo) : Prop :=
  first nfo' = first nfo /\ ret nfo' = ret nfo
  /\ outstack nfo' = outstack nfo
  /\ verbose nfo' = verbose nfo /\ nfo_stack nfo' = nfo_stack nfo
  /\ names_only (d_heap nfo) (d_heap nfo')
  /\ (exists dc, cons nfo' = cons nfo ++ dc)
  /\ (inline nfo -> exists db, buf nfo' = buf nfo ++ db).

Lemma frame_refl nfo : frame nfo nfo.
Proof.
  unfold frame; split_and!; auto using names_only_refl.
  - exists []. symmetry. apply app_nil_r.
  - exists []. symmetry. apply app_nil_r.
Qed.

Lemma frame_trans n1 n2 n3 : frame n1 n2 -> frame n2 n3 -> frame n1 n3.
Proof.
  intros (F1 & R1 & O1 & V1 & S1 & N1 & [dc1 C1] & B1)
         (F2 & R2 & O2 & V2 & S2 & N2 & [dc2 C2] & B2).
  unfold frame; split_and!; try congruence.
  - eapply names_only_trans; eauto.
  - exists (dc1 ++ dc2). rewrite C2, C1. symmetry. apply app_assoc.
  - intros [Hf Hr]. destruct B1 as [db1 E1]; [split; auto |].
    destruct B2 as [db2 E2]; [split; congruence |].
    exists (db1 ++ db2). rewrite E2, E1. symmetry. apply app_assoc.
Qed.

Lemma frame_append nfo c : frame nfo (printer_append nfo c).
Proof.
  unfold frame; split_and!; auto using names_only_refl.
  - exists []. symmetry. apply app_nil_r.
  - exists c. reflexivity.
Qed.

Lemma frame_getout nfo : frame nfo (printer_getout nfo).
Proof.
  unfold frame; split_and!; auto using names_only_refl.
  - exists []. symmetry. apply app_nil_r.
  - exists []. symmetry. apply app_nil_r.
Qed.

Lemma frame_newline nfo : frame nfo (newline nfo).
Proof.
  unfold newline. destruct (first nfo || ret nfo); auto using frame_refl, frame_append.
Qed.

Lemma obj_varname_frame nfo obj vn nfo' :
  obj_varname nfo obj = Ok (vn, nfo') ->
  first nfo' = first nfo /\ ret nfo' = ret nfo /\ outstack nfo' = outstack nfo
  /\ verbose nfo' = verbose nfo /\ nfo_stack nfo' = nfo_stack nfo
  /\ names_only (d_heap nfo) (d_heap nfo')
  /\ cons nfo' = cons nfo /\ out nfo' = out nfo
  /\ exists o, deref (d_heap nfo') obj = Ok o /\ varname o = Some vn.
Proof.
  unfold obj_varname. intros H.
  destruct (deref (d_heap nfo) obj) as [o| |] eqn:Ed; simpl in H; try discriminate.
  pose proof Ed as Ed'. apply deref_Ok in Ed' as [Hl Hfr].
  destruct (varname o) as [v|] eqn:Ev.
  - injection H as <- <-. unfold frame; split_and!; auto using names_only_refl. eauto.
  - destruct (bool_decide (memo_id o ≠ 0)); simpl in H; injection H as <- <-;
      (split_and!; simpl; auto using names_only_put;
       eexists; split; [apply deref_Ok; simpl; split;
         [apply list_lookup_insert_eq; eapply lookup_lt_Some; eauto | exact Hfr]
       | reflexivity]).
Qed.

Lemma obj_varname_is_frame nfo obj vn nfo' :
  obj_varname nfo obj = Ok (vn, nfo') -> frame nfo nfo'.
Proof.
  intros H. apply obj_varname_frame in H
    as (F & R & O & V & S & N & C & B & _).
  unfold frame; split_and!; auto.
  - exists []. rewrite C. symmetry. apply app_nil_r.
  - intros _. exists []. unfold buf. rewrite B. symmetry. apply app_nil_r.
Qed.

Lemma var_pre_print_frame nfo obj z nfo' :
  var_pre_print nfo obj = Ok (z, nfo') -> frame nfo nfo'.
Proof.
  unfold var_pre_print. intros H.
  destruct (deref (d_heap nfo) obj) as [o| |]; simpl in H; try discriminate.
  destruct (ret nfo).
  { destruct (varname o); injection H as <- <-.
    - eapply frame_trans; apply frame_append.
    - apply frame_append. }
  destruct (first nfo).
  { destruct (varname o).
    - destruct (verbose nfo); injection H as <- <-; auto using frame_refl, frame_append.
    - destruct (obj_varname nfo obj) as [[var n1]| |] eqn:E; simpl in H; try discriminate.
      injection H as <- <-.
      eapply frame_trans; [eapply obj_varname_is_frame; eauto | apply frame_append]. }
  destruct (varname o); injection H as <- <-; auto using frame_refl, frame_append.
Qed.

Lemma PREPRINT_frame nfo obj k r nfo' :
  (forall n o r n', k n o = Ok (r, n') -> frame n n') ->
  PREPRINT nfo obj k = Ok (r, nfo') -> frame nfo nfo'.
Proof.
  intros Hk H. unfold PREPRINT in H.
  destruct (var_pre_print nfo obj) as [[z n1]| |] eqn:E; simpl in H; try discriminate.
  apply var_pre_print_frame in E.
  destruct (bool_decide (z ≠ 0)).
  - injection H as <- <-. exact E.
  - destruct (deref (d_heap n1) obj) as [o| |]; simpl in H; try discriminate.
    eapply frame_trans; eauto.
Qed.

(** A renderer for the elements, as dump_obj is for its callers. *)
Definition framed (f : PrintInfo -> addr -> res (bool * PrintInfo)) : Prop :=
  forall nfo obj r nfo', f nfo obj = Ok (r, nfo') -> frame nfo nfo'.

Lemma dump_iter_loop_frame f l : framed f -> forall nfo r nfo',
  dump_iter_loop f nfo l = Ok (r, nfo') -> frame nfo nfo'.
Proof.
  intros Hf. induction l as [|x l IH]; intros nfo r nfo' H; simpl in H.
  - injection H as <- <-. apply frame_refl.
  - destruct (f nfo x) as [[r1 n1]| |] eqn:E; simpl in H; try discriminate.
    apply Hf in E. destruct r1.
    + destruct l as [|y l'].
      * injection H as <- <-. exact E.
      * apply IH in H. eapply frame_trans; [exact E |].
        eapply frame_trans; [apply frame_append | exact H].
    + injection H as <- <-. exact E.
Qed.

Lemma dump_iter_dict_loop_frame f l : framed f -> forall nfo onkey r nfo',
  dump_iter_dict_loop f nfo onkey l = Ok (r, nfo') -> frame nfo nfo'.
Proof.
  intros Hf. induction l as [|x l IH]; intros nfo onkey r nfo' H; simpl in H.
  - injection H as <- <-. apply frame_refl.
  - destruct (f nfo x) as [[r1 n1]| |] eqn:E; simpl in H; try discriminate.
    apply Hf in E. destruct r1.
    + apply IH in H. eapply frame_trans; [exact E |].
      eapply frame_trans; [| exact H].
      destruct onkey; [apply frame_append |].
      destruct l; [apply frame_refl | apply frame_append].
    + injection H as <- <-. exact E.
Qed.

(** Flags set for a nested call and put back after it. *)
Lemma frame_flags nfo n1 f0 r0 :
  frame (set_ret false (set_first false nfo)) n1 ->
  f0 = first nfo -> r0 = ret nfo ->
  frame nfo (set_ret r0 (set_first f0 n1)).
Proof.
  intros (F1 & R1 & O1 & V1 & S1 & N1 & C1 & B1) -> ->.
  unfold frame; split_and!; auto.
  intros _. apply B1. split; reflexivity.
Qed.

Lemma dump_iter_frame f nfo o r nfo' :
  framed f -> dump_iter f nfo o = Ok (r, nfo') -> frame nfo nfo'.
Proof.
  intros Hf H. unfold dump_iter in H.
  destruct (dump_iter_loop f _ _) as [[r1 n1]| |] eqn:E; simpl in H; try discriminate.
  injection H as <- <-. apply dump_iter_loop_frame in E; [|exact Hf].
  apply frame_flags; auto.
Qed.

Lemma dump_iter_dict_frame f nfo o r nfo' :
  framed f -> dump_iter_dict f nfo o = Ok (r, nfo') -> frame nfo nfo'.
Proof.
  intros Hf H. unfold dump_iter_dict in H.
  destruct (dump_iter_dict_loop f _ _ _) as [[r1 n1]| |] eqn:E; simpl in H; try discriminate.
  injection H as <- <-. apply dump_iter_dict_loop_frame in E; [|exact Hf].
  apply frame_flags; auto.
Qed.

Lemma dump_bracketed_frame it o c nfo obj r nfo' :
  (forall n ob r n', it n ob = Ok (r, n') -> frame n n') ->
  dump_bracketed it o c nfo obj = Ok (r, nfo') -> frame nfo nfo'.
Proof.
  intros Hit H. unfold dump_bracketed in H.
  eapply PREPRINT_frame; [|exact H].
  intros n ob r0 n' Hk. simpl in Hk.
  destruct (it _ ob) as [[r1 n1]| |] eqn:E; simpl in Hk; try discriminate.
  injection Hk as <- <-. apply Hit in E.
  eapply frame_trans; [apply frame_append |].
  eapply frame_trans; [exact E |].
  eapply frame_trans; [apply frame_append | apply frame_newline].
Qed.

Lemma dump_scalar_frame nfo obj r nfo' :
  (dump_bool nfo obj = Ok (r, nfo') \/ dump_int nfo obj = Ok (r, nfo')
   \/ dump_str nfo obj = Ok (r, nfo') \/ dump_float nfo obj = Ok (r, nfo')
   \/ dump_none nfo obj = Ok (r, nfo') \/ dump_func nfo obj = Ok (r, nfo')) ->
  frame nfo nfo'.
Proof.
  intros H.
  destruct H as [H | [H | [H | [H | [H | H]]]]];
    (eapply PREPRINT_frame; [|exact H]);
    intros n o r0 n' Hk; simpl in Hk;
    try (injection Hk as <- <-;
         eapply frame_trans; [apply frame_append | apply frame_newline]).
  unfold printer_append_str in Hk. destruct (py_str o); injection Hk as <- <-.
  - eapply frame_trans; [apply frame_append | apply frame_newline].
  - eapply frame_trans; [apply frame_getout | apply frame_newline].
Qed.


(** The part of [frame] that survives a change of flags or of buffer. *)
Definition frame0 (nfo nfo' : PrintInfo) : Prop :=
  outstack nfo' = outstack nfo
  /\ verbose nfo' = verbose nfo /\ nfo_stack nfo' = nfo_stack nfo
  /\ names_only (d_heap nfo) (d_heap nfo')
  /\ (exists dc, cons nfo' = cons nfo ++ dc).

Lemma frame0_of_frame n1 n2 : frame n1 n2 -> frame0 n1 n2.
Proof. intros (F1 & R1 & O1 & V1 & S1 & N1 & C1 & B1). unfold frame0; split_and!; auto. Qed.

Lemma frame0_trans n1 n2 n3 : frame0 n1 n2 -> frame0 n2 n3 -> frame0 n1 n3.
Proof.
  intros (O1 & V1 & S1 & N1 & [dc1 C1]) (O2 & V2 & S2 & N2 & [dc2 C2]).
  unfold frame0; split_and!; try congruence.
  - eapply names_only_trans; eauto.
  - exists (dc1 ++ dc2). rewrite C2, C1. symmetry. apply app_assoc.
Qed.

Lemma frame0_same n1 n2 :
  outstack n2 = outstack n1 -> verbose n2 = verbose n1 ->
  nfo_stack n2 = nfo_stack n1 -> d_heap n2 = d_heap n1 -> cons n2 = cons n1 ->
  frame0 n1 n2.
Proof.
  intros O V S H C. unfold frame0; split_and!; auto.
  - rewrite H. apply names_only_refl.
  - exists []. rewrite C. symmetry. apply app_nil_r.
Qed.

Lemma r_list_pop_snoc {A} (l : list A) x : r_list_pop (l ++ [x]) = Some (x, l).
Proof. unfold r_list_pop. rewrite last_snoc, removelast_last. reflexivity. Qed.

Lemma r_list_pop_Some {A} (l : list A) x l' :
  r_list_pop l = Some (x, l') <-> l = l' ++ [x].
Proof.
  split.
  - unfold r_list_pop. destruct (last l) as [y|] eqn:E; [|discriminate].
    intros H. injection H as <- <-. apply last_Some in E as [l' ->].
    rewrite removelast_last. reflexivity.
  - intros ->. apply r_list_pop_snoc.
Qed.

Lemma r_list_pop_None {A} (l : list A) : r_list_pop l = None <-> l = [].
Proof.
  unfold r_list_pop. destruct (last l) eqn:E.
  - split; [discriminate |]. intros ->. discriminate.
  - apply last_None in E. split; auto.
Qed.

Lemma prepend_obj_frame f nfo obj r nfo' :
  framed f -> prepend_obj f nfo obj = Ok (r, nfo') -> frame nfo nfo'.
Proof.
  intros Hf H. unfold prepend_obj in H.
  destruct (first nfo) eqn:Ef.
  { injection H as <- <-. apply frame_refl. }
  destruct (f _ obj) as [[r1 n1]| |] eqn:E; simpl in H; try discriminate.
  apply Hf in E. destruct E as (F1 & R1 & O1 & V1 & S1 & N1 & [dc C1] & _).
  simpl in F1, R1, O1, V1, S1, N1, C1.
  assert (F5 : frame nfo
            (set_ret (ret nfo) (set_first false
               match r_list_pop (outstack (printer_drain n1)) with
               | Some (b, rest) => set_outstack rest (set_out b (printer_drain_free n1))
               | None => set_out None (printer_drain_free n1)
               end))).
  { unfold printer_drain_free, printer_drain.
    destruct (out n1) as [b1|] eqn:Eo; simpl;
      rewrite O1, r_list_pop_snoc;
      (unfold frame; split_and!; simpl; auto; try congruence;
       [| intros _; exists []; unfold buf; simpl; symmetry; apply app_nil_r]).
    - exists (dc ++ b1). rewrite C1. symmetry. apply app_assoc.
    - exists dc. exact C1. }
  destruct r1.
  - destruct (deref _ obj) as [o| |]; simpl in H; try discriminate.
    injection H as H. unfold printer_append_str in H.
    destruct (varname o); injection H as <- <-.
    + eapply frame_trans; [exact F5 | apply frame_append].
    + eapply frame_trans; [exact F5 | apply frame_getout].
  - injection H as <- <-. exact F5.
Qed.

Lemma dump_oper_frame f nfo pop vn r nfo' :
  framed f -> dump_oper f nfo pop vn = Ok (r, nfo') -> frame nfo nfo'.
Proof.
  intros Hf H. unfold dump_oper in H.
  destruct (op pop); try (injection H as <- <-; apply frame_refl).
  - unfold dump_oper_init in H.
    destruct (last _) as [a|]; [|discriminate].
    destruct (f _ a) as [[r1 n1]| |] eqn:E; simpl in H; try discriminate.
    apply Hf in E.
    destruct r1; injection H as <- <-.
    + eapply frame_trans; [apply frame_append |].
      eapply frame_trans; [exact E | apply frame_append].
    + eapply frame_trans; [apply frame_append | exact E].
  - unfold dump_oper_newobj in H.
    destruct (last _) as [a|]; [|discriminate].
    destruct (deref _ a) as [ao| |]; simpl in H; try discriminate.
    destruct (bool_decide (type ao ≠ PY_TUPLE)).
    { injection H as <- <-. apply frame_refl. }
    destruct (f _ a) as [[r1 n1]| |] eqn:E; simpl in H; try discriminate.
    apply Hf in E.
    destruct r1; injection H as <- <-.
    + eapply frame_trans; [apply frame_append |].
      eapply frame_trans; [exact E | apply frame_append].
    + eapply frame_trans; [apply frame_append | exact E].
  - unfold dump_oper_reduce in H.
    destruct (last _) as [a|]; [|discriminate].
    destruct (deref _ a) as [ao| |]; simpl in H; try discriminate.
    destruct (bool_decide (type ao ≠ PY_TUPLE)).
    { injection H as <- <-. apply frame_refl. }
    destruct (f _ a) as [[r1 n1]| |] eqn:E; simpl in H; try discriminate.
    apply Hf in E.
    destruct r1; injection H as <- <-.
    + eapply frame_trans; [apply frame_append |].
      eapply frame_trans; [exact E | apply frame_append].
    + eapply frame_trans; [apply frame_append | exact E].
Qed.

Lemma dump_what_loop_frame f obj l : framed f -> forall nfo r nfo',
  dump_what_loop f nfo obj l = Ok (r, nfo') -> frame nfo nfo'.
Proof.
  intros Hf. induction l as [|p l IH]; intros nfo r nfo' H; simpl in H.
  - injection H as <- <-. apply frame_refl.
  - destruct (oderef _ p) as [po| |]; simpl in H; try discriminate.
    destruct (deref _ obj) as [o| |]; simpl in H; try discriminate.
    destruct (varname o) as [vn|]; simpl in H; try discriminate.
    destruct (dump_oper f nfo po vn) as [[r1 n1]| |] eqn:E; simpl in H; try discriminate.
    apply dump_oper_frame in E; [|exact Hf].
    destruct r1.
    + eapply frame_trans; [exact E | eapply IH; eauto].
    + injection H as <- <-. exact E.
Qed.

Lemma dump_what_decl_frame f nfo obj o r nfo' :
  framed f -> first nfo = true ->
  dump_what_decl f nfo obj o = Ok (r, nfo') -> frame nfo nfo'.
Proof.
  intros Hf Ef H. unfold dump_what_decl in H.
  assert (Hni : ~ inline nfo) by (intros [? _]; congruence).
  destruct (obj_varname nfo obj) as [[vn n1]| |] eqn:E1; simpl in H; try discriminate.
  apply obj_varname_frame in E1 as (F1 & R1 & O1 & V1 & S1 & N1 & C1 & B1 & _).
  destruct (dump_what_loop f _ obj _) as [[r2 n2]| |] eqn:E2; simpl in H; try discriminate.
  apply dump_what_loop_frame in E2; [|exact Hf].
  destruct E2 as (F2 & R2 & O2 & V2 & S2 & N2 & [dc2 C2] & _). simpl in *.
  assert (F3 : frame nfo (set_ret (ret n1) (set_first true n2))).
  { unfold frame; split_and!; simpl; try congruence;
      try (intros Hi; contradiction).
    - eapply names_only_trans; eauto.
    - exists dc2. congruence. }
  destruct r2; [|injection H as <- <-; exact F3].
  assert (F4 : frame nfo
            (if ret n1
             then printer_append (set_ret (ret n1) (set_first true n2))
                    [Text "return "; Name vn; Text nl]
             else set_ret (ret n1) (set_first true n2))).
  { destruct (ret n1); [|exact F3].
    eapply frame_trans; [exact F3 | apply frame_append]. }
  destruct (r_strbuf_nonempty _); injection H as <- <-; [|exact F4].
  destruct F4 as (F5 & R5 & O5 & V5 & S5 & N5 & C5 & _).
  unfold frame; split_and!; simpl; auto. intros Hi. contradiction.
Qed.

Lemma dump_what_frame f nfo obj r nfo' :
  framed f -> dump_what f nfo obj = Ok (r, nfo') -> frame nfo nfo'.
Proof.
  intros Hf H. unfold dump_what in H.
  destruct (deref _ obj) as [o| |]; simpl in H; try discriminate.
  destruct (first nfo) eqn:Ef; simpl in H.
  2:{ destruct (varname o).
      - injection H as <- <-. apply frame_append.
      - eapply prepend_obj_frame; eauto. }
  destruct (varname o) as [vn|]; [|eapply dump_what_decl_frame; eauto].
  destruct (ret nfo) eqn:Er; [|eapply dump_what_decl_frame; eauto].
  injection H as <- <-. eapply frame_trans; apply frame_append.
Qed.

Lemma dump_obj_frame fuel : framed (dump_obj fuel).
Proof.
  induction fuel as [|n IH]; intros nfo obj r nfo' H; simpl in H; [discriminate |].
  destruct (deref _ obj) as [o| |]; simpl in H; try discriminate.
  destruct (type o);
    try (injection H as <- <-; apply frame_refl);
    try (apply (dump_scalar_frame nfo obj r nfo'); tauto).
  - eapply dump_what_frame; eauto.
  - eapply dump_bracketed_frame; [|exact H]. intros; eapply dump_iter_frame; eauto.
  - eapply dump_bracketed_frame; [|exact H]. intros; eapply dump_iter_frame; eauto.
  - eapply dump_bracketed_frame; [|exact H]. intros; eapply dump_iter_dict_frame; eauto.
Qed.

(** An object dump_obj has no case for. *)
Definition unsupported (h : Heap) (s : addr) : Prop :=
  exists so, objs h !! s = Some so
    /\ (type so = PY_SET \/ type so = PY_FROZEN_SET \/ type so = PY_SPLIT).

Lemma unsupported_names h h' s :
  names_only h h' -> unsupported h s -> unsupported h' s.
Proof.
  intros (_ & _ & N) (so & Hs & Ht). destruct (N s so Hs) as (v & Hv & _).
  exists (set_varname v so). split; [exact Hv | exact Ht].
Qed.

Lemma unsupported_frame nfo nfo' s :
  frame nfo nfo' -> unsupported (d_heap nfo) s -> unsupported (d_heap nfo') s.
Proof.
  intros (_ & _ & _ & _ & _ & N & _). apply unsupported_names, N.
Qed.

Lemma dump_obj_unsupported fuel nfo s r nfo' :
  unsupported (d_heap nfo) s -> dump_obj fuel nfo s = Ok (r, nfo') -> r = false.
Proof.
  intros (so & Hs & Ht) H. destruct fuel as [|n]; [discriminate |].
  cbn [dump_obj] in H. apply bind_Ok in H as (o & Ed & H).
  apply deref_Ok in Ed as [Ea _]. assert (o = so) by congruence. subst o.
  destruct Ht as [Ht | [Ht | Ht]]; rewrite Ht in H; injection H as <- _; reflexivity.
Qed.

Lemma dump_iter_loop_unsupported f s l :
  framed f ->
  (forall nfo r nfo', unsupported (d_heap nfo) s -> f nfo s = Ok (r, nfo') -> r = false) ->
  s ∈ l -> forall nfo r nfo',
  unsupported (d_heap nfo) s -> dump_iter_loop f nfo l = Ok (r, nfo') -> r = false.
Proof.
  intros Hf Hs. induction l as [|x l IH]; intros Hin nfo r nfo' Hu H.
  - apply elem_of_nil in Hin. destruct Hin.
  - cbn [dump_iter_loop] in H. apply bind_Ok in H as ([r1 n1] & E & H).
    destruct r1; [|injection H as <- _; reflexivity].
    apply elem_of_cons in Hin as [-> | Hin].
    + apply (Hs _ _ _ Hu) in E. discriminate.
    + destruct l as [|y l']; [apply elem_of_nil in Hin; destruct Hin |].
      apply (IH Hin) in H; [exact H |].
      apply Hf in E. eapply unsupported_frame; [|exact Hu].
      eapply frame_trans; [exact E | apply frame_append].
Qed.

Lemma dump_iter_dict_loop_unsupported f s l :
  framed f ->
  (forall nfo r nfo', unsupported (d_heap nfo) s -> f nfo s = Ok (r, nfo') -> r = false) ->
  s ∈ l -> forall nfo onkey r nfo',
  unsupported (d_heap nfo) s -> dump_iter_dict_loop f nfo onkey l = Ok (r, nfo') ->
  r = false.
Proof.
  intros Hf Hs. induction l as [|x l IH]; intros Hin nfo onkey r nfo' Hu H.
  - apply elem_of_nil in Hin. destruct Hin.
  - cbn [dump_iter_dict_loop] in H. apply bind_Ok in H as ([r1 n1] & E & H).
    destruct r1; [|injection H as <- _; reflexivity].
    apply elem_of_cons in Hin as [-> | Hin].
    + apply (Hs _ _ _ Hu) in E. discriminate.
    + apply (IH Hin) in H; [exact H |].
      apply Hf in E. eapply unsupported_frame; [|exact Hu].
      eapply frame_trans; [exact E |].
      destruct onkey; [apply frame_append |].
      destruct l; [apply frame_refl | apply frame_append].
Qed.

Lemma var_pre_print_unnamed nfo a o z nfo' :
  deref (d_heap nfo) a = Ok o -> varname o = None ->
  var_pre_print nfo a = Ok (z, nfo') ->
  z = 0 /\ exists o', deref (d_heap nfo') a = Ok o' /\ type o' = type o
                      /\ py_iter o' = py_iter o.
Proof.
  intros Hd Hv H. unfold var_pre_print in H. rewrite Hd in H. cbn [mbind res_bind] in H.
  rewrite Hv in H. destruct (ret nfo).
  - injection H as <- <-. split; [reflexivity |]. exists o. auto.
  - destruct (first nfo).
    + apply bind_Ok in H as ([vn n1] & E & H). injection H as <- <-.
      unfold obj_varname in E. rewrite Hd in E. cbn [mbind res_bind] in E.
      rewrite Hv in E.
      destruct (bool_decide (memo_id o ≠ 0)); injection E as <- <-;
        (split; [reflexivity |]); apply deref_Ok in Hd as [Ha Hf];
        eexists;
        (split; [apply deref_Ok; split;
                   [simpl; apply list_lookup_insert_eq; eapply lookup_lt_Some, Ha
                   | exact Hf]
                | split; reflexivity]).
    + injection H as <- <-. split; [reflexivity |]. exists o. auto.
Qed.

End RenderFrame.

(** ** C3: the statement of a REDUCE record *)

Section Reduce.

Fixpoint has_sub (sub s : string) : bool :=
  String.prefix sub s ||
  match s with
  | String _ t => has_sub sub t
  | EmptyString => false
  end.


Lemma set_flags_same n : set_ret (ret n) (set_first (first n) n) = n.
Proof. destruct n; reflexivity. Qed.

Lemma printer_append_append n c1 c2 :
  printer_append (printer_append n c1) c2 = printer_append n (c1 ++ c2).
Proof.
  unfold printer_append, buf. destruct n; simpl. rewrite app_assoc. reflexivity.
Qed.

Lemma inline_append n c : inline n -> inline (printer_append n c).
Proof. intros H. exact H. Qed.

Lemma inline_clear n : inline n -> set_ret false (set_first false n) = n.
Proof.
  intros [Hf Hr]. rewrite <- (set_flags_same n) at 2. rewrite Hf, Hr. reflexivity.
Qed.

Lemma newline_inline n : inline n -> newline n = n.
Proof. intros [Hf Hr]. unfold newline. rewrite Hf, Hr. reflexivity. Qed.

(** The statement of a REDUCE record over an unnamed Tuple, whatever its
    elements: the text up to the opening bracket, the elements, the closing
    bracket, and the newline when every element was rendered. *)
Lemma dump_oper_reduce_tuple fuel nfo pop vn args a :
  op pop = OP_REDUCE -> inline nfo ->
  last (default [] (op_stack pop)) = Some args ->
  deref (d_heap nfo) args = Ok a -> type a = PY_TUPLE -> varname a = None ->
  dump_oper (dump_obj (S fuel)) nfo pop vn =
    '(r, n1) ← dump_iter_loop (dump_obj fuel)
                 (printer_append nfo [Decl vn; Name vn; Text "("])
                 (default [] (py_iter a));
    Ok (r, printer_append n1 (if r : bool then [Text ")"; Text nl] else [Text ")"])).
Proof.
  intros Hop Hin Hl Hd Ht Hv. pose proof Hin as [Hf Hr].
  unfold dump_oper. rewrite Hop. unfold dump_oper_reduce. rewrite Hl, Hd.
  cbn [mbind res_bind]. rewrite bool_decide_eq_false_2 by (intros H; apply H, Ht).
  cbn [dump_obj].
  change (d_heap (printer_append nfo [Decl vn; Name vn])) with (d_heap nfo).
  rewrite Hd. cbn [mbind res_bind]. rewrite Ht.
  unfold dump_tuple, dump_bracketed, PREPRINT, var_pre_print.
  change (d_heap (printer_append nfo [Decl vn; Name vn])) with (d_heap nfo).
  rewrite Hd. cbn [mbind res_bind].
  change (ret (printer_append nfo [Decl vn; Name vn])) with (ret nfo).
  change (first (printer_append nfo [Decl vn; Name vn])) with (first nfo).
  rewrite Hr, Hf, Hv. cbn [mbind res_bind].
  rewrite bool_decide_eq_false_2 by (intros H; apply H; reflexivity).
  change (d_heap (printer_append nfo [Decl vn; Name vn])) with (d_heap nfo).
  rewrite Hd. cbn [mbind res_bind].
  rewrite printer_append_append. cbn [app]. unfold dump_iter.
  rewrite (inline_clear _ (inline_append nfo [Decl vn; Name vn; Text "("] Hin)).
  destruct (dump_iter_loop (dump_obj fuel)
              (printer_append nfo [Decl vn; Name vn; Text "("])
              (default [] (py_iter a))) as [[r n1]| |] eqn:E; cbn [mbind res_bind];
    [| reflexivity | reflexivity].
  apply dump_iter_loop_frame in E; [|apply dump_obj_frame].
  destruct E as (F1 & R1 & _).
  change (first (printer_append nfo [Decl vn; Name vn; Text "("])) with (first nfo) in *.
  change (ret (printer_append nfo [Decl vn; Name vn; Text "("])) with (ret nfo) in *.
  assert (In1 : inline n1) by (split; congruence).
  rewrite Hf, Hr. rewrite (inline_clear _ In1).
  rewrite (newline_inline _ (inline_append n1 [Text ")"] In1)).
  destruct r; [rewrite printer_append_append |]; reflexivity.
Qed.

(** A live Int that has no name. *)
Definition int_at (h : Heap) (x : addr) : Prop :=
  exists o, deref h x = Ok o /\ type o = PY_INT /\ varname o = None.

(** What dump_iter writes for a tuple of Ints: the numbers, separated by a
    comma and a space. *)
Fixpoint int_chunks (h : Heap) (l : list addr) : list chunk :=
  match l with
  | [] => []
  | x :: l' =>
      Text (fmt_d (match objs h !! x with Some o => py_int o | None => 0 end))
      :: match l' with
         | [] => []
         | _ => Text ", " :: int_chunks h l'
         end
  end.

Lemma dump_int_inline fuel nfo x :
  inline nfo -> int_at (d_heap nfo) x ->
  dump_obj (S fuel) nfo x =
    Ok (true, printer_append nfo
                [Text (fmt_d (match objs (d_heap nfo) !! x with
                              | Some o => py_int o
                              | None => 0
                              end))]).
Proof.
  intros Hin (o & Hd & Ht & Hv). pose proof Hin as [Hf Hr].
  cbn [dump_obj]. rewrite Hd. cbn [mbind res_bind]. rewrite Ht.
  unfold dump_int, PREPRINT, var_pre_print. rewrite Hd. cbn [mbind res_bind].
  rewrite Hr, Hf, Hv. cbn [mbind res_bind].
  rewrite bool_decide_eq_false_2 by (intros H; apply H; reflexivity).
  rewrite Hd. cbn [mbind res_bind].
  rewrite (newline_inline _ (inline_append nfo _ Hin)).
  apply deref_Ok in Hd as [Ha _]. rewrite Ha. reflexivity.
Qed.

Lemma dump_iter_loop_ints fuel l : forall nfo c,
  inline nfo -> Forall (int_at (d_heap nfo)) l ->
  dump_iter_loop (dump_obj (S fuel)) (printer_append nfo c) l =
    Ok (true, printer_append nfo (c ++ int_chunks (d_heap nfo) l)).
Proof.
  induction l as [|x l IH]; intros nfo c Hin Hall.
  - simpl. rewrite app_nil_r. reflexivity.
  - apply Forall_cons in Hall as [Hx Hall]. cbn [dump_iter_loop].
    rewrite (dump_int_inline fuel (printer_append nfo c) x (inline_append _ _ Hin) Hx).
    cbn [mbind res_bind]. change (d_heap (printer_append nfo c)) with (d_heap nfo).
    rewrite printer_append_append. destruct l as [|y l'].
    + reflexivity.
    + rewrite printer_append_append. rewrite (IH nfo _ Hin Hall).
      cbn [int_chunks]. rewrite <- !app_assoc. reflexivity.
Qed.


(** The record of a REDUCE over the tuple (1, 2). *)
Definition reduce_pair_nfo : PrintInfo :=
  mkPrintInfo
    (mkHeap [mkPyObj PY_INT 0 UT64_MAX 0 None 0 (V_int 1) false;
             mkPyObj PY_INT 1 UT64_MAX 0 None 0 (V_int 2) false;
             mkPyObj PY_TUPLE 2 UT64_MAX 0 None 0 (V_iter (Some [0%nat; 1%nat])) false]
            [mkPyOper OP_REDUCE (Some [2%nat]) 3 0 false])
    [] None [] false false 0 false true.

Definition reduce_pair_tuple : PyObj :=
  mkPyObj PY_TUPLE 2 UT64_MAX 0 None 0 (V_iter (Some [0%nat; 1%nat])) false.

Lemma reduce_pair_ints :
  Forall (int_at (d_heap reduce_pair_nfo)) (default [] (py_iter reduce_pair_tuple)).
Proof.
  repeat constructor.
  - exists (mkPyObj PY_INT 0 UT64_MAX 0 None 0 (V_int 1) false). split_and!; reflexivity.
  - exists (mkPyObj PY_INT 1 UT64_MAX 0 None 0 (V_int 2) false). split_and!; reflexivity.
Qed.


End Reduce.

(** ** C4: rendering twice *)

Section Twice.

(** The renderer run, and run again on the heap the first run left. *)
Definition render_twice (fuel : nat) (state : PMState) (c : RCore)
  : res (list chunk * list chunk) :=
  '(p1, h1) ← render_pseudocode fuel state c;
  '(p2, _) ← render_pseudocode fuel (with_heap h1 state) c;
  Ok (p1, p2).


Lemma d_heap_printer_drain nfo : d_heap (printer_drain nfo) = d_heap nfo.
Proof. unfold printer_drain. destruct (out nfo); reflexivity. Qed.

Lemma dump_stack_loop_names fuel n l : forall nfo r nfo',
  dump_stack_loop fuel nfo n l = Ok (r, nfo') ->
  names_only (d_heap nfo) (d_heap nfo').
Proof.
  induction l as [|x l IH]; intros nfo r nfo' H; simpl in H.
  - injection H as <- <-. apply names_only_refl.
  - match type of H with
    | (dump_obj fuel ?n0 x ≫= _) = _ =>
        assert (H0 : d_heap n0 = d_heap nfo);
        [| destruct (dump_obj fuel n0 x) as [[r1 n1]| |] eqn:E; simpl in H;
           try discriminate ]
    end.
    { unfold printer_drain, printer_append. simpl.
      destruct (bool_decide (r_list_length l = 0)); reflexivity. }
    apply dump_obj_frame in E. destruct E as (_ & _ & _ & _ & _ & N1 & _).
    rewrite H0 in N1. destruct r1.
    + apply IH in H. rewrite d_heap_printer_drain in H.
      eapply names_only_trans; eauto.
    + injection H as <- <-. exact N1.
Qed.

Lemma dump_machine_names fuel pvm nfo r nfo' :
  dump_machine fuel pvm nfo = Ok (r, nfo') ->
  names_only (d_heap nfo) (d_heap nfo').
Proof.
  unfold dump_machine. intros H. simpl in H.
  destruct (nfo_stack nfo); simpl in H.
  - destruct (dump_stack _ _ _ _) as [[r1 n1]| |] eqn:E; simpl in H; try discriminate.
    injection H as <- <-. unfold dump_stack in E.
    apply dump_stack_loop_names in E.
    unfold printer_drain_free. simpl. rewrite d_heap_printer_drain.
    destruct (bool_decide (r_list_length (stack pvm) = 0)); exact E.
  - injection H as <- <-. unfold printer_drain_free. simpl.
    rewrite d_heap_printer_drain. apply names_only_refl.
Qed.

Lemma names_only_none_eq h h' :
  names_only h h' ->
  (forall a o, objs h' !! a = Some o -> varname o = None) ->
  h' = h.
Proof.
  intros (Ho & Hl & Hn) Hnone.
  destruct h as [ob op_], h' as [ob' op']. simpl in *. subst op'. f_equal.
  apply list_eq. intros i. destruct (ob !! i) as [o|] eqn:E.
  - destruct (Hn i o E) as (v & Hv & Hk). rewrite Hv. f_equal.
    pose proof (Hnone i _ Hv) as Hv0. simpl in Hv0. subst v.
    destruct (varname o) as [vn|] eqn:Evn.
    + exfalso. assert (None = Some vn) by (apply Hk; discriminate). discriminate.
    + rewrite <- Evn. apply set_varname_same.
  - apply lookup_ge_None. apply lookup_ge_None in E. lia.
Qed.

Lemma with_heap_same st : with_heap (heap st) st = st.
Proof. destruct st; reflexivity. Qed.

(** The state after NONE. *)
Definition one_none_state : PMState :=
  mkPMState (mkHeap [mkPyObj PY_NONE 0 UT64_MAX 0 None 0 V_zero false] [])
    [0%nat] [] [] ∅ 1 0 UT64_MAX 0 1 true false.

(** The objects dump_obj writes on one line without descending. *)
Definition scalar_type (t : PyType) : bool :=
  match t with
  | PY_NONE | PY_BOOL | PY_INT | PY_FLOAT | PY_STR | PY_FUNC => true
  | _ => false
  end.

Definition scalar_at (h : Heap) (x : addr) : Prop :=
  exists o, deref h x = Ok o /\ scalar_type (type o) = true.

(** A body that only appends to the current buffer. *)
Definition appends (k : PrintInfo -> PyObj -> res (bool * PrintInfo)) : Prop :=
  forall n o, exists r c, k n o = Ok (r, printer_append n c).

Lemma printer_getout_append n : printer_getout n = printer_append n [].
Proof. unfold printer_getout, printer_append. rewrite app_nil_r. reflexivity. Qed.

Lemma newline_append n c : exists c', newline (printer_append n c) = printer_append n c'.
Proof.
  unfold newline. destruct (first (printer_append n c) || ret (printer_append n c)).
  - rewrite printer_append_append. eauto.
  - eauto.
Qed.

Lemma dump_scalar_PREPRINT fuel nfo x o :
  deref (d_heap nfo) x = Ok o -> scalar_type (type o) = true ->
  exists k, appends k /\ dump_obj (S fuel) nfo x = PREPRINT nfo x k.
Proof.
  intros Hd Hs. cbn [dump_obj]. rewrite Hd. cbn [mbind res_bind].
  destruct (type o); try discriminate; eexists; (split; [|reflexivity]);
    intros n ob; cbv beta zeta.
  - destruct (newline_append n [Text "None"]) as [c' ->]. eauto.
  - destruct (newline_append n [Text (fmt_d (py_int ob))]) as [c' ->]. eauto.
  - destruct (newline_append n [Lf (py_float ob)]) as [c' ->]. eauto.
  - unfold printer_append_str. destruct (py_str ob) as [s|].
    + destruct (newline_append n [Text s]) as [c' ->]. eauto.
    + rewrite printer_getout_append. destruct (newline_append n []) as [c' ->]. eauto.
  - match goal with |- context [printer_append n ?c] =>
      destruct (newline_append n c) as [c' ->] end. eauto.
  - destruct (newline_append n [Text (if py_bool ob then "True" else "False")]) as [c' ->].
    eauto.
Qed.

Lemma deref_put_same h a o o' :
  objs h !! a = Some o -> freed o' = false -> deref (put_obj h a o') a = Ok o'.
Proof.
  intros H F. apply deref_Ok. split; [|exact F]. simpl.
  apply list_lookup_insert_eq. eapply lookup_lt_Some, H.
Qed.

(** The top of the stack: "return ", then the name or the value. *)
Lemma PREPRINT_ret nfo x o k :
  deref (d_heap nfo) x = Ok o -> ret nfo = true ->
  PREPRINT nfo x k =
    match varname o with
    | Some vn => Ok (true, printer_append nfo [Text "return "; Name vn; Text nl])
    | None => k (printer_append nfo [Text "return "]) o
    end.
Proof.
  intros Hd Hr. unfold PREPRINT, var_pre_print. rewrite Hd. cbn [mbind res_bind].
  rewrite Hr. destruct (varname o) as [vn|]; cbn [mbind res_bind].
  - rewrite printer_append_append. reflexivity.
  - rewrite bool_decide_eq_false_2 by (intros H; apply H; reflexivity).
    change (d_heap (printer_append nfo [Text "return "])) with (d_heap nfo).
    rewrite Hd. reflexivity.
Qed.

(** Below the top, an object that has a name is not written again. *)
Lemma PREPRINT_declared nfo x o k vn :
  deref (d_heap nfo) x = Ok o -> ret nfo = false -> first nfo = true ->
  verbose nfo = true -> varname o = Some vn ->
  PREPRINT nfo x k =
    Ok (true, printer_append nfo
                [Text "# "; Name vn; Text (" previously declared" +:+ nl)]).
Proof.
  intros Hd Hr Hf Hv Hn. unfold PREPRINT, var_pre_print. rewrite Hd.
  cbn [mbind res_bind]. rewrite Hr, Hf, Hn, Hv. reflexivity.
Qed.

(** Below the top, an object that has no name gets one and is declared. *)
Lemma PREPRINT_declares nfo x o k :
  deref (d_heap nfo) x = Ok o -> ret nfo = false -> first nfo = true ->
  varname o = None ->
  exists vn n1,
    PREPRINT nfo x k = k (printer_append n1 [Decl vn]) (set_varname (Some vn) o)
    /\ cons n1 = cons nfo /\ out n1 = out nfo
    /\ d_heap n1 = put_obj (d_heap nfo) x (set_varname (Some vn) o).
Proof.
  intros Hd Hr Hf Hn. unfold PREPRINT, var_pre_print. rewrite Hd.
  cbn [mbind res_bind]. rewrite Hr, Hf, Hn. unfold obj_varname. rewrite Hd.
  cbn [mbind res_bind]. rewrite Hn.
  pose proof Hd as Hd'. apply deref_Ok in Hd' as [Ha Hfr].
  destruct (bool_decide (memo_id o ≠ 0)); cbn [mbind res_bind];
    rewrite bool_decide_eq_false_2 by (intros H; apply H; reflexivity).
  - exists ("var_" +:+ fmt_x64 (memo_id o))%string,
      (set_heap (put_obj (d_heap nfo) x
                   (set_varname (Some ("var_" +:+ fmt_x64 (memo_id o))%string) o)) nfo).
    split; [|split; [|split]]; try reflexivity.
    cbn [d_heap printer_append set_out set_heap].
    rewrite (deref_put_same _ _ o) by (auto; exact Hfr). reflexivity.
  - exists ("var_" +:+ fmt_x64 (varid nfo))%string,
      (set_heap (put_obj (d_heap nfo) x
                   (set_varname (Some ("var_" +:+ fmt_x64 (varid nfo))%string) o))
         (set_varid (varid nfo + 1) nfo)).
    split; [|split; [|split]]; try reflexivity.
    cbn [d_heap printer_append set_out set_heap set_varid].
    rewrite (deref_put_same _ _ o) by (auto; exact Hfr). reflexivity.
Qed.

Lemma scalar_at_names h h' x : names_only h h' -> scalar_at h x -> scalar_at h' x.
Proof.
  intros (_ & _ & N) (o & Hd & Hs). apply deref_Ok in Hd as [Ha Hf].
  destruct (N x o Ha) as (v & Hv & _). exists (set_varname v o).
  split; [apply deref_Ok; split; [exact Hv | exact Hf] | exact Hs].
Qed.

(** A scalar is rendered whatever the state of the printer. *)
Lemma dump_scalar_total fuel nfo x :
  scalar_at (d_heap nfo) x -> exists r nfo', dump_obj (S fuel) nfo x = Ok (r, nfo').
Proof.
  intros (o & Hd & Hs).
  destruct (dump_scalar_PREPRINT fuel nfo x o Hd Hs) as (k & Hk & ->).
  destruct (ret nfo) eqn:Hr.
  - rewrite (PREPRINT_ret _ _ _ _ Hd Hr). destruct (varname o); [eauto |].
    destruct (Hk (printer_append nfo [Text "return "]) o) as (r & c & ->). eauto.
  - destruct (first nfo) eqn:Hf.
    + destruct (varname o) as [vn|] eqn:Hn.
      * unfold PREPRINT, var_pre_print. rewrite Hd. cbn [mbind res_bind].
        rewrite Hr, Hf, Hn. destruct (verbose nfo); cbn [mbind res_bind]; eauto.
      * destruct (PREPRINT_declares nfo x o k Hd Hr Hf Hn) as (vn & n1 & -> & _).
        destruct (Hk (printer_append n1 [Decl vn]) (set_varname (Some vn) o))
          as (r & c & ->). eauto.
    + unfold PREPRINT, var_pre_print. rewrite Hd. cbn [mbind res_bind].
      rewrite Hr, Hf. destruct (varname o); cbn [mbind res_bind]; [eauto |].
      rewrite bool_decide_eq_false_2 by (intros H; apply H; reflexivity).
      rewrite Hd. cbn [mbind res_bind]. destruct (Hk nfo o) as (r & c & ->). eauto.
Qed.

Lemma cons_printer_drain nfo : exists t, cons (printer_drain nfo) = cons nfo ++ t.
Proof.
  unfold printer_drain. destruct (out nfo) as [b|]; simpl; [eauto |].
  exists []. rewrite app_nil_r. reflexivity.
Qed.

(** The state of the printer when dump_stack_loop calls dump_obj. *)
Definition stack_entry (nfo : PrintInfo) (n : string) (l : list addr) : PrintInfo :=
  let len := r_list_length l in
  let nfo := printer_append nfo
    [Text ("## " +:+ n +:+ "[" +:+ fmt_d len +:+ "] "
           +:+ (if bool_decide (len = 0) then "TOP" else "") +:+ nl)] in
  let nfo := printer_drain nfo in
  let nfo := set_first true nfo in
  if bool_decide (len = 0) then set_ret true nfo else nfo.

Lemma dump_stack_loop_cons' fuel n x l nfo :
  dump_stack_loop fuel nfo n (x :: l) =
    '(r, nfo) ← dump_obj fuel (stack_entry nfo n l) x;
    if r : bool then dump_stack_loop fuel (printer_drain nfo) n l else Ok (false, nfo).
Proof. reflexivity. Qed.

Lemma d_heap_stack_entry nfo n l : d_heap (stack_entry nfo n l) = d_heap nfo.
Proof.
  unfold stack_entry. destruct (bool_decide (r_list_length l = 0)); reflexivity.
Qed.

Lemma cons_stack_entry nfo n l : exists t, cons (stack_entry nfo n l) = cons nfo ++ t.
Proof.
  unfold stack_entry. destruct (bool_decide (r_list_length l = 0)); simpl; eauto.
Qed.

Lemma dump_stack_loop_total fuel n l : forall nfo,
  Forall (scalar_at (d_heap nfo)) l ->
  exists r nfo', dump_stack_loop (S fuel) nfo n l = Ok (r, nfo').
Proof.
  induction l as [|x l IH]; intros nfo Hall; [simpl; eauto |].
  apply Forall_cons in Hall as [Hx Hall]. rewrite dump_stack_loop_cons'.
  destruct (dump_scalar_total fuel (stack_entry nfo n l) x) as (r & n1 & E).
  { rewrite d_heap_stack_entry. exact Hx. }
  rewrite E. cbn [mbind res_bind]. destruct r; [|eauto]. apply IH.
  rewrite d_heap_printer_drain.
  apply dump_obj_frame in E. destruct E as (_ & _ & _ & _ & _ & N & _).
  rewrite d_heap_stack_entry in N.
  eapply Forall_impl; [exact Hall |]. intros y. apply scalar_at_names, N.
Qed.

Lemma dump_stack_loop_grows fuel n l : forall nfo r nfo',
  dump_stack_loop fuel nfo n l = Ok (r, nfo') -> exists t, cons nfo' = cons nfo ++ t.
Proof.
  induction l as [|x l IH]; intros nfo r nfo' H.
  - injection H as _ <-. exists []. rewrite app_nil_r. reflexivity.
  - rewrite dump_stack_loop_cons' in H. apply bind_Ok in H as ([r1 n1] & E & H).
    apply dump_obj_frame in E. destruct E as (_ & _ & _ & _ & _ & _ & [t1 C1] & _).
    destruct (cons_stack_entry nfo n l) as [t0 C0]. rewrite C0 in C1.
    destruct r1.
    + apply IH in H as [t2 C2]. destruct (cons_printer_drain n1) as [t3 C3].
      rewrite C3, C1 in C2. exists (t0 ++ t1 ++ t3 ++ t2). rewrite C2.
      rewrite <- !app_assoc. reflexivity.
    + injection H as _ <-. exists (t0 ++ t1). rewrite C1, <- app_assoc. reflexivity.
Qed.

Lemma cons_printer_drain_free nfo :
  cons (printer_drain_free nfo) = cons nfo ++ buf nfo.
Proof.
  unfold printer_drain_free, printer_drain, buf. destruct (out nfo) as [b|]; simpl.
  - reflexivity.
  - rewrite app_nil_r. reflexivity.
Qed.

Lemma d_heap_printer_drain_free nfo : d_heap (printer_drain_free nfo) = d_heap nfo.
Proof. unfold printer_drain_free. simpl. apply d_heap_printer_drain. Qed.

Lemma render_pseudocode_eq fuel st c x rest :
  stack st = x :: rest ->
  render_pseudocode fuel st c =
    '(r, nfo) ← dump_stack_loop fuel
        (printer_append
           (set_outstack [] (set_verbose true
              (mkPrintInfo (heap st) [] None [] true false 0 (anal_verbose c) true)))
           [Text ("## Stack VM start, len " +:+ fmt_d (r_list_length (x :: rest)) +:+ nl)])
        "VM" (x :: rest);
    Ok (cons (printer_drain_free nfo), d_heap (printer_drain_free nfo)).
Proof.
  intros Hs. unfold render_pseudocode, print_info_init, dump_machine.
  cbn [nfo_stack set_outstack set_verbose]. rewrite Hs. unfold dump_stack.
  rewrite bool_decide_eq_false_2
    by (unfold r_list_length; cbn [length]; lia).
  destruct (dump_stack_loop _ _ _ _) as [[r n]| |]; reflexivity.
Qed.

(** The rendering of a stack of two objects or more, from what dump_obj
    does with the bottom: two header lines, what the bottom left in the
    buffer, and the rest. *)
Lemma render_stack_head fuel st c x rest (P : list chunk -> Prop) (Q : Heap -> Prop) :
  stack st = x :: rest -> rest <> [] ->
  (forall nfo, d_heap nfo = heap st -> first nfo = true -> ret nfo = false ->
     verbose nfo = true -> out nfo = Some [] -> varid nfo = 0 ->
     exists r nfo' C, dump_obj (S fuel) nfo x = Ok (r, nfo')
       /\ cons nfo' = cons nfo /\ out nfo' = Some C /\ P C /\ Q (d_heap nfo')) ->
  Forall (scalar_at (heap st)) rest ->
  exists p h hd1 hd2 C t hx,
    render_pseudocode (S fuel) st c = Ok (p, h)
    /\ p = [hd1; hd2] ++ C ++ t
    /\ P C /\ Q hx /\ names_only hx h.
Proof.
  intros Hs Hne Hx Hrest. rewrite (render_pseudocode_eq _ _ _ _ _ Hs).
  rewrite dump_stack_loop_cons'.
  assert (Hlen : bool_decide (r_list_length rest = 0) = false).
  { apply bool_decide_eq_false. unfold r_list_length. destruct rest; [congruence |].
    cbn [length]. lia. }
  unfold stack_entry. rewrite !Hlen.
  match goal with
  | |- context [dump_obj (S fuel) ?N x] => set (nfoE := N)
  end.
  destruct (Hx nfoE) as (r & n1 & C & E & C1 & O1 & HP & HQ); try reflexivity.
  rewrite E. cbn [mbind res_bind].
  pose proof (dump_obj_frame _ _ _ _ _ E) as (_ & _ & _ & _ & _ & N1 & _).
  change (d_heap nfoE) with (heap st) in N1.
  destruct r.
  - destruct (dump_stack_loop_total fuel "VM" rest (printer_drain n1)) as (r2 & n2 & E2).
    { rewrite d_heap_printer_drain. eapply Forall_impl; [exact Hrest |].
      intros y. apply scalar_at_names, N1. }
    rewrite E2. cbn [mbind res_bind].
    destruct (dump_stack_loop_grows _ _ _ _ _ _ E2) as [t2 C2].
    apply dump_stack_loop_names in E2. rewrite d_heap_printer_drain in E2.
    eexists _, _, _, _, C, (t2 ++ buf n2), (d_heap n1). split; [reflexivity |].
    split; [|split; [exact HP | split; [exact HQ |]]].
    + rewrite cons_printer_drain_free, C2. unfold printer_drain. rewrite O1.
      cbn [cons set_cons set_out]. rewrite C1. cbn [cons nfoE set_first printer_drain
        printer_append set_out set_cons out buf default app].
      rewrite <- !app_assoc. reflexivity.
    + rewrite d_heap_printer_drain_free. exact E2.
  - eexists _, _, _, _, C, [], (d_heap n1). split; [reflexivity |].
    split; [|split; [exact HP | split; [exact HQ |]]].
    + rewrite cons_printer_drain_free, C1. unfold buf. rewrite O1.
      cbn [cons nfoE set_first printer_drain printer_append set_out set_cons out buf
           default app].
      rewrite app_nil_r. reflexivity.
    + rewrite d_heap_printer_drain_free. apply names_only_refl.
Qed.

(** The name obj_varname gives an object when the counter is at 0. *)
Definition first_name (o : PyObj) : string :=
  ("var_" +:+ fmt_x64 (if bool_decide (memo_id o ≠ 0) then memo_id o else 0))%string.

Lemma dump_scalar_declares fuel nfo x o :
  deref (d_heap nfo) x = Ok o -> scalar_type (type o) = true -> varname o = None ->
  first nfo = true -> ret nfo = false -> out nfo = Some [] -> varid nfo = 0 ->
  exists r nfo' C,
    dump_obj (S fuel) nfo x = Ok (r, nfo')
    /\ cons nfo' = cons nfo /\ out nfo' = Some C
    /\ (exists c, C = Decl (first_name o) :: c)
    /\ (exists o', deref (d_heap nfo') x = Ok o' /\ varname o' = Some (first_name o)).
Proof.
  intros Hd Hs Hn Hf Hr Ho Hv.
  destruct (dump_scalar_PREPRINT fuel nfo x o Hd Hs) as (k & Hk & ->).
  unfold PREPRINT, var_pre_print. rewrite Hd. cbn [mbind res_bind].
  rewrite Hr, Hf, Hn. unfold obj_varname. rewrite Hd. cbn [mbind res_bind].
  rewrite Hn, Hv. pose proof Hd as Hd'. apply deref_Ok in Hd' as [Ha Hfr].
  unfold first_name.
  destruct (bool_decide (memo_id o ≠ 0)); cbn [mbind res_bind];
    rewrite bool_decide_eq_false_2 by (intros H; apply H; reflexivity);
    cbn [d_heap printer_append set_out set_heap set_varid];
    rewrite (deref_put_same _ _ o) by (auto; exact Hfr); cbn [mbind res_bind];
    match goal with
    | |- context [k ?N ?O] => destruct (Hk N O) as (r & c & ->)
    end;
    exists r; eexists; eexists (Decl _ :: c);
    (split; [reflexivity |]); (split; [reflexivity |]);
    (split; [unfold printer_append, buf; cbn [out set_out set_heap set_varid];
             rewrite Ho; reflexivity |]);
    (split; [eexists; reflexivity |]);
    eexists; (split; [apply (deref_put_same _ _ o); [exact Ha | exact Hfr] | reflexivity]).
Qed.

Lemma dump_scalar_declared fuel nfo x o vn :
  deref (d_heap nfo) x = Ok o -> scalar_type (type o) = true -> varname o = Some vn ->
  first nfo = true -> ret nfo = false -> verbose nfo = true -> out nfo = Some [] ->
  exists r nfo' C,
    dump_obj (S fuel) nfo x = Ok (r, nfo')
    /\ cons nfo' = cons nfo /\ out nfo' = Some C
    /\ C = [Text "# "; Name vn; Text (" previously declared" +:+ nl)]
    /\ True.
Proof.
  intros Hd Hs Hn Hf Hr Hv Ho.
  destruct (dump_scalar_PREPRINT fuel nfo x o Hd Hs) as (k & Hk & ->).
  rewrite (PREPRINT_declared nfo x o k vn Hd Hr Hf Hv Hn).
  eexists _, _, _. split; [reflexivity |]. split; [reflexivity |].
  split; [unfold printer_append, buf; cbn [out set_out]; rewrite Ho; reflexivity |].
  split; [reflexivity | exact I].
Qed.

Lemma names_only_named h h' x o vn :
  names_only h h' -> deref h x = Ok o -> varname o = Some vn ->
  exists o', deref h' x = Ok o' /\ varname o' = Some vn /\ type o' = type o.
Proof.
  intros (_ & _ & N) Hd Hn. apply deref_Ok in Hd as [Ha Hf].
  destruct (N x o Ha) as (v & Hv & Hk). exists (set_varname v o).
  split; [apply deref_Ok; split; [exact Hv | exact Hf] |].
  split; [|reflexivity]. simpl. rewrite Hk by congruence. exact Hn.
Qed.

(** A stack of one scalar is rendered without a name given to it. *)
Lemma render_single_scalar fuel st c x :
  stack st = [x] -> scalar_at (heap st) x ->
  exists p, render_pseudocode (S fuel) st c = Ok (p, heap st).
Proof.
  intros Hs (o & Hd & Ht). rewrite (render_pseudocode_eq _ _ _ _ _ Hs).
  rewrite dump_stack_loop_cons'. unfold stack_entry.
  rewrite !(bool_decide_eq_true_2 (r_list_length (@nil addr) = 0) eq_refl).
  match goal with
  | |- context [dump_obj (S fuel) ?N x] => set (nfoE := N)
  end.
  destruct (dump_scalar_PREPRINT fuel nfoE x o Hd Ht) as (k & Hk & ->).
  rewrite (PREPRINT_ret nfoE x o k Hd eq_refl).
  destruct (varname o) as [vn|].
  - cbn [mbind res_bind dump_stack_loop]. eexists.
    rewrite d_heap_printer_drain_free, d_heap_printer_drain. reflexivity.
  - destruct (Hk (printer_append nfoE [Text "return "]) o) as (r & cc & ->).
    cbn [mbind res_bind]. destruct r; cbn [mbind res_bind dump_stack_loop]; eexists;
      rewrite d_heap_printer_drain_free, ?d_heap_printer_drain; reflexivity.
Qed.


Lemma two_none_scalars :
  Forall (scalar_at (heap two_none_state)) [0%nat; 1%nat].
Proof.
  repeat constructor.
  - exists (mkPyObj PY_NONE 0 UT64_MAX 0 None 0 V_zero false). split; reflexivity.
  - exists (mkPyObj PY_NONE 1 UT64_MAX 0 None 0 V_zero false). split; reflexivity.
Qed.


End Twice.

(** ** What releasing leaves of the heap *)

Section Release.

(** The fields of an object that no release changes. *)
Definition obj_kept (o o' : PyObj) : Prop :=
  type o' = type o /\ memo_id o' = memo_id o /\ recurse o' = recurse o
  /\ offset o' = offset o /\ (varname o = None -> varname o' = None).

Definition obj_frel (o o' : PyObj) : Prop :=
  obj_kept o o' /\ (freed o' = false -> exists n, o' = set_refcnt n o).

Definition oper_frel (p p' : PyOper) : Prop :=
  op p' = op p /\ (op_freed p' = false -> exists n, p' = set_op_refcnt n p).

(** A heap after releases: every cell is still there; a cell that was not
    released differs by its reference count at most. *)
Definition frel (h h' : Heap) : Prop :=
  length (objs h') = length (objs h) /\ length (opers h') = length (opers h)
  /\ (forall a o, objs h !! a = Some o ->
        exists o', objs h' !! a = Some o' /\ obj_frel o o')
  /\ (forall p po, opers h !! p = Some po ->
        exists po', opers h' !! p = Some po' /\ oper_frel po po').

Lemma set_refcnt_same o : set_refcnt (refcnt o) o = o.
Proof. destruct o; reflexivity. Qed.

Lemma set_op_refcnt_same p : set_op_refcnt (op_refcnt p) p = p.
Proof. destruct p; reflexivity. Qed.

Lemma obj_kept_refl o : obj_kept o o.
Proof. unfold obj_kept; auto. Qed.

Lemma obj_kept_trans o1 o2 o3 : obj_kept o1 o2 -> obj_kept o2 o3 -> obj_kept o1 o3.
Proof.
  intros (A1 & A2 & A3 & A4 & A5) (B1 & B2 & B3 & B4 & B5).
  unfold obj_kept; split_and!; try congruence. auto.
Qed.

Lemma obj_frel_refl o : obj_frel o o.
Proof. split; [apply obj_kept_refl |]. intros _. exists (refcnt o). symmetry. apply set_refcnt_same. Qed.

Lemma obj_frel_trans o1 o2 o3 : obj_frel o1 o2 -> obj_frel o2 o3 -> obj_frel o1 o3.
Proof.
  intros [K1 F1] [K2 F2]. split; [eapply obj_kept_trans; eauto |].
  intros H3. destruct (F2 H3) as [n ->]. simpl in H3.
  destruct (F1 H3) as [m ->]. exists n. reflexivity.
Qed.

Lemma oper_frel_refl p : oper_frel p p.
Proof. split; [reflexivity |]. intros _. exists (op_refcnt p). symmetry. apply set_op_refcnt_same. Qed.

Lemma oper_frel_trans p1 p2 p3 : oper_frel p1 p2 -> oper_frel p2 p3 -> oper_frel p1 p3.
Proof.
  intros [K1 F1] [K2 F2]. split; [congruence |].
  intros H3. destruct (F2 H3) as [n ->]. simpl in H3.
  destruct (F1 H3) as [m ->]. exists n. reflexivity.
Qed.

Lemma frel_refl h : frel h h.
Proof.
  unfold frel; split_and!; auto.
  - intros a o H. exists o. split; [exact H | apply obj_frel_refl].
  - intros p po H. exists po. split; [exact H | apply oper_frel_refl].
Qed.

Lemma frel_trans h1 h2 h3 : frel h1 h2 -> frel h2 h3 -> frel h1 h3.
Proof.
  intros (L1 & M1 & O1 & P1) (L2 & M2 & O2 & P2).
  unfold frel; split_and!; try congruence.
  - intros a o H. destruct (O1 a o H) as (o' & H' & R1).
    destruct (O2 a o' H') as (o'' & H'' & R2).
    exists o''. split; [exact H'' | eapply obj_frel_trans; eauto].
  - intros p po H. destruct (P1 p po H) as (o' & H' & R1).
    destruct (P2 p o' H') as (o'' & H'' & R2).
    exists o''. split; [exact H'' | eapply oper_frel_trans; eauto].
Qed.

Lemma frel_put_obj h a o o' :
  objs h !! a = Some o -> obj_frel o o' -> frel h (put_obj h a o').
Proof.
  intros Ha R. unfold frel; split_and!; simpl; auto using length_insert.
  - intros b ob Hb. destruct (decide (a = b)) as [->|Hne].
    + rewrite list_lookup_insert_eq by (eapply lookup_lt_Some; eauto).
      rewrite Ha in Hb. injection Hb as <-. eauto.
    + rewrite list_lookup_insert_ne by exact Hne. exists ob. split; [exact Hb | apply obj_frel_refl].
  - intros p po H. exists po. split; [exact H | apply oper_frel_refl].
Qed.

Lemma frel_put_oper h p po po' :
  opers h !! p = Some po -> oper_frel po po' -> frel h (put_oper h p po').
Proof.
  intros Ha R. unfold frel; split_and!; simpl; auto using length_insert.
  - intros b ob Hb. exists ob. split; [exact Hb | apply obj_frel_refl].
  - intros q pq Hq. destruct (decide (p = q)) as [->|Hne].
    + rewrite list_lookup_insert_eq by (eapply lookup_lt_Some; eauto).
      rewrite Ha in Hq. injection Hq as <-. eauto.
    + rewrite list_lookup_insert_ne by exact Hne. exists pq. split; [exact Hq | apply oper_frel_refl].
Qed.

(** The object being released: its cell was rewritten ([o2] for [o]), the
    releases below it ran, and the cell is then marked. *)
Lemma frel_released_obj h a o o2 h3 o3 :
  objs h !! a = Some o -> obj_kept o o2 -> varname o2 = None ->
  frel (put_obj h a o2) h3 ->
  objs h3 !! a = Some o3 ->
  frel h (put_obj h3 a (set_freed o3)).
Proof.
  intros Ha K Hv (L & M & O & P) H3.
  assert (Hlt : (a < length (objs h))%nat) by (eapply lookup_lt_Some; eauto).
  simpl in L, M. rewrite length_insert in L.
  unfold frel; split_and!; simpl; rewrite ?length_insert; auto.
  - intros b ob Hb. destruct (decide (a = b)) as [->|Hne].
    + rewrite list_lookup_insert_eq by lia.
      rewrite Ha in Hb. injection Hb as <-.
      destruct (O b o2) as (o3' & H3' & [K3 _]).
      { simpl. apply list_lookup_insert_eq. exact Hlt. }
      rewrite H3 in H3'. injection H3' as <-.
      eexists. split; [reflexivity |]. split.
      * eapply obj_kept_trans; [exact K |].
        destruct K3 as (A1 & A2 & A3 & A4 & A5).
        unfold obj_kept; simpl; split_and!; auto.
      * simpl. discriminate.
    + rewrite list_lookup_insert_ne by exact Hne.
      apply O. simpl. rewrite list_lookup_insert_ne by exact Hne. exact Hb.
Qed.

Lemma frel_released_oper h p po po2 h3 po3 :
  opers h !! p = Some po -> op po2 = op po ->
  frel (put_oper h p po2) h3 ->
  opers h3 !! p = Some po3 ->
  frel h (put_oper h3 p (set_op_freed po3)).
Proof.
  intros Ha K (L & M & O & P) H3.
  assert (Hlt : (p < length (opers h))%nat) by (eapply lookup_lt_Some; eauto).
  simpl in L, M. rewrite length_insert in M.
  unfold frel; split_and!; simpl; rewrite ?length_insert; auto.
  intros q pq Hq. destruct (decide (p = q)) as [->|Hne].
    + rewrite list_lookup_insert_eq by lia.
      rewrite Ha in Hq. injection Hq as <-.
      destruct (P q po2) as (po3' & H3' & [K3 _]).
      { simpl. apply list_lookup_insert_eq. exact Hlt. }
      rewrite H3 in H3'. injection H3' as <-.
      eexists. split; [reflexivity |]. split; simpl; [congruence | discriminate].
    + rewrite list_lookup_insert_ne by exact Hne.
      apply P. simpl. rewrite list_lookup_insert_ne by exact Hne. exact Hq.
Qed.

Definition releases {A} (f : Heap -> A -> res Heap) : Prop :=
  forall h x h', f h x = Ok h' -> frel h h'.

Lemma free_each_frel {A} (f : Heap -> A -> res Heap) l :
  releases f -> forall h h', free_each f h l = Ok h' -> frel h h'.
Proof.
  intros Hf. induction l as [|x l IH]; intros h h' H; simpl in H.
  - injection H as <-. apply frel_refl.
  - destruct (f h x) as [h1| |] eqn:E; simpl in H; try discriminate.
    eapply frel_trans; [eapply Hf; eauto | eapply IH; eauto].
Qed.

Lemma free_opt_frel {A} (f : Heap -> A -> res Heap) :
  releases f -> releases (free_opt f).
Proof.
  intros Hf h [x|] h' H; simpl in H.
  - eapply Hf; eauto.
  - injection H as <-. apply frel_refl.
Qed.

Lemma pyop_free_with_frel f : releases f -> releases (pyop_free_with f).
Proof.
  intros Hf h p h' H. unfold pyop_free_with in H.
  destruct (oderef h p) as [po| |] eqn:Ed; simpl in H; try discriminate.
  apply oderef_Ok in Ed as [Hl Hfr].
  destruct (bool_decide (op_refcnt po <= 0)).
  - destruct (free_each f _ _) as [h3| |] eqn:E; simpl in H; try discriminate.
    destruct (oderef h3 p) as [po3| |] eqn:Ed3; simpl in H; try discriminate.
    injection H as <-. apply oderef_Ok in Ed3 as [Hl3 _].
    apply free_each_frel in E; [|exact Hf].
    refine (frel_released_oper h p po _ h3 po3 Hl _ E Hl3). reflexivity.
  - injection H as <-. apply frel_put_oper with (po := po); [exact Hl |].
    split; [reflexivity |]. intros _. eexists. reflexivity.
Qed.

Lemma py_obj_free_internal_with_spec f h a o h3 :
  releases f ->
  deref h a = Ok o ->
  py_obj_free_internal_with f h a = Ok h3 ->
  exists o2, obj_kept o o2 /\ varname o2 = None /\ frel (put_obj h a o2) h3.
Proof.
  intros Hf Hd H. unfold py_obj_free_internal_with in H.
  rewrite Hd in H. simpl in H.
  assert (K : forall v, obj_kept o (set_val v (set_varname None o))).
  { intros v. unfold obj_kept; simpl; auto. }
  assert (K0 : obj_kept o (set_varname None o)).
  { unfold obj_kept; simpl; auto. }
  destruct (type o) eqn:Et;
    try (injection H as <-; eexists; split; [apply K0 | split; [reflexivity | apply frel_refl]]);
    try (injection H as <-; eexists; split; [apply K | split; [reflexivity | apply frel_refl]]).
  - (* PY_WHAT *)
    eexists; split; [apply K | split; [reflexivity |]].
    eapply free_each_frel; [|exact H]. apply pyop_free_with_frel, Hf.
  - (* PY_FUNC *)
    destruct (free_opt f _ _) as [h1| |] eqn:E; simpl in H; try discriminate.
    eexists; split; [apply K | split; [reflexivity |]].
    eapply frel_trans; eapply free_opt_frel; eauto.
  - eexists; split; [apply K | split; [reflexivity |]]. eapply free_each_frel; eauto.
  - eexists; split; [apply K | split; [reflexivity |]]. eapply free_each_frel; eauto.
  - eexists; split; [apply K | split; [reflexivity |]]. eapply free_each_frel; eauto.
  - eexists; split; [apply K | split; [reflexivity |]]. eapply free_each_frel; eauto.
  - eexists; split; [apply K | split; [reflexivity |]]. eapply free_each_frel; eauto.
  - (* PY_SPLIT *)
    eexists; split; [apply K | split; [reflexivity |]].
    eapply free_opt_frel; [|exact H]. apply pyop_free_with_frel, Hf.
Qed.

Lemma py_obj_free_frel fuel : releases (py_obj_free fuel).
Proof.
  induction fuel as [|n IH]; intros h a h' H; simpl in H; [discriminate |].
  destruct (deref h a) as [o| |] eqn:Ed; simpl in H; try discriminate.
  pose proof Ed as Ed'. apply deref_Ok in Ed' as [Hl Hfr].
  assert (Hlt : (a < length (objs h))%nat) by (eapply lookup_lt_Some; eauto).
  destruct (bool_decide (refcnt o <= 0)).
  - destruct (py_obj_free_internal_with _ _ a) as [h3| |] eqn:E; simpl in H; try discriminate.
    destruct (deref h3 a) as [o3| |] eqn:Ed3; simpl in H; try discriminate.
    injection H as <-. apply deref_Ok in Ed3 as [Hl3 _].
    eapply py_obj_free_internal_with_spec in E; [| exact IH |].
    2:{ apply deref_Ok. simpl. split; [apply list_lookup_insert_eq; exact Hlt | exact Hfr]. }
    destruct E as (o2 & K2 & V2 & F2).
    assert (K : obj_kept o o2).
    { eapply obj_kept_trans; [|exact K2]. unfold obj_kept; simpl; auto. }
    assert (F : frel (put_obj h a o2) h3).
    { destruct F2 as (L & M & O & P).
      unfold frel; split_and!; auto.
      - simpl in *. rewrite !length_insert in L. rewrite length_insert. exact L.
      - intros b ob Hb. apply O. simpl in *.
        rewrite list_insert_insert_eq. exact Hb. }
    exact (frel_released_obj h a o o2 h3 o3 Hl K V2 F Hl3).
  - injection H as <-. apply frel_put_obj with (o := o); [exact Hl |].
    split; [unfold obj_kept; simpl; auto |]. intros _. eexists. reflexivity.
Qed.

Lemma pyop_free_frel fuel : releases (pyop_free fuel).
Proof. apply pyop_free_with_frel, py_obj_free_frel. Qed.

End Release.

(** ** Invariants of the machine *)

Section Invariants.

Definition valid (h : Heap) (a : addr) : Prop := (a < length (objs h))%nat.

Definition is_split (h : Heap) (a : addr) : bool :=
  match objs h !! a with
  | Some o => bool_decide (type o = PY_SPLIT)
  | None => false
  end.

(** The elements of a list that are not Split markers, counted. *)
Fixpoint nonsplits (h : Heap) (l : list addr) : nat :=
  match l with
  | [] => 0
  | x :: l' => ((if is_split h x then 0 else 1) + nonsplits h l')%nat
  end.

Definition nosplit (h : Heap) (a : addr) : Prop :=
  exists o, objs h !! a = Some o /\ type o <> PY_SPLIT.

(** A later heap: every cell is still there, with its type or its tag. *)
Definition ext0 (h h' : Heap) : Prop :=
  (forall a o, objs h !! a = Some o ->
     exists o', objs h' !! a = Some o' /\ type o' = type o)
  /\ (forall p po, opers h !! p = Some po ->
        exists po', opers h' !! p = Some po' /\ op po' = op po).

Definition good_obj (h : Heap) (o : PyObj) : Prop :=
  memo_id o = UT64_MAX /\ varname o = None
  /\ (freed o = false ->
        (type o = PY_WHAT ->
           exists p rest po, py_what o = Some (p :: rest)
             /\ opers h !! p = Some po /\ op po = OP_FAKE_INIT)
        /\ (type o = PY_DICT ->
              exists l, py_iter o = Some l /\ Forall (valid h) l
                /\ Nat.even (nonsplits h l) = true)).

Definition good_oper (po : PyOper) : Prop :=
  op po = OP_FAKE_INIT -> op_freed po = false -> exists x, op_stack po = Some [x].

Definition base_inv (h : Heap) : Prop :=
  (forall a o, objs h !! a = Some o -> good_obj h o)
  /\ (forall p po, opers h !! p = Some po -> good_oper po).

(** The live What at [a] has [p] in its list. *)
Definition owns (h : Heap) (a : addr) (p : oaddr) : Prop :=
  exists o l, objs h !! a = Some o /\ type o = PY_WHAT /\ freed o = false
    /\ py_what o = Some l /\ p ∈ l.

(** The live Split at [a] points to [p]. *)
Definition refs (h : Heap) (a : addr) (p : oaddr) : Prop :=
  exists o, objs h !! a = Some o /\ type o = PY_SPLIT /\ freed o = false
    /\ reduce o = Some p.

Definition unowned (h : Heap) (p : oaddr) : Prop := forall a, ~ owns h a p.

(** A record is in the list of one What at most; a Split points to a record
    that is not an OP_FAKE_INIT; the OP_FAKE_INIT records of a live What are
    live; and a What lists allocated records. *)
Definition own_inv (h : Heap) : Prop :=
  (forall a a' p, owns h a p -> owns h a' p -> a = a')
  /\ (forall a p, refs h a p ->
        exists po, opers h !! p = Some po /\ op po <> OP_FAKE_INIT)
  /\ (forall a p po, owns h a p -> opers h !! p = Some po ->
        op po = OP_FAKE_INIT -> op_freed po = false)
  /\ (forall a p, owns h a p -> (p < length (opers h))%nat).

Definition heap_inv (h : Heap) : Prop := base_inv h /\ own_inv h.

Definition stk_ok (h : Heap) (l : list addr) : Prop := Forall (nosplit h) l.

Definition Inv (pvm : PMState) : Prop :=
  heap_inv (heap pvm)
  /\ stk_ok (heap pvm) (stack pvm)
  /\ Forall (stk_ok (heap pvm)) (metastack pvm)
  /\ (forall k a, memo pvm !! k = Some (Some a) -> nosplit (heap pvm) a).

Lemma ext0_refl h : ext0 h h.
Proof. split; intros; eauto. Qed.

Lemma ext0_trans h1 h2 h3 : ext0 h1 h2 -> ext0 h2 h3 -> ext0 h1 h3.
Proof.
  intros [A1 B1] [A2 B2]. split.
  - intros a o H. destruct (A1 a o H) as (o' & H' & E'). destruct (A2 a o' H') as (o'' & H'' & E'').
    exists o''. split; [auto | congruence].
  - intros a o H. destruct (B1 a o H) as (o' & H' & E'). destruct (B2 a o' H') as (o'' & H'' & E'').
    exists o''. split; [auto | congruence].
Qed.

Lemma frel_ext0 h h' : frel h h' -> ext0 h h'.
Proof.
  intros (_ & _ & O & P). split.
  - intros a o H. destruct (O a o H) as (o' & H' & [[K _] _]). eauto.
  - intros a o H. destruct (P a o H) as (o' & H' & [K _]). eauto.
Qed.

Lemma ext0_valid h h' a : ext0 h h' -> valid h a -> valid h' a.
Proof.
  intros [A _] Hv. unfold valid in *.
  destruct (lookup_lt_is_Some_2 _ _ Hv) as [o Ho].
  destruct (A a o Ho) as (o' & Ho' & _). eapply lookup_lt_Some; eauto.
Qed.

Lemma ext0_is_split h h' a : ext0 h h' -> valid h a -> is_split h' a = is_split h a.
Proof.
  intros [A _] Hv. unfold valid, is_split in *.
  destruct (lookup_lt_is_Some_2 _ _ Hv) as [o Ho]. rewrite Ho.
  destruct (A a o Ho) as (o' & Ho' & E). rewrite Ho', E. reflexivity.
Qed.

Lemma ext0_nonsplits h h' l :
  ext0 h h' -> Forall (valid h) l -> nonsplits h' l = nonsplits h l.
Proof.
  intros He. induction 1 as [|x l Hx Hl IH]; simpl; [reflexivity |].
  rewrite IH, (ext0_is_split h h' x He Hx). reflexivity.
Qed.

Lemma ext0_nosplit h h' a : ext0 h h' -> nosplit h a -> nosplit h' a.
Proof.
  intros [A _] (o & Ho & Ht). destruct (A a o Ho) as (o' & Ho' & E).
  exists o'. split; [auto | congruence].
Qed.

Lemma ext0_stk_ok h h' l : ext0 h h' -> stk_ok h l -> stk_ok h' l.
Proof.
  intros He H. eapply Forall_impl; [exact H |]. intros a. apply ext0_nosplit, He.
Qed.

Lemma nosplit_valid h a : nosplit h a -> valid h a.
Proof. intros (o & Ho & _). eapply lookup_lt_Some; eauto. Qed.

Lemma nosplit_is_split h a : nosplit h a -> is_split h a = false.
Proof.
  intros (o & Ho & Ht). unfold is_split. rewrite Ho.
  apply bool_decide_eq_false. exact Ht.
Qed.

Lemma nonsplits_app h l1 l2 :
  nonsplits h (l1 ++ l2) = (nonsplits h l1 + nonsplits h l2)%nat.
Proof. induction l1 as [|x l IH]; simpl; [reflexivity | rewrite IH; lia]. Qed.

Lemma nonsplits_stk h l : stk_ok h l -> nonsplits h l = length l.
Proof.
  induction 1 as [|x l Hx Hl IH]; simpl; [reflexivity |].
  rewrite (nosplit_is_split _ _ Hx), IH. reflexivity.
Qed.

Lemma good_obj_ext0 h h' o : ext0 h h' -> good_obj h o -> good_obj h' o.
Proof.
  intros He (M & V & G). split; [exact M | split; [exact V |]].
  intros Hf. destruct (G Hf) as [GW GD]. split.
  - intros Ht. destruct (GW Ht) as (p & rest & po & Hw & Hp & Hop).
    destruct He as [_ B]. destruct (B p po Hp) as (po' & Hp' & E).
    exists p, rest, po'. split; [auto | split; [auto | congruence]].
  - intros Ht. destruct (GD Ht) as (l & Hl & Hv & Hn).
    exists l. split; [auto | split].
    + eapply Forall_impl; [exact Hv |]. intros a. apply ext0_valid, He.
    + rewrite (ext0_nonsplits h h' l He Hv). exact Hn.
Qed.

Lemma good_obj_refcnt h o n : good_obj h o -> good_obj h (set_refcnt n o).
Proof. intros H. exact H. Qed.

Lemma good_obj_recurse h o n : good_obj h o -> good_obj h (set_recurse n o).
Proof. intros H. exact H. Qed.

Lemma good_oper_refcnt po n : good_oper po -> good_oper (set_op_refcnt n po).
Proof. intros H. exact H. Qed.

Lemma base_inv_frel h h' : base_inv h -> frel h h' -> base_inv h'.
Proof.
  intros [HO HP] F. pose proof (frel_ext0 _ _ F) as He.
  destruct F as (L & M & O & P). split.
  - intros a o' Ha.
    assert (Hlt : (a < length (objs h))%nat) by (rewrite <- L; eapply lookup_lt_Some; eauto).
    destruct (lookup_lt_is_Some_2 _ _ Hlt) as [o Ho].
    destruct (O a o Ho) as (o2 & Ho2 & [K Fr]).
    assert (o2 = o') by congruence. subst o2.
    pose proof (good_obj_ext0 _ _ _ He (HO a o Ho)) as G.
    destruct (freed o') eqn:Efr.
    + destruct G as (GM & GV & _). destruct K as (K1 & K2 & K3 & K4 & K5).
      split; [congruence | split; [auto |]]. intros Hx; congruence.
    + destruct (Fr eq_refl) as [n ->]. exact G.
  - intros p po' Hp.
    assert (Hlt : (p < length (opers h))%nat) by (rewrite <- M; eapply lookup_lt_Some; eauto).
    destruct (lookup_lt_is_Some_2 _ _ Hlt) as [po Hpo].
    destruct (P p po Hpo) as (po2 & Hpo2 & [K Fr]).
    assert (po2 = po') by congruence. subst po2.
    intros Hop Hfr. destruct (Fr Hfr) as [n ->]. apply (HP p po Hpo); auto.
Qed.

Lemma ext0_put_obj h a o o' :
  objs h !! a = Some o -> type o' = type o -> ext0 h (put_obj h a o').
Proof.
  intros Ha Ht. split; simpl; [|eauto].
  intros b ob Hb. destruct (decide (a = b)) as [->|Hne].
  - rewrite list_lookup_insert_eq by (eapply lookup_lt_Some; eauto).
    rewrite Ha in Hb. injection Hb as <-. eauto.
  - rewrite list_lookup_insert_ne by exact Hne. eauto.
Qed.

Lemma ext0_put_oper h p po po' :
  opers h !! p = Some po -> op po' = op po -> ext0 h (put_oper h p po').
Proof.
  intros Ha Ht. split; simpl; [eauto |].
  intros b ob Hb. destruct (decide (p = b)) as [->|Hne].
  - rewrite list_lookup_insert_eq by (eapply lookup_lt_Some; eauto).
    rewrite Ha in Hb. injection Hb as <-. eauto.
  - rewrite list_lookup_insert_ne by exact Hne. eauto.
Qed.

Lemma ext0_alloc_obj h o : ext0 h (alloc_obj h o).2.
Proof.
  split; simpl; [|eauto]. intros a ob Ha. exists ob.
  split; [apply lookup_app_l_Some; exact Ha | reflexivity].
Qed.

Lemma ext0_alloc_oper h o : ext0 h (alloc_oper h o).2.
Proof.
  split; simpl; [eauto |]. intros a ob Ha. exists ob.
  split; [apply lookup_app_l_Some; exact Ha | reflexivity].
Qed.

Lemma base_inv_put_obj h a o o' :
  base_inv h -> objs h !! a = Some o -> type o' = type o ->
  good_obj h o' -> base_inv (put_obj h a o').
Proof.
  intros [HO HP] Ha Ht G.
  pose proof (ext0_put_obj h a o o' Ha Ht) as He.
  split; [|exact HP].
  intros b ob Hb. simpl in Hb. apply list_lookup_insert_Some in Hb.
  destruct Hb as [(-> & <- & _) | (Hne & Hb)].
  - eapply good_obj_ext0; eauto.
  - eapply good_obj_ext0; eauto.
Qed.

Lemma base_inv_alloc_obj h o :
  base_inv h -> good_obj h o -> base_inv (alloc_obj h o).2.
Proof.
  intros [HO HP] G. pose proof (ext0_alloc_obj h o) as He.
  split; [|exact HP].
  intros b ob Hb. simpl in Hb. apply lookup_app_Some in Hb.
  destruct Hb as [Hb | [_ Hb]].
  - eapply good_obj_ext0; eauto.
  - destruct (b - length (objs h))%nat; simpl in Hb; [|discriminate].
    injection Hb as <-. eapply good_obj_ext0; eauto.
Qed.

Lemma base_inv_put_oper h p po po' :
  base_inv h -> opers h !! p = Some po -> op po' = op po ->
  good_oper po' -> base_inv (put_oper h p po').
Proof.
  intros [HO HP] Ha Ht G.
  pose proof (ext0_put_oper h p po po' Ha Ht) as He.
  split.
  - intros b ob Hb. eapply good_obj_ext0; [exact He |]. apply (HO b). exact Hb.
  - intros q pq Hq. simpl in Hq. apply list_lookup_insert_Some in Hq.
    destruct Hq as [(-> & <- & _) | (Hne & Hq)]; eauto.
Qed.

Lemma base_inv_alloc_oper h po :
  base_inv h -> good_oper po -> base_inv (alloc_oper h po).2.
Proof.
  intros [HO HP] G. pose proof (ext0_alloc_oper h po) as He.
  split.
  - intros b ob Hb. eapply good_obj_ext0; [exact He |]. apply (HO b). exact Hb.
  - intros q pq Hq. simpl in Hq. apply lookup_app_Some in Hq.
    destruct Hq as [Hq | [_ Hq]]; [eauto |].
    destruct (q - length (opers h))%nat; simpl in Hq; [|discriminate].
    injection Hq as <-. exact G.
Qed.

(** A fresh object of py_obj_new is good unless it is a What or a Dict, which
    need their payload. *)
Lemma good_obj_new h pvm t v :
  t <> PY_WHAT -> t <> PY_DICT -> good_obj h (set_val v (py_obj_new pvm t)).
Proof.
  intros H1 H2. split; [reflexivity | split; [reflexivity |]].
  intros _. split; intros Ht; simpl in Ht; congruence.
Qed.

Lemma good_obj_new0 h pvm t :
  t <> PY_WHAT -> t <> PY_DICT -> good_obj h (py_obj_new pvm t).
Proof.
  intros H1 H2. split; [reflexivity | split; [reflexivity |]].
  intros _. split; intros Ht; simpl in Ht; congruence.
Qed.

Lemma good_obj_new_dict h pvm :
  good_obj h (set_val (V_iter (Some [])) (py_obj_new pvm PY_DICT)).
Proof.
  split; [reflexivity | split; [reflexivity |]].
  intros _. split; intros Ht; simpl in Ht; [discriminate |].
  exists []. split; [reflexivity | split; [constructor | reflexivity]].
Qed.


Lemma ext0_obj h h' a o :
  ext0 h h' -> objs h !! a = Some o ->
  exists o', objs h' !! a = Some o' /\ type o' = type o.
Proof. intros [E _]. apply E. Qed.

Lemma ext0_oper h h' p po :
  ext0 h h' -> opers h !! p = Some po ->
  exists po', opers h' !! p = Some po' /\ op po' = op po.
Proof. intros [_ E]. apply E. Qed.

(** *** Who owns an operation record *)

Definition osub (h h' : Heap) : Prop :=
  (forall a p, owns h' a p -> owns h a p) /\ (forall a p, refs h' a p -> refs h a p).

Lemma osub_refl h : osub h h.
Proof. split; auto. Qed.

Lemma osub_trans h1 h2 h3 : osub h1 h2 -> osub h2 h3 -> osub h1 h3.
Proof. intros [A1 B1] [A2 B2]. split; eauto. Qed.

Lemma osub_unowned h h' p : osub h h' -> unowned h p -> unowned h' p.
Proof. intros [A _] U a Ho. exact (U a (A _ _ Ho)). Qed.

Lemma own_inv_sub h h' :
  own_inv h -> ext0 h h' -> osub h h' ->
  (forall p po po', opers h !! p = Some po -> opers h' !! p = Some po' ->
     op_freed po = false -> op_freed po' = true -> op po = OP_FAKE_INIT ->
     unowned h' p) ->
  own_inv h'.
Proof.
  intros (U & S & L & V) He [SA SB] Hf. split_and!.
  - intros a a' p H1 H2. eapply U; eauto.
  - intros a p Hr. destruct (S a p (SB _ _ Hr)) as (po & Hp & Hop).
    destruct (ext0_oper _ _ _ _ He Hp) as (po' & Hp' & E). exists po'.
    split; [exact Hp' | congruence].
  - intros a p po' Ho Hp' Hop.
    pose proof (SA _ _ Ho) as Ho0. pose proof (V _ _ Ho0) as Hlt.
    destruct (lookup_lt_is_Some_2 _ _ Hlt) as [po Hp].
    destruct (ext0_oper _ _ _ _ He Hp) as (po'' & Hp'' & E).
    assert (po'' = po') by congruence. subst po''.
    assert (Hop0 : op po = OP_FAKE_INIT) by congruence.
    pose proof (L _ _ _ Ho0 Hp Hop0) as Hfr.
    destruct (op_freed po') eqn:Efr; [|reflexivity].
    exfalso. exact (Hf p po po' Hp Hp' Hfr Efr Hop0 a Ho).
  - intros a p Ho. pose proof (V _ _ (SA _ _ Ho)) as Hlt.
    destruct (lookup_lt_is_Some_2 _ _ Hlt) as [po Hp].
    destruct (ext0_oper _ _ _ _ He Hp) as (po' & Hp' & _).
    eapply lookup_lt_Some; eauto.
Qed.

(** What a rewritten cell owns and points to was there before. *)
Definition cell_sub (o o' : PyObj) : Prop :=
  (type o' = PY_WHAT -> freed o' = false -> forall l, py_what o' = Some l ->
     type o = PY_WHAT /\ freed o = false /\ py_what o = Some l)
  /\ (type o' = PY_SPLIT -> freed o' = false -> forall p, reduce o' = Some p ->
     type o = PY_SPLIT /\ freed o = false /\ reduce o = Some p).

Definition cell_none (o : PyObj) : Prop :=
  (type o = PY_WHAT -> freed o = false -> py_what o = None)
  /\ (type o = PY_SPLIT -> freed o = false -> reduce o = None).

Lemma cell_sub_none o o' : cell_none o' -> cell_sub o o'.
Proof.
  intros [A B]. split.
  - intros Ht Hf l Hl. rewrite (A Ht Hf) in Hl. discriminate.
  - intros Ht Hf l Hl. rewrite (B Ht Hf) in Hl. discriminate.
Qed.

Lemma cell_sub_refl o : cell_sub o o.
Proof. split; auto. Qed.

Lemma cell_sub_refcnt o n : cell_sub o (set_refcnt n o).
Proof. split; auto. Qed.

Lemma cell_sub_recurse o n : cell_sub o (set_recurse n o).
Proof. split; auto. Qed.

Lemma cell_sub_freed o o' : cell_sub o (set_freed o').
Proof. split; intros _ Hf; discriminate. Qed.

Lemma cell_none_other o :
  type o <> PY_WHAT -> type o <> PY_SPLIT -> cell_none o.
Proof. intros A B. split; intros Ht; contradiction. Qed.

Lemma cell_sub_other o o' :
  type o' <> PY_WHAT -> type o' <> PY_SPLIT -> cell_sub o o'.
Proof. intros A B. apply cell_sub_none, cell_none_other; auto. Qed.

Lemma osub_put_obj h a o o' :
  objs h !! a = Some o -> cell_sub o o' -> osub h (put_obj h a o').
Proof.
  intros Ha [CA CB].
  assert (Hlt : (a < length (objs h))%nat) by (eapply lookup_lt_Some; eauto).
  split.
  - intros b p (ob & l & Hb & Ht & Hf & Hl & Hin). simpl in Hb.
    apply list_lookup_insert_Some in Hb as [(-> & <- & _) | (Hne & Hb)].
    + destruct (CA Ht Hf l Hl) as (T & F & W). exists o, l. auto.
    + exists ob, l. auto.
  - intros b p (ob & Hb & Ht & Hf & Hl). simpl in Hb.
    apply list_lookup_insert_Some in Hb as [(-> & <- & _) | (Hne & Hb)].
    + destruct (CB Ht Hf p Hl) as (T & F & W). exists o. auto.
    + exists ob. auto.
Qed.

Lemma osub_put_oper h p po : osub h (put_oper h p po).
Proof. split; intros a q H; exact H. Qed.

Lemma osub_put_oper_rev h p po : osub (put_oper h p po) h.
Proof. split; intros a q H; exact H. Qed.

Lemma osub_alloc_oper h po : osub h (alloc_oper h po).2.
Proof. split; intros a q H; exact H. Qed.

Lemma osub_alloc_oper_rev h po : osub (alloc_oper h po).2 h.
Proof. split; intros a q H; exact H. Qed.

Lemma osub_alloc_obj h o : cell_none o -> osub h (alloc_obj h o).2.
Proof.
  intros [CA CB]. split.
  - intros b p (ob & l & Hb & Ht & Hf & Hl & Hin). simpl in Hb.
    apply lookup_app_Some in Hb as [Hb | [_ Hb]]; [exists ob, l; auto |].
    destruct (b - length (objs h))%nat; simpl in Hb; [|discriminate].
    injection Hb as <-. rewrite (CA Ht Hf) in Hl. discriminate.
  - intros b p (ob & Hb & Ht & Hf & Hl). simpl in Hb.
    apply lookup_app_Some in Hb as [Hb | [_ Hb]]; [exists ob; auto |].
    destruct (b - length (objs h))%nat; simpl in Hb; [|discriminate].
    injection Hb as <-. rewrite (CB Ht Hf) in Hl. discriminate.
Qed.

Lemma osub_frel h h' : frel h h' -> osub h h'.
Proof.
  intros (L & M & O & P).
  assert (back : forall a o', objs h' !! a = Some o' -> freed o' = false ->
            exists n o, objs h !! a = Some o /\ o' = set_refcnt n o).
  { intros a o' Ha Hf.
    assert (Hlt : (a < length (objs h))%nat) by (rewrite <- L; eapply lookup_lt_Some; eauto).
    destruct (lookup_lt_is_Some_2 _ _ Hlt) as [o Ho].
    destruct (O a o Ho) as (o2 & Ho2 & [K Fr]).
    assert (o2 = o') by congruence. subst o2.
    destruct (Fr Hf) as [n ->]. eauto. }
  split.
  - intros a p (o' & l & Ha & Ht & Hf & Hl & Hin).
    destruct (back a o' Ha Hf) as (n & o & Ho & ->). exists o, l. auto.
  - intros a p (o' & Ha & Ht & Hf & Hl).
    destruct (back a o' Ha Hf) as (n & o & Ho & ->). exists o. auto.
Qed.

Lemma own_inv_put_obj h a o o' :
  own_inv h -> objs h !! a = Some o -> type o' = type o -> cell_sub o o' ->
  own_inv (put_obj h a o').
Proof.
  intros I Ha Ht C. eapply own_inv_sub; [exact I | | |].
  - eapply ext0_put_obj; eauto.
  - eapply osub_put_obj; eauto.
  - intros p po po' H1 H2. simpl in H2. congruence.
Qed.

Lemma own_inv_alloc_obj h o : own_inv h -> cell_none o -> own_inv (alloc_obj h o).2.
Proof.
  intros I C. eapply own_inv_sub; [exact I | | |].
  - apply ext0_alloc_obj.
  - apply osub_alloc_obj, C.
  - intros p po po' H1 H2. simpl in H2. congruence.
Qed.

Lemma own_inv_put_oper h p po po' :
  own_inv h -> opers h !! p = Some po -> op po' = op po ->
  (op_freed po = false -> op_freed po' = true -> op po = OP_FAKE_INIT -> unowned h p) ->
  own_inv (put_oper h p po').
Proof.
  intros I Ha Ht C. eapply own_inv_sub; [exact I | | |].
  - eapply ext0_put_oper; eauto.
  - apply osub_put_oper.
  - intros q pq pq' H1 H2 F1 F2 Hop. simpl in H2.
    apply list_lookup_insert_Some in H2 as [(-> & <- & _) | (Hne & H2)].
    + assert (pq = po) by congruence. subst pq. exact (C F1 F2 Hop).
    + congruence.
Qed.

Lemma own_inv_alloc_oper h po : own_inv h -> own_inv (alloc_oper h po).2.
Proof.
  intros I. eapply own_inv_sub; [exact I | | |].
  - apply ext0_alloc_oper.
  - apply osub_alloc_oper.
  - intros p q q' H1 H2 F1 F2. simpl in H2.
    rewrite lookup_app_l in H2 by (eapply lookup_lt_Some; eauto). congruence.
Qed.

(** One more record in the list of one What. *)
Lemma own_inv_add h h' a0 p0 :
  own_inv h -> ext0 h h' ->
  (forall a p, owns h' a p -> owns h a p \/ (a = a0 /\ p = p0)) ->
  (forall a p, refs h' a p -> refs h a p) ->
  unowned h p0 -> (p0 < length (opers h'))%nat ->
  (forall po, opers h' !! p0 = Some po -> op po = OP_FAKE_INIT -> op_freed po = false) ->
  (forall p po po', opers h !! p = Some po -> opers h' !! p = Some po' ->
     op_freed po' = op_freed po) ->
  own_inv h'.
Proof.
  intros (U & S & L & V) He SA SB Hu Hlt Hl Hf. split_and!.
  - intros a a' p H1 H2.
    destruct (SA _ _ H1) as [O1 | [-> ->]]; destruct (SA _ _ H2) as [O2 | [E2 E3]].
    + eapply U; eauto.
    + subst. exfalso. exact (Hu _ O1).
    + exfalso. exact (Hu _ O2).
    + congruence.
  - intros a p Hr. destruct (S a p (SB _ _ Hr)) as (po & Hp & Hop).
    destruct (ext0_oper _ _ _ _ He Hp) as (po' & Hp' & E). exists po'.
    split; [exact Hp' | congruence].
  - intros a p po' Ho Hp' Hop.
    destruct (SA _ _ Ho) as [Ho0 | [-> ->]]; [|exact (Hl _ Hp' Hop)].
    pose proof (V _ _ Ho0) as Hlt0.
    destruct (lookup_lt_is_Some_2 _ _ Hlt0) as [po Hp].
    destruct (ext0_oper _ _ _ _ He Hp) as (po'' & Hp'' & E).
    assert (po'' = po') by congruence. subst po''.
    rewrite (Hf _ _ _ Hp Hp'). apply (L _ _ _ Ho0 Hp). congruence.
  - intros a p Ho. destruct (SA _ _ Ho) as [Ho0 | [-> ->]]; [|exact Hlt].
    pose proof (V _ _ Ho0) as Hlt0.
    destruct (lookup_lt_is_Some_2 _ _ Hlt0) as [po Hp].
    destruct (ext0_oper _ _ _ _ He Hp) as (po' & Hp' & _).
    eapply lookup_lt_Some; eauto.
Qed.

(** A Split that points to a record that is not an OP_FAKE_INIT. *)
Lemma own_inv_add_ref h a o o' p :
  own_inv h -> objs h !! a = Some o -> type o' = type o -> type o' = PY_SPLIT ->
  (forall q, reduce o' = Some q -> q = p) ->
  (exists po, opers h !! p = Some po /\ op po <> OP_FAKE_INIT) ->
  own_inv (put_obj h a o').
Proof.
  intros (U & S & L & V) Ha Ht Hs Hr Hp.
  assert (SA : forall b q, owns (put_obj h a o') b q -> owns h b q).
  { intros b q (ob & l & Hb & Tb & Fb & Lb & Hin). simpl in Hb.
    apply list_lookup_insert_Some in Hb as [(-> & <- & _) | (Hne & Hb)].
    - congruence.
    - exists ob, l. auto. }
  split_and!.
  - intros b b' q H1 H2. eapply U; eauto.
  - intros b q (ob & Hb & Tb & Fb & Rb). simpl in Hb. simpl.
    apply list_lookup_insert_Some in Hb as [(-> & <- & _) | (Hne & Hb)].
    + rewrite (Hr q Rb). exact Hp.
    + apply (S b q). exists ob. auto.
  - intros b q po Ho Hq. simpl in Hq. eapply L; eauto.
  - intros b q Ho. simpl. eapply V; eauto.
Qed.

Lemma unowned_fresh h po : own_inv h -> unowned (alloc_oper h po).2 (length (opers h)).
Proof.
  intros (_ & _ & _ & V) a Ho. pose proof (V a _ Ho). lia.
Qed.

(** *** Releases keep the ownership invariant *)

Definition keeps {A} (pre : Heap -> A -> Prop) (f : Heap -> A -> res Heap) : Prop :=
  forall h x h', own_inv h -> pre h x -> f h x = Ok h' -> own_inv h'.

Definition any_obj (h : Heap) (a : addr) : Prop := True.

(** A record may be released when no live What lists it; the records a Split
    points to are never OP_FAKE_INIT. *)
Definition loose (h : Heap) (p : oaddr) : Prop :=
  forall po, opers h !! p = Some po -> op po = OP_FAKE_INIT -> unowned h p.

Lemma loose_frel h h' p : frel h h' -> loose h p -> loose h' p.
Proof.
  intros F Lo po' Hp' Hop. pose proof (osub_frel _ _ F) as Hs.
  destruct F as (L & M & O & P).
  assert (Hlt : (p < length (opers h))%nat) by (rewrite <- M; eapply lookup_lt_Some; eauto).
  destruct (lookup_lt_is_Some_2 _ _ Hlt) as [po Hp].
  destruct (P p po Hp) as (po2 & Hp2 & [K _]).
  assert (po2 = po') by congruence. subst po2.
  eapply osub_unowned; [exact Hs |]. apply (Lo po Hp). congruence.
Qed.

Lemma free_each_keeps {A} (pre : Heap -> A -> Prop) (f : Heap -> A -> res Heap) l :
  releases f -> keeps pre f ->
  (forall h h' x, frel h h' -> pre h x -> pre h' x) ->
  forall h h', own_inv h -> Forall (pre h) l -> free_each f h l = Ok h' -> own_inv h'.
Proof.
  intros Hr Hk Hst. induction l as [|x l IH]; intros h h' I Hp H; simpl in H.
  - injection H as <-. exact I.
  - apply bind_Ok in H as (h1 & E1 & H). inversion Hp as [|? ? Px Pl]; subst.
    eapply IH; [eapply Hk; eauto | | exact H].
    eapply Forall_impl; [exact Pl |]. intros y. apply Hst. eapply Hr; eauto.
Qed.

Lemma free_opt_keeps {A} (pre : Heap -> A -> Prop) (f : Heap -> A -> res Heap) :
  keeps pre f ->
  forall h x h', own_inv h -> (forall a, x = Some a -> pre h a) ->
    free_opt f h x = Ok h' -> own_inv h'.
Proof.
  intros Hk h [a|] h' I Hp H; simpl in H.
  - eapply Hk; eauto.
  - injection H as <-. exact I.
Qed.

Lemma pyop_free_with_keeps f :
  releases f -> keeps any_obj f -> keeps loose (pyop_free_with f).
Proof.
  intros Hr Hk h p h' I Lo H. unfold pyop_free_with in H.
  apply bind_Ok in H as (po & Ed & H). apply oderef_Ok in Ed as [Hp Hfr].
  case_bool_decide as Hn.
  - apply bind_Ok in H as (h2 & E2 & H). apply bind_Ok in H as (po2 & Ed2 & H).
    injection H as <-. apply oderef_Ok in Ed2 as [Hp2 Hfr2].
    set (h1 := put_oper h p _) in *.
    assert (I1 : own_inv h1).
    { eapply own_inv_put_oper; [exact I | exact Hp | reflexivity |].
      simpl. intros. congruence. }
    assert (F12 : frel h1 h2) by (eapply free_each_frel; eauto).
    assert (I2 : own_inv h2).
    { eapply (free_each_keeps any_obj f); [exact Hr | exact Hk | | exact I1 | | exact E2].
      - intros; exact Logic.I.
      - apply Forall_forall. intros; exact Logic.I. }
    assert (Hop2 : op po2 = op po).
    { destruct F12 as (_ & _ & _ & P).
      destruct (P p (set_op_stack None (set_op_refcnt (op_refcnt po - 1) po))) as (q & Hq & [K _]).
      { simpl. apply list_lookup_insert_eq. eapply lookup_lt_Some; eauto. }
      assert (q = po2) by congruence. subst q. exact K. }
    eapply own_inv_put_oper; [exact I2 | exact Hp2 | reflexivity |].
    intros _ _ Hop. eapply osub_unowned; [apply osub_frel; exact F12 |].
    eapply osub_unowned; [apply osub_put_oper |].
    apply (Lo po Hp). congruence.
  - injection H as <-.
    eapply own_inv_put_oper; [exact I | exact Hp | reflexivity |].
    simpl. intros. congruence.
Qed.

Lemma py_obj_free_internal_with_keeps f :
  releases f -> keeps any_obj f -> keeps any_obj (py_obj_free_internal_with f).
Proof.
  intros Hr Hk h a h' I _ H. unfold py_obj_free_internal_with in H.
  apply bind_Ok in H as (o0 & Ed & H). apply deref_Ok in Ed as [Ha Hfr].
  assert (P0 : forall v, type o0 <> PY_WHAT -> type o0 <> PY_SPLIT ->
            own_inv (put_obj h a (set_val v (set_varname None o0)))).
  { intros v A B. eapply own_inv_put_obj; [exact I | exact Ha | reflexivity |].
    apply cell_sub_other; assumption. }
  assert (P1 : own_inv (put_obj h a (set_varname None o0))).
  { eapply own_inv_put_obj; [exact I | exact Ha | reflexivity |]. split; auto. }
  assert (Each : forall h1 l, own_inv h1 -> free_each f h1 l = Ok h' -> own_inv h').
  { intros h1 l I1 E. eapply (free_each_keeps any_obj f); [exact Hr | exact Hk | | exact I1 | | exact E].
    - intros; exact Logic.I.
    - apply Forall_forall. intros; exact Logic.I. }
  simpl in H. destruct (type o0) eqn:Et;
    try (injection H as <-; exact P1);
    try (injection H as <-; apply P0; discriminate);
    try (eapply Each; [|exact H]; apply P0; discriminate).
  - (* PY_WHAT *)
    set (o := set_varname None o0) in *.
    set (h1 := put_obj h a (set_val (V_what None) o)) in *.
    assert (S1 : osub h h1).
    { eapply osub_put_obj; [exact Ha |]. apply cell_sub_none. split; intros; reflexivity. }
    assert (I1 : own_inv h1).
    { eapply own_inv_put_obj; [exact I | exact Ha | reflexivity |].
      apply cell_sub_none. split; intros; reflexivity. }
    eapply (free_each_keeps loose (pyop_free_with f));
      [apply pyop_free_with_frel, Hr | apply pyop_free_with_keeps; assumption
      | intros ? ? ? ?; apply loose_frel; assumption | exact I1 | | exact H].
    apply Forall_forall. intros p Hin po Hp Hop b Hb.
    destruct (py_what o) as [l|] eqn:El; [|simpl in Hin; inversion Hin].
    simpl in Hin.
    assert (Hoa : owns h a p).
    { exists o0, l. split_and!; auto. }
    pose proof (proj1 S1 _ _ Hb) as Hob.
    destruct I as (U & _). assert (b = a) by (eapply U; eauto). subst b.
    destruct Hb as (ob & lb & Hb & _ & _ & Hlb & _).
    unfold h1 in Hb. simpl in Hb.
    rewrite list_lookup_insert_eq in Hb by (eapply lookup_lt_Some; eauto).
    injection Hb as <-. discriminate.
  - (* PY_FUNC *)
    apply bind_Ok in H as (h2 & E2 & H).
    eapply (free_opt_keeps any_obj f Hk); [| |exact H]; [|intros; exact Logic.I].
    eapply (free_opt_keeps any_obj f Hk); [| |exact E2]; [|intros; exact Logic.I].
    apply P0; discriminate.
  - (* PY_SPLIT *)
    set (o := set_varname None o0) in *.
    set (h1 := put_obj h a (set_val (V_split None) o)) in *.
    assert (I1 : own_inv h1).
    { eapply own_inv_put_obj; [exact I | exact Ha | reflexivity |].
      apply cell_sub_none. split; intros; reflexivity. }
    eapply (free_opt_keeps loose (pyop_free_with f));
      [apply pyop_free_with_keeps; assumption | exact I1 | | exact H].
    intros p Hred po Hp Hop. exfalso.
    destruct I as (_ & S & _). destruct (S a p) as (po0 & Hp0 & Hne).
    { exists o0. split_and!; auto. }
    unfold h1 in Hp. simpl in Hp. congruence.
Qed.

Lemma py_obj_free_keeps fuel : keeps any_obj (py_obj_free fuel).
Proof.
  induction fuel as [|n IH]; intros h a h' I _ H; simpl in H; [discriminate |].
  apply bind_Ok in H as (o & Ed & H). apply deref_Ok in Ed as [Ha Hfr].
  assert (I0 : own_inv (put_obj h a (set_refcnt (refcnt o - 1) o))).
  { eapply own_inv_put_obj; [exact I | exact Ha | reflexivity | apply cell_sub_refcnt]. }
  case_bool_decide; [|injection H as <-; exact I0].
  apply bind_Ok in H as (h2 & E2 & H). apply bind_Ok in H as (o2 & Ed2 & H).
  injection H as <-. apply deref_Ok in Ed2 as [Ha2 _].
  eapply own_inv_put_obj; [| exact Ha2 | reflexivity | apply cell_sub_freed].
  eapply (py_obj_free_internal_with_keeps (py_obj_free n));
    [apply py_obj_free_frel | exact IH | exact I0 | exact Logic.I | exact E2].
Qed.

Lemma pyop_free_keeps fuel : keeps loose (pyop_free fuel).
Proof.
  apply pyop_free_with_keeps; [apply py_obj_free_frel | apply py_obj_free_keeps].
Qed.

(** *** What stays of a What *)

(** A live What keeps the first record of its list, and was live before. *)
Definition what_kept (o o' : PyObj) : Prop :=
  type o = PY_WHAT -> freed o' = false ->
  freed o = false
  /\ forall p rest, py_what o = Some (p :: rest) ->
       exists rest', py_what o' = Some (p :: rest').

(** A live OP_FAKE_INIT record keeps its stack, and was live before. *)
Definition oper_kept (po po' : PyOper) : Prop :=
  op po = OP_FAKE_INIT -> op_freed po' = false ->
  op_freed po = false /\ op_stack po' = op_stack po.

Definition kept (h h' : Heap) : Prop :=
  (forall a o o', objs h !! a = Some o -> objs h' !! a = Some o' -> what_kept o o')
  /\ (forall p po po', opers h !! p = Some po -> opers h' !! p = Some po' ->
        oper_kept po po').

(** A later heap: every cell is still there, with its type or its tag, and
    what a live What begins with is as it was. *)
Definition ext (h h' : Heap) : Prop := ext0 h h' /\ kept h h'.

Lemma what_kept_refl o : what_kept o o.
Proof. intros _ Hf. split; [exact Hf |]. intros p rest H. eauto. Qed.

Lemma oper_kept_refl po : oper_kept po po.
Proof. intros _ Hf. split; [exact Hf | reflexivity]. Qed.

Lemma ext_refl h : ext h h.
Proof.
  split; [apply ext0_refl |]. split.
  - intros a o o' H1 H2. assert (o' = o) by congruence. subst. apply what_kept_refl.
  - intros a o o' H1 H2. assert (o' = o) by congruence. subst. apply oper_kept_refl.
Qed.

Lemma ext_trans h1 h2 h3 : ext h1 h2 -> ext h2 h3 -> ext h1 h3.
Proof.
  intros [E1 [K1 L1]] [E2 [K2 L2]]. split; [eapply ext0_trans; eauto |]. split.
  - intros a o o3 H1 H3. destruct (ext0_obj _ _ _ _ E1 H1) as (o2 & H2 & T2).
    intros Ht Hf. destruct (K2 a o2 o3 H2 H3) as [Hf2 W2]; [congruence | exact Hf |].
    destruct (K1 a o o2 H1 H2 Ht Hf2) as [Hf1 W1]. split; [exact Hf1 |].
    intros p rest Hl. destruct (W1 p rest Hl) as [r2 Hl2]. exact (W2 p r2 Hl2).
  - intros p po po3 H1 H3. destruct (ext0_oper _ _ _ _ E1 H1) as (po2 & H2 & T2).
    intros Ht Hf. destruct (L2 p po2 po3 H2 H3) as [Hf2 W2]; [congruence | exact Hf |].
    destruct (L1 p po po2 H1 H2 Ht Hf2) as [Hf1 W1]. split; [exact Hf1 | congruence].
Qed.

Lemma frel_ext h h' : frel h h' -> ext h h'.
Proof.
  intros F. split; [apply frel_ext0, F |]. destruct F as (_ & _ & O & P). split.
  - intros a o o' H1 H2. destruct (O a o H1) as (o2 & H2' & [_ Fr]).
    assert (o2 = o') by congruence. subst o2. intros _ Hf.
    destruct (Fr Hf) as [n ->]. simpl in Hf. split; [exact Hf |].
    intros p rest Hl. exists rest. exact Hl.
  - intros p po po' H1 H2. destruct (P p po H1) as (po2 & H2' & [_ Fr]).
    assert (po2 = po') by congruence. subst po2. intros _ Hf.
    destruct (Fr Hf) as [n ->]. simpl in Hf. split; [exact Hf | reflexivity].
Qed.

Lemma ext_valid h h' a : ext h h' -> valid h a -> valid h' a.
Proof. intros [E _]. apply ext0_valid, E. Qed.

Lemma ext_is_split h h' a : ext h h' -> valid h a -> is_split h' a = is_split h a.
Proof. intros [E _]. apply ext0_is_split, E. Qed.

Lemma ext_nonsplits h h' l :
  ext h h' -> Forall (valid h) l -> nonsplits h' l = nonsplits h l.
Proof. intros [E _]. apply ext0_nonsplits, E. Qed.

Lemma ext_nosplit h h' a : ext h h' -> nosplit h a -> nosplit h' a.
Proof. intros [E _]. apply ext0_nosplit, E. Qed.

Lemma ext_stk_ok h h' l : ext h h' -> stk_ok h l -> stk_ok h' l.
Proof. intros [E _]. apply ext0_stk_ok, E. Qed.

Lemma good_obj_ext h h' o : ext h h' -> good_obj h o -> good_obj h' o.
Proof. intros [E _]. apply good_obj_ext0, E. Qed.

Lemma ext_obj h h' a o :
  ext h h' -> objs h !! a = Some o ->
  exists o', objs h' !! a = Some o' /\ type o' = type o.
Proof. intros [E _]. apply ext0_obj, E. Qed.

Lemma ext_oper h h' p po :
  ext h h' -> opers h !! p = Some po ->
  exists po', opers h' !! p = Some po' /\ op po' = op po.
Proof. intros [E _]. apply ext0_oper, E. Qed.

Lemma ext_put_obj h a o o' :
  objs h !! a = Some o -> type o' = type o -> what_kept o o' ->
  ext h (put_obj h a o').
Proof.
  intros Ha Ht K. split; [eapply ext0_put_obj; eauto |]. split; simpl.
  - intros b ob ob' H1 H2. apply list_lookup_insert_Some in H2.
    destruct H2 as [(-> & <- & _) | (Hne & H2)].
    + assert (ob = o) by congruence. subst ob. exact K.
    + assert (ob' = ob) by congruence. subst ob'. apply what_kept_refl.
  - intros p po po' H1 H2. assert (po' = po) by congruence. subst. apply oper_kept_refl.
Qed.

Lemma ext_put_oper h p po po' :
  opers h !! p = Some po -> op po' = op po -> oper_kept po po' ->
  ext h (put_oper h p po').
Proof.
  intros Ha Ht K. split; [eapply ext0_put_oper; eauto |]. split; simpl.
  - intros b ob ob' H1 H2. assert (ob' = ob) by congruence. subst. apply what_kept_refl.
  - intros q pq pq' H1 H2. apply list_lookup_insert_Some in H2.
    destruct H2 as [(-> & <- & _) | (Hne & H2)].
    + assert (pq = po) by congruence. subst pq. exact K.
    + assert (pq' = pq) by congruence. subst pq'. apply oper_kept_refl.
Qed.

Lemma ext_alloc_obj h o : ext h (alloc_obj h o).2.
Proof.
  split; [apply ext0_alloc_obj |]. split; simpl.
  - intros b ob ob' H1 H2. rewrite lookup_app_l in H2 by (eapply lookup_lt_Some; eauto).
    assert (ob' = ob) by congruence. subst. apply what_kept_refl.
  - intros p po po' H1 H2. assert (po' = po) by congruence. subst. apply oper_kept_refl.
Qed.

Lemma ext_alloc_oper h o : ext h (alloc_oper h o).2.
Proof.
  split; [apply ext0_alloc_oper |]. split; simpl.
  - intros b ob ob' H1 H2. assert (ob' = ob) by congruence. subst. apply what_kept_refl.
  - intros p po po' H1 H2. rewrite lookup_app_l in H2 by (eapply lookup_lt_Some; eauto).
    assert (po' = po) by congruence. subst. apply oper_kept_refl.
Qed.

(** A rewritten cell that owns what it owned keeps what it began with. *)
Lemma what_kept_sub h o o' :
  type o' = type o -> good_obj h o' -> cell_sub o o' -> what_kept o o'.
Proof.
  intros Ht (_ & _ & G) [C _] Hw Hf. rewrite <- Ht in Hw.
  destruct (G Hf) as [GW _]. destruct (GW Hw) as (p & rest & po & Hl & _).
  destruct (C Hw Hf _ Hl) as (_ & Hf0 & Hl0). split; [exact Hf0 |].
  intros p' rest' Hl'. rewrite Hl0 in Hl'. injection Hl' as <- <-. eauto.
Qed.

(** One step on the heap that keeps the invariant. *)
Definition hstep (h h' : Heap) : Prop := heap_inv h' /\ ext h h'.

Lemma hstep_refl h : heap_inv h -> hstep h h.
Proof. intros H. split; [exact H | apply ext_refl]. Qed.

Lemma hstep_trans h1 h2 h3 : hstep h1 h2 -> hstep h2 h3 -> hstep h1 h3.
Proof. intros [_ E1] [I2 E2]. split; [exact I2 | eapply ext_trans; eauto]. Qed.

Lemma loose_other h p :
  (forall po, opers h !! p = Some po -> op po <> OP_FAKE_INIT) -> loose h p.
Proof. intros H po Hp Hop. exfalso. exact (H po Hp Hop). Qed.

Lemma hstep_free fuel h a h' :
  heap_inv h -> py_obj_free fuel h a = Ok h' -> hstep h h'.
Proof.
  intros [B O] H. pose proof (py_obj_free_frel fuel _ _ _ H) as F. split; [split |].
  - eapply base_inv_frel; eauto.
  - eapply py_obj_free_keeps; [exact O | exact Logic.I | exact H].
  - apply frel_ext, F.
Qed.

Lemma hstep_free_opt fuel h a h' :
  heap_inv h -> free_opt (py_obj_free fuel) h a = Ok h' -> hstep h h'.
Proof.
  intros I H. destruct a as [a|]; simpl in H.
  - eapply hstep_free; eauto.
  - injection H as <-. apply hstep_refl, I.
Qed.

Lemma hstep_free_each fuel l : forall h h',
  heap_inv h -> free_each (py_obj_free fuel) h l = Ok h' -> hstep h h'.
Proof.
  induction l as [|x l IH]; intros h h' I H; simpl in H.
  - injection H as <-. apply hstep_refl, I.
  - apply bind_Ok in H as (h1 & E1 & H).
    pose proof (hstep_free _ _ _ _ I E1) as S1.
    eapply hstep_trans; [exact S1 | eapply IH; [apply S1 | exact H]].
Qed.

Lemma hstep_free_each_opt fuel l : forall h h',
  heap_inv h -> free_each (free_opt (py_obj_free fuel)) h l = Ok h' -> hstep h h'.
Proof.
  induction l as [|x l IH]; intros h h' I H; simpl in H.
  - injection H as <-. apply hstep_refl, I.
  - apply bind_Ok in H as (h1 & E1 & H).
    pose proof (hstep_free_opt _ _ _ _ I E1) as S1.
    eapply hstep_trans; [exact S1 | eapply IH; [apply S1 | exact H]].
Qed.

Lemma hstep_pyop_free fuel h p h' :
  heap_inv h -> loose h p -> pyop_free fuel h p = Ok h' -> hstep h h'.
Proof.
  intros [B O] Lo H. pose proof (pyop_free_frel fuel _ _ _ H) as F. split; [split |].
  - eapply base_inv_frel; eauto.
  - eapply pyop_free_keeps; [exact O | exact Lo | exact H].
  - apply frel_ext, F.
Qed.

Lemma hstep_put_obj h a o o' :
  heap_inv h -> objs h !! a = Some o -> type o' = type o -> good_obj h o' ->
  cell_sub o o' -> hstep h (put_obj h a o').
Proof.
  intros [B O] Ha Ht G C. split; [split |].
  - eapply base_inv_put_obj; eauto.
  - eapply own_inv_put_obj; eauto.
  - eapply ext_put_obj; eauto. eapply what_kept_sub; eauto.
Qed.

Lemma hstep_alloc_obj h o :
  heap_inv h -> good_obj h o -> cell_none o -> hstep h (alloc_obj h o).2.
Proof.
  intros [B O] G C. split; [split |].
  - apply base_inv_alloc_obj; auto.
  - apply own_inv_alloc_obj; auto.
  - apply ext_alloc_obj.
Qed.

Lemma hstep_put_oper h p po po' :
  heap_inv h -> opers h !! p = Some po -> op po' = op po -> good_oper po' ->
  op_freed po' = op_freed po ->
  (op po = OP_FAKE_INIT -> op_stack po' = op_stack po) ->
  hstep h (put_oper h p po').
Proof.
  intros [B O] Ha Ht G C K. split; [split |].
  - eapply base_inv_put_oper; eauto.
  - eapply own_inv_put_oper; eauto. intros. congruence.
  - eapply ext_put_oper; eauto. intros Hop Hf. split; [congruence | auto].
Qed.

Lemma hstep_alloc_oper h po :
  heap_inv h -> good_oper po -> hstep h (alloc_oper h po).2.
Proof.
  intros [B O] G. split; [split |].
  - apply base_inv_alloc_oper; auto.
  - apply own_inv_alloc_oper; auto.
  - apply ext_alloc_oper.
Qed.

Lemma heap_inv_good h a o : heap_inv h -> objs h !! a = Some o -> good_obj h o.
Proof. intros [[HO _] _] H. eauto. Qed.

Lemma heap_inv_good_oper h p po : heap_inv h -> opers h !! p = Some po -> good_oper po.
Proof. intros [[_ HP] _] H. eauto. Qed.

(** The payload of a cell that is neither a list of records nor a record. *)
Lemma cell_none_val o v :
  (forall l, v <> V_what l) -> (forall p, v <> V_split p) -> cell_none (set_val v o).
Proof.
  intros A B. unfold cell_none, py_what, reduce. simpl.
  destruct v; split; intros; try reflexivity; exfalso; [eapply A | eapply B]; reflexivity.
Qed.

Lemma cell_sub_val o v :
  (forall l, v <> V_what l) -> (forall p, v <> V_split p) -> cell_sub o (set_val v o).
Proof. intros A B. apply cell_sub_none, cell_none_val; assumption. Qed.

Lemma cell_none_new pvm t : cell_none (py_obj_new pvm t).
Proof. split; intros; reflexivity. Qed.

Ltac cell :=
  first [ apply cell_none_new | apply cell_sub_refcnt | apply cell_sub_recurse
        | apply cell_sub_freed
        | (apply cell_none_val; intros; discriminate)
        | (apply cell_sub_val; intros; discriminate) ].

Lemma hstep_incref h a h' : heap_inv h -> incref h a = Ok h' -> hstep h h'.
Proof.
  intros I H. unfold incref in H.
  destruct (deref h a) as [o| |] eqn:E; simpl in H; try discriminate.
  injection H as <-. apply deref_Ok in E as [E _].
  eapply hstep_put_obj; eauto; [exact (heap_inv_good h a o I E) | apply cell_sub_refcnt].
Qed.

(** py_what_new: the record first, then the What that lists it. *)
Lemma hstep_what_new h P W :
  heap_inv h -> good_oper P -> op P = OP_FAKE_INIT -> op_freed P = false ->
  good_obj (alloc_oper h P).2 W -> type W = PY_WHAT ->
  py_what W = Some [length (opers h)] ->
  hstep h (alloc_obj (alloc_oper h P).2 W).2
  /\ (forall p, (p < length (opers h))%nat -> unowned h p ->
        unowned (alloc_obj (alloc_oper h P).2 W).2 p).
Proof.
  intros I GP HP FP GW TW LW.
  pose proof (hstep_alloc_oper h P I GP) as [[B1 O1] E1].
  assert (SA : forall a p, owns (alloc_obj (alloc_oper h P).2 W).2 a p ->
            owns h a p \/ (a = length (objs h) /\ p = length (opers h))).
  { intros a p (o & l & Ha & Ht & Hf & Hl & Hin). simpl in Ha.
    apply lookup_app_Some in Ha as [Ha | [Hge Ha]]; [left; exists o, l; auto |].
    destruct (a - length (objs h))%nat eqn:Ea; simpl in Ha; [|discriminate].
    injection Ha as <-. right. split; [lia |].
    rewrite LW in Hl. injection Hl as <-. apply list_elem_of_singleton in Hin. exact Hin. }
  split; [split; [split |] |].
  - apply base_inv_alloc_obj; auto.
  - eapply (own_inv_add h _ (length (objs h)) (length (opers h)) (proj2 I)).
    + eapply ext0_trans; [apply ext0_alloc_oper | apply ext0_alloc_obj].
    + exact SA.
    + intros a p (o & Ha & Ht & Hf & Hl). simpl in Ha.
      apply lookup_app_Some in Ha as [Ha | [Hge Ha]]; [exists o; auto |].
      destruct (a - length (objs h))%nat; simpl in Ha; [|discriminate].
      injection Ha as <-. congruence.
    + intros a Ho. destruct I as [_ (_ & _ & _ & V)]. pose proof (V a _ Ho). lia.
    + simpl. rewrite length_app. simpl. lia.
    + intros po Hp _. simpl in Hp. rewrite lookup_app_r in Hp by lia.
      rewrite Nat.sub_diag in Hp. injection Hp as <-. exact FP.
    + intros p po po' H1 H2. simpl in H2.
      rewrite lookup_app_l in H2 by (eapply lookup_lt_Some; eauto). congruence.
  - eapply ext_trans; [apply ext_alloc_oper | apply ext_alloc_obj].
  - intros p Hlt Hu a Ho. destruct (SA _ _ Ho) as [Ho0 | [_ ->]]; [exact (Hu _ Ho0) | lia].
Qed.

(** r_list_push (obj->py_what, pop), for a record no What lists yet. *)
Lemma hstep_what_push h a o l pop :
  heap_inv h -> objs h !! a = Some o -> type o = PY_WHAT -> freed o = false ->
  py_what o = Some l -> unowned h pop ->
  (exists po, opers h !! pop = Some po /\ op po <> OP_FAKE_INIT) ->
  good_obj h (set_val (V_what (Some (l ++ [pop]))) o) ->
  hstep h (put_obj h a (set_val (V_what (Some (l ++ [pop]))) o)).
Proof.
  intros [B O] Ha Ht Hf Hl Hu (po & Hp & Hop) G. split; [split |].
  - eapply base_inv_put_obj; eauto.
  - eapply (own_inv_add h _ a pop O).
    + eapply ext0_put_obj; eauto.
    + intros b p (ob & lb & Hb & Tb & Fb & Lb & Hin). simpl in Hb.
      apply list_lookup_insert_Some in Hb as [(-> & <- & _) | (Hne & Hb)].
      * unfold py_what in Lb. simpl in Lb. injection Lb as <-.
        apply elem_of_app in Hin as [Hin | Hin].
        -- left. exists o, l. auto.
        -- right. apply list_elem_of_singleton in Hin. auto.
      * left. exists ob, lb. auto.
    + intros b p (ob & Hb & Tb & Fb & Rb). simpl in Hb.
      apply list_lookup_insert_Some in Hb as [(-> & <- & _) | (Hne & Hb)].
      * simpl in Tb. congruence.
      * exists ob. auto.
    + exact Hu.
    + simpl. eapply lookup_lt_Some; eauto.
    + intros po' Hp' Hop'. simpl in Hp'. congruence.
    + intros p q q' H1 H2. simpl in H2. congruence.
  - eapply ext_put_obj; eauto. intros _ _. split; [exact Hf |].
    intros p rest Hl'. rewrite Hl in Hl'. injection Hl' as ->.
    exists (rest ++ [pop]). reflexivity.
Qed.

Lemma hstep_split_ref h a o o' p :
  heap_inv h -> objs h !! a = Some o -> type o' = type o -> type o' = PY_SPLIT ->
  good_obj h o' -> (forall q, reduce o' = Some q -> q = p) ->
  (exists po, opers h !! p = Some po /\ op po <> OP_FAKE_INIT) ->
  hstep h (put_obj h a o').
Proof.
  intros [B O] Ha Ht Hs G Hr Hp. split; [split |].
  - eapply base_inv_put_obj; eauto.
  - eapply own_inv_add_ref; eauto.
  - eapply ext_put_obj; eauto. intros Hw. congruence.
Qed.

Lemma nosplit_alloc h o : type o <> PY_SPLIT -> nosplit (alloc_obj h o).2 (alloc_obj h o).1.
Proof.
  intros Ht. exists o. split; [|exact Ht]. simpl.
  rewrite lookup_app_r by lia. rewrite Nat.sub_diag. reflexivity.
Qed.

(** Taking a step of the heap under the stacks. *)
Lemma Inv_with_heap pvm h' :
  Inv pvm -> hstep (heap pvm) h' -> Inv (with_heap h' pvm).
Proof.
  intros (I & S & M & K) [I' E]. unfold Inv. simpl. split_and!.
  - exact I'.
  - eapply ext_stk_ok; eauto.
  - eapply Forall_impl; [exact M |]. intros l. apply ext_stk_ok, E.
  - intros k a Hk. eapply ext_nosplit; eauto.
Qed.

Definition sstep (pvm pvm' : PMState) : Prop :=
  Inv pvm' /\ ext (heap pvm) (heap pvm').

Lemma sstep_refl pvm : Inv pvm -> sstep pvm pvm.
Proof. intros I. split; [exact I | apply ext_refl]. Qed.

Lemma sstep_trans p1 p2 p3 : sstep p1 p2 -> sstep p2 p3 -> sstep p1 p3.
Proof. intros [_ E1] [I2 E2]. split; [exact I2 | eapply ext_trans; eauto]. Qed.

Lemma sstep_with_heap pvm h' :
  Inv pvm -> hstep (heap pvm) h' -> sstep pvm (with_heap h' pvm).
Proof. intros I H. split; [apply Inv_with_heap; auto | apply H]. Qed.

Lemma Inv_with_stack pvm l : Inv pvm -> stk_ok (heap pvm) l -> Inv (with_stack l pvm).
Proof. intros (I & S & M & K) Hl. unfold Inv. simpl. auto. Qed.

Lemma Inv_with_metastack pvm l :
  Inv pvm -> Forall (stk_ok (heap pvm)) l -> Inv (with_metastack l pvm).
Proof. intros (I & S & M & K) Hl. unfold Inv. simpl. auto. Qed.

Lemma Inv_with_popstack pvm l : Inv pvm -> Inv (with_popstack l pvm).
Proof. intros (I & S & M & K). unfold Inv. simpl. auto. Qed.

Lemma Inv_with_offset pvm z : Inv pvm -> Inv (with_offset z pvm).
Proof. intros (I & S & M & K). unfold Inv. simpl. auto. Qed.

Lemma Inv_with_ver pvm z : Inv pvm -> Inv (with_ver z pvm).
Proof. intros (I & S & M & K). unfold Inv. simpl. auto. Qed.

Lemma Inv_with_recurse pvm z : Inv pvm -> Inv (with_recurse z pvm).
Proof. intros (I & S & M & K). unfold Inv. simpl. auto. Qed.

Lemma Inv_with_memo pvm m :
  Inv pvm -> (forall k a, m !! k = Some (Some a) -> nosplit (heap pvm) a) ->
  Inv (with_memo m pvm).
Proof. intros (I & S & M & K) Hm. unfold Inv. simpl. auto. Qed.

Lemma Inv_stack pvm : Inv pvm -> stk_ok (heap pvm) (stack pvm).
Proof. intros (I & S & M & K). exact S. Qed.

Lemma Inv_heap pvm : Inv pvm -> heap_inv (heap pvm).
Proof. intros (I & S & M & K). exact I. Qed.

Lemma stk_ok_app h l1 l2 : stk_ok h l1 -> stk_ok h l2 -> stk_ok h (l1 ++ l2).
Proof. intros. apply Forall_app; auto. Qed.

Lemma stk_ok_snoc h l a : stk_ok h l -> nosplit h a -> stk_ok h (l ++ [a]).
Proof. intros. apply Forall_app; split; [auto | constructor; [auto | constructor]]. Qed.

Lemma stk_ok_last h l a : stk_ok h l -> last l = Some a -> nosplit h a.
Proof.
  intros H Hl. apply last_Some in Hl as [l' ->].
  apply Forall_app in H as [_ H]. inversion H; auto.
Qed.

Lemma stk_ok_pop h l a l' : stk_ok h l -> r_list_pop l = Some (a, l') ->
  nosplit h a /\ stk_ok h l'.
Proof.
  intros H Hl. apply r_list_pop_Some in Hl as ->.
  apply Forall_app in H as [H1 H]. inversion H; auto.
Qed.

Lemma stk_ok_take h l n : stk_ok h l -> stk_ok h (take n l).
Proof. apply Forall_take. Qed.

Lemma stk_ok_drop h l n : stk_ok h l -> stk_ok h (drop n l).
Proof. apply Forall_drop. Qed.

(** *** The handlers that push a fresh object *)

Lemma push_new_sstep pvm o :
  Inv pvm -> good_obj (heap pvm) o -> type o <> PY_SPLIT -> type o <> PY_WHAT ->
  sstep pvm (with_stack (stack pvm ++ [(alloc_obj (heap pvm) o).1])
               (with_heap (alloc_obj (heap pvm) o).2 pvm)).
Proof.
  intros I G Ht Hw.
  assert (S1 : sstep pvm (with_heap (alloc_obj (heap pvm) o).2 pvm)).
  { apply sstep_with_heap; [exact I |].
    apply hstep_alloc_obj; [apply Inv_heap, I | exact G | apply cell_none_other; assumption]. }
  destruct S1 as [I1 E1]. split; [|exact E1].
  apply Inv_with_stack; [exact I1 |]. simpl.
  apply stk_ok_snoc; [apply (Inv_stack _ I1) | apply nosplit_alloc, Ht].
Qed.

Lemma op_none_sstep pvm b pvm' :
  Inv pvm -> op_none pvm = Ok (b, pvm') -> sstep pvm pvm'.
Proof.
  intros I H. unfold op_none in H. injection H as <- <-.
  apply (push_new_sstep pvm (py_obj_new pvm PY_NONE) I); [| | discriminate].
  - apply good_obj_new0; discriminate.
  - discriminate.
Qed.

Lemma op_newbool_sstep pvm v b pvm' :
  Inv pvm -> op_newbool pvm v = Ok (b, pvm') -> sstep pvm pvm'.
Proof.
  intros I H. unfold op_newbool in H. injection H as <- <-.
  apply (push_new_sstep pvm (set_val (V_bool v) (py_obj_new pvm PY_BOOL)) I); [| | discriminate].
  - apply good_obj_new; discriminate.
  - discriminate.
Qed.

Lemma push_int_type_sstep pvm o b pvm' :
  Inv pvm -> push_int_type pvm o = Ok (b, pvm') -> sstep pvm pvm'.
Proof.
  intros I H. unfold push_int_type in H. injection H as <- <-.
  apply (push_new_sstep pvm (set_val (V_int (op_val o)) (py_obj_new pvm PY_INT)) I); [| | discriminate].
  - apply good_obj_new; discriminate.
  - discriminate.
Qed.


Lemma insert_snoc {A} (l : list A) (x y : A) : <[length l := y]> (l ++ [x]) = l ++ [y].
Proof.
  induction l as [|z l IH]; simpl; [reflexivity |]. f_equal. exact IH.
Qed.

(** Writing the cell that was just allocated is allocating the final value. *)
Lemma put_alloc h o o' :
  put_obj (mkHeap (objs h ++ [o]) (opers h)) (length (objs h)) o'
  = mkHeap (objs h ++ [o']) (opers h).
Proof. unfold put_obj. simpl. rewrite insert_snoc. reflexivity. Qed.

Lemma hstep_alloc_free fuel h o h' :
  heap_inv h -> good_obj h o -> cell_none o ->
  py_obj_free fuel (mkHeap (objs h ++ [o]) (opers h)) (length (objs h)) = Ok h' ->
  hstep h h'.
Proof.
  intros I G C H. eapply hstep_trans; [apply (hstep_alloc_obj h o I G C) |].
  eapply hstep_free; [|exact H]. apply (hstep_alloc_obj h o I G C).
Qed.

Lemma op_float_sstep fuel pvm o q b pvm' :
  Inv pvm -> op_float fuel pvm o q = Ok (b, pvm') -> sstep pvm pvm'.
Proof.
  intros I H. unfold op_float, alloc_obj in H.
  destruct (scan_lf o q) as [d|].
  - injection H as <- <-. rewrite put_alloc.
    apply (push_new_sstep pvm (set_val (V_float d) (py_obj_new pvm PY_FLOAT)) I); [| | discriminate].
    + apply good_obj_new; discriminate.
    + discriminate.
  - destruct (py_obj_free _ _ _) as [h1| |] eqn:E; simpl in H; try discriminate.
    injection H as <- <-. apply sstep_with_heap; [exact I |].
    eapply hstep_alloc_free; [apply Inv_heap, I | | apply cell_none_new | exact E].
    apply good_obj_new0; discriminate.
Qed.

Lemma push_str_sstep fuel pvm o b pvm' :
  Inv pvm -> push_str fuel pvm o = Ok (b, pvm') -> sstep pvm pvm'.
Proof.
  intros I H. unfold push_str, alloc_obj in H.
  destruct (get_big_str o) as [d|].
  - injection H as <- <-. rewrite put_alloc.
    apply (push_new_sstep pvm (set_val (V_str (Some d)) (py_obj_new pvm PY_STR)) I); [| | discriminate].
    + apply good_obj_new; discriminate.
    + discriminate.
  - destruct (py_obj_free _ _ _) as [h1| |] eqn:E; simpl in H; try discriminate.
    injection H as <- <-. apply sstep_with_heap; [exact I |].
    eapply hstep_alloc_free; [apply Inv_heap, I | | apply cell_none_new | exact E].
    apply good_obj_new0; discriminate.
Qed.

(** *** Marks and pops *)

Lemma op_mark_sstep pvm b pvm' :
  Inv pvm -> op_mark pvm = Ok (b, pvm') -> sstep pvm pvm'.
Proof.
  intros I H. unfold op_mark in H. injection H as <- <-.
  split; [|apply ext_refl]. destruct I as (I & S & M & K).
  unfold Inv. simpl. split_and!; auto.
  - constructor.
  - apply Forall_app. split; [exact M | constructor; [exact S | constructor]].
Qed.

Lemma op_pop_sstep pvm b pvm' :
  Inv pvm -> op_pop pvm = Ok (b, pvm') -> sstep pvm pvm'.
Proof.
  intros I H. unfold op_pop in H.
  destruct (r_list_pop (stack pvm)) as [[a rest]|] eqn:E.
  - injection H as <- <-. split; [|apply ext_refl].
    apply Inv_with_popstack, Inv_with_stack; [exact I |].
    eapply stk_ok_pop; [apply Inv_stack, I | exact E].
  - injection H as <- <-. apply sstep_refl, I.
Qed.

Lemma Inv_metastack_pop pvm prev ms :
  Inv pvm -> r_list_pop (metastack pvm) = Some (prev, ms) ->
  stk_ok (heap pvm) prev /\ Forall (stk_ok (heap pvm)) ms.
Proof.
  intros (I & S & M & K) E. apply r_list_pop_Some in E. rewrite E in M.
  apply Forall_app in M as [M1 M2]. inversion M2; auto.
Qed.

Lemma Inv_metastack_last pvm prev :
  Inv pvm -> last (metastack pvm) = Some prev -> stk_ok (heap pvm) prev.
Proof.
  intros (I & S & M & K) E. apply last_Some in E as [l' E]. rewrite E in M.
  apply Forall_app in M as [M1 M2]. inversion M2; auto.
Qed.

Lemma op_pop_mark_sstep pvm b pvm' :
  Inv pvm -> op_pop_mark pvm = Ok (b, pvm') -> sstep pvm pvm'.
Proof.
  intros I H. unfold op_pop_mark in H.
  destruct (r_list_pop (metastack pvm)) as [[prev ms]|] eqn:E.
  - injection H as <- <-. split; [|apply ext_refl].
    destruct (Inv_metastack_pop _ _ _ I E) as [Hp Hm].
    apply Inv_with_stack; [|exact Hp].
    apply Inv_with_metastack; [|exact Hm].
    apply Inv_with_popstack, I.
  - injection H as <- <-. apply sstep_refl, I.
Qed.

(** *** The memo *)

Lemma obj_stack_peek_hstep h stk dup obj h' :
  heap_inv h -> obj_stack_peek h stk dup = Ok (obj, h') ->
  hstep h h' /\ obj = last stk.
Proof.
  intros I H. unfold obj_stack_peek in H.
  destruct (last stk) as [a|].
  - destruct dup.
    + destruct (incref h a) as [h1| |] eqn:E; simpl in H; try discriminate.
      injection H as <- <-. split; [eapply hstep_incref; eauto | reflexivity].
    + injection H as <- <-. split; [apply hstep_refl, I | reflexivity].
  - injection H as <- <-. split; [apply hstep_refl, I | reflexivity].
Qed.

Lemma memo_put_sstep fuel pvm loc b pvm' :
  Inv pvm -> memo_put fuel pvm loc = Ok (b, pvm') -> sstep pvm pvm'.
Proof.
  intros I H. unfold memo_put in H.
  destruct (bool_decide (loc >= 0)); [|injection H as <- <-; apply sstep_refl, I].
  destruct (obj_stack_peek _ _ _) as [[obj h1]| |] eqn:E1; simpl in H; try discriminate.
  apply obj_stack_peek_hstep in E1 as [S1 ->]; [|apply Inv_heap, I].
  unfold ht_up_update in H.
  match type of H with
  | (?m ≫= _) ≫= _ = _ => destruct m as [h2| |] eqn:E2; simpl in H; try discriminate
  end.
  injection H as <- <-.
  assert (S2 : hstep h1 h2).
  { destruct (memo pvm !! loc) as [old|].
    - eapply hstep_free_opt; [apply S1 | exact E2].
    - injection E2 as <-. apply hstep_refl, S1. }
  pose proof (hstep_trans _ _ _ S1 S2) as S12.
  pose proof (sstep_with_heap pvm h2 I S12) as [I2 E].
  split; [|exact E].
  apply Inv_with_memo; [exact I2 |].
  intros k a Hk. simpl. apply lookup_insert_Some in Hk.
  destruct Hk as [[-> Hk] | [Hne Hk]].
  - eapply ext_nosplit; [exact E |].
    eapply stk_ok_last; [apply Inv_stack, I | exact Hk].
  - destruct I2 as (_ & _ & _ & K2). simpl in K2. eapply K2; eauto.
Qed.

Lemma op_memorize_sstep fuel pvm b pvm' :
  Inv pvm -> op_memorize fuel pvm = Ok (b, pvm') -> sstep pvm pvm'.
Proof. apply memo_put_sstep. Qed.

Lemma push_old_sstep pvm a h' :
  Inv pvm -> nosplit (heap pvm) a -> hstep (heap pvm) h' ->
  sstep pvm (with_stack (stack pvm ++ [a]) (with_heap h' pvm)).
Proof.
  intros I Ha S. pose proof (sstep_with_heap pvm h' I S) as [I1 E].
  split; [|exact E]. apply Inv_with_stack; [exact I1 |]. simpl.
  apply stk_ok_snoc; [apply (Inv_stack _ I1) | eapply ext_nosplit; eauto].
Qed.

Lemma memo_get_sstep pvm loc b pvm' :
  Inv pvm -> memo_get pvm loc = Ok (b, pvm') -> sstep pvm pvm'.
Proof.
  intros I H. unfold memo_get in H.
  destruct (bool_decide (loc >= 0)); [|injection H as <- <-; apply sstep_refl, I].
  destruct (memo pvm !! loc) as [[obj|]|] eqn:Em;
    try (injection H as <- <-; apply sstep_refl, I).
  destruct (incref _ obj) as [h1| |] eqn:E; simpl in H; try discriminate.
  injection H as <- <-.
  apply push_old_sstep; [exact I | | eapply hstep_incref; [apply Inv_heap, I | exact E]].
  destruct I as (_ & _ & _ & K). eapply K; eauto.
Qed.

Lemma op_dup_sstep pvm b pvm' :
  Inv pvm -> op_dup pvm = Ok (b, pvm') -> sstep pvm pvm'.
Proof.
  intros I H. unfold op_dup in H.
  destruct (last (stack pvm)) as [obj|] eqn:El;
    [|injection H as <- <-; apply sstep_refl, I].
  destruct (incref _ obj) as [h1| |] eqn:E; simpl in H; try discriminate.
  injection H as <- <-.
  apply push_old_sstep; [exact I | | eapply hstep_incref; [apply Inv_heap, I | exact E]].
  eapply stk_ok_last; [apply Inv_stack, I | exact El].
Qed.

Lemma empty_memo_sstep fuel pvm pvm' :
  Inv pvm -> empty_memo fuel pvm = Ok pvm' -> sstep pvm pvm'.
Proof.
  intros I H. unfold empty_memo in H.
  destruct (free_each _ _ _) as [h1| |] eqn:E; simpl in H; try discriminate.
  injection H as <-.
  assert (S : hstep (heap pvm) h1).
  { eapply hstep_free_each_opt; [apply Inv_heap, I | exact E]. }
  pose proof (sstep_with_heap pvm h1 I S) as [I1 E1]. split; [|exact E1].
  apply Inv_with_memo; [exact I1 |]. intros k a Hk. rewrite lookup_empty in Hk. discriminate.
Qed.


(** *** Iterables *)

Lemma even_of_mod (n : nat) : Z.of_nat n mod 2 = 0 -> Nat.even n = true.
Proof.
  intros H. apply Nat.even_spec. exists (Z.to_nat (Z.of_nat n / 2)).
  pose proof (Z.div_mod (Z.of_nat n) 2 ltac:(lia)) as D. lia.
Qed.

Lemma good_obj_set_iter h o l' :
  good_obj h o -> type o <> PY_WHAT ->
  (type o = PY_DICT -> Forall (valid h) l' /\ Nat.even (nonsplits h l') = true) ->
  good_obj h (set_val (V_iter (Some l')) o).
Proof.
  intros (M & V & G) Hw Hd. split; [exact M | split; [exact V |]].
  intros Hf. simpl. split; [intros Ht; contradiction |].
  intros Ht. exists l'. destruct (Hd Ht). auto.
Qed.

Lemma good_obj_dict_iter h o l :
  good_obj h o -> type o = PY_DICT -> freed o = false -> py_iter o = Some l ->
  Forall (valid h) l /\ Nat.even (nonsplits h l) = true.
Proof.
  intros (_ & _ & G) Ht Hf Hl. destruct (G Hf) as [_ GD].
  destruct (GD Ht) as (l0 & E0 & Hv & He). assert (l0 = l) by congruence. subst. auto.
Qed.

Lemma stk_ok_valid h l : stk_ok h l -> Forall (valid h) l.
Proof. intros H. eapply Forall_impl; [exact H |]. intros a. apply nosplit_valid. Qed.

Lemma py_iter_append_mark_sstep fuel pvm obj t b pvm' :
  Inv pvm -> t <> PY_WHAT ->
  py_iter_append_mark fuel pvm obj t = Ok (b, pvm') -> sstep pvm pvm'.
Proof.
  intros I Ht H. unfold py_iter_append_mark in H.
  destruct obj as [a|]; [|injection H as <- <-; apply sstep_refl, I].
  destruct (deref _ a) as [o| |] eqn:Ed; simpl in H; try discriminate.
  apply deref_Ok in Ed as [Ha Hfr].
  destruct (bool_decide (type o = t)) eqn:Et;
    [|injection H as <- <-; apply sstep_refl, I].
  apply bool_decide_eq_true in Et.
  destruct (bool_decide (t = PY_DICT) && _) eqn:Ec;
    [injection H as <- <-; apply sstep_refl, I |].
  destruct (r_list_pop (metastack pvm)) as [[prev ms]|] eqn:Em;
    [|injection H as <- <-; apply sstep_refl, I].
  match type of H with
  | (?m ≫= _) = _ => destruct m as [h1| |] eqn:E1; simpl in H; try discriminate
  end.
  injection H as <- <-.
  destruct (Inv_metastack_pop _ _ _ I Em) as [Hp Hm].
  assert (S : hstep (heap pvm) h1).
  { destruct (py_iter o) as [l|] eqn:El.
    - injection E1 as <-.
      eapply hstep_put_obj; [apply Inv_heap, I | exact Ha | reflexivity | | cell].
      pose proof (heap_inv_good _ _ _ (Inv_heap _ I) Ha) as G.
      apply good_obj_set_iter; [exact G | congruence |].
      intros Hd. destruct (good_obj_dict_iter _ _ _ G Hd Hfr El) as [Hv He].
      pose proof (Inv_stack _ I) as Hs.
      split.
      + apply Forall_app. split; [exact Hv | apply stk_ok_valid, Hs].
      + rewrite nonsplits_app, Nat.even_add, He, (nonsplits_stk _ _ Hs).
        rewrite even_of_mod; [reflexivity |].
        apply andb_false_iff in Ec. destruct Ec as [Ec | Ec].
        * apply bool_decide_eq_false in Ec. congruence.
        * apply negb_false_iff, Z.eqb_eq in Ec. exact Ec.
    - eapply hstep_free_each; [apply Inv_heap, I | exact E1]. }
  pose proof (sstep_with_heap pvm h1 I S) as [I1 E]. split; [|exact E].
  apply Inv_with_stack; [|simpl; eapply ext_stk_ok; eauto].
  apply Inv_with_metastack; [exact I1 |]. simpl.
  eapply Forall_impl; [exact Hm |]. intros l. apply ext_stk_ok, E.
Qed.

Lemma good_obj_new_iter h pvm t :
  t <> PY_WHAT -> good_obj h (set_val (V_iter (Some [])) (py_obj_new pvm t)).
Proof.
  intros Ht. split; [reflexivity | split; [reflexivity |]].
  intros _. split; intros Hx; simpl in Hx; [congruence |].
  exists []. split; [reflexivity | split; [constructor | reflexivity]].
Qed.

Lemma py_iter_new_sstep pvm t obj pvm' :
  Inv pvm -> t <> PY_WHAT -> t <> PY_SPLIT ->
  py_iter_new pvm t = (obj, pvm') ->
  sstep pvm pvm' /\ stack pvm' = stack pvm /\ metastack pvm' = metastack pvm
  /\ (forall a, obj = Some a -> nosplit (heap pvm') a).
Proof.
  intros I Hw Hs H. unfold py_iter_new, alloc_obj in H.
  destruct (pytype_has_depth t).
  - injection H as <- <-. split_and!; try reflexivity.
    + apply sstep_with_heap; [exact I |].
      apply (hstep_alloc_obj (heap pvm) _ (Inv_heap _ I)); [|cell].
      apply good_obj_new_iter, Hw.
    + intros a Ha. injection Ha as <-.
      apply (nosplit_alloc (heap pvm) (set_val (V_iter (Some [])) (py_obj_new pvm t))).
      exact Hs.
  - injection H as <- <-. split_and!; try reflexivity.
    + apply sstep_refl, I.
    + intros a Ha. discriminate.
Qed.

Lemma iter_to_mark_sstep fuel pvm t obj pvm' :
  Inv pvm -> t <> PY_WHAT -> t <> PY_SPLIT ->
  iter_to_mark fuel pvm t = Ok (obj, pvm') ->
  sstep pvm pvm' /\ (forall a, obj = Some a -> nosplit (heap pvm') a).
Proof.
  intros I Hw Hs H. unfold iter_to_mark in H.
  destruct (py_iter_new pvm t) as [obj0 pvm0] eqn:E0.
  apply py_iter_new_sstep in E0 as (S0 & _ & _ & N0); auto.
  destruct (py_iter_append_mark fuel pvm0 obj0 t) as [[ok pvm1]| |] eqn:E1;
    simpl in H; try discriminate.
  pose proof (py_iter_append_mark_sstep _ _ _ _ _ _ (proj1 S0) Hw E1) as S1.
  destruct ok.
  - injection H as <- <-. split; [eapply sstep_trans; eauto |].
    intros a Ha. eapply ext_nosplit; [apply S1 | apply N0, Ha].
  - destruct (free_opt _ _ obj0) as [h2| |] eqn:E2; simpl in H; try discriminate.
    injection H as <- <-. split; [|intros a Ha; discriminate].
    eapply sstep_trans; [exact S0 |]. eapply sstep_trans; [exact S1 |].
    apply sstep_with_heap; [apply S1 |].
    eapply hstep_free_opt; [apply Inv_heap, S1 | exact E2].
Qed.

Lemma op_type_create_append_sstep fuel pvm t b pvm' :
  Inv pvm -> t <> PY_WHAT -> t <> PY_SPLIT ->
  op_type_create_append fuel pvm t = Ok (b, pvm') -> sstep pvm pvm'.
Proof.
  intros I Hw Hs H. unfold op_type_create_append in H.
  destruct (iter_to_mark fuel pvm t) as [[obj pvm1]| |] eqn:E1; simpl in H; try discriminate.
  apply iter_to_mark_sstep in E1 as [S1 N1]; auto.
  destruct obj as [a|]; injection H as <- <-; [|exact S1].
  eapply sstep_trans; [exact S1 |]. split; [|apply ext_refl].
  apply Inv_with_stack; [apply S1 |].
  apply stk_ok_snoc; [apply Inv_stack, S1 | apply N1; reflexivity].
Qed.

Lemma deref_alloc h o :
  freed o = false ->
  deref (mkHeap (objs h ++ [o]) (opers h)) (length (objs h)) = Ok o.
Proof.
  intros Hf. apply deref_Ok. split; [|exact Hf]. simpl.
  rewrite lookup_app_r by lia. rewrite Nat.sub_diag. reflexivity.
Qed.

Lemma good_obj_new_items h pvm t items :
  t <> PY_WHAT -> (t = PY_DICT -> items = []) ->
  good_obj h (set_val (V_iter (Some items)) (py_obj_new pvm t)).
Proof.
  intros Ht Hd. split; [reflexivity | split; [reflexivity |]].
  intros _. split; intros Hx; simpl in Hx; [congruence |].
  exists items. split; [reflexivity |]. rewrite (Hd Hx). split; [constructor | reflexivity].
Qed.

Lemma op_iter_n_sstep pvm n t b pvm' :
  Inv pvm -> t <> PY_WHAT -> t <> PY_SPLIT -> (t = PY_DICT -> n = 0) ->
  op_iter_n pvm n t = Ok (b, pvm') -> sstep pvm pvm'.
Proof.
  intros I Hw Hs Hd H. unfold op_iter_n, py_iter_new, alloc_obj in H.
  destruct (bool_decide (n <= 3)); [|injection H as <- <-; apply sstep_refl, I].
  destruct (pytype_has_depth t); [|injection H as <- <-; apply sstep_refl, I].
  simpl in H. rewrite deref_alloc in H by reflexivity. simpl in H.
  assert (step : forall items,
            (t = PY_DICT -> items = []) ->
            sstep pvm (with_heap (mkHeap (objs (heap pvm) ++
                         [set_val (V_iter (Some items)) (py_obj_new pvm t)])
                         (opers (heap pvm))) pvm)
            /\ nosplit (mkHeap (objs (heap pvm) ++
                         [set_val (V_iter (Some items)) (py_obj_new pvm t)])
                         (opers (heap pvm))) (length (objs (heap pvm)))).
  { intros items Hdi. split.
    - apply sstep_with_heap; [exact I |].
      apply (hstep_alloc_obj (heap pvm) _ (Inv_heap _ I)); [|cell].
      apply good_obj_new_items; auto.
    - apply (nosplit_alloc (heap pvm) (set_val (V_iter (Some items)) (py_obj_new pvm t))).
      exact Hs. }
  case_bool_decide as Hk; injection H as <- <-; rewrite put_alloc.
  - destruct (step (drop (length (stack pvm) - Z.to_nat n) (stack pvm))) as [[I1 E1] N1].
    { intros Hx. rewrite (Hd Hx). simpl. rewrite Nat.sub_0_r. apply drop_all. }
    split; [|exact E1]. apply Inv_with_stack; [exact I1 |]. simpl.
    apply stk_ok_snoc; [|exact N1].
    apply stk_ok_take. eapply ext_stk_ok; [exact E1 | apply Inv_stack, I].
  - destruct (step (stack pvm)) as [[I1 E1] N1].
    { intros Hx. exfalso. apply Hk. rewrite (Hd Hx). simpl. lia. }
    split; [|exact E1]. apply Inv_with_stack; [exact I1 |]. constructor.
Qed.


(** *** Operation records *)

Lemma py_what_new_sstep pvm obj wat pvm' :
  Inv pvm -> py_what_new pvm obj = (wat, pvm') ->
  sstep pvm pvm' /\ stack pvm' = stack pvm /\ metastack pvm' = metastack pvm
  /\ nosplit (heap pvm') wat
  /\ (exists o, deref (heap pvm') wat = Ok o /\ type o = PY_WHAT)
  /\ (forall p, (p < length (opers (heap pvm)))%nat -> unowned (heap pvm) p ->
        unowned (heap pvm') p).
Proof.
  intros I H. unfold py_what_new, alloc_obj, alloc_oper in H. simpl in H.
  injection H as <- <-.
  set (P := set_op_stack (Some [obj]) (py_oper_new pvm OP_FAKE_INIT true)).
  set (W := set_val (V_what (Some [length (opers (heap pvm))])) (py_obj_new pvm PY_WHAT)).
  destruct (hstep_what_new (heap pvm) P W) as [S U]; try reflexivity.
  - apply Inv_heap, I.
  - intros _ _. exists obj. reflexivity.
  - split; [reflexivity | split; [reflexivity |]]. intros _. split; intros Ht.
    + exists (length (opers (heap pvm))), [], P. split; [reflexivity |]. split; [|reflexivity].
      simpl. rewrite lookup_app_r by lia. rewrite Nat.sub_diag. reflexivity.
    + discriminate.
  - split_and!; try reflexivity.
    + apply sstep_with_heap; [exact I | exact S].
    + exists W. split; [|discriminate]. simpl.
      rewrite lookup_app_r by lia. rewrite Nat.sub_diag. reflexivity.
    + exists W. split; [|reflexivity]. apply deref_Ok. split; [|reflexivity]. simpl.
      rewrite lookup_app_r by lia. rewrite Nat.sub_diag. reflexivity.
    + exact U.
Qed.

Lemma stack_top_to_what_sstep pvm stk obj stk' pvm' :
  Inv pvm -> stk_ok (heap pvm) stk ->
  stack_top_to_what pvm stk = Ok (obj, stk', pvm') ->
  sstep pvm pvm' /\ stk_ok (heap pvm') stk'
  /\ stack pvm' = stack pvm /\ metastack pvm' = metastack pvm
  /\ (forall w, obj = Some w ->
        exists o, deref (heap pvm') w = Ok o /\ type o = PY_WHAT)
  /\ (forall p, (p < length (opers (heap pvm)))%nat -> unowned (heap pvm) p ->
        unowned (heap pvm') p).
Proof.
  intros I Hs H. unfold stack_top_to_what in H.
  destruct (r_list_pop stk) as [[a rest]|] eqn:Ep.
  - apply bind_Ok in H as (o & Ed & H).
    destruct (bool_decide (type o = PY_WHAT)) eqn:Et.
    + injection H as <- <- <-. apply bool_decide_eq_true in Et.
      split_and!; auto using sstep_refl.
      intros w Hw. injection Hw as <-. eauto.
    + destruct (py_what_new pvm a) as [tmp pvm1] eqn:E1.
      injection H as <- <- <-.
      apply py_what_new_sstep in E1 as (S1 & St & Mt & N1 & D1 & U1); [|exact I].
      split_and!; auto.
      * apply stk_ok_snoc; [|exact N1].
        eapply ext_stk_ok; [apply S1 |]. eapply stk_ok_pop; eauto.
      * intros w Hw. injection Hw as <-. exact D1.
  - injection H as <- <- <-. split_and!; auto using sstep_refl.
    intros w Hw. discriminate.
Qed.

Lemma what_push_hstep h obj pop ok h' :
  heap_inv h ->
  (forall o, objs h !! obj = Some o -> type o = PY_WHAT) ->
  unowned h pop ->
  (exists po, opers h !! pop = Some po /\ op po <> OP_FAKE_INIT) ->
  what_push h obj pop = Ok (ok, h') -> hstep h h'.
Proof.
  intros I Ht Hu Hp H. unfold what_push in H.
  destruct (deref h obj) as [o| |] eqn:Ed; simpl in H; try discriminate.
  apply deref_Ok in Ed as [Ha Hfr].
  destruct (py_what o) as [l|] eqn:El; injection H as <- <-; [|apply hstep_refl, I].
  eapply hstep_what_push; eauto.
  destruct (heap_inv_good _ _ _ I Ha) as (M & V & G).
  split; [exact M | split; [exact V |]]. intros _. simpl.
  destruct (G Hfr) as [GW _]. split; [|intros Hx; rewrite (Ht o Ha) in Hx; discriminate].
  intros _. destruct (GW (Ht o Ha)) as (p & rest & po & Hw & Hp' & Hop).
  assert (l = p :: rest) by congruence. subst l.
  exists p, (rest ++ [pop]), po. auto.
Qed.

Lemma set_pop_stack_hstep h pop l h' :
  heap_inv h ->
  (forall po, opers h !! pop = Some po -> op po <> OP_FAKE_INIT) ->
  set_pop_stack h pop l = Ok h' -> hstep h h'.
Proof.
  intros I Ht H. unfold set_pop_stack in H.
  destruct (oderef h pop) as [po| |] eqn:Ed; simpl in H; try discriminate.
  apply oderef_Ok in Ed as [Ha Hfr]. injection H as <-.
  eapply hstep_put_oper; [exact I | exact Ha | reflexivity | | reflexivity |].
  - intros Hop. simpl in Hop. exfalso. exact (Ht po Ha Hop).
  - intros Hop. exfalso. exact (Ht po Ha Hop).
Qed.

(** *** The split pass *)

Lemma ext_is_split_true h h' s : ext h h' -> is_split h s = true -> is_split h' s = true.
Proof.
  intros He Hs. rewrite (ext_is_split h h' s He); [exact Hs |].
  unfold is_split in Hs. destruct (objs h !! s) eqn:E; [|discriminate].
  eapply lookup_lt_Some; eauto.
Qed.

Lemma is_split_valid h s : is_split h s = true -> valid h s.
Proof.
  unfold is_split. destruct (objs h !! s) eqn:E; [|discriminate].
  intros _. eapply lookup_lt_Some; eauto.
Qed.

Lemma nonsplits_snoc_split h l s :
  is_split h s = true -> nonsplits h (l ++ [s]) = nonsplits h l.
Proof. intros Hs. rewrite nonsplits_app. simpl. rewrite Hs. lia. Qed.

Lemma hstep_iter_set_split h c o l l' :
  heap_inv h -> objs h !! c = Some o -> freed o = false ->
  type o <> PY_WHAT -> py_iter o = Some l ->
  (Forall (valid h) l -> Forall (valid h) l' /\ nonsplits h l' = nonsplits h l) ->
  hstep h (put_obj h c (set_val (V_iter (Some l')) o)).
Proof.
  intros I Ha Hfr Hw Hl Hn.
  eapply hstep_put_obj; [exact I | exact Ha | reflexivity | | cell].
  pose proof (heap_inv_good _ _ _ I Ha) as G.
  apply good_obj_set_iter; [exact G | exact Hw |].
  intros Hd. destruct (good_obj_dict_iter _ _ _ G Hd Hfr Hl) as [Hv0 He].
  destruct (Hn Hv0) as [Hv Hn']. split; [exact Hv |]. rewrite Hn'. exact He.
Qed.

Lemma iter_push_split_hstep h c s b h' :
  heap_inv h ->
  (forall o, objs h !! c = Some o -> type o <> PY_WHAT) ->
  is_split h s = true ->
  iter_push h c s = Ok (b, h') -> hstep h h'.
Proof.
  intros I Ht Hs H. unfold iter_push in H.
  apply bind_Ok in H as (o & Ed & H). apply deref_Ok in Ed as [Ha Hfr].
  destruct (py_iter o) as [l|] eqn:El; injection H as <- <-; [|apply hstep_refl, I].
  eapply hstep_iter_set_split; eauto.
  intros Hv. split.
  - apply Forall_app. split; [exact Hv |]. constructor; [|constructor].
    apply is_split_valid, Hs.
  - apply nonsplits_snoc_split, Hs.
Qed.

Lemma itter_add_split_hstep fuel h c split b h' :
  heap_inv h ->
  (forall o, objs h !! c = Some o -> type o <> PY_WHAT) ->
  is_split h split = true ->
  itter_add_split fuel h c split = Ok (b, h') -> hstep h h'.
Proof.
  intros I Ht Hs H. unfold itter_add_split in H.
  apply bind_Ok in H as (co & Ed & H). apply deref_Ok in Ed as [Ha Hfr].
  destruct (py_iter co) as [l|] eqn:El; [|injection H as <- <-; apply hstep_refl, I].
  apply bind_Ok in H as (h1 & E1 & H).
  assert (S1 : hstep h h1).
  { destruct (r_list_pop l) as [[x l']|] eqn:Ep;
      [|injection E1 as <-; apply hstep_refl, I].
    apply bind_Ok in E1 as (xo & Edx & E1). apply deref_Ok in Edx as [Hx Hxf].
    destruct (bool_decide (type xo = PY_SPLIT)) eqn:Etx;
      [|injection E1 as <-; apply hstep_refl, I].
    apply bool_decide_eq_true in Etx.
    apply r_list_pop_Some in Ep. subst l.
    assert (Hxs : is_split h x = true).
    { unfold is_split. rewrite Hx. apply bool_decide_eq_true. exact Etx. }
    assert (S0 : hstep h (put_obj h c (set_val (V_iter (Some l')) co))).
    { eapply hstep_iter_set_split; eauto.
      intros Hv. apply Forall_app in Hv as [Hv _]. split; [exact Hv |].
      symmetry. apply nonsplits_snoc_split, Hxs. }
    eapply hstep_trans; [exact S0 |]. eapply hstep_free; [apply S0 | exact E1]. }
  apply bind_Ok in H as ([ok h2] & E2 & H).
  assert (S2 : hstep h1 h2).
  { eapply iter_push_split_hstep; [apply S1 | | | exact E2].
    - intros o Ho. destruct (ext_obj _ _ _ _ (proj2 S1) Ha) as (o' & Ho' & Et).
      assert (o' = o) by congruence. subst o'. rewrite Et. eauto.
    - eapply ext_is_split_true; [apply S1 | exact Hs]. }
  destruct ok.
  - apply bind_Ok in H as (h3 & E3 & H). injection H as <- <-.
    eapply hstep_trans; [exact S1 |]. eapply hstep_trans; [exact S2 |].
    eapply hstep_incref; [apply S2 | exact E3].
  - injection H as <- <-. eapply hstep_trans; eauto.
Qed.

Definition split_pass (f : Heap -> addr -> res (bool * Heap)) (split : addr) : Prop :=
  forall h x b h', heap_inv h -> is_split h split = true ->
    f h x = Ok (b, h') -> hstep h h'.

Lemma split_iter_recures_hstep f split l :
  split_pass f split -> split_pass (fun h _ => split_iter_recures f h l) split.
Proof.
  intros Hf. induction l as [|x l IH]; intros h y b h' I Hs H; simpl in H.
  - injection H as <- <-. apply hstep_refl, I.
  - apply bind_Ok in H as ([ok h1] & E1 & H).
    pose proof (Hf _ _ _ _ I Hs E1) as S1.
    destruct ok; [|injection H as <- <-; exact S1].
    eapply hstep_trans; [exact S1 |].
    eapply (IH h1 y); [apply S1 | | exact H].
    eapply ext_is_split_true; [apply S1 | exact Hs].
Qed.

Lemma split_what_recures_hstep f split l :
  split_pass f split -> split_pass (fun h _ => split_what_recures f h l) split.
Proof.
  intros Hf. induction l as [|p l IH]; intros h y b h' I Hs H; simpl in H.
  - injection H as <- <-. apply hstep_refl, I.
  - apply bind_Ok in H as (po & Ep & H).
    apply bind_Ok in H as ([ok h1] & E1 & H).
    pose proof (split_iter_recures_hstep f split _ Hf h y _ _ I Hs E1) as S1.
    destruct ok; [|injection H as <- <-; exact S1].
    eapply hstep_trans; [exact S1 |].
    eapply (IH h1 y); [apply S1 | | exact H].
    eapply ext_is_split_true; [apply S1 | exact Hs].
Qed.

Lemma add_splits_hstep fuel gen split :
  split_pass (fun h x => add_splits fuel gen h x split) split.
Proof.
  induction fuel as [|n IH]; intros h obj b h' I Hs H; simpl in H; [discriminate |].
  apply bind_Ok in H as (o & Ed & H). apply deref_Ok in Ed as [Ha Hfr].
  destruct (bool_decide (recurse o = gen)); [injection H as <- <-; apply hstep_refl, I |].
  assert (S0 : hstep h (put_obj h obj (set_recurse gen o))).
  { eapply hstep_put_obj; [exact I | exact Ha | reflexivity | | cell].
    apply good_obj_recurse. exact (heap_inv_good _ _ _ I Ha). }
  assert (Hs0 : is_split (put_obj h obj (set_recurse gen o)) split = true).
  { eapply ext_is_split_true; [apply S0 | exact Hs]. }
  assert (Ha0 : objs (put_obj h obj (set_recurse gen o)) !! obj = Some (set_recurse gen o)).
  { simpl. apply list_lookup_insert_eq. eapply lookup_lt_Some; eauto. }
  assert (Hiter : type o <> PY_WHAT ->
    ('(ok, h) ← split_iter_recures (fun h x => add_splits n gen h x split)
                  (put_obj h obj (set_recurse gen o)) (default [] (py_iter o));
     if ok : bool then
       o' ← deref h obj;
       if bool_decide (type o' = PY_TUPLE) then Ok (true, h)
       else itter_add_split n h obj split
     else Ok (false, h)) = Ok (b, h') -> hstep h h').
  { intros Hw H1. apply bind_Ok in H1 as ([ok h1] & E1 & H1).
    pose proof (split_iter_recures_hstep _ split _ IH _ obj _ _ (proj1 S0) Hs0 E1) as S1.
    pose proof (hstep_trans _ _ _ S0 S1) as S01.
    destruct ok; [|injection H1 as <- <-; exact S01].
    apply bind_Ok in H1 as (o' & Ed' & H1).
    destruct (bool_decide (type o' = PY_TUPLE)); [injection H1 as <- <-; exact S01 |].
    eapply hstep_trans; [exact S01 |].
    eapply itter_add_split_hstep; [apply S01 | | | exact H1].
    - intros o2 Ho2. destruct (ext_obj _ _ _ _ (proj2 S01) Ha) as (o3 & Ho3 & Et).
      assert (o3 = o2) by congruence. subst o3. rewrite Et. exact Hw.
    - eapply ext_is_split_true; [apply S01 | exact Hs]. }
  destruct (type o) eqn:Et;
    try (injection H as <- <-; exact S0);
    try (apply Hiter; [discriminate | exact H]).
  eapply hstep_trans; [exact S0 |].
  exact (split_what_recures_hstep _ split _ IH _ obj _ _ (proj1 S0) Hs0 H).
Qed.

Lemma split_reduce_sstep fuel pvm pop b pvm' :
  Inv pvm ->
  (forall po, opers (heap pvm) !! pop = Some po -> op po <> OP_FAKE_INIT) ->
  split_reduce fuel pvm pop = Ok (b, pvm') ->
  sstep pvm pvm' /\ stack pvm' = stack pvm /\ metastack pvm' = metastack pvm.
Proof.
  intros I Hop H. unfold split_reduce in H.
  destruct (alloc_obj (heap pvm) (py_obj_new pvm PY_SPLIT)) as [split h0] eqn:Ea.
  assert (S0 : hstep (heap pvm) h0).
  { replace h0 with (alloc_obj (heap pvm) (py_obj_new pvm PY_SPLIT)).2 by (rewrite Ea; reflexivity).
    apply hstep_alloc_obj; [apply Inv_heap, I | apply good_obj_new0; discriminate | cell]. }
  assert (Hsp : objs h0 !! split = Some (py_obj_new pvm PY_SPLIT)).
  { injection Ea as <- <-. simpl. rewrite lookup_app_r by lia.
    rewrite Nat.sub_diag. reflexivity. }
  assert (Hop0 : forall po, opers h0 !! pop = Some po -> op po <> OP_FAKE_INIT).
  { injection Ea as <- <-. exact Hop. }
  apply bind_Ok in H as (po & Ep & H). apply oderef_Ok in Ep as [Hp Hpf].
  destruct (last (default [] (op_stack po))) as [obj|].
  2:{ injection H as <- <-. split_and!; try reflexivity. apply sstep_with_heap; auto. }
  apply bind_Ok in H as ([ret h3] & E3 & H).
  apply bind_Ok in H as (h4 & E4 & H). injection H as <- <-.
  set (h1 := put_obj h0 split (set_val (V_split (Some pop)) (py_obj_new pvm PY_SPLIT))) in *.
  set (h2 := put_oper h1 pop (set_op_refcnt (op_refcnt po + 1) po)) in *.
  assert (S1 : hstep h0 h1).
  { eapply (hstep_split_ref h0 split _ _ pop); [apply S0 | exact Hsp | reflexivity
      | reflexivity | apply good_obj_new; discriminate | | ].
    - intros q Hq. unfold reduce in Hq. simpl in Hq. congruence.
    - exists po. split; [exact Hp | exact (Hop0 _ Hp)]. }
  assert (S2 : hstep h1 h2).
  { eapply hstep_put_oper; [apply S1 | exact Hp | reflexivity | | reflexivity
      | reflexivity].
    apply good_oper_refcnt. exact (heap_inv_good_oper _ _ _ (proj1 S0) Hp). }
  assert (Hs2 : is_split h2 split = true).
  { unfold is_split, h2, h1. simpl. rewrite list_lookup_insert_eq; [reflexivity |].
    eapply lookup_lt_Some; eauto. }
  pose proof (add_splits_hstep _ _ _ _ _ _ _ (proj1 S2) Hs2 E3) as S3.
  pose proof (hstep_free _ _ _ _ (proj1 S3) E4) as S4.
  split_and!; try reflexivity.
  pose proof (hstep_trans _ _ _ S0 (hstep_trans _ _ _ S1 (hstep_trans _ _ _ S2
                (hstep_trans _ _ _ S3 S4)))) as S.
  destruct (sstep_with_heap _ h4 (Inv_with_recurse pvm (pvm_recurse pvm + 1) I) S) as [I' E'].
  split; [exact I' | exact E'].
Qed.

Lemma deref_lookup h a o : deref h a = Ok o -> objs h !! a = Some o.
Proof. intros H. apply deref_Ok in H. tauto. Qed.

Lemma ext_op_ne h h' p P :
  ext h h' -> opers h !! p = Some P -> op P <> OP_FAKE_INIT ->
  forall po, opers h' !! p = Some po -> op po <> OP_FAKE_INIT.
Proof.
  intros He Hp Hne po Hpo. destruct (ext_oper _ _ _ _ He Hp) as (po' & Hpo' & Hop).
  assert (po' = po) by congruence. subst po'. congruence.
Qed.

(** py_what_addop_stack goes through stack_top_to_what on the stack it
    took off the metastack, and what follows keeps the invariant. *)
Lemma py_what_addop_stack_mid fuel pvm o b pvm' oldstack ms :
  Inv pvm -> o <> OP_FAKE_INIT -> r_list_pop (metastack pvm) = Some (oldstack, ms) ->
  py_what_addop_stack fuel pvm o = Ok (b, pvm') ->
  exists obj stk pvm3,
    stack_top_to_what
      (with_heap (alloc_oper (heap pvm) (py_oper_new pvm o false)).2
         (with_metastack ms pvm)) oldstack = Ok (obj, stk, pvm3)
    /\ Inv pvm' /\ ext (heap pvm) (heap pvm3) /\ ext (heap pvm3) (heap pvm').
Proof.
  intros I Ho Em H. unfold py_what_addop_stack in H. rewrite Em in H.
  destruct (Inv_metastack_pop _ _ _ I Em) as [Hold Hms].
  set (P := py_oper_new (with_metastack ms pvm) o false) in *.
  destruct (alloc_oper (heap (with_metastack ms pvm)) P) as [pop h0] eqn:Ea.
  assert (I1 : Inv (with_metastack ms pvm)) by (apply Inv_with_metastack; auto).
  assert (S0 : hstep (heap pvm) h0).
  { replace h0 with (alloc_oper (heap pvm) P).2 by (simpl in Ea; rewrite Ea; reflexivity).
    apply hstep_alloc_oper; [apply Inv_heap, I |]. intros Hx. contradiction. }
  assert (Hpop : opers h0 !! pop = Some P).
  { injection Ea as <- <-. simpl. rewrite lookup_app_r by lia.
    rewrite Nat.sub_diag. reflexivity. }
  assert (Hfresh : unowned h0 pop).
  { injection Ea as <- <-. apply unowned_fresh, (Inv_heap _ I). }
  pose proof (sstep_with_heap _ h0 I1 S0) as [I2 E2].
  apply bind_Ok in H as ([[obj stk] pvm3] & E3 & H).
  exists obj, stk, pvm3. split.
  { change (alloc_oper (heap pvm) (py_oper_new pvm o false))
      with (alloc_oper (heap (with_metastack ms pvm)) P).
    rewrite Ea. exact E3. }
  apply stack_top_to_what_sstep in E3 as ([I3 X3] & Hstk & St & Mt & Hw & Hun);
    [|exact I2 | eapply ext_stk_ok; [exact E2 | exact Hold]].
  simpl in X3, St, Mt, Hun.
  assert (X03 : ext (heap pvm) (heap pvm3)) by (eapply ext_trans; [exact E2 | exact X3]).
  assert (Hne3 : forall po, opers (heap pvm3) !! pop = Some po -> op po <> OP_FAKE_INIT).
  { eapply ext_op_ne; [exact X3 | exact Hpop | exact Ho]. }
  assert (Hun3 : unowned (heap pvm3) pop).
  { apply Hun; [eapply lookup_lt_Some; eauto | exact Hfresh]. }
  destruct obj as [obj|].
  2:{ apply bind_Ok in H as (h4 & E4 & H). injection H as <- <-.
      pose proof (hstep_pyop_free _ _ _ _ (Inv_heap _ I3) (loose_other _ _ Hne3) E4) as S4.
      destruct (sstep_with_heap _ h4 I3 S4) as [I4 X4].
      split; [exact I4 | split; [exact X03 | exact X4]]. }
  destruct (Hw obj eq_refl) as (wo & Hwo & Hwt).
  apply bind_Ok in H as ([ok h4] & E4 & H).
  assert (S4 : hstep (heap pvm3) h4).
  { eapply what_push_hstep; [apply Inv_heap, I3 | | exact Hun3 | | exact E4].
    - intros o1 Ho1. apply deref_lookup in Hwo. congruence.
    - destruct (ext_oper _ _ _ _ X3 Hpop) as (po' & Hpo' & Hop).
      exists po'. split; [exact Hpo' | rewrite Hop; exact Ho]. }
  assert (Hne4 : forall po, opers h4 !! pop = Some po -> op po <> OP_FAKE_INIT).
  { eapply ext_op_ne; [exact (ext_trans _ _ _ X3 (proj2 S4)) | exact Hpop | exact Ho]. }
  destruct ok.
  - apply bind_Ok in H as (h5 & E5 & H). injection H as <- <-.
    assert (S5 : hstep h4 h5).
    { eapply set_pop_stack_hstep; [apply S4 | exact Hne4 | exact E5]. }
    pose proof (hstep_trans _ _ _ S4 S5) as S45.
    destruct (sstep_with_heap _ h5 I3 S45) as [I5 X5].
    split; [|split; [exact X03 | exact X5]].
    apply Inv_with_stack; [exact I5 |]. simpl.
    eapply ext_stk_ok; [apply S45 | exact Hstk].
  - apply bind_Ok in H as (h5 & E5 & H). injection H as <- <-.
    pose proof (hstep_pyop_free _ _ _ _ (proj1 S4) (loose_other _ _ Hne4) E5) as S5.
    destruct (sstep_with_heap _ h5 I3 (hstep_trans _ _ _ S4 S5)) as [I5 X5].
    split; [exact I5 | split; [exact X03 | exact X5]].
Qed.

Lemma py_what_addop_stack_sstep fuel pvm o b pvm' :
  Inv pvm -> o <> OP_FAKE_INIT ->
  py_what_addop_stack fuel pvm o = Ok (b, pvm') -> sstep pvm pvm'.
Proof.
  intros I Ho H. destruct (r_list_pop (metastack pvm)) as [[oldstack ms]|] eqn:Em.
  - destruct (py_what_addop_stack_mid _ _ _ _ _ _ _ I Ho Em H)
      as (obj & stk & pvm3 & _ & I' & X1 & X2).
    split; [exact I' | eapply ext_trans; eauto].
  - unfold py_what_addop_stack in H. rewrite Em in H.
    injection H as <- <-. apply sstep_refl, I.
Qed.

Lemma list_pop_n_Some l n rest args :
  list_pop_n l n = Some (rest, args) -> l = rest ++ args /\ length args = Z.to_nat n.
Proof.
  unfold list_pop_n, r_list_length. case_bool_decide as Hn; [|discriminate].
  intros H. injection H as <- <-. split; [symmetry; apply take_drop |].
  rewrite length_drop. lia.
Qed.

Lemma cleanup_sstep fuel pvm pop b pvm' :
  Inv pvm -> loose (heap pvm) pop ->
  (h' ← pyop_free fuel (heap pvm) pop; Ok (false, with_heap h' pvm)) = Ok (b, pvm') ->
  sstep pvm pvm'.
Proof.
  intros I Lo H. apply bind_Ok in H as (h1 & E1 & H). injection H as <- <-.
  apply sstep_with_heap; [exact I |].
  eapply hstep_pyop_free; [apply Inv_heap, I | exact Lo | exact E1].
Qed.

(** The state stack_top_to_what finds in py_what_addop: the record is
    allocated and the arguments are off the stack. *)
Definition addop_state (pvm : PMState) (argc : Z) (o : PyOp) : PMState :=
  let pvm1 := with_heap (alloc_oper (heap pvm) (py_oper_new pvm o false)).2 pvm in
  match list_pop_n (stack pvm) argc with
  | Some (rest, _) => with_stack rest pvm1
  | None => pvm1
  end.

(** py_what_addop goes through stack_top_to_what, and what follows keeps
    the invariant. *)
Lemma py_what_addop_mid fuel pvm argc o b pvm' :
  Inv pvm -> o <> OP_FAKE_INIT -> argc > 0 ->
  py_what_addop fuel pvm argc o = Ok (b, pvm') ->
  exists obj stk pvm3,
    stack_top_to_what (addop_state pvm argc o) (stack (addop_state pvm argc o))
      = Ok (obj, stk, pvm3)
    /\ Inv pvm' /\ ext (heap pvm) (heap pvm3) /\ ext (heap pvm3) (heap pvm').
Proof.
  intros I Ho Hargc H. unfold py_what_addop in H. unfold addop_state.
  rewrite bool_decide_eq_true_2 in H by exact Hargc.
  set (P := py_oper_new pvm o false) in *.
  destruct (alloc_oper (heap pvm) P) as [pop h0] eqn:Ea.
  assert (S0 : hstep (heap pvm) h0).
  { replace h0 with (alloc_oper (heap pvm) P).2 by (rewrite Ea; reflexivity).
    apply hstep_alloc_oper; [apply Inv_heap, I |]. intros Hx. contradiction. }
  assert (Hpop : opers h0 !! pop = Some P).
  { injection Ea as <- <-. simpl. rewrite lookup_app_r by lia.
    rewrite Nat.sub_diag. reflexivity. }
  assert (Hfresh : unowned h0 pop).
  { injection Ea as <- <-. apply unowned_fresh, (Inv_heap _ I). }
  pose proof (sstep_with_heap _ h0 I S0) as [I1 E1].
  cbv zeta in H. change (stack (with_heap h0 pvm)) with (stack pvm) in H.
  cbv zeta. replace (alloc_oper (heap pvm) P).2 with h0 by (rewrite Ea; reflexivity).
  destruct (list_pop_n (stack pvm) argc) as [[rest args]|] eqn:El.
  - apply list_pop_n_Some in El as [El _].
    assert (Hrest : stk_ok h0 rest /\ stk_ok h0 args).
    { pose proof (Inv_stack _ I1) as K. simpl in K. rewrite El in K.
      apply Forall_app in K. exact K. }
    destruct Hrest as [Hrest Hargs].
    assert (I2 : Inv (with_stack rest (with_heap h0 pvm))) by (apply Inv_with_stack; auto).
    apply bind_Ok in H as ([[obj stk] pvm3] & E3 & H).
    exists obj, stk, pvm3. split; [exact E3 |].
    apply stack_top_to_what_sstep in E3 as ([I3 X3] & Hstk & St & Mt & Hw & Hun);
      [|exact I2 | exact Hrest].
    simpl in X3, Hun.
    assert (X03 : ext (heap pvm) (heap pvm3)) by (eapply ext_trans; [exact E1 | exact X3]).
    assert (Hne3 : forall po, opers (heap pvm3) !! pop = Some po -> op po <> OP_FAKE_INIT).
    { eapply ext_op_ne; [exact X3 | exact Hpop | exact Ho]. }
    assert (Hun3 : unowned (heap pvm3) pop).
    { apply Hun; [eapply lookup_lt_Some; eauto | exact Hfresh]. }
    assert (I4 : Inv (with_stack stk pvm3)) by (apply Inv_with_stack; auto).
    assert (Hargs3 : stk_ok (heap pvm3) args) by (eapply ext_stk_ok; [exact X3 | exact Hargs]).
    assert (I5 : Inv (with_stack (stack (with_stack stk pvm3) ++ args) (with_stack stk pvm3))).
    { apply Inv_with_stack; [exact I4 |]. apply stk_ok_app; [exact Hstk | exact Hargs3]. }
    destruct obj as [obj|].
    2:{ apply cleanup_sstep in H as [I6 X6]; [|exact I5 | exact (loose_other _ _ Hne3)].
        split; [exact I6 | split; [exact X03 | exact X6]]. }
    destruct (Hw obj eq_refl) as (wo & Hwo & Hwt).
    apply bind_Ok in H as ([ok h4] & E4 & H).
    assert (S4 : hstep (heap pvm3) h4).
    { eapply what_push_hstep; [apply Inv_heap, I3 | | exact Hun3 | | exact E4].
      - intros o1 Ho1. apply deref_lookup in Hwo. congruence.
      - destruct (ext_oper _ _ _ _ X3 Hpop) as (po' & Hpo' & Hop).
        exists po'. split; [exact Hpo' | rewrite Hop; exact Ho]. }
    assert (Hne4 : forall po, opers h4 !! pop = Some po -> op po <> OP_FAKE_INIT).
    { eapply ext_op_ne; [exact (ext_trans _ _ _ X3 (proj2 S4)) | exact Hpop | exact Ho]. }
    destruct ok.
    + apply bind_Ok in H as (h5 & E5 & H).
      assert (S5 : hstep h4 h5).
      { eapply set_pop_stack_hstep; [apply S4 | exact Hne4 | exact E5]. }
      pose proof (hstep_trans _ _ _ S4 S5) as S45.
      destruct (sstep_with_heap _ h5 I4 S45) as [I6 X6].
      destruct (is_reduce o).
      * apply split_reduce_sstep in H as ([I7 X7] & _); [|exact I6 |].
        -- split; [exact I7 | split; [exact X03 |]].
           eapply ext_trans; [exact X6 | exact X7].
        -- simpl. eapply ext_op_ne; [exact (ext_trans _ _ _ X3 (proj2 S45)) | exact Hpop | exact Ho].
      * injection H as <- <-. split; [exact I6 | split; [exact X03 | exact X6]].
    + assert (h4 = heap pvm3).
      { unfold what_push in E4. apply bind_Ok in E4 as (ow & _ & E4).
        destruct (py_what ow); [discriminate | injection E4 as E4; symmetry; exact E4]. }
      subst h4.
      apply cleanup_sstep in H as [I6 X6]; [|exact I5 | exact (loose_other _ _ Hne3)].
      split; [exact I6 | split; [exact X03 | exact X6]].
  - apply bind_Ok in H as ([[obj stk] pvm3] & E3 & H).
    exists obj, stk, pvm3. split; [exact E3 |].
    apply stack_top_to_what_sstep in E3 as ([I3 X3] & Hstk & St & Mt & Hw & Hun);
      [|exact I1 | apply Inv_stack, I1].
    simpl in X3.
    assert (X03 : ext (heap pvm) (heap pvm3)) by (eapply ext_trans; [exact E1 | exact X3]).
    assert (Hne3 : forall po, opers (heap pvm3) !! pop = Some po -> op po <> OP_FAKE_INIT).
    { eapply ext_op_ne; [exact X3 | exact Hpop | exact Ho]. }
    assert (I4 : Inv (with_stack stk pvm3)) by (apply Inv_with_stack; auto).
    apply cleanup_sstep in H as [I6 X6]; [|exact I4 | exact (loose_other _ _ Hne3)].
    split; [exact I6 | split; [exact X03 | exact X6]].
Qed.

Lemma py_what_addop_sstep fuel pvm argc o b pvm' :
  Inv pvm -> o <> OP_FAKE_INIT ->
  py_what_addop fuel pvm argc o = Ok (b, pvm') -> sstep pvm pvm'.
Proof.
  intros I Ho H. destruct (decide (argc > 0)) as [Hargc | Hargc].
  - destruct (py_what_addop_mid _ _ _ _ _ _ I Ho Hargc H) as (obj & stk & pvm3 & _ & I' & X1 & X2).
    split; [exact I' | eapply ext_trans; eauto].
  - unfold py_what_addop in H. rewrite bool_decide_eq_false_2 in H by exact Hargc.
    injection H as <- <-. apply sstep_refl, I.
Qed.

(** *** APPEND and SETITEM *)

Lemma iter_push_false h c x h' : iter_push h c x = Ok (false, h') -> h' = h.
Proof.
  unfold iter_push. intros H. apply bind_Ok in H as (o & _ & H).
  destruct (py_iter o); [discriminate | congruence].
Qed.

Lemma iter_push_hstep h c x b h' :
  heap_inv h ->
  (forall o, objs h !! c = Some o -> type o <> PY_WHAT /\ type o <> PY_DICT) ->
  iter_push h c x = Ok (b, h') -> hstep h h'.
Proof.
  intros I Ht H. unfold iter_push in H.
  apply bind_Ok in H as (o & Ed & H). apply deref_Ok in Ed as [Ha Hfr].
  destruct (py_iter o) as [l|] eqn:El; injection H as <- <-; [|apply hstep_refl, I].
  destruct (Ht o Ha) as [Hw Hd].
  eapply hstep_put_obj; [exact I | exact Ha | reflexivity | | cell].
  apply good_obj_set_iter; [exact (heap_inv_good _ _ _ I Ha) | exact Hw |].
  intros Hx. contradiction.
Qed.

Lemma push_to_stack_iter_sstep pvm t obj b pvm' :
  Inv pvm -> t <> PY_WHAT -> t <> PY_DICT ->
  push_to_stack_iter pvm t obj = Ok (b, pvm') ->
  sstep pvm pvm' /\ stack pvm' = stack pvm.
Proof.
  intros I Hw Hd H. unfold push_to_stack_iter in H.
  destruct (last (stack pvm)) as [c|];
    [|injection H as <- <-; split; [apply sstep_refl, I | reflexivity]].
  apply bind_Ok in H as (o & Ed & H). apply deref_lookup in Ed.
  case_bool_decide as Et;
    [|injection H as <- <-; split; [apply sstep_refl, I | reflexivity]].
  apply bind_Ok in H as ([ok h1] & E1 & H). injection H as <- <-.
  split; [|reflexivity]. apply sstep_with_heap; [exact I |].
  eapply iter_push_hstep; [apply Inv_heap, I | | exact E1].
  intros o1 Ho1. assert (o1 = o) by congruence. subst o1. rewrite Et. auto.
Qed.

Lemma op_append_sstep fuel pvm b pvm' :
  Inv pvm -> op_append fuel pvm = Ok (b, pvm') -> sstep pvm pvm'.
Proof.
  intros I H. unfold op_append in H.
  case_bool_decide as Hn; [|injection H as <- <-; apply sstep_refl, I].
  apply bind_Ok in H as (e & Ee & H).
  destruct e; [|eapply py_what_addop_sstep in H; [exact H | exact I | discriminate]].
  destruct (r_list_pop (stack pvm)) as [[obj rest]|] eqn:Ep;
    [|injection H as <- <-; apply sstep_refl, I].
  apply r_list_pop_Some in Ep.
  assert (K : stk_ok (heap pvm) rest /\ nosplit (heap pvm) obj).
  { pose proof (Inv_stack _ I) as K. rewrite Ep in K. apply Forall_app in K as [K1 K2].
    inversion K2; auto. }
  destruct K as [K1 K2].
  apply bind_Ok in H as ([ok pvm1] & E1 & H).
  apply push_to_stack_iter_sstep in E1 as ([I1 X1] & St);
    [|apply Inv_with_stack; auto | discriminate | discriminate].
  simpl in X1, St.
  destruct ok; injection H as <- <-; [split; auto |].
  split; [|exact X1]. apply Inv_with_stack; [exact I1 |]. rewrite St.
  apply stk_ok_snoc; eapply ext_stk_ok || eapply ext_nosplit; eauto.
Qed.

Lemma op_appends_sstep fuel pvm o t b pvm' :
  Inv pvm -> o <> OP_FAKE_INIT -> t <> PY_WHAT ->
  op_appends fuel pvm o t = Ok (b, pvm') -> sstep pvm pvm'.
Proof.
  intros I Ho Ht H. unfold op_appends in H.
  destruct (last (metastack pvm)) as [prev|]; [|injection H as <- <-; apply sstep_refl, I].
  destruct (last prev) as [obj|]; [|injection H as <- <-; apply sstep_refl, I].
  apply bind_Ok in H as (ob & Ed & H).
  case_bool_decide.
  - eapply py_iter_append_mark_sstep; eauto.
  - eapply py_what_addop_stack_sstep; eauto.
Qed.

Lemma op_setitems_sstep fuel pvm b pvm' :
  Inv pvm -> op_setitems fuel pvm = Ok (b, pvm') -> sstep pvm pvm'.
Proof.
  intros I H. unfold op_setitems in H.
  destruct (last (metastack pvm)) as [prev|]; [|injection H as <- <-; apply sstep_refl, I].
  destruct (last prev) as [obj|]; [|injection H as <- <-; apply sstep_refl, I].
  apply bind_Ok in H as (ob & Ed & H).
  case_bool_decide.
  - eapply py_iter_append_mark_sstep in H; [exact H | exact I | discriminate].
  - eapply py_what_addop_stack_sstep in H; [exact H | exact I | discriminate].
Qed.

Lemma put_obj_twice h a o1 o2 : put_obj (put_obj h a o1) a o2 = put_obj h a o2.
Proof. unfold put_obj. simpl. rewrite list_insert_insert_eq. reflexivity. Qed.

(** SETITEM on a dictionary: key and value go in together. *)
Lemma dict_push2 h c o k v :
  heap_inv h -> deref h c = Ok o -> type o = PY_DICT ->
  nosplit h k -> nosplit h v ->
  exists l,
    py_iter o = Some l
    /\ iter_push h c k = Ok (true, put_obj h c (set_val (V_iter (Some (l ++ [k]))) o))
    /\ iter_push (put_obj h c (set_val (V_iter (Some (l ++ [k]))) o)) c v
       = Ok (true, put_obj h c (set_val (V_iter (Some ((l ++ [k]) ++ [v]))) o))
    /\ hstep h (put_obj h c (set_val (V_iter (Some ((l ++ [k]) ++ [v]))) o)).
Proof.
  intros I Ed Ht Hk Hv. pose proof Ed as Ed0. apply deref_Ok in Ed as [Ha Hfr].
  pose proof (heap_inv_good _ _ _ I Ha) as G.
  destruct G as (M & V & G). destruct (G Hfr) as [_ GD].
  destruct (GD Ht) as (l & El & Hval & Hev).
  exists l. split; [exact El |]. split; [|split].
  - unfold iter_push. rewrite Ed0. simpl. rewrite El. reflexivity.
  - unfold iter_push.
    assert (D1 : deref (put_obj h c (set_val (V_iter (Some (l ++ [k]))) o)) c
                 = Ok (set_val (V_iter (Some (l ++ [k]))) o)).
    { apply deref_Ok. split; [|exact Hfr]. simpl. apply list_lookup_insert_eq.
      eapply lookup_lt_Some; eauto. }
    rewrite D1. simpl. rewrite put_obj_twice. reflexivity.
  - eapply hstep_put_obj; [exact I | exact Ha | reflexivity | | cell].
    split; [exact M | split; [exact V |]]. intros _. simpl.
    split; [intros Hx; congruence |]. intros _.
    exists ((l ++ [k]) ++ [v]). split; [reflexivity |]. split.
    + repeat (apply Forall_app; split); auto;
        (constructor; [eapply nosplit_valid; eauto | constructor]).
    + rewrite !nonsplits_app. simpl.
      rewrite (nosplit_is_split _ _ Hk), (nosplit_is_split _ _ Hv).
      replace (nonsplits h l + (1 + 0) + (1 + 0))%nat with (S (S (nonsplits h l))) by lia.
      exact Hev.
Qed.

Lemma op_setitem_sstep fuel pvm b pvm' :
  Inv pvm -> op_setitem fuel pvm = Ok (b, pvm') -> sstep pvm pvm'.
Proof.
  intros I H. unfold op_setitem in H.
  case_bool_decide as Hn; [|injection H as <- <-; apply sstep_refl, I].
  apply bind_Ok in H as (e & Ee & H).
  destruct e; [|eapply py_what_addop_sstep in H; [exact H | exact I | discriminate]].
  destruct (r_list_pop (stack pvm)) as [[value rest]|] eqn:Ep;
    [|injection H as <- <-; apply sstep_refl, I].
  apply r_list_pop_Some in Ep.
  assert (K : stk_ok (heap pvm) rest /\ nosplit (heap pvm) value).
  { pose proof (Inv_stack _ I) as K. rewrite Ep in K. apply Forall_app in K as [K1 K2].
    inversion K2; auto. }
  destruct K as [K1 Kv].
  destruct (r_list_pop rest) as [[key rest']|] eqn:Ep';
    [|injection H as <- <-; split; [apply Inv_with_stack; auto | apply ext_refl]].
  apply r_list_pop_Some in Ep'.
  assert (K : stk_ok (heap pvm) rest' /\ nosplit (heap pvm) key).
  { rewrite Ep' in K1. apply Forall_app in K1 as [K1 K2]. inversion K2; auto. }
  destruct K as [K2 Kk].
  assert (I1 : Inv (with_stack rest' pvm)) by (apply Inv_with_stack; auto).
  cbv zeta in H.
  assert (R : forall h b pvm', hstep (heap pvm) h ->
    (h ← py_obj_free fuel h key; h ← py_obj_free fuel h value;
     Ok (false, with_heap h (with_stack rest' pvm))) = Ok (b, pvm') -> sstep pvm pvm').
  { intros h b0 pvm0 S0 H0. apply bind_Ok in H0 as (h1 & E1 & H0).
    apply bind_Ok in H0 as (h2 & E2 & H0). injection H0 as <- <-.
    pose proof (hstep_free _ _ _ _ (proj1 S0) E1) as S1.
    pose proof (hstep_free _ _ _ _ (proj1 S1) E2) as S2.
    apply (sstep_with_heap _ h2 I1).
    exact (hstep_trans _ _ _ S0 (hstep_trans _ _ _ S1 S2)). }
  destruct (last rest') as [obj|];
    [|exact (R _ _ _ (hstep_refl _ (Inv_heap _ I)) H)].
  apply bind_Ok in H as (ob & Ed & H).
  case_bool_decide as Et; [|exact (R _ _ _ (hstep_refl _ (Inv_heap _ I)) H)].
  destruct (dict_push2 _ _ _ _ _ (Inv_heap _ I) Ed Et Kk Kv) as (l & El & P1 & P2 & S).
  simpl in H. rewrite P1 in H. simpl in H. rewrite P2 in H. simpl in H.
  injection H as <- <-. exact (sstep_with_heap _ _ I1 S).
Qed.

(** *** Globals and instantiation *)

Lemma good_obj_set_val h o v :
  good_obj h o -> type o <> PY_WHAT -> type o <> PY_DICT -> good_obj h (set_val v o).
Proof.
  intros (M & V & G) Hw Hd. split; [exact M | split; [exact V |]].
  intros _. split; intros Hx; contradiction.
Qed.

Lemma str_to_pystr_sstep pvm str a pvm' :
  Inv pvm -> str_to_pystr pvm str = (a, pvm') ->
  sstep pvm pvm' /\ stack pvm' = stack pvm /\ metastack pvm' = metastack pvm.
Proof.
  intros I H. unfold str_to_pystr in H.
  destruct (alloc_obj _ _) as [obj h] eqn:Ea. injection H as <- <-.
  split_and!; try reflexivity. apply sstep_with_heap; [exact I |].
  replace h with (alloc_obj (heap pvm) (set_val (V_str (Some str)) (py_obj_new pvm PY_STR))).2
    by (rewrite Ea; reflexivity).
  apply hstep_alloc_obj; [apply Inv_heap, I | apply good_obj_new; discriminate | cell].
Qed.

Lemma set_func_sstep pvm obj o0 ob v :
  Inv pvm -> objs (heap pvm) !! obj = Some o0 -> type o0 = PY_FUNC ->
  type ob = PY_FUNC -> memo_id ob = UT64_MAX -> varname ob = None ->
  sstep pvm (with_heap (put_obj (heap pvm) obj (set_val v ob)) pvm).
Proof.
  intros I Ed Ht0 Ht M V. apply sstep_with_heap; [exact I |].
  eapply hstep_put_obj; [apply Inv_heap, I | exact Ed | simpl; congruence |
    | apply cell_sub_other; simpl; congruence].
  split; [exact M | split; [exact V |]].
  intros _. simpl. rewrite Ht. split; intros Hx; discriminate.
Qed.

Lemma split_module_str_sstep pvm o obj b pvm' :
  Inv pvm ->
  (forall ob, objs (heap pvm) !! obj = Some ob -> type ob = PY_FUNC) ->
  split_module_str pvm o obj = Ok (b, pvm') ->
  sstep pvm pvm' /\ stack pvm' = stack pvm /\ metastack pvm' = metastack pvm.
Proof.
  intros I Hf H. unfold split_module_str in H.
  assert (R : sstep pvm pvm /\ stack pvm = stack pvm /\ metastack pvm = metastack pvm)
    by (split_and!; auto using sstep_refl).
  destruct (op_str_arg o) as [str|]; [|injection H as <- <-; exact R].
  destruct (r_str_split str) as [|mod_ [|name [|]]]; try (injection H as <- <-; exact R).
  apply bind_Ok in H as (ob & Ed & H). apply deref_lookup in Ed.
  pose proof (Hf _ Ed) as Ht.
  destruct (heap_inv_good _ _ _ (Inv_heap _ I) Ed) as (M & V & _).
  destruct (str_to_pystr pvm mod_) as [m pvm1] eqn:E1.
  apply str_to_pystr_sstep in E1 as (S1 & St1 & Mt1); [|exact I].
  destruct (ext_obj _ _ _ _ (proj2 S1) Ed) as (o1 & Ho1 & Et1).
  pose proof (set_func_sstep pvm1 obj o1 ob (V_func (Some m) (py_func_name ob))
                (proj1 S1) Ho1 ltac:(congruence) Ht M V) as S2.
  pose proof (sstep_trans _ _ _ S1 S2) as S12.
  set (pvm2 := with_heap _ pvm1) in *.
  case_bool_decide as Hname.
  2:{ injection H as <- <-. split_and!; [exact S12 | exact St1 | exact Mt1]. }
  destruct (str_to_pystr pvm2 name) as [n pvm3] eqn:E3.
  apply str_to_pystr_sstep in E3 as (S3 & St3 & Mt3); [|apply S2].
  apply bind_Ok in H as (ob3 & Ed3 & H). injection H as <- <-.
  apply deref_lookup in Ed3.
  assert (Ht3 : type ob3 = PY_FUNC).
  { destruct (ext_obj _ _ _ _ (proj2 S12) Ed) as (o2 & Ho2 & Et2).
    destruct (ext_obj _ _ _ _ (proj2 S3) Ho2) as (o3 & Ho3 & Et3).
    assert (o3 = ob3) by congruence. subst. congruence. }
  destruct (heap_inv_good _ _ _ (Inv_heap _ (proj1 S3)) Ed3) as (M3 & V3 & _).
  pose proof (set_func_sstep pvm3 obj ob3 ob3 (V_func (py_func_module ob3) (Some n))
                (proj1 S3) Ed3 Ht3 Ht3 M3 V3) as S4.
  split_and!.
  - exact (sstep_trans _ _ _ S12 (sstep_trans _ _ _ S3 S4)).
  - simpl. rewrite St3. exact St1.
  - simpl. rewrite Mt3. exact Mt1.
Qed.

Lemma glob_obj_sstep fuel pvm o obj pvm' :
  Inv pvm -> glob_obj fuel pvm o = Ok (obj, pvm') ->
  sstep pvm pvm' /\ stack pvm' = stack pvm /\ metastack pvm' = metastack pvm
  /\ (forall a, obj = Some a -> nosplit (heap pvm') a).
Proof.
  intros I H. unfold glob_obj in H.
  destruct (alloc_obj (heap pvm) (py_obj_new pvm PY_FUNC)) as [a h0] eqn:Ea.
  assert (S0 : hstep (heap pvm) h0).
  { replace h0 with (alloc_obj (heap pvm) (py_obj_new pvm PY_FUNC)).2 by (rewrite Ea; reflexivity).
    apply hstep_alloc_obj; [apply Inv_heap, I | apply good_obj_new0; discriminate | cell]. }
  assert (Ha : objs h0 !! a = Some (py_obj_new pvm PY_FUNC)).
  { injection Ea as <- <-. simpl. rewrite lookup_app_r by lia.
    rewrite Nat.sub_diag. reflexivity. }
  pose proof (sstep_with_heap _ h0 I S0) as S0'.
  apply bind_Ok in H as ([ok pvm1] & E1 & H).
  apply split_module_str_sstep in E1 as (S1 & St & Mt); [|apply S0' |].
  2:{ intros ob Hob. simpl in Hob. assert (ob = py_obj_new pvm PY_FUNC) by congruence. subst ob. reflexivity. }
  simpl in St, Mt. pose proof (sstep_trans _ _ _ S0' S1) as S01.
  destruct ok.
  - injection H as <- <-. split_and!; auto.
    intros a' Ha'. injection Ha' as <-.
    eapply ext_nosplit; [apply S1 |]. exists (py_obj_new pvm PY_FUNC).
    split; [exact Ha | discriminate].
  - apply bind_Ok in H as (h2 & E2 & H). injection H as <- <-.
    split_and!; auto; [|intros a' Ha'; discriminate].
    eapply sstep_trans; [exact S01 |].
    apply sstep_with_heap; [apply S1 |]. eapply hstep_free; [apply Inv_heap, S1 | exact E2].
Qed.

Lemma op_global_sstep fuel pvm o b pvm' :
  Inv pvm -> op_global fuel pvm o = Ok (b, pvm') -> sstep pvm pvm'.
Proof.
  intros I H. unfold op_global in H.
  apply bind_Ok in H as ([obj pvm1] & E1 & H).
  apply glob_obj_sstep in E1 as (S1 & _ & _ & N1); [|exact I].
  destruct obj as [a|]; injection H as <- <-; [|exact S1].
  eapply sstep_trans; [exact S1 |]. split; [|apply ext_refl].
  apply Inv_with_stack; [apply S1 |].
  apply stk_ok_snoc; [apply Inv_stack, S1 | auto].
Qed.

Lemma op_stack_global_sstep pvm o b pvm' :
  Inv pvm -> op_stack_global pvm o = Ok (b, pvm') -> sstep pvm pvm'.
Proof.
  intros I H. unfold op_stack_global in H.
  case_bool_decide as Hn; [|injection H as <- <-; apply sstep_refl, I].
  destruct (r_list_pop (stack pvm)) as [[name rest]|] eqn:Ep;
    [|injection H as <- <-; apply sstep_refl, I].
  destruct (r_list_pop rest) as [[mod_ rest']|] eqn:Ep';
    [|injection H as <- <-; apply sstep_refl, I].
  unfold alloc_obj in H. injection H as <- <-.
  set (F := set_val (V_func (Some mod_) (Some name)) (py_obj_new pvm PY_FUNC)).
  assert (S : hstep (heap pvm) (alloc_obj (heap pvm) F).2).
  { apply hstep_alloc_obj; [apply Inv_heap, I | apply good_obj_new; discriminate | cell]. }
  destruct (sstep_with_heap _ _ I S) as [I1 X1]. split; [|exact X1].
  apply Inv_with_stack; [exact I1 |].
  apply stk_ok_snoc; [|apply (nosplit_alloc (heap pvm) F); discriminate].
  eapply ext_stk_ok; [exact X1 |].
  eapply stk_ok_pop; [|exact Ep']. eapply stk_ok_pop; [|exact Ep]. apply Inv_stack, I.
Qed.

Lemma insantiate_sstep fuel pvm o cls args b pvm' :
  Inv pvm ->
  (forall c, cls = Some c -> nosplit (heap pvm) c) ->
  (forall a, args = Some a -> nosplit (heap pvm) a) ->
  insantiate fuel pvm o cls args = Ok (b, pvm') -> sstep pvm pvm'.
Proof.
  intros I Hc Ha H. unfold insantiate in H.
  apply bind_Ok in H as (m & _ & H).
  assert (R : (h ← free_opt (py_obj_free fuel) (heap pvm) args;
               h ← free_opt (py_obj_free fuel) h cls;
               Ok (false, with_heap h pvm)) = Ok (b, pvm') -> sstep pvm pvm').
  { intros H0. apply bind_Ok in H0 as (h1 & E1 & H0).
    apply bind_Ok in H0 as (h2 & E2 & H0). injection H0 as <- <-.
    pose proof (hstep_free_opt _ _ _ _ (Inv_heap _ I) E1) as S1.
    pose proof (hstep_free_opt _ _ _ _ (proj1 S1) E2) as S2.
    apply sstep_with_heap; [exact I | exact (hstep_trans _ _ _ S1 S2)]. }
  destruct args as [a|]; [|exact (R H)].
  destruct cls as [c|]; [|exact (R H)].
  eapply py_what_addop_sstep in H.
  - destruct H as [I1 X1]. split; [exact I1 | exact X1].
  - apply Inv_with_stack; [exact I |].
    apply stk_ok_app; [apply Inv_stack, I |].
    constructor; [auto | constructor; [auto | constructor]].
  - case_bool_decide; discriminate.
Qed.

Lemma op_inst_sstep fuel pvm o b pvm' :
  Inv pvm -> op_inst fuel pvm o = Ok (b, pvm') -> sstep pvm pvm'.
Proof.
  intros I H. unfold op_inst in H.
  apply bind_Ok in H as ([cls pvm1] & E1 & H).
  apply glob_obj_sstep in E1 as (S1 & _ & _ & N1); [|exact I].
  apply bind_Ok in H as ([args pvm2] & E2 & H).
  apply iter_to_mark_sstep in E2 as (S2 & N2); [|apply S1 | discriminate | discriminate].
  eapply sstep_trans; [exact S1 |]. eapply sstep_trans; [exact S2 |].
  eapply insantiate_sstep; [apply S2 | | exact N2 | exact H].
  intros c Hcl. eapply ext_nosplit; [apply S2 | auto].
Qed.

Lemma op_obj_sstep fuel pvm o b pvm' :
  Inv pvm -> op_obj fuel pvm o = Ok (b, pvm') -> sstep pvm pvm'.
Proof.
  intros I H. unfold op_obj in H.
  assert (K : exists cls pvm1,
    match r_list_pop_head (stack pvm) with
    | Some (c, rest) => (Some c, with_stack rest pvm)
    | None => (None, pvm)
    end = (cls, pvm1) /\ sstep pvm pvm1 /\ (forall c, cls = Some c -> nosplit (heap pvm1) c)).
  { pose proof (Inv_stack _ I) as K. unfold r_list_pop_head.
    destruct (stack pvm) as [|c rest].
    - exists None, pvm. split_and!; auto using sstep_refl. intros c Hc; discriminate.
    - inversion K; subst. exists (Some c), (with_stack rest pvm). split_and!; auto.
      + split; [apply Inv_with_stack; auto | apply ext_refl].
      + intros c' Hc'. injection Hc' as <-. assumption. }
  destruct K as (cls & pvm1 & EK & S1 & N1). rewrite EK in H.
  apply bind_Ok in H as ([args pvm2] & E2 & H).
  apply iter_to_mark_sstep in E2 as (S2 & N2); [|apply S1 | discriminate | discriminate].
  eapply sstep_trans; [exact S1 |]. eapply sstep_trans; [exact S2 |].
  eapply insantiate_sstep; [apply S2 | | exact N2 | exact H].
  intros c Hcl. eapply ext_nosplit; [apply S2 | auto].
Qed.

(** *** Every opcode *)

Lemma exec_op_sstep fuel pvm o code b pvm' :
  Inv pvm -> exec_op fuel pvm o code = Ok (b, pvm') -> sstep pvm pvm'.
Proof.
  intros I H.
  destruct code; unfold exec_op in H;
    try (injection H as <- <-; apply sstep_refl, I);
    try (eapply push_str_sstep; eassumption);
    try (eapply push_int_type_sstep; eassumption);
    try (eapply op_float_sstep; eassumption);
    try (eapply memo_put_sstep; eassumption);
    try (eapply op_memorize_sstep; eassumption);
    try (eapply memo_get_sstep; eassumption);
    try (eapply op_dup_sstep; eassumption);
    try (eapply op_mark_sstep; eassumption);
    try (eapply op_pop_sstep; eassumption);
    try (eapply op_pop_mark_sstep; eassumption);
    try (eapply op_none_sstep; eassumption);
    try (eapply op_obj_sstep; eassumption);
    try (eapply op_inst_sstep; eassumption);
    try (eapply op_global_sstep; eassumption);
    try (eapply op_stack_global_sstep; eassumption);
    try (eapply op_append_sstep; eassumption);
    try (eapply op_setitem_sstep; eassumption);
    try (eapply op_setitems_sstep; eassumption);
    try (eapply py_what_addop_sstep in H; [exact H | exact I | discriminate]);
    try (eapply op_type_create_append_sstep in H; [exact H | exact I | discriminate | discriminate]);
    try (eapply op_iter_n_sstep in H; [exact H | exact I | discriminate | discriminate | (discriminate || reflexivity)]);
    try (eapply op_appends_sstep in H; [exact H | exact I | discriminate | discriminate]);
    try (eapply op_newbool_sstep; eassumption).
  case_bool_decide; injection H as <- <-; [apply sstep_refl, I |].
  split; [apply Inv_with_ver, I | apply ext_refl].
Qed.

(** *** The loop *)

Lemma run_loop_sstep fuel l : forall pvm b pvm',
  Inv pvm -> run_loop fuel pvm l = Ok (b, pvm') -> sstep pvm pvm'.
Proof.
  induction l as [|i l IH]; intros pvm b pvm' I H; simpl in H.
  - apply bind_Ok in H as (p1 & E1 & H). injection H as <- <-.
    eapply empty_memo_sstep; eauto.
  - destruct (break_on_stop pvm && is_stop (code i)).
    + apply bind_Ok in H as (p1 & E1 & H). injection H as <- <-.
      eapply empty_memo_sstep; eauto.
    + destruct (decoded i) as [o|]; [|injection H as <- <-; apply sstep_refl, I].
      apply bind_Ok in H as ([exec pvm1] & E1 & H).
      apply exec_op_sstep in E1; [|exact I].
      destruct exec; [|injection H as <- <-; exact E1].
      eapply sstep_trans; [exact E1 |].
      apply IH in H; [|apply Inv_with_offset, E1].
      destruct H as [I2 X2]. split; [exact I2 | exact X2].
Qed.

Lemma run_pvm_sstep fuel pvm buf b pvm' :
  Inv pvm -> run_pvm fuel pvm buf = Ok (b, pvm') -> sstep pvm pvm'.
Proof.
  intros I H. unfold run_pvm in H. destruct buf as [|i l].
  - injection H as <- <-. apply sstep_refl, I.
  - eapply run_loop_sstep; eauto.
Qed.

End Invariants.

(** ** The states the interpreter goes through *)

Section Reachable.

(** The machine pickle_dec starts on the core [c]. *)
Definition start_state (c : RCore) : PMState :=
  with_break_on_stop true (init_machine_state c zero_state).2.

(** The states between two instructions of a run: what exec_op leaves,
    whether it succeeds or not, the move to the next instruction, and the
    memo emptied at the end. *)
Inductive reachable : PMState -> Prop :=
  | reach_start c : reachable (start_state c)
  | reach_exec fuel pvm o code b pvm' :
      reachable pvm -> exec_op fuel pvm o code = Ok (b, pvm') -> reachable pvm'
  | reach_next pvm z : reachable pvm -> reachable (with_offset z pvm)
  | reach_end fuel pvm pvm' :
      reachable pvm -> empty_memo fuel pvm = Ok pvm' -> reachable pvm'.

Lemma own_inv_empty : own_inv (mkHeap [] []).
Proof.
  assert (N : forall a p, ~ owns (mkHeap [] []) a p).
  { intros a p (o & l & Ha & _). simpl in Ha. rewrite lookup_nil in Ha. discriminate. }
  split_and!.
  - intros a a' p H. destruct (N _ _ H).
  - intros a p (o & Ha & _). simpl in Ha. rewrite lookup_nil in Ha. discriminate.
  - intros a p po H. destruct (N _ _ H).
  - intros a p H. destruct (N _ _ H).
Qed.

Lemma Inv_start c : Inv (start_state c).
Proof.
  unfold start_state, init_machine_state. case_bool_decide; simpl.
  all: split_and!; simpl; try constructor.
  all: try (split; [intros a o Ha | intros a o Ha]; simpl in Ha;
            rewrite lookup_nil in Ha; discriminate).
  all: try apply own_inv_empty.
  all: intros k a Hk; rewrite lookup_empty in Hk; discriminate.
Qed.

Lemma reachable_Inv pvm : reachable pvm -> Inv pvm.
Proof.
  induction 1 as [c | fuel pvm o code b pvm' _ IH E | pvm z _ IH | fuel pvm pvm' _ IH E].
  - apply Inv_start.
  - exact (proj1 (exec_op_sstep _ _ _ _ _ _ IH E)).
  - apply Inv_with_offset, IH.
  - exact (proj1 (empty_memo_sstep _ _ _ IH E)).
Qed.

Lemma run_loop_reachable fuel l : forall pvm b pvm',
  reachable pvm -> run_loop fuel pvm l = Ok (b, pvm') -> reachable pvm'.
Proof.
  induction l as [|i l IH]; intros pvm b pvm' R H; simpl in H.
  - apply bind_Ok in H as (p1 & E1 & H). injection H as <- <-.
    eapply reach_end; eauto.
  - destruct (break_on_stop pvm && is_stop (code i)).
    + apply bind_Ok in H as (p1 & E1 & H). injection H as <- <-.
      eapply reach_end; eauto.
    + destruct (decoded i) as [o|]; [|injection H as <- <-; exact R].
      apply bind_Ok in H as ([exec pvm1] & E1 & H).
      pose proof (reach_exec _ _ _ _ _ _ R E1) as R1.
      destruct exec; [|injection H as <- <-; exact R1].
      eapply IH; [|exact H]. apply reach_next, R1.
Qed.

Lemma run_pvm_reachable fuel c b pvm' :
  run_pvm fuel (start_state c) (io c) = Ok (b, pvm') -> reachable pvm'.
Proof.
  unfold run_pvm. destruct (io c) as [|i l].
  - intros H. injection H as <- <-. apply reach_start.
  - apply run_loop_reachable, reach_start.
Qed.

Lemma what_first_record h a o :
  heap_inv h -> deref h a = Ok o -> type o = PY_WHAT ->
  exists p rest po x,
    py_what o = Some (p :: rest) /\ oderef h p = Ok po
    /\ op po = OP_FAKE_INIT /\ op_stack po = Some [x].
Proof.
  intros I Hd Ht. apply deref_Ok in Hd as [Ha Hf].
  destruct (heap_inv_good _ _ _ I Ha) as (_ & _ & G).
  destruct (G Hf) as [GW _]. destruct (GW Ht) as (p & rest & po & Hl & Hp & Hop).
  assert (Hlive : op_freed po = false).
  { destruct I as [_ (_ & _ & L & _)]. apply (L a p po); auto.
    exists o, (p :: rest). split_and!; auto. apply list_elem_of_here. }
  destruct (heap_inv_good_oper _ _ _ I Hp Hop Hlive) as [x Hx].
  exists p, rest, po, x. split_and!; auto. apply oderef_Ok. auto.
Qed.

(** The What at [w] begins with the record [p], an OP_FAKE_INIT whose stack
    is the one object [x]. *)
Definition what_of (h : Heap) (w : addr) (p : oaddr) (x : addr) : Prop :=
  exists W rest po,
    deref h w = Ok W /\ type W = PY_WHAT /\ py_what W = Some (p :: rest)
    /\ oderef h p = Ok po /\ op po = OP_FAKE_INIT /\ op_stack po = Some [x].

(** What a What begins with is what it began with, as long as it is live. *)
Lemma what_of_later h h' w p x W' :
  heap_inv h' -> ext h h' -> what_of h w p x -> deref h' w = Ok W' ->
  what_of h' w p x.
Proof.
  intros I [E0 [KO KP]] (W & rest & po & Hd & Ht & Hl & Hp & Hop & Hs) Hd'.
  apply deref_Ok in Hd as [Ha Hf]. apply deref_Ok in Hd' as [Ha' Hf'].
  apply oderef_Ok in Hp as [Hp Hpf].
  destruct (ext0_obj _ _ _ _ E0 Ha) as (W2 & Ha2 & Ht2).
  assert (W2 = W') by congruence. subst W2.
  destruct (KO w W W' Ha Ha' Ht Hf') as [_ K]. destruct (K p rest Hl) as [rest' Hl'].
  destruct (ext0_oper _ _ _ _ E0 Hp) as (po' & Hp' & Hop').
  assert (Hlive : op_freed po' = false).
  { destruct I as [_ (_ & _ & L & _)]. apply (L w p po'); [|exact Hp' | congruence].
    exists W', (p :: rest'). split_and!; auto; [congruence | apply list_elem_of_here]. }
  destruct (KP p po po' Hp Hp' Hop Hlive) as [_ Hs'].
  exists W', rest', po'. split_and!; auto; try congruence.
  - apply deref_Ok. auto.
  - apply oderef_Ok. auto.
Qed.

(** The states a run goes through from [pvm] on. *)
Inductive later (pvm : PMState) : PMState -> Prop :=
  | later_refl : later pvm pvm
  | later_exec fuel p1 o code b p2 :
      later pvm p1 -> exec_op fuel p1 o code = Ok (b, p2) -> later pvm p2
  | later_next p1 z : later pvm p1 -> later pvm (with_offset z p1)
  | later_end fuel p1 p2 : later pvm p1 -> empty_memo fuel p1 = Ok p2 -> later pvm p2.

Lemma later_sstep pvm pvm' : Inv pvm -> later pvm pvm' -> sstep pvm pvm'.
Proof.
  intros I. induction 1 as [|fuel p1 o code b p2 _ IH E | p1 z _ IH | fuel p1 p2 _ IH E].
  - apply sstep_refl, I.
  - eapply sstep_trans; [exact IH |]. eapply exec_op_sstep; [apply IH | exact E].
  - destruct IH as [I1 E1]. split; [apply Inv_with_offset, I1 | exact E1].
  - eapply sstep_trans; [exact IH |]. eapply empty_memo_sstep; [apply IH | exact E].
Qed.

(** stack_top_to_what on a stack whose top is live and is not a What. *)
Lemma stack_top_to_what_makes pvm rest x ox :
  deref (heap pvm) x = Ok ox -> type ox <> PY_WHAT ->
  exists pvm',
    stack_top_to_what pvm (rest ++ [x])
      = Ok (Some (length (objs (heap pvm))), rest ++ [length (objs (heap pvm))], pvm')
    /\ what_of (heap pvm') (length (objs (heap pvm))) (length (opers (heap pvm))) x
    /\ ext (heap pvm) (heap pvm').
Proof.
  intros Hd Ht. unfold stack_top_to_what. rewrite r_list_pop_snoc, Hd.
  cbn [mbind res_bind]. rewrite bool_decide_eq_false_2 by exact Ht.
  unfold py_what_new, alloc_obj, alloc_oper. cbn [fst snd].
  eexists. split; [reflexivity |]. split.
  - eexists _, [], _. simpl. split_and!.
    + apply deref_Ok. split; [cbn [objs]; rewrite lookup_app_r by lia;
        rewrite Nat.sub_diag; reflexivity | reflexivity].
    + reflexivity.
    + reflexivity.
    + apply oderef_Ok. split; [cbn [opers]; rewrite lookup_app_r by lia;
        rewrite Nat.sub_diag; reflexivity | reflexivity].
    + reflexivity.
    + reflexivity.
  - cbn [heap with_heap].
    eapply ext_trans; [apply (ext_alloc_obj (heap pvm)) |]. apply ext_alloc_oper.
Qed.

(** stack_top_to_what leaves a What at the top as it is. *)
Lemma stack_top_to_what_same pvm rest x ox :
  deref (heap pvm) x = Ok ox -> type ox = PY_WHAT ->
  stack_top_to_what pvm (rest ++ [x]) = Ok (Some x, rest ++ [x], pvm).
Proof.
  intros Hd Ht. unfold stack_top_to_what. rewrite r_list_pop_snoc, Hd.
  cbn [mbind res_bind]. rewrite bool_decide_eq_true_2 by exact Ht. reflexivity.
Qed.

Lemma list_pop_n_app (rest args : list addr) :
  list_pop_n (rest ++ args) (Z.of_nat (length args)) =
    if bool_decide (rest = []) then None else Some (rest, args).
Proof.
  unfold list_pop_n, r_list_length. rewrite length_app.
  destruct (decide (rest = [])) as [Hr | Hr].
  - subst rest. simpl. rewrite bool_decide_eq_false_2 by lia. reflexivity.
  - rewrite (bool_decide_eq_false_2 (rest = [])) by exact Hr.
    rewrite bool_decide_eq_true_2 by (destruct rest; [congruence | simpl; lia]).
    rewrite Nat2Z.id. replace (length rest + length args - length args)%nat
      with (length rest) by lia.
    rewrite take_app_length, drop_app_length. reflexivity.
Qed.

(** C6. Between two instructions of a run, every live What has a first
    operation record, that record is live and is an OP_FAKE_INIT, and its
    stack holds exactly one object.  That object is the value the What was
    made of: stack_top_to_what, which alone makes a What, puts a new What in
    the place of a top of stack [x] that is not a What, with one record, an
    OP_FAKE_INIT whose stack is [x], and leaves a top that is a What as it
    is; py_what_addop and py_what_addop_stack return with the What so made
    still beginning with that record and with [x]; and from one state of a
    run to a later one a What, as long as it is live, keeps its first record
    and the object in it. *)
Theorem C6_what_starts_with_fake_init :
  (forall pvm a o,
     reachable pvm -> deref (heap pvm) a = Ok o -> type o = PY_WHAT ->
     exists p rest po x,
       py_what o = Some (p :: rest) /\ oderef (heap pvm) p = Ok po
       /\ op po = OP_FAKE_INIT /\ op_stack po = Some [x])
  /\ (forall pvm rest x ox,
        deref (heap pvm) x = Ok ox ->
        (type ox = PY_WHAT ->
           stack_top_to_what pvm (rest ++ [x]) = Ok (Some x, rest ++ [x], pvm))
        /\ (type ox <> PY_WHAT ->
              exists pvm',
                stack_top_to_what pvm (rest ++ [x])
                  = Ok (Some (length (objs (heap pvm))),
                        rest ++ [length (objs (heap pvm))], pvm')
                /\ what_of (heap pvm') (length (objs (heap pvm)))
                     (length (opers (heap pvm))) x))
  /\ (forall fuel pvm argc o b pvm' rest x args ox W,
        reachable pvm -> o <> OP_FAKE_INIT ->
        stack pvm = rest ++ x :: args -> Z.of_nat (length args) = argc -> argc > 0 ->
        deref (heap pvm) x = Ok ox -> type ox <> PY_WHAT ->
        py_what_addop fuel pvm argc o = Ok (b, pvm') ->
        deref (heap pvm') (length (objs (heap pvm))) = Ok W ->
        what_of (heap pvm') (length (objs (heap pvm))) (S (length (opers (heap pvm)))) x)
  /\ (forall fuel pvm o b pvm' ms rest x ox W,
        reachable pvm -> o <> OP_FAKE_INIT ->
        metastack pvm = ms ++ [rest ++ [x]] ->
        deref (heap pvm) x = Ok ox -> type ox <> PY_WHAT ->
        py_what_addop_stack fuel pvm o = Ok (b, pvm') ->
        deref (heap pvm') (length (objs (heap pvm))) = Ok W ->
        what_of (heap pvm') (length (objs (heap pvm))) (S (length (opers (heap pvm)))) x)
  /\ (forall pvm pvm' w p x W,
        reachable pvm -> later pvm pvm' -> what_of (heap pvm) w p x ->
        deref (heap pvm') w = Ok W -> what_of (heap pvm') w p x).
Proof.
  split_and!.
  - intros pvm a o R. apply what_first_record, Inv_heap, reachable_Inv, R.
  - intros pvm rest x ox Hd. split; intros Ht.
    + eapply stack_top_to_what_same; eauto.
    + destruct (stack_top_to_what_makes pvm rest x ox Hd Ht) as (pvm' & E & Hw & _).
      eauto.
  - intros fuel pvm argc o b pvm' rest x args ox W R Ho Hs Hn Hargc Hd Ht H HW.
    pose proof (reachable_Inv _ R) as I.
    destruct (py_what_addop_mid _ _ _ _ _ _ I Ho Hargc H)
      as (obj & stk & pvm3 & E3 & I' & _ & X).
    unfold addop_state in E3. cbv zeta in E3.
    replace (stack pvm) with ((rest ++ [x]) ++ args) in E3
      by (rewrite Hs, <- app_assoc; reflexivity).
    rewrite <- Hn, list_pop_n_app in E3.
    rewrite bool_decide_eq_false_2 in E3 by (destruct rest; discriminate).
    cbn [stack with_stack] in E3.
    set (pvm2 := with_stack (rest ++ [x])
                   (with_heap (alloc_oper (heap pvm) (py_oper_new pvm o false)).2 pvm)) in *.
    destruct (stack_top_to_what_makes pvm2 rest x ox Hd Ht) as (pvm4 & E4 & Hw & _).
    rewrite E4 in E3. injection E3 as _ _ <-.
    unfold pvm2 in Hw. cbn [heap with_stack with_heap alloc_oper snd objs opers] in Hw.
    rewrite length_app in Hw. simpl in Hw.
    replace (length (opers (heap pvm)) + 1)%nat with (S (length (opers (heap pvm)))) in Hw
      by lia.
    eapply what_of_later; [apply Inv_heap, I' | exact X | exact Hw | exact HW].
  - intros fuel pvm o b pvm' ms rest x ox W R Ho Hm Hd Ht H HW.
    pose proof (reachable_Inv _ R) as I.
    assert (Em : r_list_pop (metastack pvm) = Some (rest ++ [x], ms)).
    { rewrite Hm. apply r_list_pop_snoc. }
    destruct (py_what_addop_stack_mid _ _ _ _ _ _ _ I Ho Em H)
      as (obj & stk & pvm3 & E3 & I' & _ & X).
    set (pvm2 := with_heap (alloc_oper (heap pvm) (py_oper_new pvm o false)).2
                   (with_metastack ms pvm)) in *.
    destruct (stack_top_to_what_makes pvm2 rest x ox Hd Ht) as (pvm4 & E4 & Hw & _).
    rewrite E4 in E3. injection E3 as _ _ <-.
    unfold pvm2 in Hw. cbn [heap with_metastack with_heap alloc_oper snd objs opers] in Hw.
    rewrite length_app in Hw. simpl in Hw.
    replace (length (opers (heap pvm)) + 1)%nat with (S (length (opers (heap pvm)))) in Hw
      by lia.
    eapply what_of_later; [apply Inv_heap, I' | exact X | exact Hw | exact HW].
  - intros pvm pvm' w p x W R L Hw HW.
    destruct (later_sstep _ _ (reachable_Inv _ R) L) as [I' X].
    eapply what_of_later; [apply Inv_heap, I' | exact X | exact Hw | exact HW].
Qed.

(** The state after None, 1, TUPLE1, REDUCE, STOP: the None was upgraded to
    a What when REDUCE was recorded on it. *)
Definition reduce_1_state : PMState :=
  Eval vm_compute in
    match run_pvm 8 (start_state (host reduce_1)) reduce_1 with
    | Ok (_, s) => s
    | _ => zero_state
    end.

Definition reduce_1_what : PyObj :=
  mkPyObj PY_WHAT 3 UT64_MAX 0 None 0 (V_what (Some [1%nat; 0%nat])) false.

Lemma reduce_1_run :
  run_pvm 8 (start_state (host reduce_1)) (io (host reduce_1)) = Ok (true, reduce_1_state).
Proof. vm_compute. reflexivity. Qed.

Lemma reduce_1_deref : deref (heap reduce_1_state) 3 = Ok reduce_1_what.
Proof. vm_compute. reflexivity. Qed.

(** None, 1, TUPLE1: the stack REDUCE finds in reduce_1. *)
Definition tuple_1 : list Insn :=
  [insn OP_NONE 0 "none"; insn OP_BININT1 1 "binint1 0x1"; insn OP_TUPLE1 0 "tuple1"].

Definition tuple_1_state : PMState :=
  Eval vm_compute in
    match run_pvm 8 (start_state (host tuple_1)) tuple_1 with
    | Ok (_, s) => s
    | _ => zero_state
    end.

Lemma tuple_1_run :
  run_pvm 8 (start_state (host tuple_1)) (io (host tuple_1)) = Ok (true, tuple_1_state).
Proof. vm_compute. reflexivity. Qed.

Definition tuple_1_reduced : PMState :=
  Eval vm_compute in
    match py_what_addop 8 tuple_1_state 1 OP_REDUCE with
    | Ok (_, s) => s
    | _ => zero_state
    end.

Lemma tuple_1_addop :
  py_what_addop 8 tuple_1_state 1 OP_REDUCE = Ok (true, tuple_1_reduced).
Proof. vm_compute. reflexivity. Qed.

Lemma tuple_1_stack : stack tuple_1_state = [] ++ 0%nat :: [2%nat].
Proof. vm_compute. reflexivity. Qed.

Lemma tuple_1_none :
  deref (heap tuple_1_state) 0 = Ok (mkPyObj PY_NONE 0 UT64_MAX 0 None 0 V_zero false).
Proof. vm_compute. reflexivity. Qed.

Lemma tuple_1_what :
  deref (heap tuple_1_reduced) (length (objs (heap tuple_1_state)))
    = Ok reduce_1_what.
Proof. vm_compute. reflexivity. Qed.

Definition reduce_1_then_none : PMState :=
  Eval vm_compute in
    match exec_op 1 reduce_1_state (plain_op 0 "none") OP_NONE with
    | Ok (_, s) => s
    | _ => zero_state
    end.

Lemma reduce_1_none :
  exec_op 1 reduce_1_state (plain_op 0 "none") OP_NONE = Ok (true, reduce_1_then_none).
Proof. vm_compute. reflexivity. Qed.

Lemma reduce_1_record :
  oderef (heap reduce_1_state) 1
    = Ok (mkPyOper OP_FAKE_INIT (Some [0%nat]) 3 0 false).
Proof. vm_compute. reflexivity. Qed.

Lemma reduce_1_then_none_deref :
  deref (heap reduce_1_then_none) 3 = Ok reduce_1_what.
Proof. vm_compute. reflexivity. Qed.

Lemma C6_what_starts_with_fake_init_witness :
  (exists p rest po x,
     py_what reduce_1_what = Some (p :: rest)
     /\ oderef (heap reduce_1_state) p = Ok po
     /\ op po = OP_FAKE_INIT /\ op_stack po = Some [x])
  /\ what_of (heap tuple_1_reduced) (length (objs (heap tuple_1_state)))
       (S (length (opers (heap tuple_1_state)))) 0
  /\ what_of (heap reduce_1_then_none) 3 1 0.
Proof.
  destruct C6_what_starts_with_fake_init as (T1 & _ & T3 & _ & T5).
  pose proof (run_pvm_reachable 8 (host reduce_1) true reduce_1_state reduce_1_run) as R.
  pose proof (run_pvm_reachable 8 (host tuple_1) true tuple_1_state tuple_1_run) as R1.
  assert (Hne : OP_REDUCE <> OP_FAKE_INIT) by discriminate.
  assert (Hnw : type (mkPyObj PY_NONE 0 UT64_MAX 0 None 0 V_zero false) <> PY_WHAT)
    by discriminate.
  assert (Hgt : 1 > 0) by reflexivity.
  assert (W0 : what_of (heap reduce_1_state) 3 1 0).
  { exists reduce_1_what, [0%nat], (mkPyOper OP_FAKE_INIT (Some [0%nat]) 3 0 false).
    split; [exact reduce_1_deref |]. split; [reflexivity |]. split; [reflexivity |].
    split; [exact reduce_1_record |]. split; reflexivity. }
  split; [exact (T1 reduce_1_state 3%nat reduce_1_what R reduce_1_deref eq_refl) |].
  split.
  - exact (T3 8%nat tuple_1_state 1 OP_REDUCE true tuple_1_reduced [] 0%nat [2%nat] _ _
             R1 Hne tuple_1_stack eq_refl Hgt tuple_1_none Hnw tuple_1_addop tuple_1_what).
  - exact (T5 reduce_1_state reduce_1_then_none 3%nat 1%nat 0%nat reduce_1_what R
             (later_exec _ _ _ _ _ _ _ (later_refl _) reduce_1_none) W0
             reduce_1_then_none_deref).
Defined.

(** ** C7: dictionaries *)

Lemma dict_nonsplits_even h a o :
  heap_inv h -> deref h a = Ok o -> type o = PY_DICT ->
  exists l, py_iter o = Some l /\ Nat.even (nonsplits h l) = true.
Proof.
  intros I Hd Ht. apply deref_Ok in Hd as [Ha Hf].
  destruct (heap_inv_good _ _ _ I Ha) as (_ & _ & G).
  destruct (G Hf) as [_ GD]. destruct (GD Ht) as (l & Hl & _ & He). eauto.
Qed.

(** Releasing the empty dictionary that was just allocated. *)
Lemma py_obj_free_fresh_dict n h o :
  freed o = false -> refcnt o <= 0 -> type o = PY_DICT -> py_iter o = Some [] ->
  exists h', py_obj_free (S n) (mkHeap (objs h ++ [o]) (opers h)) (length (objs h)) = Ok h'.
Proof.
  intros Hf Hr Ht Hi. destruct o as [t off m r vn rc vl f].
  unfold py_iter in Hi. simpl in Hf, Hr, Ht, Hi.
  destruct vl; try discriminate. subst t f l.
  cbn [py_obj_free]. rewrite deref_alloc by reflexivity.
  cbn [mbind res_bind refcnt]. rewrite put_alloc.
  rewrite (bool_decide_eq_true_2 (r <= 0) Hr).
  unfold py_obj_free_internal_with. rewrite deref_alloc by reflexivity.
  simpl. rewrite put_alloc. rewrite deref_alloc by reflexivity.
  simpl. eauto.
Qed.

Lemma op_dict_odd n pvm :
  r_list_length (stack pvm) mod 2 <> 0 ->
  exists pvm', op_type_create_append (S n) pvm PY_DICT = Ok (false, pvm')
    /\ stack pvm' = stack pvm /\ metastack pvm' = metastack pvm.
Proof.
  intros Hodd. unfold op_type_create_append, iter_to_mark, py_iter_new, alloc_obj.
  cbn [pytype_has_depth]. unfold py_iter_append_mark.
  cbn [heap with_heap stack]. rewrite deref_alloc by reflexivity.
  cbn [mbind res_bind type set_val py_obj_new].
  rewrite !(bool_decide_eq_true_2 (PY_DICT = PY_DICT) eq_refl).
  replace (r_list_length (stack pvm) mod 2 =? 0) with false
    by (symmetry; apply Z.eqb_neq; exact Hodd).
  cbn [negb andb mbind res_bind free_opt heap with_heap].
  destruct (py_obj_free_fresh_dict n (heap pvm)
              (set_val (V_iter (Some [])) (py_obj_new pvm PY_DICT))
              eq_refl ltac:(simpl; lia) eq_refl eq_refl)
    as [h' Hh'].
  rewrite Hh'. cbn [mbind res_bind]. eexists. split; [reflexivity |]. split; reflexivity.
Qed.

Lemma op_setitems_odd fuel pvm prev d od :
  r_list_length (stack pvm) mod 2 <> 0 ->
  last (metastack pvm) = Some prev -> last prev = Some d ->
  deref (heap pvm) d = Ok od -> type od = PY_DICT ->
  op_setitems fuel pvm = Ok (false, pvm).
Proof.
  intros Hodd Hm Hp Hd Ht. unfold op_setitems, py_iter_append_mark.
  rewrite Hm, Hp, Hd. cbn [mbind res_bind].
  rewrite !(bool_decide_eq_true_2 _ Ht).
  rewrite !(bool_decide_eq_true_2 (PY_DICT = PY_DICT) eq_refl).
  replace (r_list_length (stack pvm) mod 2 =? 0) with false
    by (symmetry; apply Z.eqb_neq; exact Hodd).
  reflexivity.
Qed.

Lemma op_setitem_dict fuel pvm rest d key value od :
  Inv pvm -> stack pvm = rest ++ [d; key; value] ->
  deref (heap pvm) d = Ok od -> type od = PY_DICT ->
  exists l,
    py_iter od = Some l
    /\ op_setitem fuel pvm
       = Ok (true, with_heap (put_obj (heap pvm) d
                                (set_val (V_iter (Some ((l ++ [key]) ++ [value]))) od))
                     (with_stack (rest ++ [d]) pvm)).
Proof.
  intros I Hs Hd Ht.
  assert (K : nosplit (heap pvm) key /\ nosplit (heap pvm) value).
  { pose proof (Inv_stack _ I) as K. rewrite Hs in K. apply Forall_app in K as [_ K].
    inversion K as [|? ? _ K1]; subst. inversion K1 as [|? ? Kk K2]; subst.
    inversion K2; subst. auto. }
  destruct K as [Kk Kv].
  destruct (dict_push2 _ _ _ _ _ (Inv_heap _ I) Hd Ht Kk Kv) as (l & El & P1 & P2 & _).
  exists l. split; [exact El |].
  unfold op_setitem, stack_n_expected_type. rewrite Hs.
  rewrite bool_decide_eq_true_2
    by (unfold r_list_length; rewrite length_app; simpl; lia).
  rewrite (bool_decide_eq_true_2 (2 >= 0)) by lia.
  rewrite rev_app_distr. simpl. rewrite Hd. cbn [mbind res_bind].
  rewrite (bool_decide_eq_true_2 _ Ht).
  replace (rest ++ [d; key; value]) with ((rest ++ [d; key]) ++ [value])
    by (rewrite <- app_assoc; reflexivity).
  rewrite r_list_pop_snoc.
  replace (rest ++ [d; key]) with ((rest ++ [d]) ++ [key])
    by (rewrite <- app_assoc; reflexivity).
  rewrite r_list_pop_snoc. cbv zeta. rewrite last_snoc.
  cbn [heap with_stack]. rewrite Hd. cbn [mbind res_bind].
  rewrite (bool_decide_eq_true_2 _ Ht). rewrite P1. cbn [mbind res_bind].
  rewrite P2. cbn [mbind res_bind]. reflexivity.
Qed.

(** The state after None, EMPTY_DICT, TUPLE1, REDUCE, STOP: the split pass of
    REDUCE went through the tuple into the empty dictionary. *)
Definition reduce_dict_state : PMState :=
  Eval vm_compute in
    match run_pvm 8 (start_state (host reduce_dict)) reduce_dict with
    | Ok (_, s) => s
    | _ => zero_state
    end.

Definition reduce_dict_dict : PyObj :=
  mkPyObj PY_DICT 1 UT64_MAX 0 None 1 (V_iter (Some [4%nat])) false.

Lemma reduce_dict_run :
  run_pvm 8 (start_state (host reduce_dict)) (io (host reduce_dict))
  = Ok (true, reduce_dict_state).
Proof. vm_compute. reflexivity. Qed.

Lemma reduce_dict_deref : deref (heap reduce_dict_state) 1 = Ok reduce_dict_dict.
Proof. vm_compute. reflexivity. Qed.

(** C7 as stated fails: after None, EMPTY_DICT, TUPLE1, REDUCE, STOP the
    dictionary is live and its list holds one element, the Split marker that
    REDUCE appended. *)
Lemma C7_dict_of_odd_length :
  run_pvm 8 (start_state (host reduce_dict)) reduce_dict = Ok (true, reduce_dict_state)
  /\ deref (heap reduce_dict_state) 1 = Ok reduce_dict_dict
  /\ type reduce_dict_dict = PY_DICT
  /\ py_iter reduce_dict_dict = Some [4%nat]
  /\ is_split (heap reduce_dict_state) 4 = true.
Proof.
  split; [exact reduce_dict_run |]. split; [exact reduce_dict_deref |].
  split; [reflexivity |]. split; [reflexivity |]. vm_compute. reflexivity.
Qed.

(** C7, amended. Between two instructions of a run the list of every live
    Dict holds an even number of elements that are not Split markers.  DICT
    on a stack of odd length fails and leaves the stack and the metastack as
    they were; SETITEMS on a Dict with a stack of odd length fails and changes
    nothing; SETITEM on a Dict appends the key and the value together. *)
Theorem C7_dict_keys_and_values_pair_up :
  (forall pvm a o,
     reachable pvm -> deref (heap pvm) a = Ok o -> type o = PY_DICT ->
     exists l, py_iter o = Some l /\ Nat.even (nonsplits (heap pvm) l) = true)
  /\ (forall n pvm o,
        r_list_length (stack pvm) mod 2 <> 0 ->
        exists pvm', exec_op (S n) pvm o OP_DICT = Ok (false, pvm')
          /\ stack pvm' = stack pvm /\ metastack pvm' = metastack pvm)
  /\ (forall fuel pvm o prev d od,
        r_list_length (stack pvm) mod 2 <> 0 ->
        last (metastack pvm) = Some prev -> last prev = Some d ->
        deref (heap pvm) d = Ok od -> type od = PY_DICT ->
        exec_op fuel pvm o OP_SETITEMS = Ok (false, pvm))
  /\ (forall fuel pvm o rest d key value od,
        reachable pvm -> stack pvm = rest ++ [d; key; value] ->
        deref (heap pvm) d = Ok od -> type od = PY_DICT ->
        exists l,
          py_iter od = Some l
          /\ exec_op fuel pvm o OP_SETITEM
             = Ok (true, with_heap (put_obj (heap pvm) d
                                      (set_val (V_iter (Some (l ++ [key; value]))) od))
                           (with_stack (rest ++ [d]) pvm))).
Proof.
  split_and!.
  - intros pvm a o R. apply dict_nonsplits_even, Inv_heap, reachable_Inv, R.
  - intros n pvm o. apply op_dict_odd.
  - intros fuel pvm o prev d od. apply op_setitems_odd.
  - intros fuel pvm o rest d key value od R Hs Hd Ht.
    destruct (op_setitem_dict fuel pvm rest d key value od (reachable_Inv _ R) Hs Hd Ht)
      as (l & Hl & E).
    exists l. split; [exact Hl |]. rewrite <- app_assoc in E. exact E.
Qed.

Lemma C7_dict_keys_and_values_pair_up_witness :
  reachable reduce_dict_state
  /\ deref (heap reduce_dict_state) 1 = Ok reduce_dict_dict
  /\ type reduce_dict_dict = PY_DICT
  /\ exists l, py_iter reduce_dict_dict = Some l
       /\ Nat.even (nonsplits (heap reduce_dict_state) l) = true.
Proof.
  pose proof (run_pvm_reachable 8 (host reduce_dict) true reduce_dict_state reduce_dict_run) as R.
  split; [exact R |]. split; [exact reduce_dict_deref |]. split; [reflexivity |].
  exact (proj1 C7_dict_keys_and_values_pair_up reduce_dict_state 1%nat reduce_dict_dict
           R reduce_dict_deref eq_refl).
Defined.

End Reachable.

(** ** C8: the split pass of REDUCE *)

Section SplitPass.

(** The generation of the pass and the Split it threads. *)
Variable g : Z.
Variable split : addr.

(** The containers add_splits appends the Split to. *)
Definition takes_split (t : PyType) : bool :=
  match t with
  | PY_LIST | PY_SET | PY_FROZEN_SET | PY_DICT => true
  | _ => false
  end.

(** Where add_splits descends from an object: the elements of an iterable,
    the stacks of the records of a What. *)
Definition oper_kids (h : Heap) (p : oaddr) : list addr :=
  match opers h !! p with
  | Some po => if op_freed po then [] else default [] (op_stack po)
  | None => []
  end.

Definition kids (h : Heap) (o : PyObj) : list addr :=
  match type o with
  | PY_LIST | PY_FROZEN_SET | PY_SET | PY_DICT | PY_TUPLE => default [] (py_iter o)
  | PY_WHAT => default [] (py_what o) ≫= oper_kids h
  | _ => []
  end.

Inductive reach (h : Heap) (a : addr) : addr -> Prop :=
  | reach_here : reach h a a
  | reach_kid b o c :
      reach h a b -> deref h b = Ok o -> c ∈ kids h o -> reach h a c.

Definition marked (h : Heap) (x : addr) : Prop :=
  exists o, objs h !! x = Some o /\ recurse o = g.

(** The list less its last element when that is a Split. *)
Definition trimmed (h : Heap) (l : list addr) : list addr :=
  match r_list_pop l with
  | Some (x0, l') => if is_split h x0 then l' else l
  | None => l
  end.

Lemma trimmed_sub h l x : x ∈ trimmed h l -> x ∈ l.
Proof.
  unfold trimmed. destruct (r_list_pop l) as [[x0 l']|] eqn:Ep; [|auto].
  destruct (is_split h x0); [|auto].
  apply r_list_pop_Some in Ep. subst l. intros Hx. apply elem_of_app. auto.
Qed.

(** A live object the pass is done with, [h0] being the heap the pass
    started on: what is below it is marked, and if it is a container that
    takes a Split it holds what it held in [h0], less a trailing Split, and
    then the Split. *)
Definition closed (h0 h : Heap) (x : addr) : Prop :=
  forall o, deref h x = Ok o ->
    (forall c, c ∈ kids h o -> c = split \/ marked h c)
    /\ (takes_split (type o) = true ->
          exists o0 l0, objs h0 !! x = Some o0 /\ py_iter o0 = Some l0
            /\ py_iter o = Some (trimmed h0 l0 ++ [split])).

(** What the pass may do to a heap: marks stay, a live cell keeps its payload
    unless it is a container that was not marked and now is (or is one of
    [E]), a live record keeps its stack. *)
Definition prel (E : addr -> Prop) (h h' : Heap) : Prop :=
  length (objs h') = length (objs h) /\ length (opers h') = length (opers h)
  /\ (forall x o, objs h !! x = Some o ->
        exists o', objs h' !! x = Some o' /\ type o' = type o
          /\ (recurse o = g -> recurse o' = g)
          /\ (freed o' = false ->
                freed o = false
                /\ (val o' = val o
                    \/ (recurse o <> g /\ recurse o' = g
                        /\ takes_split (type o) = true)
                    \/ E x)))
  /\ (forall p po, opers h !! p = Some po ->
        exists po', opers h' !! p = Some po'
          /\ (op_freed po' = false ->
                op_freed po = false /\ op_stack po' = op_stack po
                /\ op po' = op po)).

Definition nobody (x : addr) : Prop := False.

Definition new_closed (h h' : Heap) : Prop :=
  forall y, marked h' y -> ~ marked h y -> closed h h' y.

Definition pass_ok (f : Heap -> addr -> res (bool * Heap)) : Prop :=
  forall h x h', f h x = Ok (true, h') ->
    prel nobody h h' /\ marked h' x /\ new_closed h h'.

Lemma prel_refl E h : prel E h h.
Proof.
  unfold prel. split_and!; auto.
  - intros x o Hx. exists o. split_and!; auto.
  - intros p po Hp. exists po. auto.
Qed.

Lemma prel_trans E h1 h2 h3 : prel E h1 h2 -> prel E h2 h3 -> prel E h1 h3.
Proof.
  intros (L1 & M1 & O1 & P1) (L2 & M2 & O2 & P2). unfold prel. split_and!; try congruence.
  - intros x o Hx. destruct (O1 x o Hx) as (o' & Hx' & T1 & R1 & V1).
    destruct (O2 x o' Hx') as (o'' & Hx'' & T2 & R2 & V2).
    exists o''. split_and!; auto; [congruence |].
    intros Hf. destruct (V2 Hf) as [Hf' V2']. destruct (V1 Hf') as [Hf0 V1'].
    split; [exact Hf0 |].
    destruct V1' as [E1 | [N1 | X1]]; [| | auto].
    + destruct V2' as [E2 | [(N2 & N3 & N4) | X2]]; [left; congruence | | auto].
      right. left. split_and!; [intros Hg; apply N2, R1, Hg | exact N3 | congruence].
    + destruct N1 as (N1 & N2 & N3). right. left. split_and!; auto.
  - intros p po Hp. destruct (P1 p po Hp) as (po' & Hp' & S1).
    destruct (P2 p po' Hp') as (po'' & Hp'' & S2).
    exists po''. split; [exact Hp'' |].
    intros Hf. destruct (S2 Hf) as (Hf' & E2 & T2). destruct (S1 Hf') as (Hf0 & E1 & T1).
    split_and!; [exact Hf0 | congruence | congruence].
Qed.

Lemma prel_weaken (E E' : addr -> Prop) h h' :
  (forall x, E x -> E' x) -> prel E h h' -> prel E' h h'.
Proof.
  intros HE (L & M & O & P). unfold prel. split_and!; auto.
  intros x o Hx. destruct (O x o Hx) as (o' & Hx' & T & R & V).
  exists o'. split_and!; auto. intros Hf. destruct (V Hf) as [F [A | [B | C]]]; auto.
Qed.

(** An exempted container that was not marked and now is needs no
    exemption. *)
Lemma prel_drop E h h' :
  (forall x o, E x -> objs h !! x = Some o ->
     recurse o <> g /\ takes_split (type o) = true) ->
  (forall x, E x -> marked h' x) ->
  prel E h h' -> prel nobody h h'.
Proof.
  intros HE HM (L & M & O & P). unfold prel. split_and!; auto.
  intros x o Hx. destruct (O x o Hx) as (o' & Hx' & T & R & V).
  exists o'. split_and!; auto. intros Hf. destruct (V Hf) as [F [A | [B | C]]]; auto.
  split; [exact F |]. right. left. destruct (HE x o C Hx) as [H1 H2].
  destruct (HM x C) as (o2 & Hx2 & Hg2). assert (o2 = o') by congruence. subst o2.
  auto.
Qed.

Lemma prel_frel E h h' : frel h h' -> prel E h h'.
Proof.
  intros (L & M & O & P). unfold prel. split_and!; auto.
  - intros x o Hx. destruct (O x o Hx) as (o' & Hx' & [(T & _ & R & _) Fr]).
    exists o'. split_and!; auto; [congruence |].
    intros Hf. destruct (Fr Hf) as [n ->]. simpl in Hf. split; [exact Hf | left; reflexivity].
  - intros p po Hp. destruct (P p po Hp) as (po' & Hp' & [T Fr]).
    exists po'. split; [exact Hp' |].
    intros Hf. destruct (Fr Hf) as [n ->]. simpl in Hf. split_and!; [exact Hf | |];
      reflexivity.
Qed.

Lemma prel_put_obj E h a o o' :
  objs h !! a = Some o -> type o' = type o -> (recurse o = g -> recurse o' = g) ->
  (freed o' = false ->
     freed o = false
     /\ (val o' = val o
         \/ (recurse o <> g /\ recurse o' = g /\ takes_split (type o) = true)
         \/ E a)) ->
  prel E h (put_obj h a o').
Proof.
  intros Ha T R V.
  assert (Hlt : (a < length (objs h))%nat) by (eapply lookup_lt_Some; eauto).
  unfold prel. simpl. rewrite length_insert. split_and!; auto.
  - intros x ox Hx. destruct (decide (a = x)) as [->|Hne].
    + rewrite list_lookup_insert_eq by exact Hlt.
      assert (ox = o) by congruence. subst ox. exists o'. split_and!; auto.
    + rewrite list_lookup_insert_ne by exact Hne. exists ox. split_and!; auto.
  - intros p po Hp. exists po. auto.
Qed.

Lemma marked_prel E h h' x : prel E h h' -> marked h x -> marked h' x.
Proof.
  intros (_ & _ & O & _) (o & Hx & Hg).
  destruct (O x o Hx) as (o' & Hx' & _ & R & _). exists o'. auto.
Qed.

Lemma prel_back E h h' x o' :
  prel E h h' -> objs h' !! x = Some o' ->
  exists o, objs h !! x = Some o /\ type o' = type o
    /\ (recurse o = g -> recurse o' = g)
    /\ (freed o' = false ->
          freed o = false
          /\ (val o' = val o
              \/ (recurse o <> g /\ recurse o' = g /\ takes_split (type o) = true)
              \/ E x)).
Proof.
  intros (L & _ & O & _) Hx'.
  assert (Hlt : (x < length (objs h))%nat) by (rewrite <- L; eapply lookup_lt_Some; eauto).
  destruct (lookup_lt_is_Some_2 _ _ Hlt) as [o Hx].
  destruct (O x o Hx) as (o2 & Hx2 & T & R & V).
  assert (o2 = o') by congruence. subst o2. exists o. auto.
Qed.

Lemma oper_kids_prel E h h' p c :
  prel E h h' -> c ∈ oper_kids h' p -> c ∈ oper_kids h p.
Proof.
  intros (_ & M & _ & P) Hc. unfold oper_kids in *.
  destruct (opers h' !! p) as [po'|] eqn:Hp'; [|inversion Hc].
  assert (Hlt : (p < length (opers h))%nat) by (rewrite <- M; eapply lookup_lt_Some; eauto).
  destruct (lookup_lt_is_Some_2 _ _ Hlt) as [po Hp]. rewrite Hp.
  destruct (P p po Hp) as (po2 & Hp2 & S).
  assert (po2 = po') by congruence. subst po2.
  destruct (op_freed po') eqn:Hf; [inversion Hc |].
  destruct (S eq_refl) as (Hf0 & Hs & _). rewrite Hf0. rewrite <- Hs. exact Hc.
Qed.

(** The payload decides where the pass descends. *)
Lemma kids_prel E h h' o o' c :
  prel E h h' -> type o' = type o -> val o' = val o ->
  c ∈ kids h' o' -> c ∈ kids h o.
Proof.
  intros Hp T V Hc. unfold kids, py_iter, py_what in *. rewrite T, V in Hc.
  destruct (type o); try exact Hc.
  apply list_elem_of_bind in Hc as (p & Hc & Hin).
  apply list_elem_of_bind. exists p. split; [|exact Hin].
  eapply oper_kids_prel; eauto.
Qed.

Lemma is_split_prel E h h' x : prel E h h' -> is_split h' x = is_split h x.
Proof.
  intros (L & _ & O & _). unfold is_split.
  destruct (objs h !! x) as [o|] eqn:Hx.
  - destruct (O x o Hx) as (o' & Hx' & T & _). rewrite Hx', T. reflexivity.
  - apply lookup_ge_None in Hx. rewrite <- L in Hx. apply lookup_ge_None in Hx.
    rewrite Hx. reflexivity.
Qed.

Lemma trimmed_prel E h h' l : prel E h h' -> trimmed h' l = trimmed h l.
Proof.
  intros P. unfold trimmed. destruct (r_list_pop l) as [[x0 l']|]; [|reflexivity].
  rewrite (is_split_prel E h h' x0 P). reflexivity.
Qed.

Lemma closed_prel E h0 h h' x :
  prel E h h' -> ~ E x -> marked h x -> closed h0 h x -> closed h0 h' x.
Proof.
  intros Hp HE (om & Hm & Hg) Hc o' Hd. apply deref_Ok in Hd as [Hx' Hf'].
  destruct (prel_back _ _ _ _ _ Hp Hx') as (o & Hx & T & R & V).
  assert (o = om) by congruence. subst om.
  destruct (V Hf') as [Hf Hv]. destruct Hv as [Hv | [[Hv _] | Hv]]; [|contradiction | contradiction].
  destruct (Hc o) as [K S]; [apply deref_Ok; auto |]. split.
  - intros c Hin. destruct (K c) as [-> | Mc]; [eapply kids_prel; eauto | auto |].
    right. eapply marked_prel; eauto.
  - rewrite T. intros Ht. destruct (S Ht) as (o0 & l0 & H0 & Hl0 & Hl).
    exists o0, l0. split_and!; auto. unfold py_iter in *. rewrite Hv. exact Hl.
Qed.

(** The same, seen from an earlier heap in which the cell held the same. *)
Lemma closed_rebase E E' h0 h1 h x :
  prel E h0 h1 -> prel E' h1 h ->
  (forall o0 o1, objs h0 !! x = Some o0 -> objs h1 !! x = Some o1 ->
     freed o1 = false -> val o1 = val o0) ->
  closed h1 h x -> closed h0 h x.
Proof.
  intros P01 P1 V C o Hd. destruct (C o Hd) as [K S]. split; [exact K |].
  intros Ht. destruct (S Ht) as (o1 & l1 & H1 & Hl1 & Hl).
  destruct (prel_back _ _ _ _ _ P01 H1) as (o0 & H0 & _).
  apply deref_Ok in Hd as [Hx Hf].
  destruct (prel_back _ _ _ _ _ P1 Hx) as (o1' & H1' & _ & _ & V1).
  assert (o1' = o1) by congruence. subst o1'. destruct (V1 Hf) as [Hf1 _].
  exists o0, l1. split_and!; [exact H0 | |].
  - unfold py_iter in *. rewrite <- (V o0 o1 H0 H1 Hf1). exact Hl1.
  - rewrite <- (trimmed_prel _ _ _ l1 P01). exact Hl.
Qed.

Lemma marked_dec h x : marked h x \/ ~ marked h x.
Proof.
  unfold marked. destruct (objs h !! x) as [o|] eqn:E.
  - destruct (decide (recurse o = g)) as [Hg | Hg].
    + left. eauto.
    + right. intros (o' & Ho' & Hg'). congruence.
  - right. intros (o' & Ho' & _). discriminate.
Qed.

Lemma new_closed_trans h1 h2 h3 :
  prel nobody h1 h2 -> prel nobody h2 h3 ->
  new_closed h1 h2 -> new_closed h2 h3 -> new_closed h1 h3.
Proof.
  intros P12 P23 N12 N23 y M3 U1.
  destruct (marked_dec h2 y) as [M2 | U2].
  - eapply closed_prel; [exact P23 | intros [] | exact M2 | exact (N12 y M2 U1)].
  - eapply closed_rebase; [exact P12 | exact P23 | | exact (N23 y M3 U2)].
    intros o1 o2 H1 H2 Hf2. destruct P12 as (_ & _ & O & _).
    destruct (O y o1 H1) as (o2' & H2' & _ & _ & V).
    assert (o2' = o2) by congruence. subst o2'.
    destruct (V Hf2) as [_ [Hv | [(_ & Hg & _) | []]]]; [exact Hv |].
    exfalso. apply U2. exists o2. auto.
Qed.

Lemma new_closed_refl h : new_closed h h.
Proof. intros y M U. contradiction. Qed.

Lemma split_iter_recures_ok f l :
  pass_ok f -> forall h h',
  split_iter_recures f h l = Ok (true, h') ->
  prel nobody h h' /\ (forall c, c ∈ l -> marked h' c) /\ new_closed h h'.
Proof.
  intros Hf. induction l as [|x l IH]; intros h h' H; simpl in H.
  - injection H as <-. split_and!; [apply prel_refl | | apply new_closed_refl].
    intros c Hc. inversion Hc.
  - apply bind_Ok in H as ([ok h1] & E1 & H).
    destruct ok; [|discriminate].
    destruct (Hf _ _ _ E1) as (P1 & M1 & N1).
    destruct (IH _ _ H) as (P2 & M2 & N2).
    split_and!.
    + eapply prel_trans; eauto.
    + intros c Hc. apply elem_of_cons in Hc as [-> | Hc]; [|auto].
      eapply marked_prel; eauto.
    + exact (new_closed_trans _ _ _ P1 P2 N1 N2).
Qed.

Lemma split_what_recures_ok f l :
  pass_ok f -> forall h h',
  split_what_recures f h l = Ok (true, h') ->
  prel nobody h h'
  /\ (forall p c, p ∈ l -> c ∈ oper_kids h' p -> marked h' c)
  /\ new_closed h h'.
Proof.
  intros Hf. induction l as [|p l IH]; intros h h' H; simpl in H.
  - injection H as <-. split_and!; [apply prel_refl | | apply new_closed_refl].
    intros p c Hc. inversion Hc.
  - apply bind_Ok in H as (po & Ep & H). apply oderef_Ok in Ep as [Hp Hfr].
    apply bind_Ok in H as ([ok h1] & E1 & H).
    destruct ok; [|discriminate].
    destruct (split_iter_recures_ok f _ Hf _ _ E1) as (P1 & M1 & N1).
    destruct (IH _ _ H) as (P2 & M2 & N2).
    pose proof (prel_trans _ _ _ _ P1 P2) as P12.
    split_and!.
    + exact P12.
    + intros q c Hq Hc. apply elem_of_cons in Hq as [-> | Hq]; [|exact (M2 q c Hq Hc)].
      eapply marked_prel; [exact P2 |]. apply M1.
      apply (oper_kids_prel _ _ _ _ _ P12) in Hc.
      unfold oper_kids in Hc. rewrite Hp, Hfr in Hc. exact Hc.
    + exact (new_closed_trans _ _ _ P1 P2 N1 N2).
Qed.

Definition keeps_marks (h h' : Heap) : Prop := forall x, marked h' x -> marked h x.

Lemma keeps_marks_put h a o o' :
  objs h !! a = Some o -> recurse o' = recurse o -> keeps_marks h (put_obj h a o').
Proof.
  intros Ha R x (ox & Hx & Hg). simpl in Hx.
  apply list_lookup_insert_Some in Hx as [(-> & <- & _) | (Hne & Hx)].
  - exists o. split; [exact Ha | congruence].
  - exists ox. auto.
Qed.

Lemma keeps_marks_frel h h' : frel h h' -> keeps_marks h h'.
Proof.
  intros (L & _ & O & _) x (o' & Hx' & Hg).
  assert (Hlt : (x < length (objs h))%nat) by (rewrite <- L; eapply lookup_lt_Some; eauto).
  destruct (lookup_lt_is_Some_2 _ _ Hlt) as [o Hx].
  destruct (O x o Hx) as (o2 & Hx2 & [(_ & _ & R & _) _]).
  assert (o2 = o') by congruence. subst o2. exists o. split; [exact Hx | congruence].
Qed.

Lemma itter_add_split_marks fuel h c b h' :
  itter_add_split fuel h c split = Ok (b, h') -> keeps_marks h h'.
Proof.
  intros H. unfold itter_add_split in H.
  apply bind_Ok in H as (co & Hd & H). apply deref_Ok in Hd as [Hc Hf].
  destruct (py_iter co) as [l0|]; [|injection H as <- <-; intros x Hx; exact Hx].
  apply bind_Ok in H as (h1 & E1 & H).
  assert (K1 : keeps_marks h h1).
  { destruct (r_list_pop l0) as [[x0 l']|]; [|injection E1 as <-; intros x Hx; exact Hx].
    apply bind_Ok in E1 as (xo & Edx & E1).
    case_bool_decide; [|injection E1 as <-; intros x Hx; exact Hx].
    pose proof (keeps_marks_frel _ _ (py_obj_free_frel _ _ _ _ E1)) as K.
    intros x Hx.
    eapply (keeps_marks_put h c co); [exact Hc | | apply K, Hx]. reflexivity. }
  apply bind_Ok in H as ([ok h2] & E2 & H).
  assert (K2 : keeps_marks h1 h2).
  { unfold iter_push in E2. apply bind_Ok in E2 as (c1 & Ed1 & E2).
    apply deref_Ok in Ed1 as [Hc1 _].
    destruct (py_iter c1); injection E2 as <- <-; [|intros x Hx; exact Hx].
    eapply keeps_marks_put; [exact Hc1 | reflexivity]. }
  destruct ok.
  - apply bind_Ok in H as (h3 & E3 & H). injection H as <- <-.
    unfold incref in E3. apply bind_Ok in E3 as (so & Eds & E3). injection E3 as <-.
    apply deref_Ok in Eds as [Hs _].
    intros x Hx. apply K1, K2.
    exact (keeps_marks_put h2 split so (set_refcnt (refcnt so + 1) so) Hs eq_refl x Hx).
  - injection H as <- <-. intros x Hx. apply K1, K2, Hx.
Qed.

(** itter_add_split on a live container: the Split is the last element,
    after what was there, less a trailing Split. *)
Lemma itter_add_split_spec fuel h c h' co l0 :
  deref h c = Ok co -> py_iter co = Some l0 ->
  itter_add_split fuel h c split = Ok (true, h') ->
  prel (fun x => x = c) h h'
  /\ exists co',
       objs h' !! c = Some co' /\ py_iter co' = Some (trimmed h l0 ++ [split]).
Proof.
  intros Hd Hl H. unfold itter_add_split in H. rewrite Hd in H. cbn [mbind res_bind] in H.
  rewrite Hl in H. pose proof Hd as Hd0. apply deref_Ok in Hd as [Hc Hf].
  assert (Hlt : (c < length (objs h))%nat) by (eapply lookup_lt_Some; eauto).
  apply bind_Ok in H as (h1 & E1 & H).
  assert (S1 : prel (fun x => x = c) h h1
               /\ forall c1, deref h1 c = Ok c1 -> py_iter c1 = Some (trimmed h l0)).
  { unfold trimmed.
    destruct (r_list_pop l0) as [[x0 l']|] eqn:Ep.
    2:{ injection E1 as <-. split; [apply prel_refl |]. intros c1 Hc1. congruence. }
    apply bind_Ok in E1 as (xo & Edx & E1). apply deref_Ok in Edx as [Hx0 _].
    unfold is_split. rewrite Hx0.
    case_bool_decide as Etx.
    2:{ injection E1 as <-. split; [apply prel_refl |]. intros c1 Hc1. congruence. }
    set (h0 := put_obj h c (set_val (V_iter (Some l')) co)) in *.
    assert (P0 : prel (fun x => x = c) h h0).
    { apply prel_put_obj with (o := co); auto. }
    pose proof (py_obj_free_frel _ _ _ _ E1) as F1.
    split; [eapply prel_trans; [exact P0 | apply prel_frel, F1] |].
    intros c1 Hc1. apply deref_Ok in Hc1 as [Hc1 Hf1].
    destruct F1 as (_ & _ & O & _).
    destruct (O c (set_val (V_iter (Some l')) co)) as (c2 & Hc2 & [_ Fr]).
    { unfold h0. simpl. apply list_lookup_insert_eq. exact Hlt. }
    assert (c2 = c1) by congruence. subst c2.
    destruct (Fr Hf1) as [n ->]. reflexivity. }
  destruct S1 as (P1 & Hc1).
  apply bind_Ok in H as ([ok h2] & E2 & H). destruct ok; [|discriminate].
  apply bind_Ok in H as (h3 & E3 & H). injection H as <-.
  unfold iter_push in E2. apply bind_Ok in E2 as (c1 & Ed1 & E2).
  rewrite (Hc1 _ Ed1) in E2. injection E2 as <-.
  pose proof Ed1 as Ed1'. apply deref_Ok in Ed1' as [Hc1' Hf1'].
  set (c2 := set_val (V_iter (Some (trimmed h l0 ++ [split]))) c1) in *.
  assert (P2 : prel (fun x => x = c) h1 (put_obj h1 c c2)).
  { apply prel_put_obj with (o := c1); auto. }
  unfold incref in E3. apply bind_Ok in E3 as (so & Eds & E3). injection E3 as <-.
  apply deref_Ok in Eds as [Hs Hfs].
  assert (P3 : prel (fun x => x = c) (put_obj h1 c c2)
                 (put_obj (put_obj h1 c c2) split (set_refcnt (refcnt so + 1) so))).
  { apply prel_put_obj with (o := so); auto. }
  split; [eapply prel_trans; [exact P1 | eapply prel_trans; [exact P2 | exact P3]] |].
  assert (Hlt1 : (c < length (objs h1))%nat) by (eapply lookup_lt_Some; eauto).
  destruct (decide (split = c)) as [Heq | Hne].
  - exists (set_refcnt (refcnt so + 1) so). simpl. split.
    + rewrite Heq. apply list_lookup_insert_eq. rewrite length_insert. exact Hlt1.
    + simpl in Hs. rewrite Heq in Hs. rewrite list_lookup_insert_eq in Hs by exact Hlt1.
      injection Hs as <-. reflexivity.
  - exists c2. simpl. split; [|reflexivity].
    rewrite list_lookup_insert_ne by exact Hne. apply list_lookup_insert_eq. exact Hlt1.
Qed.

Lemma marked_put_recurse h a o x :
  objs h !! a = Some o ->
  marked (put_obj h a (set_recurse g o)) x -> x = a \/ marked h x.
Proof.
  intros Ha (ox & Hx & Hg). simpl in Hx.
  apply list_lookup_insert_Some in Hx as [(-> & _ & _) | (Hne & Hx)]; [auto |].
  right. exists ox. auto.
Qed.

(** add_splits, on an object of the pass's generation or not. *)
Lemma add_splits_ok fuel : pass_ok (fun h x => add_splits fuel g h x split).
Proof.
  induction fuel as [|n IH]; intros h obj h' H; simpl in H; [discriminate |].
  apply bind_Ok in H as (o & Ed & H). pose proof Ed as Ed0.
  apply deref_Ok in Ed as [Ha Hfr].
  assert (Hlt : (obj < length (objs h))%nat) by (eapply lookup_lt_Some; eauto).
  case_bool_decide as Hg.
  { injection H as <-. split_and!; [apply prel_refl | exists o; auto | apply new_closed_refl]. }
  set (h1 := put_obj h obj (set_recurse g o)) in *.
  assert (P01 : prel nobody h h1).
  { apply prel_put_obj with (o := o); auto. }
  assert (Hm1 : marked h1 obj).
  { exists (set_recurse g o). split; [|reflexivity]. simpl. apply list_lookup_insert_eq, Hlt. }
  assert (Ha1 : objs h1 !! obj = Some (set_recurse g o)).
  { simpl. apply list_lookup_insert_eq, Hlt. }
  (* an object below which there is nothing *)
  assert (Leaf : kids h1 (set_recurse g o) = [] -> takes_split (type o) = false ->
            prel nobody h h1 /\ marked h1 obj /\ new_closed h h1).
  { intros Hk Ht. split_and!; auto. intros y My Uy.
    destruct (marked_put_recurse _ _ _ _ Ha My) as [-> | My0]; [|contradiction].
    intros o1 Hd1. apply deref_Ok in Hd1 as [Hd1 _].
    assert (o1 = set_recurse g o) by congruence. subst o1. split.
    - intros c Hc. rewrite Hk in Hc. inversion Hc.
    - simpl. rewrite Ht. discriminate. }
  (* what is new after the descent, the object apart *)
  assert (Rest : forall h2 h3 (E : addr -> Prop),
            prel nobody h1 h2 -> new_closed h1 h2 -> prel E h2 h3 ->
            keeps_marks h2 h3 ->
            (forall x, E x -> x = obj) -> closed h h3 obj -> new_closed h h3).
  { intros h2 h3 E P12 N12 P23 K23 HE Cobj y My Uy.
    destruct (decide (y = obj)) as [-> | Hne]; [exact Cobj |].
    pose proof (K23 _ My) as M2.
    eapply (closed_rebase nobody E h h1);
      [exact P01
      | eapply prel_trans; [eapply prel_weaken; [|exact P12]; intros x [] | exact P23]
      | |].
    { intros o0 o1 H0 H1 _. unfold h1 in H1. simpl in H1.
      rewrite list_lookup_insert_ne in H1 by (intros Hx; apply Hne; symmetry; exact Hx).
      congruence. }
    eapply closed_prel; [exact P23 | intros HEy; apply Hne, HE, HEy | exact M2 |].
    apply N12; [exact M2 |]. intros M1.
    destruct (marked_put_recurse _ _ _ _ Ha M1) as [-> | M0]; contradiction. }
  assert (Iter :
    (forall h0 ox, type ox = type o -> kids h0 ox = default [] (py_iter ox)) ->
    (type o = PY_TUPLE \/ takes_split (type o) = true) ->
    ('(ok, h) ← split_iter_recures (fun h x => add_splits n g h x split)
                  h1 (default [] (py_iter o));
     if ok : bool then
       o' ← deref h obj;
       if bool_decide (type o' = PY_TUPLE) then Ok (true, h)
       else itter_add_split n h obj split
     else Ok (false, h)) = Ok (true, h') ->
    prel nobody h h' /\ marked h' obj /\ new_closed h h').
  { intros Hkids Hty H1. apply bind_Ok in H1 as ([ok h2] & E1 & H1).
    destruct ok; [|discriminate].
    destruct (split_iter_recures_ok _ _ IH _ _ E1) as (P12 & M12 & N12).
    apply bind_Ok in H1 as (o2 & Ed2 & H1). pose proof Ed2 as Ed2'.
    apply deref_Ok in Ed2' as [Ha2 Hf2].
    destruct (prel_back _ _ _ _ _ P12 Ha2) as (o1 & Ha1' & T2 & R2 & V2).
    assert (o1 = set_recurse g o) by congruence. subst o1.
    destruct (V2 Hf2) as [_ [Hv2 | [[Hv2 _] | []]]]; [|exfalso; apply Hv2; reflexivity].
    simpl in T2, Hv2.
    assert (Hi2 : py_iter o2 = py_iter o) by (unfold py_iter; rewrite Hv2; reflexivity).
    pose proof (prel_trans _ _ _ _ P01 P12) as P02.
    case_bool_decide as Htup.
    - (* a tuple: no Split *)
      injection H1 as <-. split_and!; [exact P02 | exact (marked_prel _ _ _ _ P12 Hm1) |].
      apply (Rest h2 h2 nobody P12 N12 (prel_refl _ _)); [intros x Hx; exact Hx | intros x [] |].
      intros o3 Hd3. assert (o3 = o2) by congruence. subst o3. split.
      + intros c Hc. rewrite (Hkids h2 o2 T2), Hi2 in Hc. right. apply M12, Hc.
      + rewrite Htup. discriminate.
    - destruct (py_iter o2) as [l0|] eqn:El2.
      2:{ unfold itter_add_split in H1. rewrite Ed2 in H1. cbn [mbind res_bind] in H1.
          rewrite El2 in H1. discriminate. }
      destruct (itter_add_split_spec _ _ _ _ _ _ Ed2 El2 H1) as (P23 & o3 & Ha3 & Hi3).
      pose proof (itter_add_split_marks _ _ _ _ _ H1) as K23.
      split_and!.
      + eapply (prel_drop (fun x => x = obj)).
        * intros x ox -> Hox. assert (ox = o) by congruence. subst ox.
          split; [exact Hg |]. destruct Hty as [Hty | Hty]; [congruence | exact Hty].
        * intros x ->. eapply marked_prel; [exact P23 |].
          exact (marked_prel _ _ _ _ P12 Hm1).
        * eapply prel_trans; [eapply prel_weaken; [|exact P02]; intros x [] | exact P23].
      + eapply marked_prel; [exact P23 |]. exact (marked_prel _ _ _ _ P12 Hm1).
      + apply (Rest h2 h' _ P12 N12 P23 K23); [intros x Hx; exact Hx |].
        intros o4 Hd4. apply deref_Ok in Hd4 as [Ha4 _].
        assert (o4 = o3) by congruence. subst o4.
        destruct (prel_back _ _ _ _ _ P23 Ha3) as (o2' & Ha2' & T3 & _).
        assert (o2' = o2) by congruence. subst o2'.
        assert (T30 : type o3 = type o) by congruence.
        split.
        * intros c Hc. rewrite (Hkids h' o3 T30), Hi3 in Hc. simpl in Hc.
          apply elem_of_app in Hc as [Hc | Hc].
          -- right. eapply marked_prel; [exact P23 |]. apply M12.
             rewrite <- Hi2. simpl. eapply trimmed_sub; eauto.
          -- left. apply list_elem_of_singleton in Hc. exact Hc.
        * intros _. exists o, l0. split_and!; [exact Ha | congruence |].
          rewrite Hi3. rewrite (trimmed_prel _ _ _ l0 P02). reflexivity. }
  destruct (type o) eqn:Et;
    try (injection H as <-; apply Leaf; [unfold kids; simpl; rewrite Et; reflexivity | reflexivity]);
    try (apply Iter; [intros h0 ox Hox; unfold kids; rewrite Hox; reflexivity
                     | auto | exact H]).
  (* a What *)
  destruct (split_what_recures_ok _ _ IH _ _ H) as (P12 & M12 & N12).
  split_and!; [exact (prel_trans _ _ _ _ P01 P12) | exact (marked_prel _ _ _ _ P12 Hm1) |].
  apply (Rest h' h' nobody P12 N12 (prel_refl _ _)); [intros x Hx; exact Hx | intros x [] |].
  intros o2 Hd2. apply deref_Ok in Hd2 as [Ha2 Hf2].
  destruct (prel_back _ _ _ _ _ P12 Ha2) as (o1 & Ha1' & T2 & R2 & V2).
  assert (o1 = set_recurse g o) by congruence. subst o1.
  destruct (V2 Hf2) as [_ [Hv2 | [[Hv2 _] | []]]]; [|exfalso; apply Hv2; reflexivity].
  simpl in T2, Hv2. split.
  - intros c Hc. unfold kids in Hc. rewrite T2, Et in Hc.
    apply list_elem_of_bind in Hc as (p & Hc & Hin). right.
    apply (M12 p c); [|exact Hc]. unfold py_what in *. rewrite Hv2 in Hin. exact Hin.
  - rewrite T2, Et. discriminate.
Qed.

(** Once everything marked is closed, what can be reached from a marked
    object is marked, or is the Split. *)
Lemma reach_marked h0 h a :
  (forall y, marked h y -> closed h0 h y) -> marked h a ->
  (forall so, objs h !! split = Some so -> type so = PY_SPLIT) ->
  forall b, reach h a b -> b = split \/ marked h b.
Proof.
  intros Hc Ma Hs b R. induction R as [|b o c R IH Hd Hin]; [auto |].
  destruct IH as [-> | Mb].
  - apply deref_Ok in Hd as [Hd _]. unfold kids in Hin. rewrite (Hs _ Hd) in Hin.
    inversion Hin.
  - destruct (Hc b Mb o Hd) as [K _]. auto.
Qed.

Lemma reach_ends_with_split h0 h a b o :
  (forall y, marked h y -> closed h0 h y) -> marked h a ->
  (forall so, objs h !! split = Some so -> type so = PY_SPLIT) ->
  reach h a b -> deref h b = Ok o -> takes_split (type o) = true ->
  exists o0 l0, objs h0 !! b = Some o0 /\ py_iter o0 = Some l0
    /\ py_iter o = Some (trimmed h0 l0 ++ [split]).
Proof.
  intros Hc Ma Hs R Hd Ht.
  destruct (reach_marked h0 h a Hc Ma Hs b R) as [-> | Mb].
  - pose proof Hd as Hd'. apply deref_Ok in Hd' as [Hd' _].
    rewrite (Hs _ Hd') in Ht. discriminate.
  - destruct (Hc b Mb o Hd) as [_ S]. auto.
Qed.

End SplitPass.

(** split_reduce, when the generation it takes is new: the Split is the cell
    it allocates, it points to the record, every live List, Set, FrozenSet
    and Dict that can be reached from the argument holds what it held, less
    a trailing Split, and then the Split; a live cell of another type holds
    what it held, and a live record has the stack it had. *)
Lemma split_reduce_spec fuel pvm pop pvm' po arg :
  pvm_recurse pvm + 1 <> 0 ->
  (forall a o, objs (heap pvm) !! a = Some o -> recurse o <> pvm_recurse pvm + 1) ->
  oderef (heap pvm) pop = Ok po -> last (default [] (op_stack po)) = Some arg ->
  split_reduce fuel pvm pop = Ok (true, pvm') ->
  (forall so, deref (heap pvm') (length (objs (heap pvm))) = Ok so ->
     type so = PY_SPLIT /\ reduce so = Some pop)
  /\ (forall b o, reach (heap pvm') arg b -> deref (heap pvm') b = Ok o ->
        takes_split (type o) = true ->
        exists o0 l0, objs (heap pvm) !! b = Some o0 /\ py_iter o0 = Some l0
          /\ py_iter o = Some (trimmed (heap pvm') l0 ++ [length (objs (heap pvm))]))
  /\ (forall b o o0, objs (heap pvm') !! b = Some o ->
        objs (heap pvm) !! b = Some o0 ->
        type o = type o0
        /\ (freed o = false -> takes_split (type o) = false -> val o = val o0))
  /\ (forall p po' po0, oderef (heap pvm') p = Ok po' ->
        opers (heap pvm) !! p = Some po0 ->
        op_stack po' = op_stack po0 /\ op po' = op po0)
  /\ length (objs (heap pvm')) = S (length (objs (heap pvm)))
  /\ pvm_recurse pvm' = pvm_recurse pvm + 1.
Proof.
  intros Hg0 Hfresh Hpo Harg H. unfold split_reduce, alloc_obj in H.
  set (g := pvm_recurse pvm + 1) in *. set (split := length (objs (heap pvm))) in *.
  set (h0 := mkHeap (objs (heap pvm) ++ [py_obj_new pvm PY_SPLIT]) (opers (heap pvm))) in *.
  assert (Hpo0 : oderef h0 pop = Ok po) by exact Hpo.
  rewrite Hpo0 in H. cbn [mbind res_bind] in H. rewrite Harg in H.
  apply bind_Ok in H as ([ret h3] & E3 & H).
  apply bind_Ok in H as (h4 & E4 & H). injection H as -> <-.
  cbn [pvm_recurse with_recurse heap with_heap] in *. fold g in E3.
  set (S1 := set_val (V_split (Some pop)) (py_obj_new pvm PY_SPLIT)) in *.
  set (h2 := put_oper (put_obj h0 split S1) pop (set_op_refcnt (op_refcnt po + 1) po)) in *.
  assert (Hs2 : objs h2 !! split = Some S1).
  { unfold h2, h0, split. simpl. rewrite insert_snoc.
    rewrite lookup_app_r by lia. rewrite Nat.sub_diag. reflexivity. }
  assert (Old2 : forall b o0, objs (heap pvm) !! b = Some o0 -> objs h2 !! b = Some o0).
  { intros b o0 Hb. unfold h2, h0, split. simpl. rewrite insert_snoc.
    apply lookup_app_l_Some. exact Hb. }
  assert (Back2 : forall b o2, objs h2 !! b = Some o2 -> b <> split ->
            objs (heap pvm) !! b = Some o2).
  { intros b o2 Hb Hne. unfold h2, h0, split in Hb. simpl in Hb.
    rewrite insert_snoc in Hb.
    apply lookup_app_Some in Hb as [Hb | [Hge Hb]]; [exact Hb |].
    destruct (b - length (objs (heap pvm)))%nat eqn:Eb; simpl in Hb; [|discriminate].
    exfalso. apply Hne. unfold split. lia. }
  assert (Fresh2 : forall y, ~ marked g h2 y).
  { intros y (oy & Hy & Hgy). unfold h2, h0, split in Hy. simpl in Hy.
    rewrite insert_snoc in Hy. apply lookup_app_Some in Hy as [Hy | [_ Hy]].
    - exact (Hfresh _ _ Hy Hgy).
    - destruct (y - length (objs (heap pvm)))%nat; simpl in Hy; [|discriminate].
      injection Hy as <-. simpl in Hgy. apply Hg0. symmetry. exact Hgy. }
  destruct (add_splits_ok g split fuel _ _ _ E3) as (P23 & M3 & N3).
  pose proof (py_obj_free_frel _ _ _ _ E4) as F34.
  pose proof (prel_frel g nobody _ _ F34) as P34.
  pose proof (prel_trans _ _ _ _ _ P23 P34) as P24.
  assert (C4 : forall y, marked g h4 y -> closed g split h2 h4 y).
  { intros y My. pose proof (keeps_marks_frel g _ _ F34 y My) as My3.
    eapply closed_prel; [exact P34 | intros [] | exact My3 |].
    apply N3; [exact My3 | apply Fresh2]. }
  assert (Ts : forall so, objs h4 !! split = Some so ->
            type so = PY_SPLIT /\ (freed so = false -> val so = V_split (Some pop))).
  { intros so Hso. destruct (prel_back _ _ _ _ _ _ P24 Hso) as (s2 & Hs2' & T & _ & V).
    assert (s2 = S1) by congruence. subst s2. split; [exact T |].
    intros Hf. destruct (V Hf) as [_ [Hv | [(_ & _ & Hv) | []]]]; [exact Hv | discriminate]. }
  split_and!.
  - intros so Hd. apply deref_Ok in Hd as [Hd Hf]. destruct (Ts so Hd) as [T V].
    split; [exact T |]. unfold reduce. rewrite (V Hf). reflexivity.
  - intros b o R Hd Ht.
    destruct (reach_ends_with_split g split h2 h4 arg b o) as (o0 & l0 & H0 & Hl0 & Hl); auto.
    + eapply marked_prel; [exact P34 | exact M3].
    + intros so Hso. apply (Ts so Hso).
    + exists o0, l0. split_and!; [|exact Hl0 |].
      * apply Back2; [exact H0 |]. intros ->. rewrite Hs2 in H0. injection H0 as <-.
        apply deref_Ok in Hd as [Hd _]. destruct (Ts o Hd) as [T _].
        rewrite T in Ht. discriminate.
      * rewrite (trimmed_prel g _ _ _ l0 P24). exact Hl.
  - intros b o o0 Hd H0.
    destruct (prel_back _ _ _ _ _ _ P24 Hd) as (o2 & H2 & T & _ & V).
    assert (o2 = o0) by (pose proof (Old2 _ _ H0); congruence). subst o2.
    split; [exact T |]. intros Hf Ht.
    destruct (V Hf) as [_ [Hv | [(_ & _ & Hv) | []]]]; [exact Hv |].
    rewrite T in Ht. congruence.
  - intros p po' po0 Hd H0. apply oderef_Ok in Hd as [Hd Hf].
    destruct P24 as (_ & _ & _ & PP).
    assert (exists po2, opers h2 !! p = Some po2 /\ op_stack po2 = op_stack po0
                        /\ op po2 = op po0)
      as (po2 & H2 & Hs & Ho).
    { unfold h2, h0. simpl. destruct (decide (p = pop)) as [-> | Hne].
      - apply oderef_Ok in Hpo as [Hpo _]. assert (po0 = po) by congruence. subst po0.
        eexists. split; [apply list_lookup_insert_eq; eapply lookup_lt_Some; eauto |].
        split; reflexivity.
      - exists po0. split; [|split; reflexivity].
        rewrite list_lookup_insert_ne by (intros Hx; apply Hne; symmetry; exact Hx).
        exact H0. }
    destruct (PP p po2 H2) as (po4 & H4 & V). assert (po4 = po') by congruence. subst po4.
    destruct (V Hf) as (_ & Hv & Hop). split; congruence.
  - destruct P24 as (L & _). rewrite L. unfold h2, h0. simpl.
    rewrite length_insert, length_app. simpl. lia.
  - reflexivity.
Qed.

(** None, 1, TUPLE1, TUPLE1, REDUCE, STOP: the argument of the REDUCE is the
    tuple ((1,),). *)
Definition reduce_nested : list Insn :=
  [insn OP_NONE 0 "none"; insn OP_BININT1 1 "binint1 0x1";
   insn OP_TUPLE1 0 "tuple1"; insn OP_TUPLE1 0 "tuple1";
   insn OP_REDUCE 0 "reduce"; insn OP_STOP 0 "stop"].

Definition reduce_nested_state : PMState :=
  Eval vm_compute in
    match run_pvm 8 (start_state (host reduce_nested)) reduce_nested with
    | Ok (_, s) => s
    | _ => zero_state
    end.

Lemma reduce_nested_run :
  run_pvm 8 (start_state (host reduce_nested)) reduce_nested
  = Ok (true, reduce_nested_state).
Proof. vm_compute. reflexivity. Qed.


Section Fuel.

(** *** The split pass and the releases return *)

(** How many elements of a list satisfy [f]. *)
Fixpoint cnt {A} (f : A -> bool) (l : list A) : nat :=
  match l with
  | [] => 0
  | x :: l' => ((if f x then 1 else 0) + cnt f l')%nat
  end.

Lemma cnt_app {A} (f : A -> bool) l1 l2 : cnt f (l1 ++ l2) = (cnt f l1 + cnt f l2)%nat.
Proof. induction l1 as [|x l1 IH]; simpl; [reflexivity | rewrite IH; lia]. Qed.

Lemma cnt_le {A} (f : A -> bool) l : (cnt f l <= length l)%nat.
Proof. induction l as [|x l IH]; simpl; [lia | destruct (f x); lia]. Qed.

Lemma cnt_insert {A} (f : A -> bool) l i x y :
  l !! i = Some x ->
  (cnt f (<[i:=y]> l) + (if f x then 1 else 0) = cnt f l + (if f y then 1 else 0))%nat.
Proof.
  revert i. induction l as [|z l IH]; intros i H; [discriminate |].
  destruct i as [|i]; simpl in *.
  - injection H as ->. lia.
  - specialize (IH i H). lia.
Qed.

Lemma cnt_same {A} (f : A -> bool) l : forall l',
  length l' = length l ->
  (forall i x, l !! i = Some x -> exists y, l' !! i = Some y /\ f y = f x) ->
  cnt f l' = cnt f l.
Proof.
  induction l as [|x l IH]; intros l' HL H.
  - destruct l'; [reflexivity | discriminate].
  - destruct l' as [|y l']; [discriminate |]. simpl.
    destruct (H 0%nat x eq_refl) as (y' & Hy & E). injection Hy as <-.
    rewrite E. f_equal. apply IH; [simpl in HL; lia |].
    intros i z Hz. exact (H (S i) z Hz).
Qed.

Definition some {A} (x : option A) : bool :=
  match x with Some _ => true | None => false end.

(** A cell that a release would descend from. *)
Definition payload (v : PyVal) : bool :=
  match v with
  | V_iter l => some l
  | V_what l => some l
  | V_split p => some p
  | V_func m n => some m || some n
  | _ => false
  end.

(** The cells and the records a release would descend from, counted. *)
Definition loaded (h : Heap) : nat :=
  (cnt (fun o => payload (val o)) (objs h)
   + cnt (fun po => some (op_stack po)) (opers h))%nat.

(** The objects that do not carry the generation [g]. *)
Definition unmarked (g : Z) (h : Heap) : nat :=
  cnt (fun o => bool_decide (recurse o <> g)) (objs h).


Lemma loaded_put_obj h a o o' :
  objs h !! a = Some o ->
  (loaded (put_obj h a o') + (if payload (val o) then 1 else 0)
   = loaded h + (if payload (val o') then 1 else 0))%nat.
Proof.
  intros H. unfold loaded. simpl.
  pose proof (cnt_insert (fun o => payload (val o)) _ _ _ o' H). simpl in *. lia.
Qed.

Lemma loaded_put_oper h p po po' :
  opers h !! p = Some po ->
  (loaded (put_oper h p po') + (if some (op_stack po) then 1 else 0)
   = loaded h + (if some (op_stack po') then 1 else 0))%nat.
Proof.
  intros H. unfold loaded. simpl.
  pose proof (cnt_insert (fun po => some (op_stack po)) _ _ _ po' H). simpl in *. lia.
Qed.

Lemma loaded_put_same h a o o' :
  objs h !! a = Some o -> val o' = val o -> loaded (put_obj h a o') = loaded h.
Proof.
  intros H E. pose proof (loaded_put_obj h a o o' H) as K. rewrite E in K. lia.
Qed.

Lemma loaded_put_oper_same h p po po' :
  opers h !! p = Some po -> op_stack po' = op_stack po ->
  loaded (put_oper h p po') = loaded h.
Proof.
  intros H E. pose proof (loaded_put_oper h p po po' H) as K. rewrite E in K. lia.
Qed.

Lemma loaded_le h : (loaded h <= length (objs h) + length (opers h))%nat.
Proof.
  unfold loaded.
  pose proof (cnt_le (fun o => payload (val o)) (objs h)).
  pose proof (cnt_le (fun po => some (op_stack po)) (opers h)). lia.
Qed.

Lemma unmarked_le g h : (unmarked g h <= length (objs h))%nat.
Proof. apply cnt_le. Qed.

Lemma unmarked_put g h a o o' :
  objs h !! a = Some o -> recurse o' = recurse o ->
  unmarked g (put_obj h a o') = unmarked g h.
Proof.
  intros H E. unfold unmarked. simpl.
  pose proof (cnt_insert (fun o => bool_decide (recurse o <> g)) _ _ _ o' H) as K.
  simpl in K. rewrite E in K. lia.
Qed.

Lemma unmarked_mark g h a o :
  objs h !! a = Some o -> recurse o <> g ->
  (unmarked g (put_obj h a (set_recurse g o)) + 1 = unmarked g h)%nat.
Proof.
  intros H E. unfold unmarked. simpl.
  pose proof (cnt_insert (fun o => bool_decide (recurse o <> g)) _ _ _
                (set_recurse g o) H) as K.
  simpl in K. rewrite (bool_decide_eq_true_2 _ E) in K.
  rewrite bool_decide_eq_false_2 in K by (intros Hx; apply Hx; reflexivity). lia.
Qed.

Lemma unmarked_frel g h h' : frel h h' -> unmarked g h' = unmarked g h.
Proof.
  intros (L & _ & O & _). apply cnt_same; [exact L |].
  intros i x Hx. destruct (O i x Hx) as (y & Hy & [(_ & _ & R & _) _]).
  exists y. split; [exact Hy | rewrite R; reflexivity].
Qed.

Lemma deref_not_fuel h a : deref h a <> OutOfFuel.
Proof. unfold deref. destruct (objs h !! a) as [o|]; [destruct (freed o) |]; discriminate. Qed.

Lemma oderef_not_fuel h p : oderef h p <> OutOfFuel.
Proof.
  unfold oderef. destruct (opers h !! p) as [o|]; [destruct (op_freed o) |]; discriminate.
Qed.

(** A release that returns, and leaves no more to descend from. *)
Definition fine (r : res Heap) (h : Heap) : Prop :=
  r <> OutOfFuel /\ forall h', r = Ok h' -> (loaded h' <= loaded h)%nat.

Lemma fine_Ok h h' : (loaded h' <= loaded h)%nat -> fine (Ok h') h.
Proof. intros H. split; [discriminate |]. intros h2 E. injection E as <-. exact H. Qed.

Lemma fine_Undef h : fine Undef h.
Proof. split; discriminate. Qed.

Lemma fine_le r h1 h : fine r h1 -> (loaded h1 <= loaded h)%nat -> fine r h.
Proof. intros [A B] L. split; [exact A |]. intros h' E. specialize (B h' E). lia. Qed.

Lemma fine_bind (m : res Heap) (k : Heap -> res Heap) h :
  fine m h -> (forall h1, m = Ok h1 -> fine (k h1) h1) -> fine (m ≫= k) h.
Proof.
  intros [A B] K. destruct m as [h1| |]; simpl.
  - eapply fine_le; [apply K; reflexivity | apply B; reflexivity].
  - exfalso. apply A. reflexivity.
  - apply fine_Undef.
Qed.

Lemma fine_deref h0 h a (k : PyObj -> res Heap) :
  (forall o, deref h a = Ok o -> fine (k o) h0) -> fine (deref h a ≫= k) h0.
Proof.
  intros K. pose proof (deref_not_fuel h a) as N.
  destruct (deref h a) as [o| |]; simpl; [auto | congruence | apply fine_Undef].
Qed.

Lemma fine_oderef h0 h p (k : PyOper -> res Heap) :
  (forall o, oderef h p = Ok o -> fine (k o) h0) -> fine (oderef h p ≫= k) h0.
Proof.
  intros K. pose proof (oderef_not_fuel h p) as N.
  destruct (oderef h p) as [o| |]; simpl; [auto | congruence | apply fine_Undef].
Qed.

Lemma free_each_fine {A} (f : Heap -> A -> res Heap) m l :
  (forall h a, (loaded h < m)%nat -> fine (f h a) h) ->
  forall h, (loaded h < m)%nat -> fine (free_each f h l) h.
Proof.
  intros Hf. induction l as [|x l IH]; intros h Hm; simpl.
  - apply fine_Ok. lia.
  - apply fine_bind; [apply Hf, Hm |]. intros h1 E1. apply IH.
    destruct (Hf h x Hm) as [_ B]. specialize (B h1 E1). lia.
Qed.

Lemma free_opt_fine {A} (f : Heap -> A -> res Heap) m x :
  (forall h a, (loaded h < m)%nat -> fine (f h a) h) ->
  forall h, (loaded h < m)%nat -> fine (free_opt f h x) h.
Proof.
  intros Hf h Hm. destruct x as [a|]; simpl; [apply Hf, Hm | apply fine_Ok; lia].
Qed.

Lemma pyop_free_with_fine f m :
  (forall h a, (loaded h < m)%nat -> fine (f h a) h) ->
  forall h p, (loaded h < m)%nat -> fine (pyop_free_with f h p) h.
Proof.
  intros Hf h p Hm. unfold pyop_free_with. apply fine_oderef. intros po Ep.
  apply oderef_Ok in Ep as [Hp _]. cbv zeta.
  case_bool_decide.
  - set (h1 := put_oper h p _).
    assert (L1 : (loaded h1 <= loaded h)%nat).
    { pose proof (loaded_put_oper h p po
                    (set_op_stack None (set_op_refcnt (op_refcnt po - 1) po)) Hp) as K.
      fold h1 in K. simpl in K. destruct (some (op_stack po)); lia. }
    eapply fine_le; [|exact L1].
    apply fine_bind; [apply (free_each_fine f m); [exact Hf | lia] |].
    intros h2 E2. apply fine_oderef. intros po' Ep'. apply oderef_Ok in Ep' as [Hp' _].
    apply fine_Ok. rewrite (loaded_put_oper_same h2 p po'); [lia | exact Hp' | reflexivity].
  - apply fine_Ok. rewrite (loaded_put_oper_same h p po); [lia | exact Hp | reflexivity].
Qed.

Lemma py_obj_free_internal_fine f m :
  (forall h a, (loaded h < m)%nat -> fine (f h a) h) ->
  forall h a, (loaded h <= m)%nat -> fine (py_obj_free_internal_with f h a) h.
Proof.
  intros Hf h a Hm. unfold py_obj_free_internal_with. apply fine_deref. intros o0 Ed.
  apply deref_Ok in Ed as [Ha _]. cbv zeta.
  set (o := set_varname None o0).
  assert (Put : forall v, (loaded (put_obj h a (set_val v o))
                           + (if payload (val o0) then 1 else 0)
                           = loaded h + (if payload v then 1 else 0))%nat).
  { intros v. exact (loaded_put_obj h a o0 (set_val v o) Ha). }
  assert (Same : loaded (put_obj h a o) = loaded h).
  { apply (loaded_put_same h a o0); [exact Ha | reflexivity]. }
  assert (Leaf : fine (Ok (put_obj h a o)) h) by (apply fine_Ok; lia).
  assert (Str : fine (Ok (put_obj h a (set_val (V_str None) o))) h).
  { apply fine_Ok. pose proof (Put (V_str None)) as K. simpl in K.
    destruct (payload (val o0)); lia. }
  assert (Iter : fine (free_each f (put_obj h a (set_val (V_iter None) o))
                         (default [] (py_iter o))) h).
  { pose proof (Put (V_iter None)) as K. simpl in K.
    unfold py_iter. change (val o) with (val o0).
    destruct (val o0) as [| | | | |[l|]|mo na|l|p] eqn:Ev; simpl in *;
      try (apply fine_Ok; destruct (some _); try destruct (some _); simpl in *; lia);
      try (apply fine_Ok; lia).
    eapply fine_le; [apply (free_each_fine f m); [exact Hf | lia] | lia]. }
  assert (What : fine (free_each (pyop_free_with f) (put_obj h a (set_val (V_what None) o))
                         (default [] (py_what o))) h).
  { pose proof (Put (V_what None)) as K. simpl in K.
    unfold py_what. change (val o) with (val o0).
    destruct (val o0) as [| | | | |l|mo na|[l|]|p] eqn:Ev; simpl in *;
      try (apply fine_Ok; destruct (some _); try destruct (some _); simpl in *; lia);
      try (apply fine_Ok; lia).
    eapply fine_le;
      [apply (free_each_fine (pyop_free_with f) m);
         [apply pyop_free_with_fine, Hf | lia] | lia]. }
  assert (Split : fine (free_opt (pyop_free_with f)
                          (put_obj h a (set_val (V_split None) o)) (reduce o)) h).
  { pose proof (Put (V_split None)) as K. simpl in K.
    unfold reduce. change (val o) with (val o0).
    destruct (val o0) as [| | | | |l|mo na|l|[p|]] eqn:Ev; simpl in *;
      try (apply fine_Ok; destruct (some _); try destruct (some _); simpl in *; lia);
      try (apply fine_Ok; lia).
    eapply fine_le; [apply (pyop_free_with_fine f m); [exact Hf | lia] | lia]. }
  assert (Func : fine (free_opt f (put_obj h a (set_val (V_func None None) o))
                         (py_func_name o)
                       ≫= fun h => free_opt f h (py_func_module o)) h).
  { pose proof (Put (V_func None None)) as K. simpl in K.
    unfold py_func_name, py_func_module. change (val o) with (val o0).
    destruct (val o0) as [| | | | |l|[mo|] [na|]|l|p] eqn:Ev; simpl in *;
      try (apply fine_Ok; destruct (some _); try destruct (some _); simpl in *; lia);
      try (apply fine_Ok; lia).
    - eapply fine_le; [|instantiate (1 := put_obj h a (set_val (V_func None None) o)); lia].
      apply fine_bind; [apply Hf; lia |]. intros h1 E1. apply Hf.
      destruct (Hf (put_obj h a (set_val (V_func None None) o)) na) as [_ B]; [lia |].
      specialize (B h1 E1). lia.
    - eapply fine_le; [apply Hf; lia | lia].
    - eapply fine_le; [|instantiate (1 := put_obj h a (set_val (V_func None None) o)); lia].
      apply fine_bind; [apply Hf; lia |]. intros h1 E1. apply fine_Ok. lia. }
  change (type o) with (type o0).
  destruct (type o0); assumption.
Qed.

Lemma py_obj_free_fine n : forall h a,
  (loaded h < n)%nat -> fine (py_obj_free n h a) h.
Proof.
  induction n as [|n IH]; intros h a Hn; [lia |].
  simpl. apply fine_deref. intros o Ed. apply deref_Ok in Ed as [Ha _]. cbv zeta.
  set (h1 := put_obj h a (set_refcnt (refcnt o - 1) o)).
  assert (L1 : loaded h1 = loaded h).
  { apply (loaded_put_same h a o); [exact Ha | reflexivity]. }
  case_bool_decide; [|apply fine_Ok; lia].
  eapply fine_le; [|instantiate (1 := h1); lia].
  apply fine_bind; [apply (py_obj_free_internal_fine (py_obj_free n) n); [exact IH | lia] |].
  intros h2 E2. apply fine_deref. intros o' Ed'. apply deref_Ok in Ed' as [Ha' _].
  apply fine_Ok. rewrite (loaded_put_same h2 a o'); [lia | exact Ha' | reflexivity].
Qed.

Lemma pyop_free_fine n h p : (loaded h < n)%nat -> fine (pyop_free n h p) h.
Proof. apply pyop_free_with_fine. intros h1 a. apply py_obj_free_fine. Qed.


(** A step of the pass that returns, and leaves no more to descend from and
    no more to mark. *)
Definition fineb (g : Z) (r : res (bool * Heap)) (h : Heap) : Prop :=
  r <> OutOfFuel
  /\ forall b h', r = Ok (b, h') ->
       (loaded h' <= loaded h)%nat /\ (unmarked g h' <= unmarked g h)%nat.

Lemma fineb_Ok g h b h' :
  (loaded h' <= loaded h)%nat -> (unmarked g h' <= unmarked g h)%nat ->
  fineb g (Ok (b, h')) h.
Proof.
  intros H1 H2. split; [discriminate |]. intros b2 h2 E. injection E as <- <-. auto.
Qed.

Lemma fineb_Undef g h : fineb g Undef h.
Proof. split; discriminate. Qed.

Lemma fineb_le g r h1 h :
  fineb g r h1 -> (loaded h1 <= loaded h)%nat -> (unmarked g h1 <= unmarked g h)%nat ->
  fineb g r h.
Proof.
  intros [A B] L U. split; [exact A |]. intros b h' E. destruct (B b h' E). lia.
Qed.

Lemma fineb_bind g (m : res (bool * Heap)) (k : bool * Heap -> res (bool * Heap)) h :
  fineb g m h -> (forall b h1, m = Ok (b, h1) -> fineb g (k (b, h1)) h1) ->
  fineb g (m ≫= k) h.
Proof.
  intros [A B] K. destruct m as [[b h1]| |]; simpl.
  - destruct (B b h1 eq_refl). eapply fineb_le; [apply K; reflexivity | lia | lia].
  - exfalso. apply A. reflexivity.
  - apply fineb_Undef.
Qed.

Lemma fineb_deref g h0 h a (k : PyObj -> res (bool * Heap)) :
  (forall o, deref h a = Ok o -> fineb g (k o) h0) -> fineb g (deref h a ≫= k) h0.
Proof.
  intros K. pose proof (deref_not_fuel h a) as N.
  destruct (deref h a) as [o| |]; simpl; [auto | congruence | apply fineb_Undef].
Qed.

Lemma fineb_oderef g h0 h p (k : PyOper -> res (bool * Heap)) :
  (forall o, oderef h p = Ok o -> fineb g (k o) h0) -> fineb g (oderef h p ≫= k) h0.
Proof.
  intros K. pose proof (oderef_not_fuel h p) as N.
  destruct (oderef h p) as [o| |]; simpl; [auto | congruence | apply fineb_Undef].
Qed.

Lemma split_iter_recures_fine g f m l :
  (forall h x, (unmarked g h + loaded h < m)%nat -> fineb g (f h x) h) ->
  forall h, (unmarked g h + loaded h < m)%nat -> fineb g (split_iter_recures f h l) h.
Proof.
  intros Hf. induction l as [|x l IH]; intros h Hm; simpl.
  - apply fineb_Ok; lia.
  - apply fineb_bind; [apply Hf, Hm |]. intros b h1 E1.
    destruct (Hf h x Hm) as [_ B]. destruct (B b h1 E1).
    destruct b; [apply IH; lia | apply fineb_Ok; lia].
Qed.

Lemma split_what_recures_fine g f m l :
  (forall h x, (unmarked g h + loaded h < m)%nat -> fineb g (f h x) h) ->
  forall h, (unmarked g h + loaded h < m)%nat -> fineb g (split_what_recures f h l) h.
Proof.
  intros Hf. induction l as [|p l IH]; intros h Hm; simpl.
  - apply fineb_Ok; lia.
  - apply fineb_oderef. intros po _.
    apply fineb_bind; [apply (split_iter_recures_fine g f m); [exact Hf | exact Hm] |].
    intros b h1 E1.
    destruct (split_iter_recures_fine g f m (default [] (op_stack po)) Hf h Hm) as [_ B].
    destruct (B b h1 E1).
    destruct b; [apply IH; lia | apply fineb_Ok; lia].
Qed.

Lemma py_iter_payload o l : py_iter o = Some l -> payload (val o) = true.
Proof. unfold py_iter. destruct (val o); try discriminate. intros ->. reflexivity. Qed.

Lemma itter_add_split_fine g n h c s :
  (loaded h < n)%nat -> fineb g (itter_add_split n h c s) h.
Proof.
  intros Hn. unfold itter_add_split. apply fineb_deref. intros co Ed.
  apply deref_Ok in Ed as [Hc _].
  destruct (py_iter co) as [l0|] eqn:El; [|apply fineb_Ok; lia].
  pose proof (py_iter_payload _ _ El) as Pc.
  set (m := match r_list_pop l0 with
            | Some (x, l') =>
                xo ← deref h x;
                if bool_decide (type xo = PY_SPLIT) then
                  py_obj_free n (put_obj h c (set_val (V_iter (Some l')) co)) x
                else Ok h
            | None => Ok h
            end).
  assert (M : m <> OutOfFuel
              /\ forall h1, m = Ok h1 ->
                   (loaded h1 <= loaded h)%nat /\ unmarked g h1 = unmarked g h).
  { unfold m. destruct (r_list_pop l0) as [[x l']|].
    2:{ split; [discriminate |]. intros h1 E. injection E as <-. split; [lia | reflexivity]. }
    pose proof (deref_not_fuel h x) as N.
    destruct (deref h x) as [xo| |]; simpl; [|congruence | split; discriminate].
    case_bool_decide.
    2:{ split; [discriminate |]. intros h1 E. injection E as <-. split; [lia | reflexivity]. }
    set (h0 := put_obj h c (set_val (V_iter (Some l')) co)).
    assert (L0 : loaded h0 = loaded h).
    { pose proof (loaded_put_obj h c co (set_val (V_iter (Some l')) co) Hc) as K.
      fold h0 in K. rewrite Pc in K. simpl in K. lia. }
    assert (U0 : unmarked g h0 = unmarked g h).
    { apply (unmarked_put g h c co); [exact Hc | reflexivity]. }
    destruct (py_obj_free_fine n h0 x) as [A B]; [lia |].
    split; [exact A |]. intros h1 E. specialize (B h1 E).
    pose proof (unmarked_frel g _ _ (py_obj_free_frel _ _ _ _ E)). split; lia. }
  fold m. destruct M as [M1 M2]. destruct m as [h1| |]; simpl;
    [|congruence | apply fineb_Undef].
  destruct (M2 h1 eq_refl) as [L1 U1].
  eapply fineb_le; [|exact L1 | lia].
  unfold iter_push.
  pose proof (deref_not_fuel h1 c) as N.
  destruct (deref h1 c) as [c1| |] eqn:Ed1; simpl; [|congruence | apply fineb_Undef].
  apply deref_Ok in Ed1 as [Hc1 _].
  destruct (py_iter c1) as [l1|] eqn:El1; simpl; [|apply fineb_Ok; lia].
  set (h2 := put_obj h1 c (set_val (V_iter (Some (l1 ++ [s]))) c1)).
  assert (L2 : loaded h2 = loaded h1).
  { pose proof (loaded_put_obj h1 c c1 (set_val (V_iter (Some (l1 ++ [s]))) c1) Hc1) as K.
    fold h2 in K. rewrite (py_iter_payload _ _ El1) in K. simpl in K. lia. }
  assert (U2 : unmarked g h2 = unmarked g h1).
  { apply (unmarked_put g h1 c c1); [exact Hc1 | reflexivity]. }
  unfold incref. pose proof (deref_not_fuel h2 s) as N2.
  destruct (deref h2 s) as [so| |] eqn:Eds; simpl; [|congruence | apply fineb_Undef].
  apply deref_Ok in Eds as [Hs _].
  apply fineb_Ok.
  - rewrite (loaded_put_same h2 s so); [lia | exact Hs | reflexivity].
  - rewrite (unmarked_put g h2 s so); [lia | exact Hs | reflexivity].
Qed.

(** add_splits returns once its fuel is more than the objects that do not
    carry the generation yet and the cells a release would descend from:
    every call that goes on marks one more object. *)
Lemma add_splits_fine g s n : forall h x,
  (unmarked g h + loaded h < n)%nat -> fineb g (add_splits n g h x s) h.
Proof.
  induction n as [|n IH]; intros h x Hn; [lia |].
  simpl. apply fineb_deref. intros o Ed. apply deref_Ok in Ed as [Ha _].
  case_bool_decide as Hg; [apply fineb_Ok; lia |]. cbv zeta.
  set (h1 := put_obj h x (set_recurse g o)).
  pose proof (unmarked_mark g h x o Ha Hg) as U1. fold h1 in U1.
  assert (L1 : loaded h1 = loaded h).
  { apply (loaded_put_same h x o); [exact Ha | reflexivity]. }
  assert (Leaf : fineb g (Ok (true, h1)) h) by (apply fineb_Ok; lia).
  assert (Iter : fineb g
            ('(ok, h) ← split_iter_recures (fun h x => add_splits n g h x s)
                          h1 (default [] (py_iter o));
             if ok : bool then
               o' ← deref h x;
               if bool_decide (type o' = PY_TUPLE) then Ok (true, h)
               else itter_add_split n h x s
             else Ok (false, h)) h).
  { eapply fineb_le; [|instantiate (1 := h1); lia | lia].
    apply fineb_bind.
    { apply (split_iter_recures_fine g _ n); [exact IH | lia]. }
    intros b h2 E2.
    destruct (split_iter_recures_fine g _ n (default [] (py_iter o)) IH h1) as [_ B];
      [lia |].
    destruct (B b h2 E2) as [L2 U2].
    destruct b; [|apply fineb_Ok; lia].
    apply fineb_deref. intros o' _. case_bool_decide; [apply fineb_Ok; lia |].
    apply itter_add_split_fine. lia. }
  assert (What : fineb g
            (split_what_recures (fun h x => add_splits n g h x s)
               h1 (default [] (py_what o))) h).
  { eapply fineb_le; [|instantiate (1 := h1); lia | lia].
    apply (split_what_recures_fine g _ n); [exact IH | lia]. }
  destruct (type o); assumption.
Qed.


(** The size of a heap, as the fuel of the split pass counts it. *)
Definition pass_fuel (h : Heap) : nat :=
  (2 * length (objs h) + length (opers h))%nat.

Lemma pass_fuel_bound g h : (unmarked g h + loaded h <= pass_fuel h)%nat.
Proof.
  unfold pass_fuel. pose proof (unmarked_le g h). pose proof (loaded_le h). lia.
Qed.

Lemma split_reduce_fine fuel pvm pop :
  (pass_fuel (heap pvm) + 2 < fuel)%nat -> split_reduce fuel pvm pop <> OutOfFuel.
Proof.
  intros Hn. unfold split_reduce, alloc_obj.
  set (h0 := mkHeap (objs (heap pvm) ++ [py_obj_new pvm PY_SPLIT]) (opers (heap pvm))).
  pose proof (oderef_not_fuel h0 pop) as N.
  destruct (oderef h0 pop) as [po| |]; simpl; [|congruence | discriminate].
  destruct (last (default [] (op_stack po))) as [obj|]; [|discriminate].
  set (h2 := put_oper _ pop _). cbn [pvm_recurse with_recurse].
  set (g := pvm_recurse pvm + 1).
  assert (S2 : (pass_fuel h2 = pass_fuel (heap pvm) + 2)%nat).
  { unfold pass_fuel, h2, h0. simpl. rewrite !length_insert, length_app. simpl. lia. }
  pose proof (pass_fuel_bound g h2) as B2.
  destruct (add_splits_fine g (length (objs (heap pvm))) fuel h2 obj) as [A B]; [lia |].
  fold h0. fold h2.
  destruct (add_splits fuel g h2 obj (length (objs (heap pvm)))) as [[ret h3]| |];
    simpl; [|congruence | discriminate].
  destruct (B ret h3 eq_refl) as [L3 _].
  destruct (py_obj_free_fine fuel h3 (length (objs (heap pvm)))) as [A4 _]; [lia |].
  destruct (py_obj_free fuel h3 (length (objs (heap pvm)))) as [h4| |];
    simpl; [discriminate | congruence | discriminate].
Qed.

Lemma stack_top_to_what_fine pvm stk :
  stack_top_to_what pvm stk <> OutOfFuel
  /\ forall obj stk' pvm', stack_top_to_what pvm stk = Ok (obj, stk', pvm') ->
       (pass_fuel (heap pvm') <= pass_fuel (heap pvm) + 3)%nat.
Proof.
  unfold stack_top_to_what. destruct (r_list_pop stk) as [[a rest]|].
  2:{ split; [discriminate |]. intros obj stk' pvm' E. injection E as _ _ <-. lia. }
  pose proof (deref_not_fuel (heap pvm) a) as N.
  destruct (deref (heap pvm) a) as [o| |]; simpl; [|congruence | split; discriminate].
  case_bool_decide.
  - split; [discriminate |]. intros obj stk' pvm' E. injection E as _ _ <-. lia.
  - unfold py_what_new, alloc_obj, alloc_oper. simpl.
    split; [discriminate |]. intros obj stk' pvm' E. injection E as _ _ <-.
    unfold pass_fuel. simpl. rewrite !length_app. simpl. lia.
Qed.

(** REDUCE, BUILD and the other opcodes that record an operation return,
    whatever the heap holds, once the fuel is more than twice the objects
    and once the records. *)
Lemma py_what_addop_fine fuel pvm argc o :
  (pass_fuel (heap pvm) + 6 < fuel)%nat -> py_what_addop fuel pvm argc o <> OutOfFuel.
Proof.
  intros Hn. unfold py_what_addop. case_bool_decide; [|discriminate].
  unfold alloc_oper. cbv zeta.
  set (h0 := mkHeap (objs (heap pvm)) (opers (heap pvm) ++ [py_oper_new pvm o false])).
  assert (S0 : (pass_fuel h0 = pass_fuel (heap pvm) + 1)%nat).
  { unfold pass_fuel, h0. simpl. rewrite length_app. simpl. lia. }
  set (pop := length (opers (heap pvm))).
  change (stack (with_heap h0 pvm)) with (stack pvm).
  assert (Cl : forall (k : Heap -> res (bool * PMState)) (p3 : PMState),
            (pass_fuel (heap p3) <= pass_fuel h0 + 3)%nat ->
            (forall h, k h <> OutOfFuel) ->
            (pyop_free fuel (heap p3) pop ≫= k) <> OutOfFuel).
  { intros k p3 B Hk.
    destruct (pyop_free_fine fuel (heap p3) pop) as [A1 _].
    { pose proof (loaded_le (heap p3)). unfold pass_fuel in *. lia. }
    destruct (pyop_free fuel (heap p3) pop); simpl; [apply Hk | congruence | discriminate]. }
  destruct (list_pop_n (stack pvm) argc) as [[rest args]|] eqn:El.
  - set (pvm2 := with_stack rest (with_heap h0 pvm)).
    destruct (stack_top_to_what_fine pvm2 (stack pvm2)) as [A B].
    destruct (stack_top_to_what pvm2 (stack pvm2)) as [[[obj stk] pvm3]| |];
      simpl; [|congruence | discriminate].
    specialize (B obj stk pvm3 eq_refl). change (heap pvm2) with h0 in B.
    destruct obj as [obj|]; [|apply (Cl _ pvm3 B); discriminate].
    unfold what_push.
    pose proof (deref_not_fuel (heap pvm3) obj) as N.
    destruct (deref (heap pvm3) obj) as [wo| |]; simpl; [|congruence | discriminate].
    destruct (py_what wo) as [l|]; simpl; [|apply (Cl _ pvm3 B); discriminate].
    unfold set_pop_stack.
    set (h4 := put_obj (heap pvm3) obj _).
    pose proof (oderef_not_fuel h4 pop) as N4.
    destruct (oderef h4 pop) as [po| |]; simpl; [|congruence | discriminate].
    destruct (is_reduce o); [|discriminate].
    apply split_reduce_fine. cbn [heap with_heap].
    unfold pass_fuel in *. unfold h4. simpl. rewrite !length_insert. lia.
  - set (pvm2 := with_heap h0 pvm).
    destruct (stack_top_to_what_fine pvm2 (stack pvm2)) as [A B].
    destruct (stack_top_to_what pvm2 (stack pvm2)) as [[[obj stk] pvm3]| |];
      simpl; [|congruence | discriminate].
    specialize (B obj stk pvm3 eq_refl). change (heap pvm2) with h0 in B.
    apply (Cl _ pvm3 B); discriminate.
Qed.

End Fuel.

Section Generations.

(** *** The generation counter is ahead of every object *)

(** No object carries a generation above [g]. *)
Definition bounded (g : Z) (h : Heap) : Prop :=
  forall a o, objs h !! a = Some o -> recurse o <= g.

(** pvm->recurse counts the passes of split_reduce from 0, and no object
    carries a generation it has not reached. *)
Definition gen_inv (pvm : PMState) : Prop :=
  0 <= pvm_recurse pvm /\ bounded (pvm_recurse pvm) (heap pvm).

Lemma bounded_mono g g' h : g <= g' -> bounded g h -> bounded g' h.
Proof. intros L B a o H. specialize (B a o H). lia. Qed.

Lemma bounded_put g h a o' :
  bounded g h -> recurse o' <= g -> bounded g (put_obj h a o').
Proof.
  intros B L b ob H. simpl in H. apply list_lookup_insert_Some in H.
  destruct H as [(_ & <- & _) | (_ & H)]; [exact L | exact (B b ob H)].
Qed.

Lemma bounded_alloc g h o :
  bounded g h -> recurse o <= g -> bounded g (mkHeap (objs h ++ [o]) (opers h)).
Proof.
  intros B L b ob H. simpl in H. apply lookup_app_Some in H as [H | [_ H]].
  - exact (B b ob H).
  - destruct (b - length (objs h))%nat; simpl in H; [|discriminate].
    injection H as <-. exact L.
Qed.

Lemma bounded_opers g h ops : bounded g h -> bounded g (mkHeap (objs h) ops).
Proof. intros B b ob H. exact (B b ob H). Qed.

Definition lbounded (g : Z) (l : list PyObj) : Prop :=
  forall a o, l !! a = Some o -> recurse o <= g.

Lemma bounded_mk g l ops : lbounded g l -> bounded g (mkHeap l ops).
Proof. intros B. exact B. Qed.

Lemma bounded_objs g h : bounded g h -> lbounded g (objs h).
Proof. intros B. exact B. Qed.

Lemma lbounded_snoc g l o : lbounded g l -> recurse o <= g -> lbounded g (l ++ [o]).
Proof.
  intros B L b ob H. apply lookup_app_Some in H as [H | [_ H]].
  - exact (B b ob H).
  - destruct (b - length l)%nat; simpl in H; [|discriminate].
    injection H as <-. exact L.
Qed.

Lemma lbounded_insert g l a o :
  lbounded g l -> recurse o <= g -> lbounded g (<[a:=o]> l).
Proof.
  intros B L b ob H. apply list_lookup_insert_Some in H.
  destruct H as [(_ & <- & _) | (_ & H)]; [exact L | exact (B b ob H)].
Qed.

Lemma bounded_put_oper g h p po : bounded g h -> bounded g (put_oper h p po).
Proof. intros B b ob H. exact (B b ob H). Qed.

Lemma bounded_deref g h a o : deref h a = Ok o -> bounded g h -> recurse o <= g.
Proof. intros E B. apply deref_Ok in E as [E _]. exact (B a o E). Qed.

Lemma bounded_frel g h h' : frel h h' -> bounded g h -> bounded g h'.
Proof.
  intros (L & _ & O & _) B a o' H.
  assert (Hlt : (a < length (objs h))%nat) by (rewrite <- L; eapply lookup_lt_Some; eauto).
  destruct (lookup_lt_is_Some_2 _ _ Hlt) as [o Ho].
  destruct (O a o Ho) as (o2 & H2 & [(_ & _ & R & _) _]).
  assert (o2 = o') by congruence. subst o2. rewrite R. exact (B a o Ho).
Qed.

Lemma bounded_free g fuel h a h' :
  py_obj_free fuel h a = Ok h' -> bounded g h -> bounded g h'.
Proof. intros E. apply bounded_frel. exact (py_obj_free_frel _ _ _ _ E). Qed.

Lemma bounded_free_opt g fuel h a h' :
  free_opt (py_obj_free fuel) h a = Ok h' -> bounded g h -> bounded g h'.
Proof.
  intros E. apply bounded_frel.
  exact (free_opt_frel _ (py_obj_free_frel fuel) _ _ _ E).
Qed.

Lemma bounded_free_each g fuel h l h' :
  free_each (py_obj_free fuel) h l = Ok h' -> bounded g h -> bounded g h'.
Proof.
  intros E. apply bounded_frel.
  exact (free_each_frel _ l (py_obj_free_frel fuel) _ _ E).
Qed.

Lemma bounded_free_each_opt g fuel h l h' :
  free_each (free_opt (py_obj_free fuel)) h l = Ok h' -> bounded g h -> bounded g h'.
Proof.
  intros E. apply bounded_frel.
  refine (free_each_frel _ l _ _ _ E). apply free_opt_frel, py_obj_free_frel.
Qed.

Lemma bounded_pyop_free g fuel h p h' :
  pyop_free fuel h p = Ok h' -> bounded g h -> bounded g h'.
Proof. intros E. apply bounded_frel. exact (pyop_free_frel _ _ _ _ E). Qed.


Ltac gnorm :=
  cbn [heap pvm_recurse with_heap with_stack with_metastack with_popstack with_memo
       with_offset with_ver with_recurse with_break_on_stop
       recurse set_val set_refcnt set_varname set_freed set_recurse py_obj_new
       objs opers fst snd] in *.

(** [bounded g H], for [H] built from heaps that are known to be
    [bounded g]. *)
Ltac bsolve0 :=
  gnorm;
  lazymatch goal with
  | H : bounded ?g ?h |- bounded ?g ?h => exact H
  | |- bounded _ (put_obj _ _ _) => apply bounded_put; [bsolve0 | osolve0]
  | |- bounded _ (put_oper _ _ _) => apply bounded_put_oper; bsolve0
  | |- bounded _ (mkHeap (objs _ ++ [_]) (opers _)) =>
      apply bounded_alloc; [bsolve0 | osolve0]
  | |- bounded _ (mkHeap (objs _) _) => apply bounded_opers; bsolve0
  | E : py_obj_free _ _ _ = Ok ?h |- bounded _ ?h =>
      apply (bounded_free _ _ _ _ _ E); bsolve0
  | E : free_opt (py_obj_free _) _ _ = Ok ?h |- bounded _ ?h =>
      apply (bounded_free_opt _ _ _ _ _ E); bsolve0
  | E : free_each (py_obj_free _) _ _ = Ok ?h |- bounded _ ?h =>
      apply (bounded_free_each _ _ _ _ _ E); bsolve0
  | E : free_each (free_opt (py_obj_free _)) _ _ = Ok ?h |- bounded _ ?h =>
      apply (bounded_free_each_opt _ _ _ _ _ E); bsolve0
  | E : pyop_free _ _ _ = Ok ?h |- bounded _ ?h =>
      apply (bounded_pyop_free _ _ _ _ _ E); bsolve0
  end
with osolve0 :=
  gnorm;
  lazymatch goal with
  | H : ?a <= ?g |- ?a <= ?g => exact H
  | E : deref _ _ = Ok ?o |- recurse ?o <= _ =>
      apply (bounded_deref _ _ _ _ E); bsolve0
  | |- _ => lia
  end.

Ltac pair_step :=
  match goal with
  | H : (if ?b then _ else _) = (_, _) |- _ => destruct b eqn:?
  | H : match ?x with _ => _ end = (_, _) |- _ => destruct x eqn:?
  end.

Ltac run_inv := repeat (first [res_step | pair_step]; cbn [mbind res_bind fst snd] in * ).

Lemma incref_bounded g h a h' : incref h a = Ok h' -> bounded g h -> bounded g h'.
Proof. unfold incref. intros H B. run_inv. bsolve0. Qed.

Lemma iter_push_bounded g h c x b h' :
  iter_push h c x = Ok (b, h') -> bounded g h -> bounded g h'.
Proof. unfold iter_push. intros H B. run_inv; bsolve0. Qed.

Lemma what_push_bounded g h c x b h' :
  what_push h c x = Ok (b, h') -> bounded g h -> bounded g h'.
Proof. unfold what_push. intros H B. run_inv; bsolve0. Qed.

Lemma set_pop_stack_bounded g h p l h' :
  set_pop_stack h p l = Ok h' -> bounded g h -> bounded g h'.
Proof. unfold set_pop_stack. intros H B. run_inv. bsolve0. Qed.

Lemma obj_stack_peek_bounded g h stk d r h' :
  obj_stack_peek h stk d = Ok (r, h') -> bounded g h -> bounded g h'.
Proof.
  unfold obj_stack_peek. intros H B. run_inv; try bsolve0.
  eapply incref_bounded; eauto.
Qed.

Lemma ht_up_update_bounded g fuel h m loc obj h' m' :
  ht_up_update fuel h m loc obj = Ok (h', m') -> bounded g h -> bounded g h'.
Proof. unfold ht_up_update. intros H B. run_inv; bsolve0. Qed.


Ltac bsolve :=
  gnorm;
  lazymatch goal with
  | H : bounded ?g ?h |- bounded ?g ?h => exact H
  | |- bounded _ (put_obj _ _ _) => apply bounded_put; [bsolve | osolve]
  | |- bounded _ (put_oper _ _ _) => apply bounded_put_oper; bsolve
  | |- bounded _ (mkHeap _ _) => apply bounded_mk; lsolve
  | E : py_obj_free _ _ _ = Ok ?h |- bounded _ ?h =>
      apply (bounded_free _ _ _ _ _ E); bsolve
  | E : free_opt (py_obj_free _) _ _ = Ok ?h |- bounded _ ?h =>
      apply (bounded_free_opt _ _ _ _ _ E); bsolve
  | E : free_each (py_obj_free _) _ _ = Ok ?h |- bounded _ ?h =>
      apply (bounded_free_each _ _ _ _ _ E); bsolve
  | E : free_each (free_opt (py_obj_free _)) _ _ = Ok ?h |- bounded _ ?h =>
      apply (bounded_free_each_opt _ _ _ _ _ E); bsolve
  | E : pyop_free _ _ _ = Ok ?h |- bounded _ ?h =>
      apply (bounded_pyop_free _ _ _ _ _ E); bsolve
  | E : incref _ _ = Ok ?h |- bounded _ ?h =>
      apply (incref_bounded _ _ _ _ E); bsolve
  | E : iter_push _ _ _ = Ok (_, ?h) |- bounded _ ?h =>
      apply (iter_push_bounded _ _ _ _ _ _ E); bsolve
  | E : what_push _ _ _ = Ok (_, ?h) |- bounded _ ?h =>
      apply (what_push_bounded _ _ _ _ _ _ E); bsolve
  | E : set_pop_stack _ _ _ = Ok ?h |- bounded _ ?h =>
      apply (set_pop_stack_bounded _ _ _ _ _ E); bsolve
  | E : obj_stack_peek _ _ _ = Ok (_, ?h) |- bounded _ ?h =>
      apply (obj_stack_peek_bounded _ _ _ _ _ _ E); bsolve
  | E : ht_up_update _ _ _ _ _ = Ok (?h, _) |- bounded _ ?h =>
      apply (ht_up_update_bounded _ _ _ _ _ _ _ _ E); bsolve
  end
with lsolve :=
  lazymatch goal with
  | |- lbounded _ (objs _) => apply bounded_objs; bsolve
  | |- lbounded _ (_ ++ [_]) => apply lbounded_snoc; [lsolve | osolve]
  | |- lbounded _ (<[_:=_]> _) => apply lbounded_insert; [lsolve | osolve]
  end
with osolve :=
  gnorm;
  lazymatch goal with
  | H : ?a <= ?g |- ?a <= ?g => exact H
  | E : deref _ _ = Ok ?o |- recurse ?o <= _ =>
      apply (bounded_deref _ _ _ _ E); bsolve
  | |- _ => lia
  end.

(** [gen_inv X], for [X] built on a state that is known to be in it. *)
Ltac gsolve :=
  lazymatch goal with
  | H : gen_inv ?p |- gen_inv ?p => exact H
  | |- _ => split; gnorm; [assumption || lia | bsolve]
  end.

Ltac gopen :=
  repeat match goal with
  | H : gen_inv ?p |- _ =>
      lazymatch p with
      | _ _ => fail
      | _ => destruct H
      end
  end.


Create HintDb gendb.

#[local] Hint Extern 0 (gen_inv _) => gsolve : gendb.

(** The states that calls inside a handler returned are in [gen_inv] when
    the state they were called on is. *)
Ltac gfwd :=
  repeat match goal with
  | E : _ = Ok (_, ?q) |- _ =>
      is_var q;
      lazymatch type of q with PMState => idtac | _ => fail end;
      lazymatch goal with
      | _ : bounded (pvm_recurse q) (heap q) |- _ => fail
      | _ => idtac
      end;
      let J := fresh "J" in
      assert (J : gen_inv q) by (solve [eauto 3 with gendb]);
      destruct J
  end.

Ltac gen_by H J := intros H J; gopen; run_inv; gfwd; gsolve.

Lemma itter_add_split_bounded g fuel h c s b h' :
  itter_add_split fuel h c s = Ok (b, h') -> bounded g h -> bounded g h'.
Proof. unfold itter_add_split. intros H B. run_inv; bsolve. Qed.

Lemma split_iter_recures_bounded g f l :
  (forall h x b h', f h x = Ok (b, h') -> bounded g h -> bounded g h') ->
  forall h b h', split_iter_recures f h l = Ok (b, h') -> bounded g h -> bounded g h'.
Proof.
  intros Hf. induction l as [|x l IH]; intros h b h' H B; simpl in H.
  - injection H as <- <-. exact B.
  - apply bind_Ok in H as ([ok h1] & E1 & H). pose proof (Hf _ _ _ _ E1 B) as B1.
    destruct ok; [eapply IH; eauto | injection H as <- <-; exact B1].
Qed.

Lemma split_what_recures_bounded g f l :
  (forall h x b h', f h x = Ok (b, h') -> bounded g h -> bounded g h') ->
  forall h b h', split_what_recures f h l = Ok (b, h') -> bounded g h -> bounded g h'.
Proof.
  intros Hf. induction l as [|p l IH]; intros h b h' H B; simpl in H.
  - injection H as <- <-. exact B.
  - apply bind_Ok in H as (po & _ & H). apply bind_Ok in H as ([ok h1] & E1 & H).
    pose proof (split_iter_recures_bounded g f _ Hf _ _ _ E1 B) as B1.
    destruct ok; [eapply IH; eauto | injection H as <- <-; exact B1].
Qed.

(** The pass writes its own generation and no other. *)
Lemma add_splits_bounded g gen s fuel : forall h x b h',
  gen <= g -> add_splits fuel gen h x s = Ok (b, h') -> bounded g h -> bounded g h'.
Proof.
  induction fuel as [|n IH]; intros h x b h' Hg H B; simpl in H; [discriminate |].
  apply bind_Ok in H as (o & Ed & H).
  case_bool_decide; [injection H as <- <-; exact B |].
  assert (B1 : bounded g (put_obj h x (set_recurse gen o))) by bsolve.
  assert (F : forall h0 x0 b0 h1, add_splits n gen h0 x0 s = Ok (b0, h1) ->
            bounded g h0 -> bounded g h1).
  { intros h0 x0 b0 h1 E0. eapply IH; eauto. }
  assert (Iter :
    ('(ok, h) ← split_iter_recures (fun h x => add_splits n gen h x s)
                  (put_obj h x (set_recurse gen o)) (default [] (py_iter o));
     if ok : bool then
       o' ← deref h x;
       if bool_decide (type o' = PY_TUPLE) then Ok (true, h)
       else itter_add_split n h x s
     else Ok (false, h)) = Ok (b, h') -> bounded g h').
  { intros H1. apply bind_Ok in H1 as ([ok h2] & E2 & H1).
    pose proof (split_iter_recures_bounded g _ _ F _ _ _ E2 B1) as B2.
    destruct ok; [|injection H1 as <- <-; exact B2].
    apply bind_Ok in H1 as (o' & _ & H1).
    case_bool_decide; [injection H1 as <- <-; exact B2 |].
    eapply itter_add_split_bounded; eauto. }
  destruct (type o); try (injection H as <- <-; exact B1); try (apply Iter, H).
  exact (split_what_recures_bounded g _ _ F _ _ _ H B1).
Qed.

(** split_reduce moves the counter on by one and marks with the new
    value. *)
Lemma split_reduce_gen fuel pvm pop r pvm' :
  split_reduce fuel pvm pop = Ok (r, pvm') -> gen_inv pvm -> gen_inv pvm'.
Proof.
  unfold split_reduce, alloc_obj. intros H [J0 J1].
  apply bind_Ok in H as (po & _ & H).
  destruct (last (default [] (op_stack po))) as [obj|].
  - apply bind_Ok in H as ([ret h3] & E3 & H). apply bind_Ok in H as (h4 & E4 & H).
    injection H as <- <-. gnorm.
    assert (J2 : bounded (pvm_recurse pvm + 1) (heap pvm)).
    { apply (bounded_mono (pvm_recurse pvm)); [lia | exact J1]. }
    split; gnorm; [lia |].
    apply (bounded_free _ _ _ _ _ E4).
    eapply add_splits_bounded; [|exact E3 |]; [lia | bsolve].
  - injection H as <- <-. split; gnorm; [lia | bsolve].
Qed.

(** A handler keeps the generations in order. *)
Definition gen_ok {A} (f : PMState -> res (A * PMState)) : Prop :=
  forall pvm r pvm', f pvm = Ok (r, pvm') -> gen_inv pvm -> gen_inv pvm'.

Lemma stack_top_to_what_gen pvm stk r pvm' :
  stack_top_to_what pvm stk = Ok (r, pvm') -> gen_inv pvm -> gen_inv pvm'.
Proof.
  unfold stack_top_to_what, py_what_new, alloc_obj, alloc_oper.
  intros H J. gopen. run_inv; gsolve.
Qed.


#[local] Hint Resolve stack_top_to_what_gen split_reduce_gen : gendb.

Lemma py_what_addop_stack_gen fuel pvm o r pvm' :
  py_what_addop_stack fuel pvm o = Ok (r, pvm') -> gen_inv pvm -> gen_inv pvm'.
Proof. unfold py_what_addop_stack, alloc_oper. gen_by H J. Qed.

Lemma py_what_addop_gen fuel pvm argc o r pvm' :
  py_what_addop fuel pvm argc o = Ok (r, pvm') -> gen_inv pvm -> gen_inv pvm'.
Proof. unfold py_what_addop, alloc_oper. gen_by H J. Qed.


#[local] Hint Resolve py_what_addop_stack_gen py_what_addop_gen : gendb.

Lemma memo_put_gen fuel pvm loc r pvm' :
  memo_put fuel pvm loc = Ok (r, pvm') -> gen_inv pvm -> gen_inv pvm'.
Proof. unfold memo_put. gen_by H J. Qed.

Lemma op_memorize_gen fuel pvm r pvm' :
  op_memorize fuel pvm = Ok (r, pvm') -> gen_inv pvm -> gen_inv pvm'.
Proof. unfold op_memorize. apply memo_put_gen. Qed.

Lemma memo_get_gen pvm loc r pvm' :
  memo_get pvm loc = Ok (r, pvm') -> gen_inv pvm -> gen_inv pvm'.
Proof. unfold memo_get. gen_by H J. Qed.

Lemma op_dup_gen pvm r pvm' :
  op_dup pvm = Ok (r, pvm') -> gen_inv pvm -> gen_inv pvm'.
Proof. unfold op_dup. gen_by H J. Qed.

Lemma empty_memo_gen fuel pvm pvm' :
  empty_memo fuel pvm = Ok pvm' -> gen_inv pvm -> gen_inv pvm'.
Proof. unfold empty_memo. gen_by H J. Qed.

Lemma py_iter_append_mark_gen fuel pvm obj t r pvm' :
  py_iter_append_mark fuel pvm obj t = Ok (r, pvm') -> gen_inv pvm -> gen_inv pvm'.
Proof. unfold py_iter_append_mark. gen_by H J. Qed.

#[local] Hint Resolve memo_put_gen py_iter_append_mark_gen : gendb.

Lemma op_newbool_gen pvm b r pvm' :
  op_newbool pvm b = Ok (r, pvm') -> gen_inv pvm -> gen_inv pvm'.
Proof. unfold op_newbool, alloc_obj. gen_by H J. Qed.

Lemma iter_to_mark_gen fuel pvm t r pvm' :
  iter_to_mark fuel pvm t = Ok (r, pvm') -> gen_inv pvm -> gen_inv pvm'.
Proof. unfold iter_to_mark, py_iter_new, alloc_obj. gen_by H J. Qed.

#[local] Hint Resolve iter_to_mark_gen : gendb.

Lemma op_type_create_append_gen fuel pvm t r pvm' :
  op_type_create_append fuel pvm t = Ok (r, pvm') -> gen_inv pvm -> gen_inv pvm'.
Proof. unfold op_type_create_append. gen_by H J. Qed.

Lemma op_iter_n_gen pvm n t r pvm' :
  op_iter_n pvm n t = Ok (r, pvm') -> gen_inv pvm -> gen_inv pvm'.
Proof. unfold op_iter_n, py_iter_new, alloc_obj. gen_by H J. Qed.

Lemma push_to_stack_iter_gen pvm t obj r pvm' :
  push_to_stack_iter pvm t obj = Ok (r, pvm') -> gen_inv pvm -> gen_inv pvm'.
Proof. unfold push_to_stack_iter. gen_by H J. Qed.

#[local] Hint Resolve push_to_stack_iter_gen : gendb.

Lemma op_append_gen fuel pvm r pvm' :
  op_append fuel pvm = Ok (r, pvm') -> gen_inv pvm -> gen_inv pvm'.
Proof. unfold op_append. gen_by H J. Qed.

Lemma op_appends_gen fuel pvm o t r pvm' :
  op_appends fuel pvm o t = Ok (r, pvm') -> gen_inv pvm -> gen_inv pvm'.
Proof. unfold op_appends. gen_by H J. Qed.

Lemma op_setitem_gen fuel pvm r pvm' :
  op_setitem fuel pvm = Ok (r, pvm') -> gen_inv pvm -> gen_inv pvm'.
Proof. unfold op_setitem. gen_by H J. Qed.

Lemma op_setitems_gen fuel pvm r pvm' :
  op_setitems fuel pvm = Ok (r, pvm') -> gen_inv pvm -> gen_inv pvm'.
Proof. unfold op_setitems. gen_by H J. Qed.

Lemma op_none_gen pvm r pvm' :
  op_none pvm = Ok (r, pvm') -> gen_inv pvm -> gen_inv pvm'.
Proof. unfold op_none, alloc_obj. gen_by H J. Qed.

Lemma push_int_type_gen pvm o r pvm' :
  push_int_type pvm o = Ok (r, pvm') -> gen_inv pvm -> gen_inv pvm'.
Proof. unfold push_int_type, alloc_obj. gen_by H J. Qed.

Lemma op_float_gen fuel pvm o q r pvm' :
  op_float fuel pvm o q = Ok (r, pvm') -> gen_inv pvm -> gen_inv pvm'.
Proof. unfold op_float, alloc_obj. gen_by H J. Qed.

Lemma push_str_gen fuel pvm o r pvm' :
  push_str fuel pvm o = Ok (r, pvm') -> gen_inv pvm -> gen_inv pvm'.
Proof. unfold push_str, alloc_obj. gen_by H J. Qed.

Lemma op_mark_gen pvm r pvm' :
  op_mark pvm = Ok (r, pvm') -> gen_inv pvm -> gen_inv pvm'.
Proof. unfold op_mark. gen_by H J. Qed.

Lemma op_pop_gen pvm r pvm' :
  op_pop pvm = Ok (r, pvm') -> gen_inv pvm -> gen_inv pvm'.
Proof. unfold op_pop. gen_by H J. Qed.

Lemma op_pop_mark_gen pvm r pvm' :
  op_pop_mark pvm = Ok (r, pvm') -> gen_inv pvm -> gen_inv pvm'.
Proof. unfold op_pop_mark. gen_by H J. Qed.

Lemma split_module_str_gen pvm o obj r pvm' :
  split_module_str pvm o obj = Ok (r, pvm') -> gen_inv pvm -> gen_inv pvm'.
Proof. unfold split_module_str, str_to_pystr, alloc_obj. gen_by H J. Qed.

#[local] Hint Resolve split_module_str_gen : gendb.

Lemma glob_obj_gen fuel pvm o r pvm' :
  glob_obj fuel pvm o = Ok (r, pvm') -> gen_inv pvm -> gen_inv pvm'.
Proof. unfold glob_obj, alloc_obj. gen_by H J. Qed.

#[local] Hint Resolve glob_obj_gen : gendb.

Lemma op_global_gen fuel pvm o r pvm' :
  op_global fuel pvm o = Ok (r, pvm') -> gen_inv pvm -> gen_inv pvm'.
Proof. unfold op_global. gen_by H J. Qed.

Lemma op_stack_global_gen pvm o r pvm' :
  op_stack_global pvm o = Ok (r, pvm') -> gen_inv pvm -> gen_inv pvm'.
Proof. unfold op_stack_global, alloc_obj. gen_by H J. Qed.

Lemma insantiate_gen fuel pvm o cls args r pvm' :
  insantiate fuel pvm o cls args = Ok (r, pvm') -> gen_inv pvm -> gen_inv pvm'.
Proof. unfold insantiate. gen_by H J. Qed.

#[local] Hint Resolve insantiate_gen : gendb.

Lemma op_inst_gen fuel pvm o r pvm' :
  op_inst fuel pvm o = Ok (r, pvm') -> gen_inv pvm -> gen_inv pvm'.
Proof. unfold op_inst. gen_by H J. Qed.

Lemma op_obj_gen fuel pvm o r pvm' :
  op_obj fuel pvm o = Ok (r, pvm') -> gen_inv pvm -> gen_inv pvm'.
Proof. unfold op_obj. gen_by H J. Qed.


Lemma exec_op_gen fuel pvm o code r pvm' :
  exec_op fuel pvm o code = Ok (r, pvm') -> gen_inv pvm -> gen_inv pvm'.
Proof.
  intros H J. destruct code; cbn [exec_op] in H;
    try (injection H as <- <-; exact J);
    eauto using op_mark_gen, op_pop_gen, op_pop_mark_gen, op_none_gen,
      push_int_type_gen, op_float_gen, push_str_gen, op_obj_gen, op_inst_gen,
      op_global_gen, op_stack_global_gen, py_what_addop_gen,
      op_type_create_append_gen, op_iter_n_gen, op_append_gen, op_appends_gen,
      op_setitem_gen, op_setitems_gen, op_newbool_gen, op_memorize_gen,
      memo_put_gen, memo_get_gen, op_dup_gen.
  case_bool_decide; injection H as <- <-; [exact J |].
  destruct J. split; assumption.
Qed.

Lemma gen_inv_start c : gen_inv (start_state c).
Proof.
  unfold start_state, init_machine_state. case_bool_decide; simpl.
  all: split; simpl; [lia |]; intros a o Ha; simpl in Ha; rewrite lookup_nil in Ha;
    discriminate.
Qed.

(** Between two instructions of a run the counter is ahead of, or at, the
    generation of every object. *)
Lemma reachable_gen pvm : reachable pvm -> gen_inv pvm.
Proof.
  induction 1 as [c | fuel pvm o code b pvm' _ IH E | pvm z _ IH | fuel pvm pvm' _ IH E].
  - apply gen_inv_start.
  - exact (exec_op_gen _ _ _ _ _ _ E IH).
  - destruct IH. split; assumption.
  - exact (empty_memo_gen _ _ _ E IH).
Qed.

End Generations.

(** REDUCE that succeeds went through split_reduce, on a heap that differs
    from the one before by the new record and by the What at the top of the
    stack. *)
Lemma py_what_addop_reduce fuel pvm rest f arg pvm' :
  stack pvm = rest ++ [f; arg] ->
  py_what_addop fuel pvm 1 OP_REDUCE = Ok (true, pvm') ->
  exists pvm5,
    split_reduce fuel pvm5 (length (opers (heap pvm))) = Ok (true, pvm')
    /\ pvm_recurse pvm5 = pvm_recurse pvm
    /\ (exists po, oderef (heap pvm5) (length (opers (heap pvm))) = Ok po
          /\ op po = OP_REDUCE /\ op_stack po = Some [arg])
    /\ (length (objs (heap pvm)) <= length (objs (heap pvm5)))%nat
    /\ (forall a o, objs (heap pvm) !! a = Some o ->
          exists o5, objs (heap pvm5) !! a = Some o5 /\ type o5 = type o
            /\ recurse o5 = recurse o /\ (type o <> PY_WHAT -> o5 = o))
    /\ (forall a o5, objs (heap pvm5) !! a = Some o5 ->
          (length (objs (heap pvm)) <= a)%nat -> type o5 = PY_WHAT /\ recurse o5 = 0).
Proof.
  intros Hs H. unfold py_what_addop in H.
  rewrite bool_decide_eq_true_2 in H by lia.
  unfold alloc_oper in H. cbv zeta in H.
  set (P := py_oper_new pvm OP_REDUCE false) in *.
  set (pop := length (opers (heap pvm))) in *.
  set (h0 := mkHeap (objs (heap pvm)) (opers (heap pvm) ++ [P])) in *.
  change (stack (with_heap h0 pvm)) with (stack pvm) in H.
  replace (stack pvm) with ((rest ++ [f]) ++ [arg]) in H
    by (rewrite Hs, <- app_assoc; reflexivity).
  change 1 with (Z.of_nat (length [arg])) in H. rewrite list_pop_n_app in H.
  rewrite bool_decide_eq_false_2 in H by (destruct rest; discriminate).
  cbn [stack with_stack] in H.
  unfold stack_top_to_what in H. rewrite r_list_pop_snoc in H.
  cbn [heap with_stack with_heap] in H.
  apply bind_Ok in H as ([[obj stk] pvm3] & E3 & H).
  apply bind_Ok in E3 as (fo & Ef & E3).
  assert (Hpop0 : opers h0 !! pop = Some P).
  { unfold h0, pop. simpl. rewrite lookup_app_r by lia. rewrite Nat.sub_diag. reflexivity. }
  assert (Old0 : forall p po0, opers (heap pvm) !! p = Some po0 -> opers h0 !! p = Some po0).
  { intros p po0 Hp. unfold h0. simpl. apply lookup_app_l_Some. exact Hp. }
  case_bool_decide as Hw.
  - (* the callable is a What already *)
    injection E3 as <- <- <-.
    cbn [heap with_stack with_heap] in H.
    apply bind_Ok in H as ([ok h4] & E4 & H).
    unfold what_push in E4. rewrite Ef in E4. cbn [mbind res_bind] in E4.
    destruct (py_what fo) as [l|] eqn:El; injection E4 as <- <-.
    2:{ apply bind_Ok in H as (hx & _ & H). discriminate. }
    apply bind_Ok in H as (h5 & E5 & H).
    unfold set_pop_stack in E5.
    set (h4 := put_obj h0 f (set_val (V_what (Some (l ++ [pop]))) fo)) in *.
    assert (Ep : oderef h4 pop = Ok P).
    { apply oderef_Ok. split; [exact Hpop0 | reflexivity]. }
    rewrite Ep in E5. cbn [mbind res_bind] in E5. injection E5 as <-.
    cbn [is_reduce] in H.
    eexists. split; [exact H |]. cbn [heap with_heap with_stack pvm_recurse].
    apply deref_Ok in Ef as [Hf Hlive]. change (objs (heap pvm) !! f = Some fo) in Hf.
    split; [reflexivity |]. split.
    { eexists. split; [apply oderef_Ok; split;
        [simpl; apply list_lookup_insert_eq; rewrite length_app; simpl; lia | reflexivity]
        | split; reflexivity]. }
    split; [simpl; rewrite length_insert; lia |]. split.
    + intros a o Ha. simpl. destruct (decide (a = f)) as [-> | Hne].
      * assert (o = fo) by congruence. subst o.
        eexists. split; [apply list_lookup_insert_eq; eapply lookup_lt_Some; eauto |].
        split_and!; try reflexivity. intros Hx. contradiction.
      * exists o. rewrite list_lookup_insert_ne by (intros Hx; apply Hne; symmetry; exact Hx).
        auto.
    + intros a o5 Ha Hge. simpl in Ha.
      apply lookup_lt_Some in Ha. rewrite length_insert in Ha. lia.
  - (* the callable becomes a What *)
    unfold py_what_new, alloc_obj, alloc_oper in E3. cbn [heap with_heap objs opers] in E3.
    injection E3 as <- <- <-.
    cbn [heap with_stack with_heap] in H.
    set (w := length (objs (heap pvm))) in *.
    match type of H with context [what_push ?h _ _] => set (h3 := h) in * end.
    apply bind_Ok in H as ([ok h4] & E4 & H).
    unfold what_push in E4.
    assert (exists W l, deref h3 w = Ok W /\ py_what W = Some l
                        /\ type W = PY_WHAT /\ recurse W = 0)
      as (W & l & Ew & El & Wt & Wr).
    { eexists _, _. split; [apply deref_Ok; split;
        [unfold h3, w; simpl; rewrite lookup_app_r by lia; rewrite Nat.sub_diag;
         reflexivity | reflexivity] |].
      split_and!; reflexivity. }
    rewrite Ew in E4. cbn [mbind res_bind] in E4. rewrite El in E4.
    injection E4 as <- <-.
    apply bind_Ok in H as (h5 & E5 & H).
    unfold set_pop_stack in E5.
    set (h4 := put_obj h3 w _) in *.
    assert (Ep : oderef h4 pop = Ok P).
    { apply oderef_Ok. split; [|reflexivity]. unfold h4, h3. simpl.
      apply lookup_app_l_Some. exact Hpop0. }
    rewrite Ep in E5. cbn [mbind res_bind] in E5. injection E5 as <-.
    cbn [is_reduce] in H.
    eexists. split; [exact H |]. cbn [heap with_heap with_stack pvm_recurse].
    split; [reflexivity |]. split.
    { eexists. split; [apply oderef_Ok; split;
        [simpl; apply list_lookup_insert_eq; rewrite !length_app; simpl; lia | reflexivity]
        | split; reflexivity]. }
    split; [simpl; rewrite length_insert, length_app; simpl; lia |]. split.
    + intros a o Ha. simpl. exists o. split; [|auto].
      assert (a <> w) by (apply lookup_lt_Some in Ha; unfold w; lia).
      rewrite list_lookup_insert_ne by (intros Hx; congruence).
      apply lookup_app_l_Some. exact Ha.
    + intros a o5 Ha Hge. simpl in Ha.
      assert (a = w).
      { apply lookup_lt_Some in Ha. rewrite length_insert, length_app in Ha.
        simpl in Ha. unfold w. lia. }
      subst a. rewrite list_lookup_insert_eq in Ha
        by (rewrite length_app; simpl; unfold w; lia).
      injection Ha as <-. split; [exact Wt | exact Wr].
Qed.


(** None, EMPTY_LIST, MEMOIZE, BINGET 0, APPEND, TUPLE1: the stack holds None
    and a tuple of the list that holds itself. *)
Definition list_of_itself : list Insn :=
  [insn OP_NONE 0 "none"; insn OP_EMPTY_LIST 0 "empty_list";
   insn OP_MEMOIZE 0 "memoize"; insn OP_BINGET 0 "binget 0x0";
   insn OP_APPEND 0 "append"; insn OP_TUPLE1 0 "tuple1"].

Definition list_of_itself_state : PMState :=
  Eval vm_compute in
    match run_pvm 16 (start_state (host list_of_itself)) list_of_itself with
    | Ok (_, s) => s
    | _ => zero_state
    end.

Lemma list_of_itself_run :
  run_pvm 16 (start_state (host list_of_itself)) (io (host list_of_itself))
  = Ok (true, list_of_itself_state).
Proof. vm_compute. reflexivity. Qed.

Definition list_of_itself_reduced : PMState :=
  Eval vm_compute in
    match exec_op 13 list_of_itself_state (plain_op 0 "reduce") OP_REDUCE with
    | Ok (_, s) => s
    | _ => zero_state
    end.

Lemma list_of_itself_reduce :
  exec_op 13 list_of_itself_state (plain_op 0 "reduce") OP_REDUCE
  = Ok (true, list_of_itself_reduced).
Proof. vm_compute. reflexivity. Qed.

Lemma list_of_itself_stack : stack list_of_itself_state = [] ++ [0%nat; 2%nat].
Proof. vm_compute. reflexivity. Qed.

Lemma list_of_itself_fuel : (pass_fuel (heap list_of_itself_state) + 6 < 13)%nat.
Proof. vm_compute. lia. Qed.

(** The list held itself, and now holds itself and the Split. *)
Lemma list_of_itself_list :
  deref (heap list_of_itself_state) 1
  = Ok (mkPyObj PY_LIST 1 UT64_MAX 1 None 0 (V_iter (Some [1%nat])) false)
  /\ deref (heap list_of_itself_reduced) 1
     = Ok (mkPyObj PY_LIST 1 UT64_MAX 1 None 1 (V_iter (Some [1%nat; 4%nat])) false).
Proof. split; vm_compute; reflexivity. Qed.

